(* ===== verification/_CoqProject ===== *)
-Q . S2P
Prelude.v
Go.v
Api.v
Env.v
Images.v
Utils.v
UtilsSpec.v
Supervisor.v
Builders.v
Base64.v
Repositories.v
Healthy.v
CmdUtils.v
Install.v
InstallCommands.v
InstallProtocol.v
PluginUtil.v
RepositoryClaims.v
SnapshotUtils.v
DataMover.v
SnapshotManager.v
ItemActions.v
ItemNames.v
ItemProtocol.v
GenericController.v
UploadController.v
UploadProtocol.v
UploadRetry.v
PatchServer.v
Threads.v
UploadSystem.v
DownloadController.v
DownloadProtocol.v
DownloadSystem.v
BackupDriver.v
BackupDriverSync.v
VcConfigController.v
BackupDriverProtocol.v
UploadQueue.v
SnapshotDecode.v
SnapshotProtocol.v
RestoreSystem.v
UploadTypes.v
Paravirt.v
ParavirtProtocol.v
Instance.v
SnapshotSystem.v
UploadRuns.v
SnapshotRuns.v
DownloadCompletion.v
DownloadRuns.v
RestoreLoss.v
RestoreRuns.v
DownloadLiveness.v
UploadLiveness.v
GuestRuns.v
ItemRuns.v
VSphere.v
VSphereSpec.v
Disks.v
IvdProtocol.v
IvdCopies.v
IvdRuns.v
Construction.v
ConstructionSpec.v
IvdAstrolabe.v
IvdComposition.v
UploadOnDisks.v
DownloadOnDisks.v
DiskRuns.v
Servers.v
RunSystem.v
ServersSpec.v
ServersRuns.v
Commands.v
