(* ===== verification/Prelude.v ===== *)
(** * velero-plugin-for-vsphere: a Rocq model of its controllers

    The plugin backs volumes of Kubernetes clusters on vSphere up through
    Velero.  A backup driver (pkg/backupdriver) takes local snapshots for
    Snapshot records and restores and deletes them; a data manager
    (pkg/controller, pkg/dataMover) uploads local snapshots to an object store
    for Upload records and downloads them for Download records; the snapshot
    manager (pkg/snapshotmgr), used by both, drives astrolabe, the library that
    talks to the volumes, and creates the Upload and Download records; astrolabe
    reaches the disks of vSphere through the type manager of pkg/ivd, on the
    connections of pkg/common/vsphere; the
    repositories the records name are claimed and created by
    pkg/backuprepository.  In a guest cluster, which has no volumes of its own,
    pkg/paravirt creates the corresponding records in the supervisor cluster
    and waits for them with pkg/snapshotUtils.

    ** How the code is modelled

    A Go function that calls the world outside it is a program of type [prog]
    (this file), an interaction tree of finite height over the calls [Cmd] of
    [Env]: requests to API servers, informer caches, work queues, leases, the
    clock, the process environment, the data mover's mutex and map, and
    astrolabe.  An answer is arbitrary unless a theorem's monitor rules it out.
    A panic ([Panic]) and a wait for ever ([Hang]) are ways for a program to end;
    [defer] runs its clean-up on return and on panic.  Functions without
    calls are Rocq functions.  Log calls are left out.

    [safe mon p Q s] (this file) is the program logic of the development:
    whatever the answers to its calls, [p] makes no call the monitor [mon]
    rejects, and ends, if the environment lets it, as [Q] says.  A monitor is
    the abstract state machine of a contract; its rules are the theorem.
    Programs are well-founded trees and have no fuel of their own, except
    where the code loops: [poll_loop] runs as often as the environment's
    answer to [PollTicks] says that the ticker fires before the timeout (so a
    theorem holds for every number), [poll_forever] as often as [PollForever]
    says, after which it waits for ever, [runWorker] as often as its argument
    says, and the recursive decoders of snapshot IDs get the length of the
    text as fuel; [SnapshotDecode.decodeSnapshotID_total] proves that this is
    enough.

    Code outside the repository is a parameter: the class [Deps] of [Env] holds
    the types and pure functions of astrolabe, client-go and go-version, and
    [Cmd] the effectful ones; [VDeps] and [VCmd] of [VSphere] are those of the
    vSphere SDKs, [IDeps], [UDeps] and [ICmd] of [Install] those of an installation; [SCmd] of
    [Construction] joins [Cmd] and [VCmd], with goroutines, wait groups and caches; [SDeps]
    and [IvdEntities] ([IvdAstrolabe]) are the embeddings of the repository's own type
    managers and entities into astrolabe's interfaces, with their laws.  The wait functions of apimachinery follow their
    documentation, with the number of ticks left to the environment.  Go's
    own strings, strconv and base64 are defined in [Go] and [Base64].

    ** The files

    - [Prelude]: errors, programs and their notations, the program logic
      [safe], the class [calls_only] of programs by the calls they make, with
      its tactics [calls_step], [calls_tac] and the hint database [calls].
    - [Go]: int32, durations, strings, strconv.
    - [Api]: the custom resources of pkg/apis and the Kubernetes objects the
      code reads; [r <| f := v |>] assigns to a field.
    - [Env]: the parameters [Deps], the calls [Cmd], the wait functions.
    - [Images]: image names and versions (pkg/utils, pkg/cmd).
    - [Utils]: pkg/utils/utils.go.
    - [Builders]: pkg/builder, one Module per builder.
    - [Base64]: Go's base64.RawStdEncoding and StdEncoding, with
      their round trips.
    - [Repositories]: pkg/backuprepository;
      [RepositoryClaims] proves the protocol of claims and that creating a
      repository is idempotent.
    - [UtilsSpec]: what the lookups of pkg/utils find: the cluster flavour, the
      storage location, the node of a volume, the watched secret.
    - [Supervisor]: the other half of pkg/utils, by which a guest cluster finds its
      supervisor, and the log level of the disk library.
    - [CmdUtils]: pkg/cmd/utils.go, what the installers check and write, with
      the tables of blocked resources.
    - [Install]: pkg/install, the objects of an installation, their creation and the waits
      for them; [InstallCommands] the two install commands (pkg/cmd/*/cli/install), one
      Module each; [InstallProtocol] what an installation writes and waits for.
    - [SnapshotUtils]: pkg/snapshotUtils, which creates records in a supervisor
      cluster and waits for their phases, with its contracts.
    - [PluginUtil] and [ItemActions]: pkg/plugin, what Velero calls for each item of a
      backup, a restore and a deletion, and the volume snapshotter; [ItemNames]
      the names of resources, the block lists and the annotation that carries a Snapshot,
      [ItemProtocol] the contracts of a backup and a restore, [ItemRuns] a backup
      and a restore run one after the other.
    - [DataMover]: pkg/dataMover, its mutex and its map of uploads.
    - [SnapshotManager]: pkg/snapshotmgr; [SnapshotDecode] the theorems on
      snapshot IDs, [SnapshotProtocol] those on deletion and restore.
    - [GenericController]: the worker of generic_controller.go.
    - [UploadController]: upload_controller.go; [UploadProtocol] the contract
      of [processUpload], [UploadRetry] retries, back-off and cancellation,
      [UploadQueue] the worker, the lease and the informer's handler.
    - [PatchServer]: an API server that applies merge patches, and what a
      repeated patch does to its record.
    - [Threads]: any number of goroutines interleaved call by call over a shared state, as
      a step relation; disciplines, by which invariants of reachable states are proved, and
      schedules, by which states are reached.
    - [UploadSystem]: its instance for one Upload (the record, the local snapshot, the
      repository, the map of uploads) with its invariant; [UploadTypes] the
      well-formedness of the record in the same relation; [UploadRuns] runs of it.
    - [SnapshotSystem]: the same with the Snapshot that the Upload refers to and the driver's
      goroutines that carry its phase over, and what the phase of a Snapshot then says
      about its data; [SnapshotRuns] runs of it, one of which loses the data.
    - [Healthy]: clusters on which the set-up of a repository succeeds, as a class of
      monitors; [UploadLiveness] an upload gets done on one that recovers.
    - [DownloadSystem]: the instance of [Threads] for one Download and the volumes made of
      it, with its invariant; [DownloadRuns] runs of it, [DownloadLiveness] the end of every
      download on a healthy cluster.
    - [RestoreSystem]: the instance for all Downloads and CloneFromSnapshots of a server, any
      number of restores and the nodes that process their Downloads; [RestoreRuns] runs of it.
    - [DownloadController] and [DownloadProtocol]: download_controller.go and
      the contract of [processDownload].
    - [BackupDriver] and [BackupDriverSync]: the operations and the queues of
      pkg/backupdriver; [BackupDriverProtocol] their contracts.
    - [VcConfigController]: vc_config_controller.go.
    - [Paravirt]: pkg/paravirt, the entities of guest clusters;
      [ParavirtProtocol] the stages of a restore, [GuestRuns] a run of it.
    - [VSphere]: pkg/common/vsphere, connections to vCenter and the VSLM and CNS
      managers, whose methods all are [invoke]; [VSphereSpec] their contracts.
    - [Disks]: pkg/ivd, in one Module [Ivd]: the type manager, the disks and
      the choice of datastores, over a [world] of the VirtualCenters allocated
      and the manager; [IvdProtocol] snapshots, deletions and reloads,
      [IvdCopies] copies, [IvdRuns] concrete runs with vCenter.
    - [Construction]: the constructors of the snapshot manager, the data mover and the
      guest's type manager, and Init of the volume snapshotter; [ConstructionSpec] what
      they register and which vCenter they configure.
    - [Servers]: Run of the generic controller, the events and the Run of the backup driver,
      and the two servers (pkg/cmd/*/cli/server), one Module each; [ServersSpec] their life
      cycle, and the vCenter of the data manager.
    - [IvdAstrolabe]: pkg/ivd as the astrolabe that the snapshot manager calls: [on_ivd]
      runs a program of the snapshot manager, answering its calls with those of [Ivd];
      [IvdComposition] how many snapshots such a run takes or deletes, [UploadOnDisks] what
      an upload asks of vCenter, as a refinement of [UploadProtocol], [DownloadOnDisks] what
      a download does to disks; [DiskRuns] an instance, with runs of an upload and a download,
      and [ServersRuns] a run of a server.
    - [Commands]: cmd and pkg/cmd, the flags of the commands, how their processes end, and what
      the plugin registers.
    - [Instance]: a concrete instance of [Deps], on which the witnesses of the
      theorems with hypotheses are evaluated.

    A definition has the name of the Go function it translates, unless that
    name is taken ([createSnapshotCR] and [deleteSnapshotCR] are the driver's
    createSnapshot and deleteSnapshot, [DeleteSnapshotOf] is the snapshot
    manager's DeleteSnapshot); helpers without a Go name carry a comment with
    the part of the function they stand for ([doUpload], [uploadFailed] and
    [uploadCopied] are the stages of processUpload).

    ** What the theorems show

    - Contracts of the long-running operations, as monitors: [processUpload],
      [processDownload], the driver's createSnapshot, deleteSnapshot,
      CreateVolumeFromSnapshot, the syncs of the snapshot and upload queues.
      Each says in which order the calls may come, which objects may be
      written with which contents, and what a nil result means.
    - Concurrency: the lock discipline of the data mover, the lease around
      the processing of an Upload, one [Done] per key a worker takes, the
      order between the phase [Canceling] and the cancel function.
    - Retries: the back-off, its record, the maximum, and what a repeated
      patch sends.
    - Data: snapshot IDs decode to what was encoded at any depth and name the
      Upload that was created; image names parse and print; the map of
      supervisor snapshots keeps its invariant.
    - Items: which records a backup and a restore of an item ask for, and when
      they may; what the block lists reach; the round trips of the annotation and
      of self links.
    - Systems: [UploadSystem.upload_system_invariant] is about every reachable
      state of any number of goroutines that process and cancel one Upload,
      interleaved call by call, with requests that fail with or without an
      effect; [UploadTypes.upload_type_invariant] is about the same states,
      [SnapshotSystem.snapshot_system_invariant] about those with its Snapshot, and
      [DownloadSystem.download_system_invariant] about those of a Download, and
      [RestoreSystem.restore_system_invariant] about those of restores with the Downloads that
      they create: the invariant of each Download there is that of [DownloadSystem].  Deletions
      of finished records are left out of it, the processes have Velero's namespace in their
      environment, and others write any phase of a clone but [Completed], as the code does.
      [UploadLiveness.upload_completes] and [DownloadLiveness.download_ends] are about the
      tries of one goroutine on a cluster on which a number of copies fail: the
      end comes within the maximum of retries.  [PatchServer] runs the patch against a server.
    - Disks: when a task is tried again, when a method is, and that its loop of two
      attempts ends; what a connection leaves; which labels, datastores and bytes a
      copy gets.
    - Stages: a restore in a guest cluster refines a machine of stages.
    - Composition: [IvdComposition.createSnapshot_on_ivd] and
      [IvdComposition.deleteSnapshotFromRepo_on_ivd] put the retries of the snapshot manager
      and those of pkg/ivd together, from a call of the backup driver to the tasks of vCenter;
      [UploadOnDisks.processUpload_on_ivd] carries the protocol of uploads over to pkg/ivd
      ([IvdAstrolabe.safe_on_ivd_refines]);
      [DownloadOnDisks.processDownload_on_ivd] follows a download through the data mover and
      pkg/ivd, down to the disks that are opened.
    - Start and stop: what a constructor registers and in which order, the one vCenter of a
      data manager, the workers of a controller and the wait for them, the queues that
      events reach, what an installation creates and when it reports success.
    - Theorems that record behaviour the authors did not intend: a repeated
      patch that omits the phase, a failed copy that stays registered, a
      cancelled upload that keeps its snapshot, kinds that no block list reaches, clones that are repeated, an
      upload recorded complete whose data was never copied, a downloaded volume that no
      record names, a download completed and then tried again, a Download carried
      out for nobody, a restore that reports success without a volume, a manager that never connects again
      after a failed change of configuration, bytes left in a buffer, an installation that
      cannot see its resource definitions get ready.

    ** What is not modelled

    Logging; the parsing of command lines, the rate limits of clients and the
    profiler's pages (pkg/cmd); the main functions that only call cobra or astrolabe (cmd);
    generated code (the clients and
    informers it makes are calls, and the manifests of the resource definitions a parameter).
    On pkg/ivd an upload's copy stays one call: astrolabe's S3 type manager, which is not in the
    repository, reads the disk from inside it.
    Only the instances of [Threads] interleave goroutines: elsewhere the calls of other
    threads are answers of the environment, and a theorem's monitor sees one
    thread. *)

From stdpp Require Export base gmap strings pretty list fin_maps.
From Stdlib Require Export ZArith Lia.

(** ** Go errors *)

(** What the third-party predicates [apierrors.IsNotFound],
    [apierrors.IsAlreadyExists] and [errors.Is(_, context.Canceled)] answer on
    an error made outside this repository, and its [Error()] text. *)
Record ext_error := ExtError {
  ext_msg : string;
  ext_not_found : bool;
  ext_already_exists : bool;
  ext_canceled : bool;
}.

(** A Go [error] value: made by the repository ([errors.New], [errors.Wrap],
    [errors.WithStack]) or received from a library. *)
Inductive error :=
| External (x : ext_error)
| ErrorString (msg : string)
| Wrap (e : error) (msg : string)
| WithStack (e : error)
| ErrWaitTimeout
| NotFoundError (errMsg : string)
| ClientConfigNotFoundError (errMsg : string).

Fixpoint Error (e : error) : string :=
  match e with
  | External x => ext_msg x
  | ErrorString msg => msg
  | Wrap e msg => msg +:+ ": " +:+ Error e
  | WithStack e => Error e
  | ErrWaitTimeout => "timed out waiting for the condition"
  | NotFoundError msg => msg
  | ClientConfigNotFoundError msg => msg
  end.

Fixpoint IsNotFound (e : error) : bool :=
  match e with
  | External x => ext_not_found x
  | Wrap e _ | WithStack e => IsNotFound e
  | _ => false
  end.

Fixpoint IsAlreadyExists (e : error) : bool :=
  match e with
  | External x => ext_already_exists x
  | Wrap e _ | WithStack e => IsAlreadyExists e
  | _ => false
  end.

Fixpoint IsCanceled (e : error) : bool :=
  match e with
  | External x => ext_canceled x
  | Wrap e _ | WithStack e => IsCanceled e
  | _ => false
  end.

(** A Go [(T, error)] result whose value is not read when the error is set. *)
Inductive result (A : Type) :=
| Ok (a : A)
| Err (e : error).
Arguments Ok {A} a.
Arguments Err {A} e.

Definition err_of {A} (r : result A) : option error :=
  match r with Ok _ => None | Err e => Some e end.

(** ** Effectful Go code as interaction programs *)

(** A program over a signature [E] of calls to the world outside it (the
    Kubernetes API server, astrolabe, clocks, queues, shared memory).
    [Do e k] makes the call [e] and goes on with its answer; [Panic] is a Go
    run-time panic; [Hang] a goroutine that waits for ever. *)
Inductive prog (E : Type → Type) (A : Type) : Type :=
| Ret (a : A)
| Panic (why : string)
| Hang (why : string)
| Do {X : Type} (e : E X) (k : X → prog E A).
Arguments Ret {E A} a.
Arguments Panic {E A} why.
Arguments Hang {E A} why.
Arguments Do {E A X} e k.

Fixpoint bind {E A B} (p : prog E A) (f : A → prog E B) : prog E B :=
  match p with
  | Ret a => f a
  | Panic w => Panic w
  | Hang w => Hang w
  | Do e k => Do e (λ x, bind (k x) f)
  end.

Definition call {E A} (e : E A) : prog E A := Do e Ret.

Declare Scope prog_scope.
Delimit Scope prog_scope with prog.
Bind Scope prog_scope with prog.
Open Scope prog_scope.

Notation "'let!' x := p 'in' q" := (bind p (λ x, q))
  (at level 10, x pattern at level 0, p at level 200, q at level 200) : prog_scope.
Notation "p ;;; q" := (bind p (λ _, q))
  (at level 100, q at level 200, right associativity) : prog_scope.
(** [x, err := p; if err != nil { h }; q] *)
Notation "'let?' x := p 'else' e => h 'in' q" :=
  (bind p (λ r, match r with Ok x => q | Err e => h end))
  (at level 10, x pattern at level 0, e name, p at level 200,
   h at level 200, q at level 200)
  : prog_scope.
(** [if err := p; err != nil { h }; q] *)
Notation "'check!' p 'else' e => h 'in' q" :=
  (bind p (λ r, match r with None => q | Some e => h end))
  (at level 10, e name, p at level 200, h at level 200, q at level 200) : prog_scope.

(** [defer d; p]: [d] runs when [p] returns and when it panics. *)
Fixpoint defer {E A} (d : prog E unit) (p : prog E A) : prog E A :=
  match p with
  | Ret a => bind d (λ _, Ret a)
  | Panic w => bind d (λ _, Panic w)
  | Hang w => Hang w
  | Do e k => Do e (λ x, defer d (k x))
  end.

(** ** How a program can end, and running one *)

Inductive outcome (A : Type) :=
| Returned (a : A)
| Panicked (why : string)
| Hung (why : string).
Arguments Returned {A} a.
Arguments Panicked {A} why.
Arguments Hung {A} why.

(** A handler answers every call and updates the world [S]. *)
Definition handler (E : Type → Type) (S : Type) := ∀ X, E X → S → X * S.

Fixpoint run {E S A} (h : handler E S) (p : prog E A) (s : S) : outcome A * S :=
  match p with
  | Ret a => (Returned a, s)
  | Panic w => (Panicked w, s)
  | Hang w => (Hung w, s)
  | Do e k => let '(x, s') := h _ e s in run h (k x) s'
  end.

(** ** A program logic over all environments *)

(** A monitor watches the calls of a program together with the answers it
    got.  [Next s] accepts the call and moves to [s]; [Violation] rejects it;
    [Impossible] says that the answer cannot occur, an assumption about the
    environment. *)
Inductive verdict (S : Type) :=
| Next (s : S)
| Violation
| Impossible.
Arguments Next {S} s.
Arguments Violation {S}.
Arguments Impossible {S}.

Definition monitor (E : Type → Type) (S : Type) := S → ∀ X, E X → X → verdict S.

(** [safe mon p Q s]: whatever the answers to its calls, [p] started in the
    monitor state [s] makes no call the monitor rejects, and if it ends, its
    outcome and the monitor's last state satisfy [Q]. *)
Fixpoint safe {E S A} (mon : monitor E S) (p : prog E A)
    (Q : outcome A → S → Prop) (s : S) : Prop :=
  match p with
  | Ret a => Q (Returned a) s
  | Panic w => Q (Panicked w) s
  | Hang w => Q (Hung w) s
  | Do e k => ∀ x,
      match mon s _ e x with
      | Next s' => safe mon (k x) Q s'
      | Violation => False
      | Impossible => True
      end
  end.

(** What [bind] does with the outcome of its first half. *)
Definition then_outcome {E S A B} (mon : monitor E S) (f : A → prog E B)
    (Q : outcome B → S → Prop) (o : outcome A) (s : S) : Prop :=
  match o with
  | Returned a => safe mon (f a) Q s
  | Panicked w => Q (Panicked w) s
  | Hung w => Q (Hung w) s
  end.

Section safe.
Context {E : Type → Type} {S : Type} (mon : monitor E S).

Lemma safe_mono {A} (p : prog E A) (Q R : outcome A → S → Prop) s :
  safe mon p Q s → (∀ o s', Q o s' → R o s') → safe mon p R s.
Proof.
  intros H HQR. revert s H.
  induction p as [a|w|w|X e k IH]; cbn; intros s H; auto.
  intros x. specialize (H x). destruct (mon s X e x); eauto.
Qed.

Lemma safe_bind {A B} (p : prog E A) (f : A → prog E B) Q s :
  safe mon p (then_outcome mon f Q) s → safe mon (bind p f) Q s.
Proof.
  revert s. induction p as [a|w|w|X e k IH]; cbn; intros s H; auto.
  intros x. specialize (H x). destruct (mon s X e x); eauto.
Qed.

Lemma safe_bind_inv {A B} (p : prog E A) (f : A → prog E B) Q s :
  safe mon (bind p f) Q s → safe mon p (then_outcome mon f Q) s.
Proof.
  revert s. induction p as [a|w|w|X e k IH]; cbn; intros s H; auto.
  intros x. specialize (H x). destruct (mon s X e x); eauto.
Qed.

(** Sequencing with a specification of the first half. *)
Lemma safe_seq {A B} (p : prog E A) (f : A → prog E B) Q R s :
  safe mon p R s →
  (∀ a s', R (Returned a) s' → safe mon (f a) Q s') →
  (∀ w s', R (Panicked w) s' → Q (Panicked w) s') →
  (∀ w s', R (Hung w) s' → Q (Hung w) s') →
  safe mon (bind p f) Q s.
Proof.
  intros Hp Hr Hpa Hh. apply safe_bind. eapply safe_mono; [exact Hp|].
  intros [a|w|w] s' H; cbn; auto.
Qed.

Lemma safe_conj {A} (p : prog E A) (Q R : outcome A → S → Prop) s :
  safe mon p Q s → safe mon p R s → safe mon p (λ o s', Q o s' ∧ R o s') s.
Proof.
  revert s. induction p as [a|w|w|X e k IH]; cbn; intros s H1 H2; auto.
  intros x. specialize (H1 x); specialize (H2 x).
  destruct (mon s X e x); eauto.
Qed.

Lemma safe_defer {A} (d : prog E unit) (p : prog E A) Q s :
  safe mon p (λ o s', match o with
    | Returned a => safe mon (bind d (λ _, Ret a)) Q s'
    | Panicked w => safe mon (bind d (λ _, Panic w)) Q s'
    | Hung w => Q (Hung w) s'
    end) s →
  safe mon (defer d p) Q s.
Proof.
  revert s. induction p as [a|w|w|X e k IH]; cbn; intros s H; auto.
  intros x. specialize (H x). destruct (mon s X e x); eauto.
Qed.

(** A run with a handler the monitor follows ends as [safe] says. *)
Lemma safe_run {A} (h : handler E S) (p : prog E A) Q s :
  (∀ s X (e : E X), mon s X e (h X e s).1 = Next (h X e s).2) →
  safe mon p Q s → let '(o, s') := run h p s in Q o s'.
Proof.
  intros Hh. revert s.
  induction p as [a|w|w|X e k IH]; cbn; intros s H; auto.
  specialize (H (h X e s).1). rewrite Hh in H.
  destruct (h X e s) as [x s'] eqn:He; cbn in H. by apply IH.
Qed.

(** The same for a handler that only keeps to the answers the monitor does not
    rule out. *)
Definition keeps (h : handler E S) : Prop :=
  ∀ s X (e : E X), match mon s X e (h X e s).1 with
                   | Next s' => (h X e s).2 = s'
                   | Violation => True
                   | Impossible => False
                   end.

Lemma safe_keeps {A} (h : handler E S) (p : prog E A) Q s :
  keeps h → safe mon p Q s → Q (run h p s).1 (run h p s).2.
Proof.
  intros Hh. revert s. induction p as [a|w|w|X e k IH]; cbn; intros s Hp; [done..|].
  specialize (Hp (h X e s).1). specialize (Hh s X e). destruct (h X e s) as [x s']. cbn in Hp, Hh.
  destruct (mon s X e x); subst; [by apply IH|done..].
Qed.
End safe.

Lemma run_bind {E S A B} (h : handler E S) (p : prog E A) (f : A → prog E B) s :
  run h (bind p f) s =
  match run h p s with
  | (Returned a, s') => run h (f a) s'
  | (Panicked w, s') => (Panicked w, s')
  | (Hung w, s') => (Hung w, s')
  end.
Proof.
  revert s. induction p as [a|w|w|X e k IH]; intros s; cbn; auto.
  destruct (h X e s) as [x s']. apply IH.
Qed.

(** [bind] is associative up to pointwise equality of continuations, which is
    all [safe] and [run] see. *)
Lemma safe_bind_bind {E S A B C} (mon : monitor E S) (p : prog E A)
    (f : A → prog E B) (g : B → prog E C) Q s :
  safe mon (bind p (λ a, bind (f a) g)) Q s ↔ safe mon (bind (bind p f) g) Q s.
Proof.
  revert s. induction p as [a|w|w|X e k IH]; intros s; cbn; auto.
  split; intros H x; specialize (H x); destruct (mon s X e x); auto;
    by apply IH.
Qed.

(** ** The calls of a run, with their answers *)

Inductive event (E : Type → Type) := Ev X (e : E X) (x : X).
Arguments Ev {E X} e x.

(** A run of the program makes the calls [tr] and ends with [o]. *)
Fixpoint traced {E A} (p : prog E A) (tr : list (event E)) (o : outcome A) : Prop :=
  match p with
  | Ret a => tr = [] ∧ o = Returned a
  | Panic w => tr = [] ∧ o = Panicked w
  | Hang w => tr = [] ∧ o = Hung w
  | Do e k => ∃ x tr', tr = Ev e x :: tr' ∧ traced (k x) tr' o
  end.

(** What follows a run that ended with [o]. *)
Definition traced_after {E A B} (f : A → prog E B) (o : outcome A) (tr : list (event E)) (o' : outcome B) : Prop :=
  match o with
  | Returned a => traced (f a) tr o'
  | Panicked w => tr = [] ∧ o' = Panicked w
  | Hung w => tr = [] ∧ o' = Hung w
  end.

Lemma traced_bind {E A B} (p : prog E A) (f : A → prog E B) tr o :
  traced (bind p f) tr o → ∃ tr1 o1 tr2, tr = tr1 ++ tr2 ∧ traced p tr1 o1 ∧ traced_after f o1 tr2 o.
Proof.
  revert tr. induction p as [a|w|w|X e k IH]; cbn; intros tr Ht.
  - by exists [], (Returned a), tr.
  - by exists [], (Panicked w), tr.
  - by exists [], (Hung w), tr.
  - destruct Ht as (x & tr' & -> & Ht). apply IH in Ht as (tr1 & o1 & tr2 & -> & Hp & Hf).
    exists (Ev e x :: tr1), o1, tr2. eauto 10.
Qed.

(** A deferred program runs after a return and after a panic. *)
Lemma traced_defer {E A} (d : prog E unit) (p : prog E A) tr o :
  traced (defer d p) tr o → ∃ tr1 o1 tr2, tr = tr1 ++ tr2 ∧ traced p tr1 o1 ∧
    match o1 with
    | Returned a => traced (bind d (λ _, Ret a)) tr2 o
    | Panicked w => traced (bind d (λ _, Panic w)) tr2 o
    | Hung w => tr2 = [] ∧ o = Hung w
    end.
Proof.
  revert tr. induction p as [a|w|w|X e k IH]; cbn; intros tr Ht.
  - by exists [], (Returned a), tr.
  - by exists [], (Panicked w), tr.
  - by exists [], (Hung w), tr.
  - destruct Ht as (x & tr' & -> & Ht). apply IH in Ht as (tr1 & o1 & tr2 & -> & Hp & Hf).
    exists (Ev e x :: tr1), o1, tr2. eauto 10.
Qed.

(** ** wait.PollImmediate *)

Inductive poll_step (R : Type) :=
| PollAgain               (* return false, nil *)
| PollDone (r : R)        (* return true, nil *)
| PollFail (e : error).   (* return false, err *)
Arguments PollAgain {R}.
Arguments PollDone {R} r.
Arguments PollFail {R} e.

(** The condition [cond] threads the variables [st] its closure captures.  It
    is tried once and then at each of the [ticks] that come before the
    timeout. *)
Fixpoint poll_loop {E St R} (ticks : nat) (cond : St → prog E (St * poll_step R))
    (st : St) : prog E (St * result R) :=
  let! (st', r) := cond st in
  match r with
  | PollDone x => Ret (st', Ok x)
  | PollFail e => Ret (st', Err e)
  | PollAgain =>
      match ticks with
      | O => Ret (st', Err ErrWaitTimeout)
      | S n => poll_loop n cond st'
      end
  end.

(** *** Programs that make only calls of a given class, and never hang *)

Fixpoint calls_only {E A} (C : ∀ X, E X → bool) (p : prog E A) : Prop :=
  match p with
  | Ret _ | Panic _ => True
  | Hang _ => False
  | Do e k => C _ e = true ∧ ∀ x, calls_only C (k x)
  end.

Section calls_only.
Context {E : Type → Type} (C : ∀ X, E X → bool).

Lemma calls_only_bind {A B} (p : prog E A) (f : A → prog E B) :
  calls_only C p → (∀ a, calls_only C (f a)) → calls_only C (bind p f).
Proof.
  induction p as [a|w|w|X e k IH]; cbn; auto.
  intros [HC Hk] Hf. split; auto.
Qed.

Lemma calls_only_call {X} (e : E X) : C X e = true → calls_only C (call e).
Proof. intros H. by split. Qed.

(** A monitor that ignores the class is where it was after the program. *)
Lemma safe_calls_only {S A} (mon : monitor E S) (p : prog E A) s :
  (∀ s X (e : E X) x, C X e = true → mon s X e x = Next s) →
  calls_only C p → safe mon p (λ o s', match o with Hung _ => False | _ => s' = s end) s.
Proof.
  intros Hm. induction p as [a|w|w|X e k IH]; cbn; auto.
  intros [HC Hk] x. rewrite Hm by done. auto.
Qed.

(** The same for a monitor that may rule out answers. *)
Lemma safe_calls_only' {S A} (mon : monitor E S) (p : prog E A) s :
  (∀ X (e : E X) x, C X e = true → mon s X e x = Next s ∨ mon s X e x = Impossible) →
  calls_only C p → safe mon p (λ o s', match o with Hung _ => False | _ => s' = s end) s.
Proof.
  intros Hm. induction p as [a|w|w|X e k IH]; cbn; auto.
  intros [HC Hk] x. destruct (Hm _ e x HC) as [-> | ->]; auto.
Qed.

(** One that ignores the class in the state in which it is. *)
Lemma safe_calls_stay {S A} (mon : monitor E S) (p : prog E A) s :
  (∀ X (e : E X) x, C X e = true → mon s X e x = Next s) →
  calls_only C p → safe mon p (λ o s', match o with Hung _ => False | _ => s' = s end) s.
Proof.
  intros Hm. induction p as [a|w|w|X e k IH]; cbn; auto.
  intros [HC Hk] x. rewrite Hm by done. auto.
Qed.

(** One that keeps an invariant on the class. *)
Lemma safe_calls_keep {S A} (mon : monitor E S) (I : S → Prop) (p : prog E A) s :
  (∀ s X (e : E X) x, I s → C X e = true →
     match mon s X e x with Next s' => I s' | Violation => False | Impossible => True end) →
  I s → calls_only C p → safe mon p (λ o s', I s' ∧ match o with Hung _ => False | _ => True end) s.
Proof.
  intros Hm. revert s. induction p as [a|w|w|X e k IH]; cbn; intros s Hs; [done..|by intros []|].
  - intros [HC Hk] x. specialize (Hm s X e x Hs HC). destruct (mon s X e x); auto.
Qed.

(** The calls of its runs are of the class, and none waits for ever. *)
Lemma traced_calls {A} (p : prog E A) tr o :
  calls_only C p → traced p tr o →
  Forall (λ ev, match ev with Ev e _ => C _ e = true end) tr ∧ match o with Hung _ => False | _ => True end.
Proof.
  revert tr. induction p as [a|w|w|X e k IH]; cbn; intros tr Hp; [by intros [-> ->]|by intros [-> ->]|done|].
  intros (x & tr' & -> & Ht). destruct Hp as [HC Hp]. destruct (IH x tr' (Hp x) Ht). by split; [constructor|].
Qed.

Lemma calls_only_mono (D : ∀ X, E X → bool) {A} (p : prog E A) :
  (∀ X (e : E X), C X e = true → D X e = true) →
  calls_only C p → calls_only D p.
Proof.
  intros HCD. induction p as [a|w|w|X e k IH]; cbn; auto.
  intros [HC Hk]. split; auto.
Qed.

Lemma calls_only_defer {A} (d : prog E unit) (p : prog E A) :
  calls_only C d → calls_only C p → calls_only C (defer d p).
Proof.
  intros Hd. induction p as [a|w|w|X e k IH]; cbn; auto.
  - intros _. apply calls_only_bind; cbn; auto.
  - intros _. apply calls_only_bind; cbn; auto.
  - intros [HC Hk]. split; auto.
Qed.

Lemma calls_only_poll {St R} (cond : St → prog E (St * poll_step R)) n st :
  (∀ st, calls_only C (cond st)) → calls_only C (poll_loop n cond st).
Proof.
  intros Hc. revert st. induction n as [|n IH]; intros st; cbn;
    (apply calls_only_bind; [apply Hc|]); intros [st' [|x|e]]; cbn; auto.
Qed.
End calls_only.

(** *** Programs that make only calls of a given class, but may wait for ever *)

Fixpoint calls_within {E A} (C : ∀ X, E X → bool) (p : prog E A) : Prop :=
  match p with
  | Ret _ | Panic _ | Hang _ => True
  | Do e k => C _ e = true ∧ ∀ x, calls_within C (k x)
  end.

Section calls_within.
Context {E : Type → Type} (C : ∀ X, E X → bool).

Lemma calls_within_bind {A B} (p : prog E A) (f : A → prog E B) :
  calls_within C p → (∀ a, calls_within C (f a)) → calls_within C (bind p f).
Proof.
  induction p as [a|w|w|X e k IH]; cbn; auto.
  intros [HC Hk] Hf. split; auto.
Qed.

Lemma calls_within_only (D : ∀ X, E X → bool) {A} (p : prog E A) :
  (∀ X (e : E X), D X e = true → C X e = true) → calls_only D p → calls_within C p.
Proof.
  intros HDC. induction p as [a|w|w|X e k IH]; cbn; auto.
  intros [HD Hk]. split; auto.
Qed.

(** An invariant of the monitor's states that the calls of the class preserve. *)
Lemma safe_calls_within {S A} (mon : monitor E S) (I : S → Prop) (p : prog E A) s :
  (∀ s X (e : E X) x, I s → C X e = true →
     match mon s X e x with Next s' => I s' | Violation => False | Impossible => True end) →
  calls_within C p → I s → safe mon p (λ _ s', I s') s.
Proof.
  intros Hm. revert s. induction p as [a|w|w|X e k IH]; cbn; auto.
  intros s [HC Hk] HI x. specialize (Hm s X e x HI HC). destruct (mon s X e x); auto.
Qed.
End calls_within.

(** A monitor follows another when a relation of their states carries every
    call that the other accepts over: what is safe for the other is safe for it. *)
Lemma safe_follows {E S T A} (R : S → T → Prop) (mon : monitor E S) (mon' : monitor E T)
    (p : prog E A) Q s t :
  (∀ s t X (e : E X) x, R s t →
     match mon s X e x with
     | Next s' => ∃ t', mon' t X e x = Next t' ∧ R s' t'
     | Violation => True
     | Impossible => mon' t X e x = Impossible
     end) →
  R s t → safe mon p Q s → safe mon' p (λ o t', ∃ s', R s' t' ∧ Q o s') t.
Proof.
  intros Hs. revert s t. induction p as [a|w|w|X e k IH]; cbn; intros s t HR Hp; [eauto..|].
  intros x. specialize (Hs s t X e x HR). specialize (Hp x).
  destruct (mon s X e x) as [s'| |]; [|done|by rewrite Hs].
  destruct Hs as (t' & -> & HR'). eauto.
Qed.

(** Proves [calls_only C p] by walking through [p]; the specifications of the
    callees are in the database [calls]. *)
Create HintDb calls.

Ltac calls_step :=
  match goal with
  | |- calls_only _ (bind _ _) => apply calls_only_bind; [|intros ?]
  | |- calls_only _ (defer _ _) => apply calls_only_defer
  | |- calls_only _ (match ?x with _ => _ end) => destruct x
  | |- calls_only _ (let _ := _ in _) => cbv zeta
  | |- calls_only _ (poll_loop _ _ _) => apply calls_only_poll; intros ?
  | |- calls_only _ (Ret _) => exact I
  | |- calls_only _ (Panic _) => exact I
  | |- calls_only _ (call _) => apply calls_only_call; reflexivity
  | |- calls_only _ (Do _ _) => split; [reflexivity|intros ?]
  | |- calls_only _ (if _ then _ else _) => case_match
  end.
Ltac calls_tac := repeat (first [solve [auto with calls nocore] | calls_step]).


(** The outcome of a program that neither panics nor waits for ever. *)
Definition returns {A} (P : A → Prop) (o : outcome A) : Prop :=
  match o with Returned a => P a | _ => False end.

Section poll.
Context {E : Type → Type} {S St R : Type} (mon : monitor E S).
Context (cond : St → prog E (St * poll_step R)).

(** The rule for polling: an invariant of the captured variables and the
    monitor state that every unfinished try preserves. *)
Lemma safe_poll_loop (I : St → S → Prop) (Q : outcome (St * result R) → S → Prop)
    ticks st s :
  I st s →
  (∀ st s, I st s → safe mon (cond st) (λ o s',
      match o with
      | Returned (st', PollDone x) => Q (Returned (st', Ok x)) s'
      | Returned (st', PollFail e) => Q (Returned (st', Err e)) s'
      | Returned (st', PollAgain) =>
          I st' s' ∧ Q (Returned (st', Err ErrWaitTimeout)) s'
      | Panicked w => Q (Panicked w) s'
      | Hung w => Q (Hung w) s'
      end) s) →
  safe mon (poll_loop ticks cond st) Q s.
Proof.
  intros HI Hc. revert st s HI.
  induction ticks as [|n IH]; intros st s HI; cbn; apply safe_bind;
    (eapply safe_mono; [exact (Hc st s HI)|]);
    intros [[st' [|x|e]]|w|w] s' H; cbn; auto; destruct H; auto.
Qed.

(** The same with the number of tries that are left. *)
Lemma safe_poll_count (I : nat → St → S → Prop) (Q : outcome (St * result R) → S → Prop)
    ticks st s :
  I (1 + ticks)%nat st s →
  (∀ n st s, I (1 + n)%nat st s → safe mon (cond st) (λ o s',
      match o with
      | Returned (st', PollDone x) => Q (Returned (st', Ok x)) s'
      | Returned (st', PollFail e) => Q (Returned (st', Err e)) s'
      | Returned (st', PollAgain) =>
          I n st' s' ∧ (n = O → Q (Returned (st', Err ErrWaitTimeout)) s')
      | Panicked w => Q (Panicked w) s'
      | Hung w => Q (Hung w) s'
      end) s) →
  safe mon (poll_loop ticks cond st) Q s.
Proof.
  intros HI Hc. revert st s HI.
  induction ticks as [|n IH]; intros st s HI; cbn; apply safe_bind;
    (eapply safe_mono; [exact (Hc _ st s HI)|]);
    intros [[st' [|x|e]]|w|w] s' H; cbn; auto; destruct H; auto.
Qed.
End poll.
