(* ===== verification/Go.v ===== *)
(** * The parts of Go and its standard library the code uses

    Fixed-width integers, [strings], [strconv], [encoding/base64] and [time],
    on the fragment the repository calls.  Strings are sequences of bytes, as
    in Go. *)

From S2P Require Export Prelude.
From Stdlib Require Export Ascii.
Open Scope Z_scope.

#[local] Arguments String.append (s1 s2)%_string_scope : simpl nomatch.

(** ** Integers *)

Definition int32 (z : Z) : Z := (z + 2^31) mod 2^32 - 2^31.
Definition int64 (z : Z) : Z := (z + 2^63) mod 2^64 - 2^63.

Lemma int32_range z : - 2^31 ≤ int32 z < 2^31.
Proof. unfold int32. pose proof (Z.mod_pos_bound (z + 2^31) (2^32)). lia. Qed.

Lemma int32_id z : - 2^31 ≤ z < 2^31 → int32 z = z.
Proof. intros H. unfold int32. rewrite Z.mod_small; lia. Qed.

(** ** time *)

(** Instants and durations in nanoseconds. *)
Definition Second : Z := 1000000000.
Definition Minute : Z := 60 * Second.
Definition Hour : Z := 60 * Minute.

(** [t.Unix()] *)
Definition Unix (t : Z) : Z := t / Second.

(** [t.After(u)] *)
Definition After (t u : Z) : bool := bool_decide (u < t).

(** ** strings *)

Fixpoint has_prefix (p s : string) : bool :=
  match p, s with
  | EmptyString, _ => true
  | String a p, String b s => bool_decide (a = b) && has_prefix p s
  | _, _ => false
  end.

Fixpoint Contains (s sub : string) : bool :=
  has_prefix sub s ||
  match s with
  | EmptyString => false
  | String _ s => Contains s sub
  end.

Fixpoint str_rev (s acc : string) : string :=
  match s with
  | EmptyString => acc
  | String a s => str_rev s (String a acc)
  end.

(** [strings.Split(s, sep)] for a one-byte separator: [acc] is the current
    piece, reversed. *)
Fixpoint split_aux (sep : ascii) (s acc : string) : list string :=
  match s with
  | EmptyString => [str_rev acc ""]
  | String a s =>
      if bool_decide (a = sep) then str_rev acc "" :: split_aux sep s ""
      else split_aux sep s (String a acc)
  end.

Definition Split (s : string) (sep : ascii) : list string := split_aux sep s "".

(** The inverse, [strings.Join]. *)
Fixpoint Join (l : list string) (sep : string) : string :=
  match l with
  | [] => ""
  | [s] => s
  | s :: l => s +:+ sep +:+ Join l sep
  end.

(** [strings.SplitN(s, sep, 2)] for a one-byte separator. *)
Fixpoint cut (sep : ascii) (s : string) : option (string * string) :=
  match s with
  | EmptyString => None
  | String a s =>
      if bool_decide (a = sep) then Some (EmptyString, s)
      else match cut sep s with
           | Some (l, r) => Some (String a l, r)
           | None => None
           end
  end.

Definition SplitN2 (s : string) (sep : ascii) : list string :=
  match cut sep s with
  | Some (l, r) => [l; r]
  | None => [s]
  end.

(** [strings.LastIndex(s, sep)] as the split it is used for: what is before
    and after the last separator. *)
Fixpoint cut_last (sep : ascii) (s : string) : option (string * string) :=
  match s with
  | EmptyString => None
  | String a s =>
      match cut_last sep s with
      | Some (l, r) => Some (String a l, r)
      | None => if bool_decide (a = sep) then Some (EmptyString, s) else None
      end
  end.

(** Whether a byte occurs in a string. *)
Fixpoint has_byte (c : ascii) (s : string) : bool :=
  match s with
  | EmptyString => false
  | String a s => bool_decide (a = c) || has_byte c s
  end.

(** [strings.HasSuffix(s, suf)] *)
Definition HasSuffix (s suf : string) : bool := has_prefix (str_rev suf "") (str_rev s "").

(** [strings.ToLower] on ASCII strings, as the names of Kubernetes kinds are. *)
Definition lower (a : ascii) : ascii :=
  let n := nat_of_ascii a in
  if Nat.leb 65 n && Nat.leb n 90 then ascii_of_nat (n + 32) else a.

Fixpoint ToLower (s : string) : string :=
  match s with
  | EmptyString => EmptyString
  | String a s => String (lower a) (ToLower s)
  end.

(** [s[0:len(s)-1]] *)
Fixpoint drop_last (s : string) : string :=
  match s with
  | EmptyString | String _ EmptyString => EmptyString
  | String a s => String a (drop_last s)
  end.

Lemma str_app_assoc (a b c : string) : (a +:+ b) +:+ c = a +:+ (b +:+ c).
Proof. induction a as [|x a IH]; cbn; [done|]. by f_equal. Qed.

Lemma str_app_nil_r (a : string) : a +:+ "" = a.
Proof. induction a as [|x a IH]; cbn; [done|]. by f_equal. Qed.

Lemma str_rev_app s acc : str_rev s acc = str_rev s "" +:+ acc.
Proof.
  revert acc. induction s as [|a s IH]; intros acc; cbn; [done|].
  rewrite (IH (String a acc)), (IH (String a "")), str_app_assoc. done.
Qed.

Lemma has_byte_app c s t : has_byte c (s +:+ t) = has_byte c s || has_byte c t.
Proof.
  induction s as [|a s IH]; cbn; [done|]. rewrite IH. by rewrite orb_assoc.
Qed.

Lemma cut_spec sep s l r :
  cut sep s = Some (l, r) ↔ s = l +:+ String sep r ∧ has_byte sep l = false.
Proof.
  revert l r. induction s as [|a s IH]; intros l r; cbn.
  { split; [done|]. intros [H _]. by destruct l. }
  destruct (bool_decide (a = sep)) eqn:Ha.
  - apply bool_decide_eq_true in Ha as ->. split.
    + by intros [= <- <-].
    + intros [H Hl]. destruct l as [|b l]; cbn in *; [by simplify_eq|].
      injection H as <- _. by rewrite bool_decide_true in Hl.
  - apply bool_decide_eq_false in Ha. split.
    + destruct (cut sep s) as [[l' r']|] eqn:Hc; [|done]. intros [= <- <-].
      destruct (proj1 (IH l' r') eq_refl) as [-> Hl]. cbn. split; [done|].
      by rewrite bool_decide_false.
    + intros [H Hl]. destruct l as [|b l]; cbn in *; [by simplify_eq|].
      injection H as <- ->. rewrite bool_decide_false in Hl by done.
      cbn in Hl. by rewrite (proj2 (IH l r) (conj eq_refl Hl)).
Qed.

Lemma cut_none sep s : cut sep s = None ↔ has_byte sep s = false.
Proof.
  induction s as [|a s IH]; cbn; [done|].
  destruct (bool_decide (a = sep)); cbn; [done|].
  destruct (cut sep s) as [[l r]|].
  - split; [done|]. intros H. by apply IH in H.
  - split; [|done]. intros _. by apply IH.
Qed.

Lemma cut_last_spec sep s l r :
  cut_last sep s = Some (l, r) ↔ s = l +:+ String sep r ∧ has_byte sep r = false.
Proof.
  assert (Hnone : ∀ s, cut_last sep s = None ↔ has_byte sep s = false).
  { clear. induction s as [|a s IH]; cbn; [done|].
    destruct (cut_last sep s) as [[l r]|].
    - split; [done|]. intros [_ H]%orb_false_elim. by apply IH in H.
    - destruct (bool_decide (a = sep)); cbn; [done|].
      split; [|done]. intros _. by apply IH. }
  revert l r. induction s as [|a s IH]; intros l r; cbn.
  { split; [done|]. intros [H _]. by destruct l. }
  destruct (cut_last sep s) as [[l' r']|] eqn:Hc.
  - destruct (proj1 (IH l' r') eq_refl) as [Hs Hr']. split.
    + intros [= <- <-]. by rewrite Hs.
    + intros [H Hr]. destruct l as [|b l]; cbn in *.
      * injection H as -> ->. rewrite Hs, has_byte_app in Hr. cbn in Hr.
        rewrite bool_decide_true in Hr by done.
        by rewrite orb_true_r in Hr.
      * injection H as <- H. assert (Some (l', r') = Some (l, r)) as [= -> ->].
        { by apply IH. }
        done.
  - destruct (bool_decide (a = sep)) eqn:Ha.
    + apply bool_decide_eq_true in Ha as ->. split.
      * intros [= <- <-]. split; [done|]. by apply Hnone.
      * intros [H Hr]. destruct l as [|b l]; cbn in *; [by simplify_eq|].
        injection H as <- H. assert (None = Some (l, r)) by by apply IH. done.
    + split; [done|]. intros [H Hr]. destruct l as [|b l]; cbn in *.
      * injection H as -> ->. by rewrite bool_decide_true in Ha.
      * injection H as <- H. assert (None = Some (l, r)) by by apply IH. done.
Qed.

Lemma split_aux_no_sep sep s acc :
  has_byte sep s = false → split_aux sep s acc = [str_rev acc "" +:+ s].
Proof.
  revert acc. induction s as [|a s IH]; intros acc; cbn.
  { by rewrite str_app_nil_r. }
  intros [Ha Hs]%orb_false_elim. rewrite Ha.
  rewrite IH by done. cbn. by rewrite str_rev_app, str_app_assoc.
Qed.

Lemma split_aux_sep sep s t acc :
  has_byte sep s = false →
  split_aux sep (s +:+ String sep t) acc = (str_rev acc "" +:+ s) :: Split t sep.
Proof.
  revert acc. induction s as [|a s IH]; intros acc; cbn.
  { intros _. rewrite bool_decide_true by done. by rewrite str_app_nil_r. }
  intros [Ha Hs]%orb_false_elim. rewrite Ha.
  rewrite IH by done. cbn. by rewrite str_rev_app, str_app_assoc.
Qed.

(** Splitting [a sep b] gives the two halves when neither holds [sep]. *)
Lemma Split_two sep a b :
  has_byte sep a = false → has_byte sep b = false →
  Split (a +:+ String sep b) sep = [a; b].
Proof.
  intros Ha Hb. unfold Split. rewrite split_aux_sep by done. cbn.
  unfold Split. by rewrite split_aux_no_sep.
Qed.

(** ** strconv *)

Definition ParseBool (s : string) : option bool :=
  if bool_decide (s ∈ ["1"; "t"; "T"; "true"; "TRUE"; "True"]) then Some true
  else if bool_decide (s ∈ ["0"; "f"; "F"; "false"; "FALSE"; "False"]) then Some false
  else None.

Definition FormatBool (b : bool) : string := if b then "true" else "false".

Lemma ParseBool_FormatBool b : ParseBool (FormatBool b) = Some b.
Proof. by destruct b. Qed.

Definition digit (a : ascii) : option Z :=
  let n := Z.of_nat (nat_of_ascii a) in
  if (48 <=? n) && (n <=? 57) then Some (n - 48) else None.

Fixpoint digits (s : string) (acc : Z) : option Z :=
  match s with
  | EmptyString => Some acc
  | String a s => match digit a with
                  | Some d => digits s (10 * acc + d)
                  | None => None
                  end
  end.

(** [strconv.Atoi]: an optional sign, at least one digit, within [int64]. *)
Definition Atoi (s : string) : option Z :=
  let '(sign, body) := match s with
    | String "+" r => (1, r)
    | String "-" r => (-1, r)
    | _ => (1, s)
    end in
  match body with
  | EmptyString => None
  | _ => match digits body 0 with
         | Some n => let v := sign * n in
             if (- 2^63 <=? v) && (v <? 2^63) then Some v else None
         | None => None
         end
  end.

Lemma Atoi_range s v : Atoi s = Some v → - 2^63 ≤ v < 2^63.
Proof.
  unfold Atoi. destruct (match s with
    | String "+" r => (1, r) | String "-" r => (-1, r) | _ => (1, s) end)
    as [sign [|a body]]; [done|].
  destruct (digits _ 0) as [n|]; [|done]. cbv zeta.
  destruct (_ && _) eqn:H; [|done]. intros [= <-].
  apply andb_prop in H as [H1%Z.leb_le H2%Z.ltb_lt]. lia.
Qed.
