(* ===== verification/Api.v ===== *)
(** * Custom resources and the Kubernetes objects the code reads

    The types of pkg/apis/datamover/v1alpha1 and pkg/apis/backupdriver/v1alpha1,
    and of the core Kubernetes and Velero objects, restricted there to the
    fields the code reads.  A pointer field that may be nil is an [option]; a
    phase, which Go declares as a string, is an inductive type with the
    declared constants, the empty string ([...Unset]) and any other string
    ([...Other]). *)

From S2P Require Export Go.
Open Scope Z_scope.

(** Instants; see [Go]. *)
Abbreviation time := Z.

Record ObjectMeta := {
  om_Name : string;
  om_Namespace : string;
  om_Labels : gmap string string;
  om_Annotations : gmap string string;
  om_UID : string;
  om_DeletionTimestamp : option time;
  om_Finalizers : list string;
  om_GenerateName : string;
}.

#[export] Instance ObjectMeta_eq_dec : EqDecision ObjectMeta.
Proof. solve_decision. Defined.

Record TypedLocalObjectReference := {
  ref_APIGroup : option string;
  ref_Kind : string;
  ref_Name : string;
}.

#[export] Instance TypedLocalObjectReference_eq_dec : EqDecision TypedLocalObjectReference.
Proof. solve_decision. Defined.

Definition meta (ns name : string) (labels : gmap string string) : ObjectMeta :=
  {| om_Name := name; om_Namespace := ns; om_Labels := labels;
     om_Annotations := ∅; om_UID := ""; om_DeletionTimestamp := None;
     om_Finalizers := []; om_GenerateName := "" |}.

(** ** datamover/v1alpha1: Upload *)

Inductive UploadPhase :=
| UploadPhaseUnset
| UploadPhaseNew
| UploadPhaseInProgress
| UploadPhaseCompleted
| UploadPhaseUploadError
| UploadPhaseCleanupFailed
| UploadPhaseCanceling
| UploadPhaseCanceled
| UploadPhaseUploadFailedAfterRetry
| UploadPhaseOther (s : string).

#[export] Instance UploadPhase_eq_dec : EqDecision UploadPhase.
Proof. solve_decision. Defined.

Record UploadSpec := {
  us_SnapshotID : string;
  us_BackupTimestamp : option time;
  us_UploadCancel : bool;
  us_BackupRepositoryName : string;
  us_SnapshotReference : string;
}.

#[export] Instance UploadSpec_eq_dec : EqDecision UploadSpec.
Proof. solve_decision. Defined.

Record OperationProgress := { pr_TotalBytes : Z; pr_BytesDone : Z }.

#[export] Instance OperationProgress_eq_dec : EqDecision OperationProgress.
Proof. solve_decision. Defined.

Record UploadStatus := {
  us_Phase : UploadPhase;
  us_Message : string;
  us_StartTimestamp : option time;
  us_CompletionTimestamp : option time;
  us_Progress : OperationProgress;
  us_ProcessingNode : string;
  us_RetryCount : Z;              (* int32 *)
  us_NextRetryTimestamp : option time;
  us_CurrentBackOff : Z;          (* int32 *)
}.

#[export] Instance UploadStatus_eq_dec : EqDecision UploadStatus.
Proof. solve_decision. Defined.

Record Upload := {
  u_Meta : ObjectMeta;
  u_Spec : UploadSpec;
  u_Status : UploadStatus;
}.

#[export] Instance Upload_eq_dec : EqDecision Upload.
Proof. solve_decision. Defined.

Abbreviation u_Phase u := (us_Phase (u_Status u)).
Abbreviation u_Namespace u := (om_Namespace (u_Meta u)).
Abbreviation u_Name u := (om_Name (u_Meta u)).

(** ** datamover/v1alpha1: Download *)

Inductive DownloadPhase :=
| DownloadPhaseUnset
| DownloadPhaseNew
| DownloadPhaseInProgress
| DownloadPhaseCompleted
| DownLoadPhaseRetry
| DownloadPhaseFailed
| DownloadPhaseOther (s : string).

#[export] Instance DownloadPhase_eq_dec : EqDecision DownloadPhase.
Proof. solve_decision. Defined.

Record DownloadSpec := {
  ds_SnapshotID : string;
  ds_RestoreTimestamp : option time;
  ds_ProtectedEntityID : string;
  ds_BackupRepositoryName : string;
  ds_CloneFromSnapshotReference : string;
}.

#[export] Instance DownloadSpec_eq_dec : EqDecision DownloadSpec.
Proof. solve_decision. Defined.

Record DownloadStatus := {
  ds_VolumeID : string;
  ds_Phase : DownloadPhase;
  ds_Message : string;
  ds_StartTimestamp : option time;
  ds_CompletionTimestamp : option time;
  ds_Progress : OperationProgress;
  ds_ProcessingNode : string;
  ds_RetryCount : Z;              (* int32 *)
  ds_NextRetryTimestamp : option time;
}.

#[export] Instance DownloadStatus_eq_dec : EqDecision DownloadStatus.
Proof. solve_decision. Defined.

Record Download := {
  d_Meta : ObjectMeta;
  d_Spec : DownloadSpec;
  d_Status : DownloadStatus;
}.

#[export] Instance Download_eq_dec : EqDecision Download.
Proof. solve_decision. Defined.

Abbreviation d_Phase d := (ds_Phase (d_Status d)).
Abbreviation d_Namespace d := (om_Namespace (d_Meta d)).
Abbreviation d_Name d := (om_Name (d_Meta d)).

(** ** backupdriver/v1alpha1: Snapshot *)

Inductive SnapshotPhase :=
| SnapshotPhaseUnset
| SnapshotPhaseNew
| SnapshotPhaseInProgress
| SnapshotPhaseSnapshotted
| SnapshotPhaseSnapshotFailed
| SnapshotPhaseUploading
| SnapshotPhaseUploaded
| SnapshotPhaseUploadFailed
| SnapshotPhaseCanceling
| SnapshotPhaseCanceled
| SnapshotPhaseCleanupFailed
| SnapshotPhaseUploadFailedAfterRetry
| SnapshotPhaseOther (s : string).

#[export] Instance SnapshotPhase_eq_dec : EqDecision SnapshotPhase.
Proof. solve_decision. Defined.

Record SnapshotSpec := {
  ss_ResourceHandle : TypedLocalObjectReference;
  ss_BackupRepository : string;
  ss_SnapshotCancel : bool;
}.

#[export] Instance SnapshotSpec_eq_dec : EqDecision SnapshotSpec.
Proof. solve_decision. Defined.

Record SnapshotStatus := {
  ss_Phase : SnapshotPhase;
  ss_Message : string;
  ss_Progress : OperationProgress;
  ss_SnapshotID : string;
  ss_SvcSnapshotName : string;
  ss_Metadata : string;           (* []byte *)
  ss_CompletionTimestamp : option time;
}.

#[export] Instance SnapshotStatus_eq_dec : EqDecision SnapshotStatus.
Proof. solve_decision. Defined.

Record Snapshot := {
  s_Meta : ObjectMeta;
  s_Spec : SnapshotSpec;
  s_Status : SnapshotStatus;
}.

#[export] Instance Snapshot_eq_dec : EqDecision Snapshot.
Proof. solve_decision. Defined.

Abbreviation s_Phase s := (ss_Phase (s_Status s)).
Abbreviation s_Namespace s := (om_Namespace (s_Meta s)).
Abbreviation s_Name s := (om_Name (s_Meta s)).

(** ** backupdriver/v1alpha1: CloneFromSnapshot *)

Inductive ClonePhase :=
| ClonePhaseUnset
| ClonePhaseNew
| ClonePhaseInProgress
| ClonePhaseCompleted
| ClonePhaseRetry
| ClonePhaseFailed
| ClonePhaseCanceling
| ClonePhaseCanceled
| ClonePhaseOther (s : string).

#[export] Instance ClonePhase_eq_dec : EqDecision ClonePhase.
Proof. solve_decision. Defined.

Record CloneFromSnapshotSpec := {
  cs_SnapshotID : string;
  cs_Metadata : string;           (* []byte *)
  cs_APIGroup : option string;
  cs_Kind : string;
  cs_BackupRepository : string;
  cs_CloneCancel : bool;
}.

Record CloneStatus := {
  cs_Phase : ClonePhase;
  cs_Message : string;
  cs_ResourceHandle : option TypedLocalObjectReference;
  cs_CompletionTimestamp : option time;
}.

Record CloneFromSnapshot := {
  c_Meta : ObjectMeta;
  c_Spec : CloneFromSnapshotSpec;
  c_Status : CloneStatus;
}.

Abbreviation c_Phase c := (cs_Phase (c_Status c)).
Abbreviation c_Namespace c := (om_Namespace (c_Meta c)).
Abbreviation c_Name c := (om_Name (c_Meta c)).

(** ** backupdriver/v1alpha1: DeleteSnapshot *)

Inductive DeleteSnapshotPhase :=
| DeleteSnapshotPhaseUnset
| DeleteSnapshotPhaseNew
| DeleteSnapshotPhaseInProgress
| DeleteSnapshotPhaseCompleted
| DeleteSnapshotPhaseFailed
| DeleteSnapshotPhaseOther (s : string).

#[export] Instance DeleteSnapshotPhase_eq_dec : EqDecision DeleteSnapshotPhase.
Proof. solve_decision. Defined.

Record DeleteSnapshotSpec := {
  dels_SnapshotID : string;
  dels_BackupRepository : string;
}.

Record DeleteSnapshotStatus := {
  dels_Phase : DeleteSnapshotPhase;
  dels_Message : string;
  dels_CompletionTimestamp : option time;
}.

Record DeleteSnapshot := {
  del_Meta : ObjectMeta;
  del_Spec : DeleteSnapshotSpec;
  del_Status : DeleteSnapshotStatus;
}.

Abbreviation del_Phase d := (dels_Phase (del_Status d)).
Abbreviation del_Namespace d := (om_Namespace (del_Meta d)).
Abbreviation del_Name d := (om_Name (del_Meta d)).

(** ** backupdriver/v1alpha1: BackupRepository and BackupRepositoryClaim *)

Record BackupRepository := {
  br_Meta : ObjectMeta;
  br_AllowedNamespaces : option (list string);           (* None: nil *)
  br_RepositoryDriver : string;
  br_RepositoryParameters : option (gmap string string); (* None: nil *)
  br_BackupRepositoryClaim : string;
  br_SvcBackupRepositoryName : string;
}.

Record BackupRepositoryClaim := {
  brc_Meta : ObjectMeta;
  brc_AllowedNamespaces : option (list string);
  brc_RepositoryDriver : string;
  brc_RepositoryParameters : option (gmap string string);
  brc_BackupRepository : string;
}.

Abbreviation br_Name b := (om_Name (br_Meta b)).
Abbreviation brc_Name b := (om_Name (brc_Meta b)).
Abbreviation brc_Namespace b := (om_Namespace (brc_Meta b)).

(** ** Assignment to a field

    [r <| f := v |>] is [r] with the field [f] set to [v], and
    [r <| f; g := v |>] sets the field [g] of the field [f]. *)

Class Update {R T} (field : R → T) := update : T → R → R.
Arguments update {R T} field {_} v r.
Notation "r <| f := v |>" := (update f v r)
  (at level 8, f at level 200, left associativity).
Notation "r <| f ; g := v |>" := (update f (update g v (f r)) r)
  (at level 8, f at level 200, g at level 200, left associativity).

#[export] Instance update_om_Name : Update om_Name := λ v r,
  {| om_Name := v; om_Namespace := om_Namespace r; om_Labels := om_Labels r; om_Annotations := om_Annotations r; om_UID := om_UID r; om_DeletionTimestamp := om_DeletionTimestamp r; om_Finalizers := om_Finalizers r; om_GenerateName := om_GenerateName r |}.
#[export] Instance update_om_Namespace : Update om_Namespace := λ v r,
  {| om_Name := om_Name r; om_Namespace := v; om_Labels := om_Labels r; om_Annotations := om_Annotations r; om_UID := om_UID r; om_DeletionTimestamp := om_DeletionTimestamp r; om_Finalizers := om_Finalizers r; om_GenerateName := om_GenerateName r |}.
#[export] Instance update_om_Labels : Update om_Labels := λ v r,
  {| om_Name := om_Name r; om_Namespace := om_Namespace r; om_Labels := v; om_Annotations := om_Annotations r; om_UID := om_UID r; om_DeletionTimestamp := om_DeletionTimestamp r; om_Finalizers := om_Finalizers r; om_GenerateName := om_GenerateName r |}.
#[export] Instance update_om_Annotations : Update om_Annotations := λ v r,
  {| om_Name := om_Name r; om_Namespace := om_Namespace r; om_Labels := om_Labels r; om_Annotations := v; om_UID := om_UID r; om_DeletionTimestamp := om_DeletionTimestamp r; om_Finalizers := om_Finalizers r; om_GenerateName := om_GenerateName r |}.
#[export] Instance update_om_UID : Update om_UID := λ v r,
  {| om_Name := om_Name r; om_Namespace := om_Namespace r; om_Labels := om_Labels r; om_Annotations := om_Annotations r; om_UID := v; om_DeletionTimestamp := om_DeletionTimestamp r; om_Finalizers := om_Finalizers r; om_GenerateName := om_GenerateName r |}.
#[export] Instance update_om_DeletionTimestamp : Update om_DeletionTimestamp := λ v r,
  {| om_Name := om_Name r; om_Namespace := om_Namespace r; om_Labels := om_Labels r; om_Annotations := om_Annotations r; om_UID := om_UID r; om_DeletionTimestamp := v; om_Finalizers := om_Finalizers r; om_GenerateName := om_GenerateName r |}.
#[export] Instance update_om_Finalizers : Update om_Finalizers := λ v r,
  {| om_Name := om_Name r; om_Namespace := om_Namespace r; om_Labels := om_Labels r; om_Annotations := om_Annotations r; om_UID := om_UID r; om_DeletionTimestamp := om_DeletionTimestamp r; om_Finalizers := v; om_GenerateName := om_GenerateName r |}.
#[export] Instance update_om_GenerateName : Update om_GenerateName := λ v r,
  {| om_Name := om_Name r; om_Namespace := om_Namespace r; om_Labels := om_Labels r; om_Annotations := om_Annotations r; om_UID := om_UID r; om_DeletionTimestamp := om_DeletionTimestamp r; om_Finalizers := om_Finalizers r; om_GenerateName := v |}.
#[export] Instance update_us_SnapshotID : Update us_SnapshotID := λ v r,
  {| us_SnapshotID := v; us_BackupTimestamp := us_BackupTimestamp r; us_UploadCancel := us_UploadCancel r; us_BackupRepositoryName := us_BackupRepositoryName r; us_SnapshotReference := us_SnapshotReference r |}.
#[export] Instance update_us_BackupTimestamp : Update us_BackupTimestamp := λ v r,
  {| us_SnapshotID := us_SnapshotID r; us_BackupTimestamp := v; us_UploadCancel := us_UploadCancel r; us_BackupRepositoryName := us_BackupRepositoryName r; us_SnapshotReference := us_SnapshotReference r |}.
#[export] Instance update_us_UploadCancel : Update us_UploadCancel := λ v r,
  {| us_SnapshotID := us_SnapshotID r; us_BackupTimestamp := us_BackupTimestamp r; us_UploadCancel := v; us_BackupRepositoryName := us_BackupRepositoryName r; us_SnapshotReference := us_SnapshotReference r |}.
#[export] Instance update_us_BackupRepositoryName : Update us_BackupRepositoryName := λ v r,
  {| us_SnapshotID := us_SnapshotID r; us_BackupTimestamp := us_BackupTimestamp r; us_UploadCancel := us_UploadCancel r; us_BackupRepositoryName := v; us_SnapshotReference := us_SnapshotReference r |}.
#[export] Instance update_us_SnapshotReference : Update us_SnapshotReference := λ v r,
  {| us_SnapshotID := us_SnapshotID r; us_BackupTimestamp := us_BackupTimestamp r; us_UploadCancel := us_UploadCancel r; us_BackupRepositoryName := us_BackupRepositoryName r; us_SnapshotReference := v |}.
#[export] Instance update_pr_TotalBytes : Update pr_TotalBytes := λ v r,
  {| pr_TotalBytes := v; pr_BytesDone := pr_BytesDone r |}.
#[export] Instance update_pr_BytesDone : Update pr_BytesDone := λ v r,
  {| pr_TotalBytes := pr_TotalBytes r; pr_BytesDone := v |}.
#[export] Instance update_us_Phase : Update us_Phase := λ v r,
  {| us_Phase := v; us_Message := us_Message r; us_StartTimestamp := us_StartTimestamp r; us_CompletionTimestamp := us_CompletionTimestamp r; us_Progress := us_Progress r; us_ProcessingNode := us_ProcessingNode r; us_RetryCount := us_RetryCount r; us_NextRetryTimestamp := us_NextRetryTimestamp r; us_CurrentBackOff := us_CurrentBackOff r |}.
#[export] Instance update_us_Message : Update us_Message := λ v r,
  {| us_Phase := us_Phase r; us_Message := v; us_StartTimestamp := us_StartTimestamp r; us_CompletionTimestamp := us_CompletionTimestamp r; us_Progress := us_Progress r; us_ProcessingNode := us_ProcessingNode r; us_RetryCount := us_RetryCount r; us_NextRetryTimestamp := us_NextRetryTimestamp r; us_CurrentBackOff := us_CurrentBackOff r |}.
#[export] Instance update_us_StartTimestamp : Update us_StartTimestamp := λ v r,
  {| us_Phase := us_Phase r; us_Message := us_Message r; us_StartTimestamp := v; us_CompletionTimestamp := us_CompletionTimestamp r; us_Progress := us_Progress r; us_ProcessingNode := us_ProcessingNode r; us_RetryCount := us_RetryCount r; us_NextRetryTimestamp := us_NextRetryTimestamp r; us_CurrentBackOff := us_CurrentBackOff r |}.
#[export] Instance update_us_CompletionTimestamp : Update us_CompletionTimestamp := λ v r,
  {| us_Phase := us_Phase r; us_Message := us_Message r; us_StartTimestamp := us_StartTimestamp r; us_CompletionTimestamp := v; us_Progress := us_Progress r; us_ProcessingNode := us_ProcessingNode r; us_RetryCount := us_RetryCount r; us_NextRetryTimestamp := us_NextRetryTimestamp r; us_CurrentBackOff := us_CurrentBackOff r |}.
#[export] Instance update_us_Progress : Update us_Progress := λ v r,
  {| us_Phase := us_Phase r; us_Message := us_Message r; us_StartTimestamp := us_StartTimestamp r; us_CompletionTimestamp := us_CompletionTimestamp r; us_Progress := v; us_ProcessingNode := us_ProcessingNode r; us_RetryCount := us_RetryCount r; us_NextRetryTimestamp := us_NextRetryTimestamp r; us_CurrentBackOff := us_CurrentBackOff r |}.
#[export] Instance update_us_ProcessingNode : Update us_ProcessingNode := λ v r,
  {| us_Phase := us_Phase r; us_Message := us_Message r; us_StartTimestamp := us_StartTimestamp r; us_CompletionTimestamp := us_CompletionTimestamp r; us_Progress := us_Progress r; us_ProcessingNode := v; us_RetryCount := us_RetryCount r; us_NextRetryTimestamp := us_NextRetryTimestamp r; us_CurrentBackOff := us_CurrentBackOff r |}.
#[export] Instance update_us_RetryCount : Update us_RetryCount := λ v r,
  {| us_Phase := us_Phase r; us_Message := us_Message r; us_StartTimestamp := us_StartTimestamp r; us_CompletionTimestamp := us_CompletionTimestamp r; us_Progress := us_Progress r; us_ProcessingNode := us_ProcessingNode r; us_RetryCount := v; us_NextRetryTimestamp := us_NextRetryTimestamp r; us_CurrentBackOff := us_CurrentBackOff r |}.
#[export] Instance update_us_NextRetryTimestamp : Update us_NextRetryTimestamp := λ v r,
  {| us_Phase := us_Phase r; us_Message := us_Message r; us_StartTimestamp := us_StartTimestamp r; us_CompletionTimestamp := us_CompletionTimestamp r; us_Progress := us_Progress r; us_ProcessingNode := us_ProcessingNode r; us_RetryCount := us_RetryCount r; us_NextRetryTimestamp := v; us_CurrentBackOff := us_CurrentBackOff r |}.
#[export] Instance update_us_CurrentBackOff : Update us_CurrentBackOff := λ v r,
  {| us_Phase := us_Phase r; us_Message := us_Message r; us_StartTimestamp := us_StartTimestamp r; us_CompletionTimestamp := us_CompletionTimestamp r; us_Progress := us_Progress r; us_ProcessingNode := us_ProcessingNode r; us_RetryCount := us_RetryCount r; us_NextRetryTimestamp := us_NextRetryTimestamp r; us_CurrentBackOff := v |}.
#[export] Instance update_u_Meta : Update u_Meta := λ v r,
  {| u_Meta := v; u_Spec := u_Spec r; u_Status := u_Status r |}.
#[export] Instance update_u_Spec : Update u_Spec := λ v r,
  {| u_Meta := u_Meta r; u_Spec := v; u_Status := u_Status r |}.
#[export] Instance update_u_Status : Update u_Status := λ v r,
  {| u_Meta := u_Meta r; u_Spec := u_Spec r; u_Status := v |}.
#[export] Instance update_ds_SnapshotID : Update ds_SnapshotID := λ v r,
  {| ds_SnapshotID := v; ds_RestoreTimestamp := ds_RestoreTimestamp r; ds_ProtectedEntityID := ds_ProtectedEntityID r; ds_BackupRepositoryName := ds_BackupRepositoryName r; ds_CloneFromSnapshotReference := ds_CloneFromSnapshotReference r |}.
#[export] Instance update_ds_RestoreTimestamp : Update ds_RestoreTimestamp := λ v r,
  {| ds_SnapshotID := ds_SnapshotID r; ds_RestoreTimestamp := v; ds_ProtectedEntityID := ds_ProtectedEntityID r; ds_BackupRepositoryName := ds_BackupRepositoryName r; ds_CloneFromSnapshotReference := ds_CloneFromSnapshotReference r |}.
#[export] Instance update_ds_ProtectedEntityID : Update ds_ProtectedEntityID := λ v r,
  {| ds_SnapshotID := ds_SnapshotID r; ds_RestoreTimestamp := ds_RestoreTimestamp r; ds_ProtectedEntityID := v; ds_BackupRepositoryName := ds_BackupRepositoryName r; ds_CloneFromSnapshotReference := ds_CloneFromSnapshotReference r |}.
#[export] Instance update_ds_BackupRepositoryName : Update ds_BackupRepositoryName := λ v r,
  {| ds_SnapshotID := ds_SnapshotID r; ds_RestoreTimestamp := ds_RestoreTimestamp r; ds_ProtectedEntityID := ds_ProtectedEntityID r; ds_BackupRepositoryName := v; ds_CloneFromSnapshotReference := ds_CloneFromSnapshotReference r |}.
#[export] Instance update_ds_CloneFromSnapshotReference : Update ds_CloneFromSnapshotReference := λ v r,
  {| ds_SnapshotID := ds_SnapshotID r; ds_RestoreTimestamp := ds_RestoreTimestamp r; ds_ProtectedEntityID := ds_ProtectedEntityID r; ds_BackupRepositoryName := ds_BackupRepositoryName r; ds_CloneFromSnapshotReference := v |}.
#[export] Instance update_ds_VolumeID : Update ds_VolumeID := λ v r,
  {| ds_VolumeID := v; ds_Phase := ds_Phase r; ds_Message := ds_Message r; ds_StartTimestamp := ds_StartTimestamp r; ds_CompletionTimestamp := ds_CompletionTimestamp r; ds_Progress := ds_Progress r; ds_ProcessingNode := ds_ProcessingNode r; ds_RetryCount := ds_RetryCount r; ds_NextRetryTimestamp := ds_NextRetryTimestamp r |}.
#[export] Instance update_ds_Phase : Update ds_Phase := λ v r,
  {| ds_VolumeID := ds_VolumeID r; ds_Phase := v; ds_Message := ds_Message r; ds_StartTimestamp := ds_StartTimestamp r; ds_CompletionTimestamp := ds_CompletionTimestamp r; ds_Progress := ds_Progress r; ds_ProcessingNode := ds_ProcessingNode r; ds_RetryCount := ds_RetryCount r; ds_NextRetryTimestamp := ds_NextRetryTimestamp r |}.
#[export] Instance update_ds_Message : Update ds_Message := λ v r,
  {| ds_VolumeID := ds_VolumeID r; ds_Phase := ds_Phase r; ds_Message := v; ds_StartTimestamp := ds_StartTimestamp r; ds_CompletionTimestamp := ds_CompletionTimestamp r; ds_Progress := ds_Progress r; ds_ProcessingNode := ds_ProcessingNode r; ds_RetryCount := ds_RetryCount r; ds_NextRetryTimestamp := ds_NextRetryTimestamp r |}.
#[export] Instance update_ds_StartTimestamp : Update ds_StartTimestamp := λ v r,
  {| ds_VolumeID := ds_VolumeID r; ds_Phase := ds_Phase r; ds_Message := ds_Message r; ds_StartTimestamp := v; ds_CompletionTimestamp := ds_CompletionTimestamp r; ds_Progress := ds_Progress r; ds_ProcessingNode := ds_ProcessingNode r; ds_RetryCount := ds_RetryCount r; ds_NextRetryTimestamp := ds_NextRetryTimestamp r |}.
#[export] Instance update_ds_CompletionTimestamp : Update ds_CompletionTimestamp := λ v r,
  {| ds_VolumeID := ds_VolumeID r; ds_Phase := ds_Phase r; ds_Message := ds_Message r; ds_StartTimestamp := ds_StartTimestamp r; ds_CompletionTimestamp := v; ds_Progress := ds_Progress r; ds_ProcessingNode := ds_ProcessingNode r; ds_RetryCount := ds_RetryCount r; ds_NextRetryTimestamp := ds_NextRetryTimestamp r |}.
#[export] Instance update_ds_Progress : Update ds_Progress := λ v r,
  {| ds_VolumeID := ds_VolumeID r; ds_Phase := ds_Phase r; ds_Message := ds_Message r; ds_StartTimestamp := ds_StartTimestamp r; ds_CompletionTimestamp := ds_CompletionTimestamp r; ds_Progress := v; ds_ProcessingNode := ds_ProcessingNode r; ds_RetryCount := ds_RetryCount r; ds_NextRetryTimestamp := ds_NextRetryTimestamp r |}.
#[export] Instance update_ds_ProcessingNode : Update ds_ProcessingNode := λ v r,
  {| ds_VolumeID := ds_VolumeID r; ds_Phase := ds_Phase r; ds_Message := ds_Message r; ds_StartTimestamp := ds_StartTimestamp r; ds_CompletionTimestamp := ds_CompletionTimestamp r; ds_Progress := ds_Progress r; ds_ProcessingNode := v; ds_RetryCount := ds_RetryCount r; ds_NextRetryTimestamp := ds_NextRetryTimestamp r |}.
#[export] Instance update_ds_RetryCount : Update ds_RetryCount := λ v r,
  {| ds_VolumeID := ds_VolumeID r; ds_Phase := ds_Phase r; ds_Message := ds_Message r; ds_StartTimestamp := ds_StartTimestamp r; ds_CompletionTimestamp := ds_CompletionTimestamp r; ds_Progress := ds_Progress r; ds_ProcessingNode := ds_ProcessingNode r; ds_RetryCount := v; ds_NextRetryTimestamp := ds_NextRetryTimestamp r |}.
#[export] Instance update_ds_NextRetryTimestamp : Update ds_NextRetryTimestamp := λ v r,
  {| ds_VolumeID := ds_VolumeID r; ds_Phase := ds_Phase r; ds_Message := ds_Message r; ds_StartTimestamp := ds_StartTimestamp r; ds_CompletionTimestamp := ds_CompletionTimestamp r; ds_Progress := ds_Progress r; ds_ProcessingNode := ds_ProcessingNode r; ds_RetryCount := ds_RetryCount r; ds_NextRetryTimestamp := v |}.
#[export] Instance update_d_Meta : Update d_Meta := λ v r,
  {| d_Meta := v; d_Spec := d_Spec r; d_Status := d_Status r |}.
#[export] Instance update_d_Spec : Update d_Spec := λ v r,
  {| d_Meta := d_Meta r; d_Spec := v; d_Status := d_Status r |}.
#[export] Instance update_d_Status : Update d_Status := λ v r,
  {| d_Meta := d_Meta r; d_Spec := d_Spec r; d_Status := v |}.
#[export] Instance update_ss_ResourceHandle : Update ss_ResourceHandle := λ v r,
  {| ss_ResourceHandle := v; ss_BackupRepository := ss_BackupRepository r; ss_SnapshotCancel := ss_SnapshotCancel r |}.
#[export] Instance update_ss_BackupRepository : Update ss_BackupRepository := λ v r,
  {| ss_ResourceHandle := ss_ResourceHandle r; ss_BackupRepository := v; ss_SnapshotCancel := ss_SnapshotCancel r |}.
#[export] Instance update_ss_SnapshotCancel : Update ss_SnapshotCancel := λ v r,
  {| ss_ResourceHandle := ss_ResourceHandle r; ss_BackupRepository := ss_BackupRepository r; ss_SnapshotCancel := v |}.
#[export] Instance update_ss_Phase : Update ss_Phase := λ v r,
  {| ss_Phase := v; ss_Message := ss_Message r; ss_Progress := ss_Progress r; ss_SnapshotID := ss_SnapshotID r; ss_SvcSnapshotName := ss_SvcSnapshotName r; ss_Metadata := ss_Metadata r; ss_CompletionTimestamp := ss_CompletionTimestamp r |}.
#[export] Instance update_ss_Message : Update ss_Message := λ v r,
  {| ss_Phase := ss_Phase r; ss_Message := v; ss_Progress := ss_Progress r; ss_SnapshotID := ss_SnapshotID r; ss_SvcSnapshotName := ss_SvcSnapshotName r; ss_Metadata := ss_Metadata r; ss_CompletionTimestamp := ss_CompletionTimestamp r |}.
#[export] Instance update_ss_Progress : Update ss_Progress := λ v r,
  {| ss_Phase := ss_Phase r; ss_Message := ss_Message r; ss_Progress := v; ss_SnapshotID := ss_SnapshotID r; ss_SvcSnapshotName := ss_SvcSnapshotName r; ss_Metadata := ss_Metadata r; ss_CompletionTimestamp := ss_CompletionTimestamp r |}.
#[export] Instance update_ss_SnapshotID : Update ss_SnapshotID := λ v r,
  {| ss_Phase := ss_Phase r; ss_Message := ss_Message r; ss_Progress := ss_Progress r; ss_SnapshotID := v; ss_SvcSnapshotName := ss_SvcSnapshotName r; ss_Metadata := ss_Metadata r; ss_CompletionTimestamp := ss_CompletionTimestamp r |}.
#[export] Instance update_ss_SvcSnapshotName : Update ss_SvcSnapshotName := λ v r,
  {| ss_Phase := ss_Phase r; ss_Message := ss_Message r; ss_Progress := ss_Progress r; ss_SnapshotID := ss_SnapshotID r; ss_SvcSnapshotName := v; ss_Metadata := ss_Metadata r; ss_CompletionTimestamp := ss_CompletionTimestamp r |}.
#[export] Instance update_ss_Metadata : Update ss_Metadata := λ v r,
  {| ss_Phase := ss_Phase r; ss_Message := ss_Message r; ss_Progress := ss_Progress r; ss_SnapshotID := ss_SnapshotID r; ss_SvcSnapshotName := ss_SvcSnapshotName r; ss_Metadata := v; ss_CompletionTimestamp := ss_CompletionTimestamp r |}.
#[export] Instance update_ss_CompletionTimestamp : Update ss_CompletionTimestamp := λ v r,
  {| ss_Phase := ss_Phase r; ss_Message := ss_Message r; ss_Progress := ss_Progress r; ss_SnapshotID := ss_SnapshotID r; ss_SvcSnapshotName := ss_SvcSnapshotName r; ss_Metadata := ss_Metadata r; ss_CompletionTimestamp := v |}.
#[export] Instance update_s_Meta : Update s_Meta := λ v r,
  {| s_Meta := v; s_Spec := s_Spec r; s_Status := s_Status r |}.
#[export] Instance update_s_Spec : Update s_Spec := λ v r,
  {| s_Meta := s_Meta r; s_Spec := v; s_Status := s_Status r |}.
#[export] Instance update_s_Status : Update s_Status := λ v r,
  {| s_Meta := s_Meta r; s_Spec := s_Spec r; s_Status := v |}.
#[export] Instance update_cs_SnapshotID : Update cs_SnapshotID := λ v r,
  {| cs_SnapshotID := v; cs_Metadata := cs_Metadata r; cs_APIGroup := cs_APIGroup r; cs_Kind := cs_Kind r; cs_BackupRepository := cs_BackupRepository r; cs_CloneCancel := cs_CloneCancel r |}.
#[export] Instance update_cs_Metadata : Update cs_Metadata := λ v r,
  {| cs_SnapshotID := cs_SnapshotID r; cs_Metadata := v; cs_APIGroup := cs_APIGroup r; cs_Kind := cs_Kind r; cs_BackupRepository := cs_BackupRepository r; cs_CloneCancel := cs_CloneCancel r |}.
#[export] Instance update_cs_APIGroup : Update cs_APIGroup := λ v r,
  {| cs_SnapshotID := cs_SnapshotID r; cs_Metadata := cs_Metadata r; cs_APIGroup := v; cs_Kind := cs_Kind r; cs_BackupRepository := cs_BackupRepository r; cs_CloneCancel := cs_CloneCancel r |}.
#[export] Instance update_cs_Kind : Update cs_Kind := λ v r,
  {| cs_SnapshotID := cs_SnapshotID r; cs_Metadata := cs_Metadata r; cs_APIGroup := cs_APIGroup r; cs_Kind := v; cs_BackupRepository := cs_BackupRepository r; cs_CloneCancel := cs_CloneCancel r |}.
#[export] Instance update_cs_BackupRepository : Update cs_BackupRepository := λ v r,
  {| cs_SnapshotID := cs_SnapshotID r; cs_Metadata := cs_Metadata r; cs_APIGroup := cs_APIGroup r; cs_Kind := cs_Kind r; cs_BackupRepository := v; cs_CloneCancel := cs_CloneCancel r |}.
#[export] Instance update_cs_CloneCancel : Update cs_CloneCancel := λ v r,
  {| cs_SnapshotID := cs_SnapshotID r; cs_Metadata := cs_Metadata r; cs_APIGroup := cs_APIGroup r; cs_Kind := cs_Kind r; cs_BackupRepository := cs_BackupRepository r; cs_CloneCancel := v |}.
#[export] Instance update_cs_Phase : Update cs_Phase := λ v r,
  {| cs_Phase := v; cs_Message := cs_Message r; cs_ResourceHandle := cs_ResourceHandle r; cs_CompletionTimestamp := cs_CompletionTimestamp r |}.
#[export] Instance update_cs_Message : Update cs_Message := λ v r,
  {| cs_Phase := cs_Phase r; cs_Message := v; cs_ResourceHandle := cs_ResourceHandle r; cs_CompletionTimestamp := cs_CompletionTimestamp r |}.
#[export] Instance update_cs_ResourceHandle : Update cs_ResourceHandle := λ v r,
  {| cs_Phase := cs_Phase r; cs_Message := cs_Message r; cs_ResourceHandle := v; cs_CompletionTimestamp := cs_CompletionTimestamp r |}.
#[export] Instance update_cs_CompletionTimestamp : Update cs_CompletionTimestamp := λ v r,
  {| cs_Phase := cs_Phase r; cs_Message := cs_Message r; cs_ResourceHandle := cs_ResourceHandle r; cs_CompletionTimestamp := v |}.
#[export] Instance update_c_Meta : Update c_Meta := λ v r,
  {| c_Meta := v; c_Spec := c_Spec r; c_Status := c_Status r |}.
#[export] Instance update_c_Spec : Update c_Spec := λ v r,
  {| c_Meta := c_Meta r; c_Spec := v; c_Status := c_Status r |}.
#[export] Instance update_c_Status : Update c_Status := λ v r,
  {| c_Meta := c_Meta r; c_Spec := c_Spec r; c_Status := v |}.
#[export] Instance update_dels_SnapshotID : Update dels_SnapshotID := λ v r,
  {| dels_SnapshotID := v; dels_BackupRepository := dels_BackupRepository r |}.
#[export] Instance update_dels_BackupRepository : Update dels_BackupRepository := λ v r,
  {| dels_SnapshotID := dels_SnapshotID r; dels_BackupRepository := v |}.
#[export] Instance update_dels_Phase : Update dels_Phase := λ v r,
  {| dels_Phase := v; dels_Message := dels_Message r; dels_CompletionTimestamp := dels_CompletionTimestamp r |}.
#[export] Instance update_dels_Message : Update dels_Message := λ v r,
  {| dels_Phase := dels_Phase r; dels_Message := v; dels_CompletionTimestamp := dels_CompletionTimestamp r |}.
#[export] Instance update_dels_CompletionTimestamp : Update dels_CompletionTimestamp := λ v r,
  {| dels_Phase := dels_Phase r; dels_Message := dels_Message r; dels_CompletionTimestamp := v |}.
#[export] Instance update_del_Meta : Update del_Meta := λ v r,
  {| del_Meta := v; del_Spec := del_Spec r; del_Status := del_Status r |}.
#[export] Instance update_del_Spec : Update del_Spec := λ v r,
  {| del_Meta := del_Meta r; del_Spec := v; del_Status := del_Status r |}.
#[export] Instance update_del_Status : Update del_Status := λ v r,
  {| del_Meta := del_Meta r; del_Spec := del_Spec r; del_Status := v |}.
#[export] Instance update_br_Meta : Update br_Meta := λ v r,
  {| br_Meta := v; br_AllowedNamespaces := br_AllowedNamespaces r; br_RepositoryDriver := br_RepositoryDriver r; br_RepositoryParameters := br_RepositoryParameters r; br_BackupRepositoryClaim := br_BackupRepositoryClaim r; br_SvcBackupRepositoryName := br_SvcBackupRepositoryName r |}.
#[export] Instance update_br_AllowedNamespaces : Update br_AllowedNamespaces := λ v r,
  {| br_Meta := br_Meta r; br_AllowedNamespaces := v; br_RepositoryDriver := br_RepositoryDriver r; br_RepositoryParameters := br_RepositoryParameters r; br_BackupRepositoryClaim := br_BackupRepositoryClaim r; br_SvcBackupRepositoryName := br_SvcBackupRepositoryName r |}.
#[export] Instance update_br_RepositoryDriver : Update br_RepositoryDriver := λ v r,
  {| br_Meta := br_Meta r; br_AllowedNamespaces := br_AllowedNamespaces r; br_RepositoryDriver := v; br_RepositoryParameters := br_RepositoryParameters r; br_BackupRepositoryClaim := br_BackupRepositoryClaim r; br_SvcBackupRepositoryName := br_SvcBackupRepositoryName r |}.
#[export] Instance update_br_RepositoryParameters : Update br_RepositoryParameters := λ v r,
  {| br_Meta := br_Meta r; br_AllowedNamespaces := br_AllowedNamespaces r; br_RepositoryDriver := br_RepositoryDriver r; br_RepositoryParameters := v; br_BackupRepositoryClaim := br_BackupRepositoryClaim r; br_SvcBackupRepositoryName := br_SvcBackupRepositoryName r |}.
#[export] Instance update_br_BackupRepositoryClaim : Update br_BackupRepositoryClaim := λ v r,
  {| br_Meta := br_Meta r; br_AllowedNamespaces := br_AllowedNamespaces r; br_RepositoryDriver := br_RepositoryDriver r; br_RepositoryParameters := br_RepositoryParameters r; br_BackupRepositoryClaim := v; br_SvcBackupRepositoryName := br_SvcBackupRepositoryName r |}.
#[export] Instance update_br_SvcBackupRepositoryName : Update br_SvcBackupRepositoryName := λ v r,
  {| br_Meta := br_Meta r; br_AllowedNamespaces := br_AllowedNamespaces r; br_RepositoryDriver := br_RepositoryDriver r; br_RepositoryParameters := br_RepositoryParameters r; br_BackupRepositoryClaim := br_BackupRepositoryClaim r; br_SvcBackupRepositoryName := v |}.
#[export] Instance update_brc_Meta : Update brc_Meta := λ v r,
  {| brc_Meta := v; brc_AllowedNamespaces := brc_AllowedNamespaces r; brc_RepositoryDriver := brc_RepositoryDriver r; brc_RepositoryParameters := brc_RepositoryParameters r; brc_BackupRepository := brc_BackupRepository r |}.
#[export] Instance update_brc_AllowedNamespaces : Update brc_AllowedNamespaces := λ v r,
  {| brc_Meta := brc_Meta r; brc_AllowedNamespaces := v; brc_RepositoryDriver := brc_RepositoryDriver r; brc_RepositoryParameters := brc_RepositoryParameters r; brc_BackupRepository := brc_BackupRepository r |}.
#[export] Instance update_brc_RepositoryDriver : Update brc_RepositoryDriver := λ v r,
  {| brc_Meta := brc_Meta r; brc_AllowedNamespaces := brc_AllowedNamespaces r; brc_RepositoryDriver := v; brc_RepositoryParameters := brc_RepositoryParameters r; brc_BackupRepository := brc_BackupRepository r |}.
#[export] Instance update_brc_RepositoryParameters : Update brc_RepositoryParameters := λ v r,
  {| brc_Meta := brc_Meta r; brc_AllowedNamespaces := brc_AllowedNamespaces r; brc_RepositoryDriver := brc_RepositoryDriver r; brc_RepositoryParameters := v; brc_BackupRepository := brc_BackupRepository r |}.
#[export] Instance update_brc_BackupRepository : Update brc_BackupRepository := λ v r,
  {| brc_Meta := brc_Meta r; brc_AllowedNamespaces := brc_AllowedNamespaces r; brc_RepositoryDriver := brc_RepositoryDriver r; brc_RepositoryParameters := brc_RepositoryParameters r; brc_BackupRepository := v |}.

(** ** Core Kubernetes and Velero objects, the fields the code reads *)

Record ConfigMap := { cm_Meta : ObjectMeta; cm_Data : gmap string string }.

(** A secret's data in the order a Go [range] over the map visits it, which
    the language leaves open. *)
Record Secret := { sec_Meta : ObjectMeta; sec_Data : list (string * string) }.

Record CSIVolumeSource := { csi_Driver : string; csi_VolumeHandle : string }.

Record PersistentVolume := {
  pv_Meta : ObjectMeta;
  pv_CSI : option CSIVolumeSource;
  pv_VsphereVolume : bool;                        (* Spec.VsphereVolume != nil *)
  pv_ClaimRef : option (string * string);         (* namespace, name *)
  pv_AccessModes : list string;
  pv_Capacity : gmap string string;
}.

Record PersistentVolumeClaim := {
  pvc_Meta : ObjectMeta;
  pvc_Kind : string;
  pvc_StorageClassName : option string;
  pvc_VolumeName : string;
  pvc_AccessModes : list string;
  pvc_Resources : gmap string string;
  pvc_VolumeMode : option string;
  pvc_Phase : string;                             (* Status *)
  pvc_Capacity : gmap string string;              (* Status *)
}.

Definition pvc_Namespace (p : PersistentVolumeClaim) : string := om_Namespace (pvc_Meta p).
Definition pvc_Name (p : PersistentVolumeClaim) : string := om_Name (pvc_Meta p).

Record Namespace := { ns_Meta : ObjectMeta }.

Record StorageClass := { sc_Meta : ObjectMeta; sc_VolumeBindingMode : option string }.

Record Volume := { vol_Name : string; vol_ClaimName : option string }.

Record Pod := { pod_Meta : ObjectMeta; pod_NodeName : string; pod_Volumes : list Volume }.

Record Container := {
  ctr_Name : string;
  ctr_Image : string;
  ctr_Args : list string;
  ctr_Env : list (string * string);
}.

(** A Deployment or StatefulSet: its pod template's containers. *)
Record Workload := {
  wl_Meta : ObjectMeta;
  wl_Containers : list Container;
  wl_InitContainers : list Container;
}.

Record Backup := {
  bk_Meta : ObjectMeta;
  bk_StorageLocation : string;
  bk_SnapshotVolumes : option bool;
  bk_DefaultVolumesToFsBackup : option bool;
}.

(** A nil map of namespaces is the empty one: the code only looks keys up. *)
Record Restore := {
  rst_BackupName : string;
  rst_RestorePVs : option bool;
  rst_NamespaceMapping : gmap string string;
}.

Record BackupStorageLocation := {
  bsl_Meta : ObjectMeta;
  bsl_Provider : string;
  bsl_Config : gmap string string;
  bsl_Bucket : option string;                     (* Spec.ObjectStorage, may be nil *)
  bsl_CACert : option string;
}.

#[export] Instance update_pvc_Meta : Update pvc_Meta := λ v r,
  Build_PersistentVolumeClaim v (pvc_Kind r) (pvc_StorageClassName r) (pvc_VolumeName r)
    (pvc_AccessModes r) (pvc_Resources r) (pvc_VolumeMode r) (pvc_Phase r) (pvc_Capacity r).
#[export] Instance update_pvc_StorageClassName : Update pvc_StorageClassName := λ v r,
  Build_PersistentVolumeClaim (pvc_Meta r) (pvc_Kind r) v (pvc_VolumeName r)
    (pvc_AccessModes r) (pvc_Resources r) (pvc_VolumeMode r) (pvc_Phase r) (pvc_Capacity r).
#[export] Instance update_pod_Meta : Update pod_Meta := λ v r,
  Build_Pod v (pod_NodeName r) (pod_Volumes r).
#[export] Instance update_pv_CSI : Update pv_CSI := λ v r,
  Build_PersistentVolume (pv_Meta r) v (pv_VsphereVolume r) (pv_ClaimRef r) (pv_AccessModes r)
    (pv_Capacity r).
#[export] Instance update_cm_Data : Update cm_Data := λ v r, Build_ConfigMap (cm_Meta r) v.

(** The kinds of objects an API call names, and their Go types. *)
Inductive kind :=
| KUpload | KDownload | KSnapshot | KCloneFromSnapshot | KDeleteSnapshot
| KBackupRepository | KBackupRepositoryClaim
| KConfigMap | KSecret | KPersistentVolume | KPod | KDeployment | KStatefulSet
| KBackup | KBackupStorageLocation | KPersistentVolumeClaim | KStorageClass | KNamespace.

Definition obj (k : kind) : Type :=
  match k with
  | KUpload => Upload
  | KDownload => Download
  | KSnapshot => Snapshot
  | KCloneFromSnapshot => CloneFromSnapshot
  | KDeleteSnapshot => DeleteSnapshot
  | KBackupRepository => BackupRepository
  | KBackupRepositoryClaim => BackupRepositoryClaim
  | KConfigMap => ConfigMap
  | KSecret => Secret
  | KPersistentVolume => PersistentVolume
  | KPod => Pod
  | KDeployment | KStatefulSet => Workload
  | KBackup => Backup
  | KBackupStorageLocation => BackupStorageLocation
  | KPersistentVolumeClaim => PersistentVolumeClaim
  | KStorageClass => StorageClass
  | KNamespace => Namespace
  end.

(** ** Registration of the types *)

(** A kind with its plural, and the Go types of an item and of a list, by name; the scheme knows
    a type under its own name. *)
Record typeInfo := {
  PluralName : string;
  ItemType : string;
  ItemListType : string;
}.

Definition newTypeInfo (pluralName itemType itemListType : string) : typeInfo :=
  {| PluralName := pluralName; ItemType := itemType; ItemListType := itemListType |}.

Record GroupVersion := { gv_Group : string; gv_Version : string }.

Module BackupDriverTypes.
Definition GroupName : string := "backupdriver.cnsdp.vmware.com".
Definition SchemeGroupVersion : GroupVersion := {| gv_Group := GroupName; gv_Version := "v1alpha1" |}.
(** The group and the resource. *)
Definition Resource (resource : string) : string * string := (gv_Group SchemeGroupVersion, resource).

Definition CustomResources : gmap string typeInfo := {[
  "Snapshot" := newTypeInfo "snapshots" "Snapshot" "SnapshotList";
  "CloneFromSnapshot" := newTypeInfo "clonefromsnapshots" "CloneFromSnapshot" "CloneFromSnapshotList";
  "BackupRepositoryClaim" :=
    newTypeInfo "backuprepositoryclaim" "BackupRepositoryClaim" "BackupRepositoryClaimList";
  "BackupRepository" := newTypeInfo "backuprepository" "BackupRepository" "BackupRepositoryList";
  "DeleteSnapshot" := newTypeInfo "deletesnapshots" "DeleteSnapshot" "DeleteSnapshotList" ]}.

(** The kinds that the scheme knows afterwards, besides those of every group version. *)
Definition addKnownTypes : gmap (string * string * string) unit :=
  list_to_map (flat_map (λ '(_, t),
    [((GroupName, gv_Version SchemeGroupVersion, ItemType t), tt);
     ((GroupName, gv_Version SchemeGroupVersion, ItemListType t), tt)]) (map_to_list CustomResources)).
End BackupDriverTypes.

Module DataMoverTypes.
Definition GroupName : string := "datamover.cnsdp.vmware.com".
Definition SchemeGroupVersion : GroupVersion := {| gv_Group := GroupName; gv_Version := "v1alpha1" |}.
(** The group and the resource. *)
Definition Resource (resource : string) : string * string := (gv_Group SchemeGroupVersion, resource).

Definition CustomResources : gmap string typeInfo := {[
  "Upload" := newTypeInfo "uploads" "Upload" "UploadList";
  "Download" := newTypeInfo "downloads" "Download" "DownloadList" ]}.

Definition addKnownTypes : gmap (string * string * string) unit :=
  list_to_map (flat_map (λ '(_, t),
    [((GroupName, gv_Version SchemeGroupVersion, ItemType t), tt);
     ((GroupName, gv_Version SchemeGroupVersion, ItemListType t), tt)]) (map_to_list CustomResources)).
End DataMoverTypes.
