(* ===== verification/Env.v ===== *)
(** * The world the code calls

    Third-party code is not modelled: its pure functions and opaque types are
    the fields of the class [Deps], and every call with an effect (a request to
    an API server, an astrolabe operation, a clock, a work queue, shared
    memory, a lease) is a constructor of [Cmd] whose answer the environment
    chooses.  The controllers are programs over [Cmd]. *)

From stdpp Require Import sorting.
From S2P Require Export Api.
Open Scope Z_scope.

(** ** Constants of pkg/constants *)

Definition RetryInterval : Z := 5.
Definition RetryMaximum : Z := 5.
Definition DOWNLOAD_MAX_RETRY : Z := 5.
Definition MIN_RETRY : Z := 0.
Definition DOWNLOAD_BACKOFF : Z := 5.
Definition UPLOAD_MAX_BACKOFF : Z := 60.
Definition DefaultUploadCRRetryMaximum : Z := 10.
Definition DefaultCRCleanUpWindow : Z := 24.
Definition WithoutBackupRepository : string := "without-backup-repository".
Definition WithoutDeleteSnapshot : string := "without-delete-snapshot".
Definition VeleroExcludeLabel : string := "velero.io/exclude-from-backup".
Definition VELERO_NAMESPACE : string := "VELERO_NAMESPACE".
Definition DefaultVeleroNamespace : string := "velero".

Inductive ClusterFlavor := Unknown | Supervisor | TkgGuest | VSphere.

#[export] Instance ClusterFlavor_eq_dec : EqDecision ClusterFlavor.
Proof. solve_decision. Defined.

(** ** Values the calls carry *)

(** A client-go configuration; [rc_handle] stands for the fields the code
    never looks at. *)
Record RestConfig := {
  rc_Host : string;
  rc_CAData : string;
  rc_BearerToken : string;
  rc_handle : N;
}.

(** A clientset built from a configuration: it fixes which API server a request
    goes to. *)
Record client := Client { cl_config : RestConfig }.

#[export] Instance RestConfig_eq_dec : EqDecision RestConfig.
Proof. solve_decision. Defined.
#[export] Instance client_eq_dec : EqDecision client.
Proof. solve_decision. Defined.

Inductive CopyCreateOptions := AllocateNewObject | UpdateExistingObject.

#[export] Instance CopyCreateOptions_eq_dec : EqDecision CopyCreateOptions.
Proof. solve_decision. Defined.

(** A [context.CancelFunc], by identity. *)
Abbreviation CancelFunc := N.

(** An [io.Reader], by identity. *)
Abbreviation reader := N.

(** How leaderelection.RunOrDie can end for a candidate: another node leads;
    it led until the callback cancelled the context; it led but lost the lease,
    so that RunOrDie returned before the callback had set its result. *)
Inductive lease := LeaseHeldByOther | LeaseHeld | LeaseLost.

(** The dynamic values of a [map[string]interface{}]: strings, maps of strings,
    and values of any other type, of which the code only ever prints the [%v]
    text. *)
Inductive iface :=
| IString (s : string)
| IMap (m : gmap string string)
| IValue (text : string).

#[export] Instance iface_eq_dec : EqDecision iface.
Proof. solve_decision. Defined.

Definition key_le (a b : string * string) : Prop := String.leb a.1 b.1 = true.

#[export] Instance key_le_dec a b : Decision (key_le a b).
Proof. unfold key_le. apply _. Defined.

(** [fmt.Sprintf("%v", x)]; a map is printed in the order of its keys. *)
Definition Sprintv (x : iface) : string :=
  match x with
  | IString s | IValue s => s
  | IMap m =>
      let entries := merge_sort key_le (map_to_list m) in
      "map[" +:+ Join ((λ '(k, v), k +:+ ":" +:+ v) <$> entries) " " +:+ "]"
  end.

Abbreviation params := (gmap string iface).

(** [m[k]] on a [map[string]string]. *)
Definition map_get (m : gmap string string) (k : string) : string :=
  default "" (m !! k).

(** An aws-sdk-go session as the code sets it up. *)
Record S3Session := {
  sess_Region : string;
  sess_Credentials : option (string * string);
  sess_CustomCABundle : option string;
  sess_Endpoint : option string;
  sess_S3ForcePathStyle : option bool;
}.

(** A vSphere configuration file: the cluster ID and the virtual centers
    (address, user, password, port) in the order a [range] visits them. *)
Record VcConfig := {
  vc_ClusterID : string;
  vc_VirtualCenter : list (string * (string * string * string));
}.

(** ** Third-party types and pure functions *)

(** astrolabe's protected-entity IDs, entities ([PE]) and type managers
    ([PETM]); client-go's key functions; go-version's ordering.
    [PETM_IsPVC] and its likes answer Go's type assertions;
    [PETM_AsDataManager] the one to DataManagerProtectedEntityTypeManager, with
    the manager embedded in it.  [S3PETM] is the type of the S3 managers, of which
    an assertion to another type fails, and [S3_nil] the nil pointer that a failed
    constructor leaves behind.  Data transports are only passed on: their
    constructors answer an error or nil.  [Unstructured] is apimachinery's
    untyped object with its accessors and converters, [ParseGroup] the group
    that ParseGroupVersion answers (the empty one with an error);
    [MarshalSnapshot] and its inverse are encoding/json at the type Snapshot;
    [GetVolumesByPod] is Velero's, [ParseFeatures] what pflag stores for the
    flag [features], [BuildVersion] is set by the linker. *)
Class Deps := {
  PEID : Type;
  PEID_eq_dec :: EqDecision PEID;
  PEID_zero : PEID;
  SnapID : Type;
  PE : Type;
  PETM : Type;
  S3PETM : Type;
  PETM_of_S3 : S3PETM → PETM;
  S3_nil : S3PETM;
  GetPeType : PEID → string;
  GetID : PEID → string;
  HasSnapshot : PEID → bool;
  GetSnapshotID : PEID → SnapID;
  IDWithSnapshot : PEID → SnapID → PEID;
  PEIDString : PEID → string;
  SnapIDString : SnapID → string;
  SnapIDGetID : SnapID → string;
  NewProtectedEntityIDFromString : string → result PEID;
  NewProtectedEntityIDWithNamespace : string → string → string → PEID;
  NewProtectedEntityID : string → string → PEID;
  NewProtectedEntityIDWithNamespaceAndSnapshot : string → string → string → string → PEID;
  NewProtectedEntityIDFromPVCName : string → string → PEID;
  VSphereCSIProvisioner : string;
  S3Config : Type;
  NewS3MDTransportForPEID : PEID → S3Config → option error;
  NewS3CombinedTransportForPEID : PEID → S3Config → option error;
  PE_GetID : PE → PEID;
  PETM_IsPVC : PETM → bool;
  PETM_IsParaVirt : PETM → bool;
  PETM_AsDataManager : PETM → option PETM;
  PETM_IsIVD : PETM → bool;
  S3_not_ivd m : PETM_IsIVD (PETM_of_S3 m) = false;
  SplitMetaNamespaceKey : string → result (string * string);
  MetaNamespaceKeyFunc : ObjectMeta → result string;
  Version : Type;
  NewVersion : string → option Version;
  Compare : Version → Version → Z;
  ReadStringInto : string → result VcConfig;
  UnmarshalPVC : string → result PersistentVolumeClaim;
  MarshalPVC : PersistentVolumeClaim → result string;
  MarshalSnapshot : Snapshot → result string;
  UnmarshalSnapshot : string → result Snapshot;
  Unstructured : Type;
  ItemAPIVersion : Unstructured → result string;
  ItemKind : Unstructured → result string;
  PVCFromUnstructured : Unstructured → result PersistentVolumeClaim;
  PVCToUnstructured : PersistentVolumeClaim → result Unstructured;
  PodFromUnstructured : Unstructured → result Pod;
  PodToUnstructured : Pod → result Unstructured;
  PVFromUnstructured : Unstructured → result PersistentVolume;
  PVToUnstructured : PersistentVolume → result Unstructured;
  ParseGroup : string → string;
  GetVolumesByPod : Pod → bool → list string;
  ParseFeatures : list string → string;
  BuildVersion : string;
}.

Coercion PETM_of_S3 : S3PETM >-> PETM.

(** What an informer tells its handlers. *)
Inductive watch_event (A : Type) := Added (a : A) | Updated (a : A) | Deleted (a : A).
Arguments Added {A} a.
Arguments Updated {A} a.
Arguments Deleted {A} a.

Section cmd.
Context `{Deps}.

Inductive Cmd : Type → Type :=
(* Kubernetes API servers *)
| LoadClientConfig : Cmd (result RestConfig)
| NewForConfig (c : RestConfig) : Cmd (result client)
| GetObj (c : client) (k : kind) (ns name : string) : Cmd (result (obj k))
| ListObj (c : client) (k : kind) (ns : string) : Cmd (result (list (obj k)))
| ListSelected (c : client) (k : kind) (ns selector : string) : Cmd (result (list (obj k)))
| CreateObj (c : client) (k : kind) (ns : string) (o : obj k) : Cmd (result (obj k))
| UpdateObj (c : client) (k : kind) (ns : string) (o : obj k) : Cmd (result (obj k))
| UpdateStatusObj (c : client) (k : kind) (ns : string) (o : obj k) : Cmd (result (obj k))
(* a JSON merge patch, given by the two objects it was computed from *)
| PatchObj (c : client) (k : kind) (ns name : string) (old new : obj k) : Cmd (result (obj k))
| DeleteObj (c : client) (k : kind) (ns name : string) : Cmd (option error)
| MarshalJSON (k : kind) (o : obj k) : Cmd (option error)
| CreateMergePatch (k : kind) (old new : obj k) : Cmd (option error)
(* informer caches: objects are shared with every reader of the cache *)
| ListerGet (k : kind) (ns name : string) : Cmd (result (obj k))
| ListerWrite (k : kind) (o : obj k) : Cmd unit
(* an informer's events in the order they are delivered, up to the time the
   context of the wait is done, with its error, or for ever *)
| Watch (c : client) (k : kind) (ns : string)
    : Cmd (list (watch_event (obj k)) * option error)
(* temporary files, and the credentials the AWS SDK reads from one *)
| CreateTemp : Cmd (result string)
| FileWrite (file content : string) : Cmd (option error)
| FileClose (file : string) : Cmd (option error)
| FileRemove (file : string) : Cmd unit
| SharedCredentials (file profile : string) : Cmd (result (string * string))
(* process environment *)
| Now : Cmd time
| LookupEnv (name : string) : Cmd (option string)
| NewUUID : Cmd (result string)
| PollTicks (interval timeout : Z) : Cmd nat
| PollForever (interval : Z) : Cmd nat
(* work queues *)
| QueueGet (q : string) : Cmd (string * bool)
| QueueAdd (q key : string) : Cmd unit
| QueueAddAfter (q key : string) (d : Z) : Cmd unit
| QueueAddRateLimited (q key : string) : Cmd unit
| QueueForget (q key : string) : Cmd unit
| QueueDone (q key : string) : Cmd unit
(* leases *)
| RunOrDie (name ns identity : string) : Cmd lease
(* the data mover's mutex and sync.Map, and cancellable contexts *)
| Lock : Cmd unit
| Unlock : Cmd unit
| WithCancel : Cmd CancelFunc
| Cancel (f : CancelFunc) : Cmd unit
| MapLoad (id : PEID) : Cmd (option CancelFunc)
| MapStore (id : PEID) (f : CancelFunc) : Cmd unit
| MapDelete (id : PEID) : Cmd unit
(* the backup driver's map from supervisor snapshots to guest snapshots *)
| SvcMapLoad (k : string) : Cmd (option string)
| SvcMapStore (k v : string) : Cmd unit
| SvcMapDelete (k : string) : Cmd unit
(* astrolabe *)
| PemGetProtectedEntity (id : PEID) : Cmd (result PE)
| PemGetTypeManager (t : string) : Cmd (option PETM)
| PetmGetProtectedEntity (m : PETM) (id : PEID) : Cmd (result PE)
| PetmCopy (m : PETM) (ctx : option CancelFunc) (pe : PE) (o : CopyCreateOptions) : Cmd (result PE)
| PeOverwrite (target source : PE) : Cmd (option error)
(* the entity may write to the map [p] it is given under the key [typ] *)
| PeSnapshot (pe : PE) (typ : string) (p : params) : Cmd (params * result SnapID)
| PeListSnapshots (pe : PE) : Cmd (result (list SnapID))
| PeDeleteSnapshot (pe : PE) (s : SnapID) (p : gmap string params) : Cmd (result bool)
| PeGetComponents (pe : PE) : Cmd (result (list PE))
| PeGetMetadataReader (pe : PE) : Cmd (result reader)
| ReadAll (r : reader) : Cmd (result string)
| WaitForPersistentVolumeClaimPhase (c : client) (phase ns name : string) : Cmd (option error)
| ReloadIvdConfig (m : PETM) (p : params) : Cmd (option error)
| NewSession (o : S3Session) : Cmd (option error)
| NewS3Repository (sess : S3Session) (bucket prefix : string) : Cmd (result S3PETM)
| CreateFromMetadata (m : PETM) (md : string) (id : PEID) (repo : option PETM)
    (ns name br : string) : Cmd (result PE).

Abbreviation io := (prog Cmd).

(** Calls that only read the process environment; no monitor below watches
    them. *)
Definition quiet {X} (e : Cmd X) : bool :=
  match e with
  | LoadClientConfig | NewForConfig _ | MarshalJSON _ _ | CreateMergePatch _ _ _
  | Now | LookupEnv _ | NewUUID | PollTicks _ _ | PollForever _ => true
  | _ => false
  end.

(** The records of work that controllers take on. *)
Definition work_record (k : kind) : bool :=
  match k with
  | KUpload | KDownload | KSnapshot | KCloneFromSnapshot | KDeleteSnapshot => true
  | _ => false
  end.

(** Calls that change nothing: the quiet ones, reads of objects other than
    records of work, temporary files and the set-up of repositories. *)
Definition reads {X} (e : Cmd X) : bool :=
  quiet e ||
  match e with
  | GetObj _ k _ _ | ListObj _ k _ | ListSelected _ k _ _ | ListerGet k _ _ => negb (work_record k)
  | CreateTemp | FileWrite _ _ | FileClose _ | FileRemove _ | SharedCredentials _ _
  | NewSession _ | NewS3Repository _ _ _ => true
  | _ => false
  end.

(** Everything but the mutex. *)
Definition lock_free {X} (e : Cmd X) : bool :=
  match e with Lock | Unlock => false | _ => true end.

Lemma reads_lock_free X (e : Cmd X) : reads e = true → lock_free e = true.
Proof. by destruct e. Qed.

(** A monitor that does not follow the quiet calls; it may rule out answers to
    them. *)
Class Quiet {S} (mon : monitor Cmd S) :=
  quiet_next : ∀ s X (e : Cmd X) x, quiet e = true →
    mon s X e x = Next s ∨ mon s X e x = Impossible.

(** ** k8s.io/apimachinery/pkg/util/wait

    [PollTicks] answers how many times the ticker fires before the timeout;
    [PollImmediate] tries its condition once before the first tick. *)
Definition PollImmediate {St R} (interval timeout : Z)
    (cond : St → io (St * poll_step R)) (st : St) : io (St * result R) :=
  Do (PollTicks interval timeout) (λ n, poll_loop n cond st).

(** A wait without timeout ends within some number of tries, or never. *)
Fixpoint poll_forever {R} (tries : nat) (cond : io (poll_step R)) : io (result R) :=
  match tries with
  | O => Hang "wait.PollImmediateInfinite"
  | S n =>
      let! r := cond in
      match r with
      | PollDone x => Ret (Ok x)
      | PollFail e => Ret (Err e)
      | PollAgain => poll_forever n cond
      end
  end.

Definition PollImmediateInfinite {R} (interval : Z) (cond : io (poll_step R)) : io (result R) :=
  Do (PollForever interval) (λ n, poll_forever n cond).
(** An environment in which every request fails and nothing is there: the
    handlers of concrete runs are built on it. *)
Definition unavailable : error :=
  External {| ext_msg := "unavailable"; ext_not_found := false;
              ext_already_exists := false; ext_canceled := false |}.

Definition default_answer {X} (e : Cmd X) : X :=
  match e in Cmd X return X with
  | LoadClientConfig | NewForConfig _ | GetObj _ _ _ _ | ListObj _ _ _ | ListSelected _ _ _ _
  | CreateObj _ _ _ _
  | UpdateObj _ _ _ _ | UpdateStatusObj _ _ _ _ | PatchObj _ _ _ _ _ _ | ListerGet _ _ _
  | CreateTemp | SharedCredentials _ _ | NewUUID | PemGetProtectedEntity _
  | PetmGetProtectedEntity _ _ | PetmCopy _ _ _ _ | PeListSnapshots _ | PeDeleteSnapshot _ _ _
  | PeGetComponents _ | PeGetMetadataReader _ | ReadAll _ | NewS3Repository _ _ _
  | CreateFromMetadata _ _ _ _ _ _ _ => Err unavailable
  | DeleteObj _ _ _ _ | FileWrite _ _ | FileClose _ | PeOverwrite _ _
  | WaitForPersistentVolumeClaimPhase _ _ _ _
  | ReloadIvdConfig _ _ | NewSession _ => Some unavailable
  | MarshalJSON _ _ | CreateMergePatch _ _ _ => None
  | ListerWrite _ _ | FileRemove _ | QueueAdd _ _ | QueueAddAfter _ _ _
  | QueueAddRateLimited _ _ | QueueForget _ _ | QueueDone _ _ | Lock | Unlock | Cancel _
  | MapStore _ _ | MapDelete _ | SvcMapStore _ _ | SvcMapDelete _ => tt
  | Watch _ _ _ => ([], None)
  | Now => 0
  | LookupEnv _ | MapLoad _ | SvcMapLoad _ | PemGetTypeManager _ => None
  | PollTicks _ _ | PollForever _ => 5%nat
  | QueueGet _ => ("", true)
  | RunOrDie _ _ _ => LeaseHeldByOther
  | WithCancel => 0%N
  | PeSnapshot _ _ p => (p, Err unavailable)
  end.
End cmd.
Arguments Cmd {_} _.
Arguments Quiet {_ _} _.
Abbreviation io := (prog Cmd).

(** Steps over a quiet call whose answer was just introduced, and proves that a
    monitor is quiet. *)
Ltac quiet_step :=
  match goal with
  | |- context [?mon ?s ?X ?e ?x] =>
      let Hq := fresh "Hq" in
      destruct (quiet_next (mon := mon) s X e x eq_refl) as [Hq|Hq]; rewrite Hq; clear Hq;
      [|exact I]
  end.

Ltac solve_quiet :=
  let s := fresh in let X := fresh in let e := fresh in let x := fresh in let Hq := fresh in
  intros s X e x Hq; destruct e; try discriminate Hq; cbn;
  repeat case_match; auto.

Lemma safe_PollImmediate `{Deps} {S St R} (mon : monitor Cmd S) `{!Quiet mon}
    (cond : St → io (St * poll_step R)) (I : St → S → Prop)
    (Q : outcome (St * result R) → S → Prop) interval timeout st s :
  I st s →
  (∀ st s, I st s → safe mon (cond st) (λ o s',
      match o with
      | Returned (st', PollDone x) => Q (Returned (st', Ok x)) s'
      | Returned (st', PollFail e) => Q (Returned (st', Err e)) s'
      | Returned (st', PollAgain) =>
          I st' s' ∧ Q (Returned (st', Err ErrWaitTimeout)) s'
      | Panicked w => Q (Panicked w) s'
      | Hung w => Q (Hung w) s'
      end) s) →
  safe mon (PollImmediate interval timeout cond st) Q s.
Proof.
  intros HI Hc n. quiet_step.
  by apply (safe_poll_loop mon cond I).
Qed.

Lemma safe_PollImmediateInfinite `{Deps} {S R} (mon : monitor Cmd S) `{!Quiet mon}
    (cond : io (poll_step R)) (I : S → Prop) (Q : outcome (result R) → S → Prop) interval s :
  I s →
  (∀ s, I s → ∀ w, Q (Hung w) s) →
  (∀ s, I s → safe mon cond (λ o s',
      match o with
      | Returned (PollDone x) => Q (Returned (Ok x)) s'
      | Returned (PollFail e) => Q (Returned (Err e)) s'
      | Returned PollAgain => I s'
      | Panicked w => Q (Panicked w) s'
      | Hung w => Q (Hung w) s'
      end) s) →
  safe mon (PollImmediateInfinite interval cond) Q s.
Proof.
  intros HI Hh Hc n. quiet_step.
  revert s HI. induction n as [|n IH]; intros s HI; cbn; [auto|].
  apply safe_bind. eapply safe_mono; [exact (Hc s HI)|].
  intros [[|x|e]|w|w] s' H'; cbn; auto.
Qed.

(** The same for a monitor that is in no way changed by the number of tries. *)
Lemma safe_PollForever `{Deps} {S R} (mon : monitor Cmd S) (cond : io (poll_step R)) (I : S → Prop)
    (Q : outcome (result R) → S → Prop) interval s :
  I s → (∀ s n, I s → mon s _ (PollForever interval) n = Next s) →
  (∀ s, I s → ∀ w, Q (Hung w) s) →
  (∀ s, I s → safe mon cond (λ o s',
      match o with
      | Returned (PollDone x) => Q (Returned (Ok x)) s'
      | Returned (PollFail e) => Q (Returned (Err e)) s'
      | Returned PollAgain => I s'
      | Panicked w => Q (Panicked w) s'
      | Hung w => Q (Hung w) s'
      end) s) →
  safe mon (PollImmediateInfinite interval cond) Q s.
Proof.
  intros HI Hm Hh Hc n. rewrite Hm by done. revert s HI. induction n as [|n IH]; intros s HI; cbn; [by apply Hh|].
  apply safe_bind. eapply safe_mono; [by apply Hc|].
  intros [[|x|e]|w|w] s' H'; cbn; auto.
Qed.

#[global] Arguments PollImmediate : simpl never.
#[global] Arguments PollImmediateInfinite : simpl never.

Lemma calls_only_PollImmediate `{Deps} {St R} (C : ∀ X, Cmd X → bool)
    (cond : St → io (St * poll_step R)) interval timeout st :
  C _ (PollTicks interval timeout) = true →
  (∀ st, calls_only C (cond st)) → calls_only C (PollImmediate interval timeout cond st).
Proof. intros HC Hc. split; [done|]. intros n. by apply calls_only_poll. Qed.

(** Polling in a proof of [calls_only]. *)
Ltac calls_poll := match goal with
  | |- calls_only _ (PollImmediate _ _ _ _) => apply calls_only_PollImmediate; [reflexivity|intros ?]
  end.
Ltac calls_all := repeat (first [calls_poll | progress calls_tac]).
