(* ===== verification/Images.v ===== *)
(** * Container images and versions (pkg/utils/utils.go, pkg/cmd/utils.go)

    The parser of image names, the version it yields, the CSI driver version and
    cluster type read off a pod template, and the image the installers derive
    from the plugin's own. *)

From S2P Require Export Env.
Open Scope Z_scope.

Definition ImageRepositoryComponent : string := "Repository".
Definition ImageContainerComponent : string := "Container".
Definition ImageVersionComponent : string := "Version".
Definition VSphereCSIController : string := "vsphere-csi-controller".
Definition VSphereCSIControllerNamespace : string := "vmware-system-csi".
Definition KubeSystemNamespace : string := "kube-system".
Definition VeleroPluginForVsphere : string := "velero-plugin-for-vsphere".
Definition VeleroDeployment : string := "velero".
Definition CsiDevVersion : string := "v0.0.0".
Definition CsiMinVersion : string := "v1.0.2".
Definition Csi2_3_0_Version : string := "v2.3.0".
Definition Csi2_0_0_Version : string := "v2.0.0".

Definition GetComponentsFromImage (image : string) : gmap string string :=
  if bool_decide (image = "") then ∅
  else
    let '(components, taggedContainer) :=
      match cut_last "/" image with
      | None => (∅, image)
      | Some (l, r) => ({[ImageRepositoryComponent := l]}, r)
      end in
    match SplitN2 taggedContainer ":" with
    | [c; v] =>
        <[ImageContainerComponent := c]> (<[ImageVersionComponent := v]> components)
    | c :: _ => <[ImageContainerComponent := c]> components
    | [] => components
    end.

Definition GetComponentFromImage (image component : string) : string :=
  map_get (GetComponentsFromImage image) component.

(** Return version in the format: vX.Y.Z *)
Definition GetVersionFromImage (containers : list Container) (imageName : string) : string :=
  let tag :=
    match list_find (λ c, Contains (ctr_Image c) imageName = true) containers with
    | Some (_, c) => GetComponentFromImage (ctr_Image c) ImageVersionComponent
    | None => ""
    end in
  if bool_decide (tag = "") then ""
  else if Contains tag "-" then hd "" (Split tag "-")
  else tag.

Definition GetCSIVersionFromImage (containers : list Container) : result string :=
  let v := GetVersionFromImage containers "cloud-provider-vsphere/csi/release/driver" in
  let v :=
    if bool_decide (v = "") then
      let v := GetVersionFromImage containers "cloud-provider-vsphere/csi/ci/driver" in
      if bool_decide (v = "") then v else CsiDevVersion
    else v in
  if bool_decide (v = "") then Err (ErrorString "Expected CSI driver images not found")
  else Ok v.

(** The first [CLUSTER_FLAVOR] variable of the first CSI controller container
    decides; a controller without one is a vanilla deployment. *)
Definition GetCSIClusterTypeFromEnv (containers : list Container) : result ClusterFlavor :=
  match list_find (λ c, ctr_Name c = VSphereCSIController) containers with
  | Some (_, c) =>
      match list_find (λ e, e.1 = "CLUSTER_FLAVOR") (ctr_Env c) with
      | Some (_, e) =>
          if bool_decide (e.2 = "WORKLOAD") then Ok Supervisor
          else if bool_decide (e.2 = "GUEST_CLUSTER") then Ok TkgGuest
          else Ok Unknown
      | None => Ok VSphere
      end
  | None =>
      Err (ErrorString "Expected CSI driver container images not found while inferring cluster type.")
  end.

Section images.
Context `{Deps}.

(** If currentVersion < minVersion, return -1, and so on; -1 as well when one
    of the two does not parse. *)
Definition CompareVersion (currentVersion minVersion : string) : Z :=
  match NewVersion currentVersion, NewVersion minVersion with
  | Some current, Some minimum => Compare current minimum
  | _, _ => -1
  end.

Definition CSINotInstalled : error :=
  ErrorString ("vSphere CSI controller, " +:+ VSphereCSIController +:+
    ", is required by velero-plugin-for-vsphere. Please make sure the vSphere CSI controller is installed in the cluster").

Definition GetCSIInstalledVersion (kubeClient : client) : io (result string) :=
  let found (wl : Workload) (dev : string) : io (result string) :=
    match GetCSIVersionFromImage (wl_Containers wl) with
    | Err e => Ret (Err e)
    | Ok v => Ret (Ok (if bool_decide (v = CsiDevVersion) then dev else v))
    end in
  Do (GetObj kubeClient KDeployment VSphereCSIControllerNamespace VSphereCSIController) (λ r,
  match r with Ok d => found d Csi2_3_0_Version | Err _ =>
  Do (GetObj kubeClient KDeployment KubeSystemNamespace VSphereCSIController) (λ r,
  match r with Ok d => found d Csi2_0_0_Version | Err _ =>
  Do (GetObj kubeClient KStatefulSet KubeSystemNamespace VSphereCSIController) (λ r,
  match r with Ok d => found d CsiMinVersion | Err _ =>
  Ret (Err CSINotInstalled)
  end) end) end).

Definition GetCSIClusterType (kubeClient : client) : io (result ClusterFlavor) :=
  let found (wl : Workload) : io (result ClusterFlavor) :=
    Ret (GetCSIClusterTypeFromEnv (wl_Containers wl)) in
  Do (GetObj kubeClient KDeployment VSphereCSIControllerNamespace VSphereCSIController) (λ r,
  match r with Ok d => found d | Err _ =>
  Do (GetObj kubeClient KDeployment KubeSystemNamespace VSphereCSIController) (λ r,
  match r with Ok d => found d | Err _ =>
  Do (GetObj kubeClient KStatefulSet KubeSystemNamespace VSphereCSIController) (λ r,
  match r with Ok d => found d | Err _ =>
  Ret (Err CSINotInstalled)
  end) end) end).

(** pkg/cmd: the image of [targetContainer] in the repository and with the tag
    of the plugin's init container. *)
Definition resultImage (image targetContainer : string) : string :=
  let repo := GetComponentFromImage image ImageRepositoryComponent in
  let tag := GetComponentFromImage image ImageVersionComponent in
  let r := if bool_decide (repo = "") then targetContainer
           else repo +:+ "/" +:+ targetContainer in
  if bool_decide (tag = "") then r else r +:+ ":" +:+ tag.

Definition GetCompatibleRepoAndTagFromPluginImage (kubeClient : client)
    (namespace targetContainer : string) : io (result string) :=
  let? d := call (GetObj kubeClient KDeployment namespace VeleroDeployment) else _ =>
    Ret (Err (ErrorString ("Failed to get velero deployment in namespace " +:+ namespace))) in
  let image :=
    match list_find (λ c, GetComponentFromImage (ctr_Image c) ImageContainerComponent
                          = VeleroPluginForVsphere) (wl_InitContainers d) with
    | Some (_, c) => ctr_Image c
    | None => ""
    end in
  if bool_decide (image = "") then
    Ret (Err (ErrorString "The plugin, velero-plugin-for-vsphere, was not added as an init container of Velero deployment"))
  else Ret (Ok (resultImage image targetContainer)).

Definition CheckVSphereCSIDriverVersion (kubeClient : client) (clusterFlavor : ClusterFlavor)
    : io (option error) :=
  if bool_decide (clusterFlavor ≠ VSphere) then Ret None
  else
    let? v := GetCSIInstalledVersion kubeClient else e => Ret (Some e) in
    if CompareVersion v CsiMinVersion <? 0 then
      Ret (Some (ErrorString ("The version of vSphere CSI controller " +:+ v +:+
        " is below the minimum requirement v1.0.2")))
    else Ret None.
End images.

(** ** The parser loses nothing *)

(** Putting the components back together. *)
Definition image_of (m : gmap string string) : string :=
  (match m !! ImageRepositoryComponent with Some r => r +:+ "/" | None => "" end) +:+
  map_get m ImageContainerComponent +:+
  (match m !! ImageVersionComponent with Some v => ":" +:+ v | None => "" end).

Lemma components_spec image :
  image ≠ "" →
  ∃ repo container version,
    GetComponentsFromImage image !! ImageRepositoryComponent = repo ∧
    GetComponentsFromImage image !! ImageContainerComponent = Some container ∧
    GetComponentsFromImage image !! ImageVersionComponent = version ∧
    image = (match repo with Some r => r +:+ "/" | None => "" end) +:+
            container +:+ (match version with Some v => ":" +:+ v | None => "" end) ∧
    has_byte ":" container = false ∧ has_byte "/" container = false ∧
    (∀ v, version = Some v → has_byte "/" v = false).
Proof.
  intros Hi. unfold GetComponentsFromImage. rewrite bool_decide_false by done.
  assert (Hsplit : ∀ t, has_byte "/" t = false →
    ∃ c ov, SplitN2 t ":" = c :: match ov with Some v => [v] | None => [] end ∧
      t = c +:+ (match ov with Some v => ":" +:+ v | None => "" end) ∧
      has_byte ":" c = false ∧ has_byte "/" c = false ∧
      ∀ v, ov = Some v → has_byte "/" v = false).
  { intros t Ht. unfold SplitN2. destruct (cut ":" t) as [[l r]|] eqn:Hc.
    - apply cut_spec in Hc as [-> Hl].
      rewrite has_byte_app in Ht. apply orb_false_elim in Ht as [Hl' Hr].
      exists l, (Some r). repeat split; try done. by intros v [= <-].
    - apply cut_none in Hc. exists t, None.
      repeat split; try done. by rewrite str_app_nil_r. }
  destruct (cut_last "/" image) as [[l r]|] eqn:Hl.
  - apply cut_last_spec in Hl as [-> Hr].
    destruct (Hsplit r Hr) as (c & ov & -> & -> & ? & ? & ?).
    exists (Some l), c, ov.
    destruct ov as [v|]; split_and!; try done; by rewrite ?str_app_assoc.
  - assert (Hn : has_byte "/" image = false).
    { clear -Hl. induction image as [|a s IH]; cbn in *; [done|].
      destruct (cut_last "/" s) as [[? ?]|]; [done|].
      destruct (bool_decide (a = "/"%char)); [done|]. by apply IH. }
    destruct (Hsplit image Hn) as (c & ov & -> & Himg & ? & ? & ?).
    exists None, c, ov. destruct ov as [v|]; by split_and!.
Qed.

(** Parsing an image name loses nothing: joining the
    repository, container and version components with ["/"] and [":"] gives the
    name back, for every string. *)
Theorem image_components_roundtrip image :
  image_of (GetComponentsFromImage image) = image.
Proof.
  destruct (decide (image = "")) as [->|Hi]; [done|].
  destruct (components_spec image Hi) as (r & c & v & Hr & Hc & Hv & Heq & _).
  unfold image_of, map_get. by rewrite Hr, Hc, Hv.
Qed.

Lemma components_of (repo : option string) c (v : option string) :
  has_byte ":" c = false → has_byte "/" c = false → c ≠ "" →
  (∀ x, v = Some x → has_byte "/" x = false) →
  GetComponentsFromImage ((match repo with Some r => r +:+ "/" | None => "" end) +:+
    c +:+ (match v with Some v => ":" +:+ v | None => "" end)) =
  <[ImageContainerComponent := c]>
    ((match v with Some v => insert ImageVersionComponent v | None => id end)
      (match repo with Some r => {[ImageRepositoryComponent := r]} | None => ∅ end)).
Proof.
  intros Hc Hs Hne Hv. unfold GetComponentsFromImage.
  set (t := c +:+ _).
  assert (Ht : has_byte "/" t = false).
  { subst t. rewrite has_byte_app, Hs. destruct v as [v|]; [|done].
    specialize (Hv v eq_refl). done. }
  assert (Htne : t ≠ "").
  { subst t. by destruct c. }
  assert (Hsp : SplitN2 t ":" = c :: match v with Some v => [v] | None => [] end).
  { subst t. unfold SplitN2. destruct v as [v|].
    - by rewrite (proj2 (cut_spec ":" _ c v)).
    - rewrite str_app_nil_r. by rewrite (proj2 (cut_none ":" c)). }
  destruct repo as [r|].
  - rewrite bool_decide_false by (by destruct r).
    rewrite (proj2 (cut_last_spec "/" _ r t)) by (by rewrite str_app_assoc).
    rewrite Hsp. by destruct v.
  - change ("" +:+ t) with t. rewrite bool_decide_false by done.
    destruct (cut_last "/" t) as [[a b]|] eqn:Hl.
    { apply cut_last_spec in Hl as [Hl _]. rewrite Hl, has_byte_app in Ht.
      cbn in Ht. by rewrite orb_true_r in Ht. }
    rewrite Hsp. by destruct v.
Qed.

(** The image the installers use for a component keeps the
    repository and the version of the plugin's image and replaces its container
    name. *)
Theorem resultImage_components image target :
  has_byte ":" target = false → has_byte "/" target = false → target ≠ "" →
  GetComponentFromImage (resultImage image target) ImageContainerComponent = target ∧
  GetComponentFromImage (resultImage image target) ImageRepositoryComponent =
    GetComponentFromImage image ImageRepositoryComponent ∧
  GetComponentFromImage (resultImage image target) ImageVersionComponent =
    GetComponentFromImage image ImageVersionComponent.
Proof.
  intros Hc Hs Hne. unfold resultImage.
  set (repo := GetComponentFromImage image ImageRepositoryComponent).
  set (tag := GetComponentFromImage image ImageVersionComponent).
  assert (Htag : has_byte "/" tag = false).
  { subst tag. unfold GetComponentFromImage, map_get.
    destruct (decide (image = "")) as [->|Hi]; [done|].
    destruct (components_spec image Hi) as (? & ? & v & _ & _ & -> & _ & _ & _ & Hv).
    destruct v as [v|]; cbn; auto. }
  pose (orepo := if bool_decide (repo = "") then None else Some repo).
  pose (otag := if bool_decide (tag = "") then None else Some tag).
  assert (H : (if bool_decide (tag = "")
               then if bool_decide (repo = "") then target else repo +:+ "/" +:+ target
               else (if bool_decide (repo = "") then target else repo +:+ "/" +:+ target)
                    +:+ ":" +:+ tag) =
    (match orepo with Some r => r +:+ "/" | None => "" end) +:+
     target +:+ (match otag with Some v => ":" +:+ v | None => "" end)).
  { subst orepo otag. repeat case_bool_decide; cbn;
      rewrite ?str_app_assoc, ?str_app_nil_r; done. }
  cbv zeta. rewrite H. unfold GetComponentFromImage.
  rewrite !components_of by
    (done || (subst otag; intros x; case_bool_decide; naive_solver)).
  unfold map_get. rewrite lookup_insert_eq.
  rewrite !lookup_insert_ne by done. split_and!; [done|..]; subst orepo otag.
  - repeat case_bool_decide; cbn; rewrite ?lookup_insert_ne by done;
      rewrite ?lookup_singleton_eq, ?lookup_empty; done.
  - repeat case_bool_decide; cbn; rewrite ?lookup_insert_eq,
      ?lookup_singleton_ne, ?lookup_empty by done; done.
Qed.

Example resultImage_components_witness :
  has_byte ":" "backup-driver" = false ∧
  GetComponentFromImage (resultImage "reg.io/velero/velero-plugin-for-vsphere:v1.3.0" "backup-driver")
    ImageContainerComponent = "backup-driver" ∧
  GetComponentFromImage (resultImage "reg.io/velero/velero-plugin-for-vsphere:v1.3.0" "backup-driver")
    ImageRepositoryComponent = "reg.io/velero" ∧
  GetComponentFromImage (resultImage "reg.io/velero/velero-plugin-for-vsphere:v1.3.0" "backup-driver")
    ImageVersionComponent = "v1.3.0".
Proof.
  split; [reflexivity|].
  exact (resultImage_components "reg.io/velero/velero-plugin-for-vsphere:v1.3.0" "backup-driver"
    eq_refl eq_refl ltac:(discriminate)).
Defined.

Lemma hd_Split_no_sep sep s : has_byte sep (hd "" (Split s sep)) = false.
Proof.
  assert (H : ∀ s acc, has_byte sep acc = false →
    has_byte sep (hd "" (split_aux sep s acc)) = false).
  { clear. induction s as [|a s IH]; intros acc Ha; cbn.
    - assert (Hr : ∀ t acc, has_byte sep (str_rev t acc) =
                            has_byte sep t || has_byte sep acc).
      { clear. induction t as [|b t IH]; intros acc; cbn; [done|].
        rewrite IH. cbn. by destruct (bool_decide (b = sep)), (has_byte sep t). }
      by rewrite Hr, Ha.
    - case_bool_decide; cbn.
      + assert (Hr : ∀ t acc, has_byte sep (str_rev t acc) =
                              has_byte sep t || has_byte sep acc).
        { clear. induction t as [|b t IH]; intros acc; cbn; [done|].
          rewrite IH. cbn. by destruct (bool_decide (b = sep)), (has_byte sep t). }
        by rewrite Hr, Ha.
      + apply IH. cbn. by rewrite bool_decide_false. }
  by apply H.
Qed.

Lemma Contains_byte s c : Contains s (String c "") = has_byte c s.
Proof.
  induction s as [|a s IH]; cbn; [done|]. rewrite IH.
  f_equal. rewrite andb_true_r. apply bool_decide_ext. naive_solver.
Qed.

(** The version read off an image never holds a build suffix:
    it has no ["-"]. *)
Theorem GetVersionFromImage_no_suffix containers imageName :
  has_byte "-" (GetVersionFromImage containers imageName) = false.
Proof.
  unfold GetVersionFromImage. set (tag := match _ with Some _ => _ | None => _ end).
  case_bool_decide; [done|].
  destruct (Contains tag "-") eqn:Hc; [apply hd_Split_no_sep|].
  by rewrite <- Contains_byte.
Qed.
