(* ===== verification/Utils.v ===== *)
(** * Shared utilities (pkg/utils/utils.go)

    Cluster flavour, feature flags and configuration lookups, the vCenter secret,
    backup storage locations and S3 parameters, the node a volume is attached
    to, and the merge patch of an Upload. *)

From S2P Require Export Images.
Open Scope Z_scope.

Definition VeleroVSpherePluginConfig : string := "velero-vsphere-plugin-config".
Definition VSpherePluginFeatureStates : string := "velero-vsphere-plugin-feature-states".
Definition ConfigClusterFlavorKey : string := "cluster_flavor".
Definition VSphereSecretNamespaceKey : string := "vsphere_secret_namespace".
Definition VSphereSecretNameKey : string := "vsphere_secret_name".
Definition DefaultSecretName : string := "velero-vsphere-config-secret".
Definition DefaultSecretNamespace : string := "velero".
Definition UploadCRRetryMaximumKey : string := "upload-cr-retry-max".
Definition VSphereLocalModeFlag : string := "local-mode".
Definition DecoupleVSphereCSIDriverFlag : string := "decouple-vsphere-csi-driver".
Definition VCSecretNs : string := "kube-system".
Definition VCSystemCSINs : string := "vmware-system-csi".
Definition VCSecretNsSupervisor : string := "vmware-system-csi".
Definition VCSecret : string := "vsphere-config-secret".
Definition VCSecretTKG : string := "csi-vsphere-config".
Definition DefaultVCenterPort : string := "443".
Definition DefaultS3RepoPrefix : string := "plugins/vsphere-astrolabe-repo".
Definition DefaultS3BackupLocation : string := "default".
Definition CloudCredentialSecretName : string := "cloud-credentials".
Definition AWS_ACCESS_KEY_ID : string := "aws_access_key_id".
Definition AWS_SECRET_ACCESS_KEY : string := "aws_secret_access_key".

Definition ConvertConfigClusterFlavor (flavor : string) : ClusterFlavor :=
  if bool_decide (flavor = "VANILLA") then VSphere
  else if bool_decide (flavor = "GUEST") then TkgGuest
  else if bool_decide (flavor = "SUPERVISOR") then Supervisor
  else Unknown.

Definition GetBool (str : string) (defValue : bool) : bool :=
  if bool_decide (str = "") then defValue
  else match ParseBool str with Some res => res | None => defValue end.

(** [("", false)] when the key is missing or its value is not a string. *)
Definition GetStringFromParamsMap (ps : params) (key : string) : string * bool :=
  match ps !! key with
  | Some (IString value) => (value, true)
  | _ => ("", false)
  end.

Definition AppendVeleroExcludeLabels (origLabels : gmap string string) : gmap string string :=
  <[VeleroExcludeLabel := "true"]> origLabels.

(** It assigns to the labels of the object. *)
Definition AddVeleroExcludeLabelToObjectMeta (objectMeta : ObjectMeta) : ObjectMeta :=
  objectMeta <| om_Labels := AppendVeleroExcludeLabels (om_Labels objectMeta) |>.

Definition NewNotFoundError (errMsg : string) : error := NotFoundError errMsg.
Definition NewClientConfigNotFoundError (errMsg : string) : error := ClientConfigNotFoundError errMsg.

Section utils.
Context `{Deps}.

(** ** Clients *)

(** With a scheme that knows Velero's types as well. *)
Definition NewVeleroK8sClient (config : RestConfig) : io (result client) := call (NewForConfig config).

Definition GetKubeClientConfig : io (result RestConfig) :=
  let? c := call LoadClientConfig else e =>
    Ret (Err (Wrap e "Error finding Kubernetes API server config in $KUBECONFIG, or in-cluster configuration")) in
  Ret (Ok c).

Definition GetKubeClientSet (config : RestConfig) : io (result client) :=
  call (NewForConfig config).

Definition GetVeleroNamespace : io (option string) := call (LookupEnv VELERO_NAMESPACE).

(** The namespace with the default that several callers fall back to. *)
Definition veleroNamespaceOrDefault : io string :=
  let! ns := GetVeleroNamespace in
  Ret (default DefaultVeleroNamespace ns).

Definition CreateKubeClientSet : io (result client) :=
  let? clientConfig := GetKubeClientConfig else e =>
    Ret (Err (NewClientConfigNotFoundError ("Could not get client config with err: " +:+ Error e))) in
  let? clientset := call (NewForConfig clientConfig) else e =>
    Ret (Err (Wrap e "Could not create kubernetes clientset")) in
  Ret (Ok clientset).

(** [%v] of the configuration is left out of the message. *)
Definition CreatePluginClientSet : io (result client) :=
  let? clientConfig := GetKubeClientConfig else e =>
    Ret (Err (NewClientConfigNotFoundError ("Could not get client config with err: " +:+ Error e))) in
  let? clientset := call (NewForConfig clientConfig) else e =>
    Ret (Err (Wrap e "Could not create plugin clientset with the given config")) in
  Ret (Ok clientset).

(** The prologue [config == nil] of several functions. *)
Definition configOr (config : option RestConfig) : io (result RestConfig) :=
  match config with Some c => Ret (Ok c) | None => GetKubeClientConfig end.

(** ** Cluster flavour and features *)

Definition GetClusterTypeFromConfig (kubeClient : client) (veleroNs configName : string)
    : io (result ClusterFlavor) :=
  let? cm := call (GetObj kubeClient KConfigMap veleroNs configName) else e => Ret (Err e) in
  match cm_Data cm !! ConfigClusterFlavorKey with
  | Some flavor => Ret (Ok (ConvertConfigClusterFlavor flavor))
  | None => Ret (Ok Unknown)
  end.

(** It never fails: an undetermined flavour becomes [VSphere]. *)
Definition retrieveClusterFlavor (clientset : client) (veleroNs : string) : io ClusterFlavor :=
  let! r := GetClusterTypeFromConfig clientset veleroNs VeleroVSpherePluginConfig in
  let flavor := match r with Ok f => f | Err _ => Unknown end in
  let! flavor :=
    (if bool_decide (flavor = Unknown) then
       let! r := GetCSIClusterType clientset in
       Ret (match r with Ok f => f | Err _ => Unknown end)
     else Ret flavor) in
  Ret (if bool_decide (flavor = Unknown) then VSphere else flavor).

Definition GetClusterFlavor (config : option RestConfig) : io (result ClusterFlavor) :=
  let? config := configOr config else e => Ret (Err e) in
  let? clientset := GetKubeClientSet config else e => Ret (Err e) in
  let! veleroNs := veleroNamespaceOrDefault in
  let! f := retrieveClusterFlavor clientset veleroNs in
  Ret (Ok f).

Definition RetrieveClusterFlavor (config : option RestConfig) (veleroNs : string)
    : io (result ClusterFlavor) :=
  let? config := configOr config else e => Ret (Err e) in
  let? clientset := GetKubeClientSet config else e => Ret (Err e) in
  let! f := retrieveClusterFlavor clientset veleroNs in
  Ret (Ok f).

Definition IsFeatureEnabled (clientset : client) (feature : string) (defValue : bool) : io bool :=
  if bool_decide (feature = "") then Ret defValue
  else
    let! veleroNs := veleroNamespaceOrDefault in
    let? cm := call (GetObj clientset KConfigMap veleroNs VSpherePluginFeatureStates)
      else _ => Ret defValue in
    Ret (default defValue (ParseBool (map_get (cm_Data cm) feature))).

(** ** Plugin configuration *)

Definition GetSecretNamespaceAndName (kubeClient : client) (veleroNs configName : string)
    : io (string * string) :=
  let? cm := call (GetObj kubeClient KConfigMap veleroNs configName)
    else _ => Ret (DefaultSecretNamespace, DefaultSecretName) in
  Ret (default DefaultSecretNamespace (cm_Data cm !! VSphereSecretNamespaceKey),
       default DefaultSecretName (cm_Data cm !! VSphereSecretNameKey)).

Definition GetUploadCRRetryMaximumFromConfig (kubeClient : client) (veleroNs configName : string)
    : io Z :=
  let? cm := call (GetObj kubeClient KConfigMap veleroNs configName)
    else _ => Ret DefaultUploadCRRetryMaximum in
  match cm_Data cm !! UploadCRRetryMaximumKey with
  | Some s => Ret (default DefaultUploadCRRetryMaximum (Atoi s))
  | None => Ret DefaultUploadCRRetryMaximum
  end.

Definition GetUploadCRRetryMaximum (config : option RestConfig) : io Z :=
  let? config := configOr config else _ => Ret DefaultUploadCRRetryMaximum in
  let? clientset := GetKubeClientSet config else _ => Ret DefaultUploadCRRetryMaximum in
  let! veleroNs := veleroNamespaceOrDefault in
  GetUploadCRRetryMaximumFromConfig clientset veleroNs VeleroVSpherePluginConfig.

(** ** The vCenter secret *)

(** Only the first value the [range] visits is read; every virtual center
    overwrites the parameters of the one before. *)
Definition ParseConfig (secret : Secret) (ps : params) : result params :=
  let conf :=
    match sec_Data secret with
    | [] => Ok {| vc_ClusterID := ""; vc_VirtualCenter := [] |}
    | (_, value) :: _ => ReadStringInto value
    end in
  match conf with
  | Err e => Err e
  | Ok conf =>
      Ok (foldl (λ ps '(ip, (user, password, port)),
            <["port" := IString (if bool_decide (port = "") then DefaultVCenterPort else port)]>
            (<["password" := IString password]>
            (<["user" := IString user]>
            (<["VirtualCenter" := IString ip]> ps))))
          (<["cluster-id" := IString (vc_ClusterID conf)]> ps) (vc_VirtualCenter conf))
  end.

(** The first secret of the list that can be read; the last error if none. *)
Fixpoint firstSecret (c : client) (ns : string) (names : list string) (last : option error)
    : io (option Secret * option error) :=
  match names with
  | [] => Ret (None, last)
  | n :: names =>
      Do (GetObj c KSecret ns n) (λ r,
      match r with
      | Ok s => Ret (Some s, None)
      | Err e => firstSecret c ns names (Some e)
      end)
  end.

(** Where the vCenter secret is, for the flavours that have one. *)
Definition secretLocation (clientset : client) (veleroNs : string) (flavor : ClusterFlavor)
    : io (result (string * list string)) :=
  match flavor with
  | Unknown => Ret (Err (ErrorString
      "RetrieveVcConfigSecret: Cannot retrieve VC secret as the cluster flavor is UNKNOWN"))
  | TkgGuest => Ret (Err (ErrorString
      "RetrieveVcConfigSecret: Retrieving VC Credentials Secret is not supported in Guest Cluster."))
  | Supervisor => Ret (Ok (VCSecretNsSupervisor, [VCSecret; VCSecretTKG]))
  | VSphere =>
      let! decoupled := IsFeatureEnabled clientset DecoupleVSphereCSIDriverFlag true in
      if (decoupled : bool) then
        let! (ns, name) := GetSecretNamespaceAndName clientset veleroNs VeleroVSpherePluginConfig in
        Ret (Ok (ns, [name]))
      else
        let? v := GetCSIInstalledVersion clientset else e => Ret (Err e) in
        Ret (Ok (if 0 <=? CompareVersion v Csi2_3_0_Version then VCSystemCSINs else VCSecretNs,
                 [VCSecret; VCSecretTKG]))
  end.

(** The part of RetrieveVcConfigSecret that finds the secret's location. *)
Definition vcSecretLocation (config : option RestConfig)
    : io (result (client * (string * list string))) :=
  let? config := (match config with
    | Some c => Ret (Ok c)
    | None => let? c := GetKubeClientConfig else e =>
        Ret (Err (Wrap e "Could not retrieve in-cluster config")) in Ret (Ok c)
    end) else e => Ret (Err e) in
  let? clientset := GetKubeClientSet config else e => Ret (Err e) in
  let! veleroNs := veleroNamespaceOrDefault in
  let! flavor := retrieveClusterFlavor clientset veleroNs in
  let? location := secretLocation clientset veleroNs flavor else e => Ret (Err e) in
  Ret (Ok (clientset, location)).

Definition RetrieveVcConfigSecret (ps : params) (config : option RestConfig)
    : io (result params) :=
  let? (clientset, (ns, names)) := vcSecretLocation config else e => Ret (Err e) in
  let! (secret, err) := firstSecret clientset ns names None in
  match err with
  | Some e => Ret (Err e)
  | None =>
      match secret with
      | None => Panic "nil pointer: secret.Data"
      | Some secret =>
          if bool_decide (sec_Data secret = []) then
            Ret (Err (ErrorString ("failed to get any data in k8s secret, [" +:+ Join names " " +:+ "]")))
          else Ret (ParseConfig secret ps)
      end
  end.

(** Where the watch for changes of the secret expects it. *)
Definition watchedSecret (clientset : client) (veleroNs : string) (flavor : ClusterFlavor)
    : io (string * string) :=
  match flavor with
  | Supervisor => Ret (VCSecretNsSupervisor, VCSecret)
  | VSphere =>
      let! decoupled := IsFeatureEnabled clientset DecoupleVSphereCSIDriverFlag true in
      if (decoupled : bool) then
        GetSecretNamespaceAndName clientset veleroNs VeleroVSpherePluginConfig
      else
        let! r := GetCSIInstalledVersion clientset in
        let v := match r with Ok v => v | Err _ => "" end in
        Ret (if 0 <=? CompareVersion v Csi2_3_0_Version then VCSystemCSINs else VCSecretNs, VCSecret)
  | _ => Ret ("", "")
  end.

(** The filter of the informer's secrets; [None] is a nil function. *)
Definition GetVcConfigSecretFilterFunc : io (option (Secret → bool)) :=
  let? config := GetKubeClientConfig else _ => Ret None in
  let? clientset := call (NewForConfig config) else _ => Ret None in
  let! veleroNs := veleroNamespaceOrDefault in
  let! flavor := retrieveClusterFlavor clientset veleroNs in
  let! (ns, name) := watchedSecret clientset veleroNs flavor in
  Ret (Some (λ incomingSecret,
    bool_decide (om_Namespace (sec_Meta incomingSecret) = ns)
    && bool_decide (om_Name (sec_Meta incomingSecret) = name))).

(** ** Backup storage locations *)

(** The [range] over the list: it has no [break], so every item overwrites the
    previous one, and both [continue]s are the last statement of the body. *)
Definition pickBSL (items : list BackupStorageLocation) : option BackupStorageLocation :=
  foldl (λ _ item, Some item) None items.

Definition bslParams (bsl : BackupStorageLocation) (ps : params) : io (result params) :=
  match bsl_Bucket bsl with
  | None => Panic "nil pointer: Spec.ObjectStorage.Bucket"
  | Some bucket =>
      let get k := IString (map_get (bsl_Config bsl) k) in
      let ps := <["profile" := get "profile"]> (<["s3Url" := get "s3Url"]>
        (<["s3ForcePathStyle" := get "s3ForcePathStyle"]>
        (<["bucket" := IString bucket]> (<["region" := get "region"]> ps)))) in
      Ret (Ok (match bsl_CACert bsl with
               | Some ca => <["caCert" := IString ca]> ps
               | None => ps
               end))
  end.

(** [Ok ps] is a nil error with the parameters the caller's map then holds.
    Without VELERO_NAMESPACE, and for an empty list, the error returned is the
    nil one of an earlier call: the map is left as it was. *)
Definition RetrieveVSLFromVeleroBSLs (ps : params) (bslName : string)
    (config : option RestConfig) : io (result params) :=
  let? config := (match config with
    | Some c => Ret (Ok c)
    | None => let? c := GetKubeClientConfig else e =>
        Ret (Err (Wrap e "Could not retrieve in-cluster config")) in Ret (Ok c)
    end) else e => Ret (Err e) in
  let? k8sClient := NewVeleroK8sClient config else e => Ret (Err e) in
  let! veleroNs := GetVeleroNamespace in
  match veleroNs with
  | None => Ret (Ok ps)
  | Some veleroNs =>
      Do (GetObj k8sClient KBackupStorageLocation veleroNs bslName) (λ r,
      match r with
      | Ok bsl => bslParams bsl ps
      | Err _ =>
          Do (ListObj k8sClient KBackupStorageLocation veleroNs) (λ l,
          match l with
          | Err e => Ret (Err e)
          | Ok [] => Ret (Ok ps)
          | Ok items =>
              match pickBSL items with
              | Some bsl => bslParams bsl ps
              | None => Ret (Err (ErrorString
                  "RetrieveVSLFromVeleroBSLs: No valid Backup Storage Location can be retrieved"))
              end
          end)
      end)
  end.

(** Without VELERO_NAMESPACE the error returned is nil and the name empty. *)
Definition RetrieveBSLFromBackup (backupName : string) (config : option RestConfig)
    : io (result string) :=
  let? config := (match config with
    | Some c => Ret (Ok c)
    | None => let? c := GetKubeClientConfig else e =>
        Ret (Err (Wrap e "Could not retrieve in-cluster config")) in Ret (Ok c)
    end) else e => Ret (Err e) in
  let? k8sClient := NewVeleroK8sClient config else e => Ret (Err e) in
  let! veleroNs := GetVeleroNamespace in
  match veleroNs with
  | None => Ret (Ok "")
  | Some veleroNs =>
      let? backup := call (GetObj k8sClient KBackup veleroNs backupName) else e => Ret (Err e) in
      Ret (Ok (bk_StorageLocation backup))
  end.

(** [string] values of the parameters, or the first other value a [range]
    over them meets. *)
Definition stringParams (ps : params) : string + gmap string string :=
  foldr (λ '(k, v) acc, match v with
                        | IString s => match acc with inr m => inr (<[k := s]> m) | e => e end
                        | x => inl (Sprintv x)
                        end) (inr ∅) (map_to_list ps).

(** The result is the caller's [repositoryParams], empty before the call.
    Only the first value of the secret is used.  Without VELERO_NAMESPACE the
    error returned is the nil one of the call before. *)
Definition RetrieveParamsFromBSL (bslName : string) (config : RestConfig)
    : io (result (gmap string string)) :=
  let? s3RepoParams := RetrieveVSLFromVeleroBSLs ∅ bslName (Some config) else e => Ret (Err e) in
  match stringParams s3RepoParams with
  | inl val => Ret (Err (ErrorString
      ("Failed to translate s3 repository parameter value: " +:+ val)))
  | inr repositoryParams =>
      let? clientset := call (NewForConfig config) else e =>
        Ret (Err (Wrap e "Failed to retrieve the k8s clientset")) in
      let! veleroNs := GetVeleroNamespace in
      match veleroNs with
      | None => Ret (Ok repositoryParams)
      | Some veleroNs =>
          let? secret := call (GetObj clientset KSecret veleroNs CloudCredentialSecretName) else e =>
            Ret (Err e) in
          match sec_Data secret with
          | [] => Ret (Ok repositoryParams)
          | (_, value) :: _ =>
              let? tmpfile := call CreateTemp else e =>
                Ret (Err (Wrap e "Failed to create temp file to extract aws credentials")) in
              defer (call (FileRemove tmpfile)) (
                check! call (FileWrite tmpfile value) else e =>
                  Ret (Err (Wrap e "Failed to write aws credentials into temp file.")) in
                check! call (FileClose tmpfile) else e =>
                  Ret (Err (Wrap e "Failed to close into temp file.")) in
                let? (id, key) := call (SharedCredentials tmpfile
                    (map_get repositoryParams "profile")) else e => Ret (Err e) in
                Ret (Ok (<[AWS_SECRET_ACCESS_KEY := key]>
                          (<[AWS_ACCESS_KEY_ID := id]> repositoryParams))))
          end
      end
  end.

(** ** S3 *)

Definition GetS3SessionOptionsFromParamsMap (ps : params) : result S3Session :=
  let '(region, _) := GetStringFromParamsMap ps "region" in
  let creds : result (option (string * string)) :=
    match ps !! AWS_ACCESS_KEY_ID with
    | None => Ok None
    | Some _ =>
        let '(id, ok) := GetStringFromParamsMap ps AWS_ACCESS_KEY_ID in
        if negb ok then Err (ErrorString "Failed to retrieve S3 Access Key.")
        else
          let '(key, ok) := GetStringFromParamsMap ps AWS_SECRET_ACCESS_KEY in
          if negb ok then Err (ErrorString "Failed to retrieve S3 Secret Access Key.")
          else Ok (Some (id, key))
    end in
  match creds with
  | Err e => Err e
  | Ok creds =>
      let '(caCert, ok) := GetStringFromParamsMap ps "caCert" in
      Ok {| sess_Region := region;
            sess_Credentials := creds;
            sess_CustomCABundle :=
              if (ok : bool) && bool_decide (caCert ≠ "") then Some caCert else None;
            sess_Endpoint := None;
            sess_S3ForcePathStyle := None |}
  end.

Definition GetS3PETMFromParamsMap (ps : params) : io (result S3PETM) :=
  let '(region, ok) := GetStringFromParamsMap ps "region" in
  if negb ok then Ret (Err (ErrorString "Missing region param, cannot initialize S3 PETM")) else
  let '(bucket, ok) := GetStringFromParamsMap ps "bucket" in
  if negb ok then Ret (Err (ErrorString "Missing bucket param, cannot initialize S3 PETM")) else
  match GetS3SessionOptionsFromParamsMap ps with
  | Err e => Ret (Err e)
  | Ok o =>
      check! call (NewSession o) else _ => Panic "session.Must" in
      let '(s3Url, okUrl) := GetStringFromParamsMap ps "s3Url" in
      let '(pathStyle, okStyle) := GetStringFromParamsMap ps "s3ForcePathStyle" in
      let sess := {| sess_Region := sess_Region o;
                     sess_Credentials := sess_Credentials o;
                     sess_CustomCABundle := sess_CustomCABundle o;
                     sess_Endpoint := if (okUrl : bool) then Some s3Url else sess_Endpoint o;
                     sess_S3ForcePathStyle :=
                       if (okStyle : bool) then Some (GetBool pathStyle false)
                       else sess_S3ForcePathStyle o |} in
      let prefix := match ps !! "prefix" with
                    | Some (IString p) => p
                    | _ => DefaultS3RepoPrefix
                    end in
      call (NewS3Repository sess bucket prefix)
  end.

Definition GetDefaultS3PETM : io (result S3PETM) :=
  let? ps := RetrieveVSLFromVeleroBSLs ∅ DefaultS3BackupLocation None else e => Ret (Err e) in
  GetS3PETMFromParamsMap ps.

(** ** The node a volume is attached to *)

(** The first pod of the list with a node that mounts the claim. *)
Definition nodeOfClaim (claim : string) (pods : list Pod) : string :=
  foldl (λ node p,
    if bool_decide (node ≠ "") then node
    else if existsb (λ v, bool_decide (vol_ClaimName v = Some claim)) (pod_Volumes p)
         then pod_NodeName p else node) "" pods.

Definition RetrievePodNodesByVolumeId (volumeId : string) : io (result string) :=
  let? config := GetKubeClientConfig else e => Ret (Err e) in
  let? clientset := call (NewForConfig config) else e => Ret (Err e) in
  let? pvs := call (ListObj clientset KPersistentVolume "") else e => Ret (Err e) in
  let matches pv := match pv_CSI pv with
                    | Some csi => bool_decide (csi_VolumeHandle csi = volumeId)
                    | None => false
                    end in
  match list_find (λ pv, matches pv = true) pvs with
  | Some (_, {| pv_ClaimRef := None |}) => Panic "nil pointer: pv.Spec.ClaimRef"
  | o =>
      let '(ns, claim) := match o with
        | Some (_, {| pv_ClaimRef := Some r |}) => r
        | _ => ("", "")
        end in
      if bool_decide (ns = "") || bool_decide (claim = "") then
        Ret (Err (NewNotFoundError
          ("Failed to retrieve the PV with the expected volume ID, " +:+ volumeId)))
      else
        let? pods := call (ListObj clientset KPod ns) else e => Ret (Err e) in
        let nodeName := nodeOfClaim claim pods in
        if bool_decide (nodeName = "") then
          Ret (Err (NewNotFoundError ("Failed to retrieve pod that claim the PV, " +:+ volumeId)))
        else Ret (Ok nodeName)
  end.

(** ** Patching an Upload *)

(** [uploadClient] is the client of the namespace [ns].
    [mutate] changes the object [req] points to, which the caller keeps: the
    first component is that object after the call, on every path. *)
Definition PatchUpload (req : Upload) (mutate : Upload → io Upload) (uploadClient : client)
    (ns : string) : io (Upload * result Upload) :=
  check! call (MarshalJSON KUpload req) else e =>
    Ret (req, Err (Wrap e "Failed to marshall original Upload")) in
  let! req' := mutate req in
  check! call (MarshalJSON KUpload req') else e =>
    Ret (req', Err (Wrap e "Failed to marshall updated Upload")) in
  check! call (CreateMergePatch KUpload req req') else e =>
    Ret (req', Err (Wrap e "Failed to creat json merge patch for Upload")) in
  let? r := call (PatchObj uploadClient KUpload ns (u_Name req') req req') else e =>
    Ret (req', Err (Wrap e "Failed to patch Upload")) in
  Ret (req', Ok r).
End utils.

(** ** The utilities only read *)

Section reads.
Context `{Deps}.

Abbreviation reads_only := (calls_only (@reads _)).

Lemma reads_GetKubeClientConfig : reads_only GetKubeClientConfig.
Proof. unfold GetKubeClientConfig. calls_tac. Qed.
Hint Resolve reads_GetKubeClientConfig : calls.

Lemma reads_configOr config : reads_only (configOr config).
Proof. unfold configOr. calls_tac. Qed.
Hint Resolve reads_configOr : calls.

Lemma reads_veleroNamespaceOrDefault : reads_only veleroNamespaceOrDefault.
Proof. unfold veleroNamespaceOrDefault, GetVeleroNamespace. calls_tac. Qed.
Hint Resolve reads_veleroNamespaceOrDefault : calls.

Lemma reads_CreateKubeClientSet : reads_only CreateKubeClientSet.
Proof. unfold CreateKubeClientSet. calls_tac. Qed.

Lemma reads_CreatePluginClientSet : reads_only CreatePluginClientSet.
Proof. unfold CreatePluginClientSet. calls_tac. Qed.

Lemma reads_retrieveClusterFlavor c ns : reads_only (retrieveClusterFlavor c ns).
Proof.
  unfold retrieveClusterFlavor, GetClusterTypeFromConfig, GetCSIClusterType. calls_tac.
Qed.
Hint Resolve reads_retrieveClusterFlavor : calls.

Lemma reads_GetClusterFlavor config : reads_only (GetClusterFlavor config).
Proof. unfold GetClusterFlavor, GetKubeClientSet. calls_tac. Qed.

Lemma reads_IsFeatureEnabled c f d : reads_only (IsFeatureEnabled c f d).
Proof. unfold IsFeatureEnabled. calls_tac. Qed.

Lemma reads_GetUploadCRRetryMaximum config : reads_only (GetUploadCRRetryMaximum config).
Proof.
  unfold GetUploadCRRetryMaximum, GetUploadCRRetryMaximumFromConfig, GetKubeClientSet. calls_tac.
Qed.

Lemma reads_NewVeleroK8sClient config : reads_only (NewVeleroK8sClient config).
Proof. unfold NewVeleroK8sClient. calls_tac. Qed.
Hint Resolve reads_NewVeleroK8sClient : calls.

Lemma reads_bslParams bsl ps : reads_only (bslParams bsl ps).
Proof. unfold bslParams. calls_tac. Qed.
Hint Resolve reads_bslParams : calls.

Lemma reads_RetrieveVSLFromVeleroBSLs ps bsl config :
  reads_only (RetrieveVSLFromVeleroBSLs ps bsl config).
Proof. unfold RetrieveVSLFromVeleroBSLs, GetVeleroNamespace. calls_tac. Qed.
Hint Resolve reads_RetrieveVSLFromVeleroBSLs : calls.

Lemma reads_RetrieveParamsFromBSL bsl config : reads_only (RetrieveParamsFromBSL bsl config).
Proof. unfold RetrieveParamsFromBSL, GetVeleroNamespace. calls_tac. Qed.

Lemma reads_GetS3PETMFromParamsMap ps : reads_only (GetS3PETMFromParamsMap ps).
Proof. unfold GetS3PETMFromParamsMap. calls_tac. Qed.
Hint Resolve reads_GetS3PETMFromParamsMap : calls.

Lemma reads_GetDefaultS3PETM : reads_only GetDefaultS3PETM.
Proof. unfold GetDefaultS3PETM. calls_tac. Qed.

Lemma reads_firstSecret c ns names last : reads_only (firstSecret c ns names last).
Proof. revert last. induction names as [|n names IH]; intros last; cbn; [done|]. split; [done|]. intros [s|e]; [done|apply IH]. Qed.
Hint Resolve reads_firstSecret : calls.

Lemma reads_RetrieveVcConfigSecret ps config : reads_only (RetrieveVcConfigSecret ps config).
Proof.
  unfold RetrieveVcConfigSecret, vcSecretLocation, secretLocation, GetSecretNamespaceAndName,
    GetCSIInstalledVersion, IsFeatureEnabled, GetKubeClientSet. calls_tac.
Qed.

Lemma reads_RetrievePodNodesByVolumeId id : reads_only (RetrievePodNodesByVolumeId id).
Proof. unfold RetrievePodNodesByVolumeId. calls_tac. Qed.
End reads.

#[export] Hint Resolve reads_GetKubeClientConfig reads_CreateKubeClientSet reads_NewVeleroK8sClient
  reads_CreatePluginClientSet reads_GetClusterFlavor reads_IsFeatureEnabled
  reads_GetUploadCRRetryMaximum reads_RetrieveParamsFromBSL reads_GetS3PETMFromParamsMap
  reads_RetrieveVcConfigSecret reads_GetDefaultS3PETM reads_RetrievePodNodesByVolumeId : calls.

(** These are reasoned about by their specifications, not by unfolding. *)
#[global] Arguments CreateKubeClientSet : simpl never.
#[global] Arguments CreatePluginClientSet : simpl never.
#[global] Arguments GetClusterFlavor : simpl never.
#[global] Arguments IsFeatureEnabled : simpl never.
#[global] Arguments GetUploadCRRetryMaximum : simpl never.
#[global] Arguments RetrieveVcConfigSecret : simpl never.
#[global] Arguments RetrieveVSLFromVeleroBSLs : simpl never.
#[global] Arguments RetrieveParamsFromBSL : simpl never.
#[global] Arguments GetDefaultS3PETM : simpl never.
#[global] Arguments GetS3PETMFromParamsMap : simpl never.
#[global] Arguments RetrievePodNodesByVolumeId : simpl never.
