(* ===== verification/UtilsSpec.v ===== *)
(** * What the configuration lookups promise

    The cluster flavour, the backup storage location, and the node of a volume. *)

From S2P Require Export Utils.
Open Scope Z_scope.

(** ** Cluster flavour *)

Section flavor.
Context `{Deps}.

(** The flavour that a configuration map names. *)
Definition configured_flavor (r : result ConfigMap) : ClusterFlavor :=
  match r with
  | Ok cm => match cm_Data cm !! ConfigClusterFlavorKey with
             | Some f => ConvertConfigClusterFlavor f
             | None => Unknown
             end
  | Err _ => Unknown
  end.

(** What was read: the configuration map, and the CSI controller's workload. *)
Record flavor_run := { fl_config : option (result ConfigMap); fl_csi : option Workload }.

Definition flavor_monitor (ns : string) : monitor Cmd flavor_run := λ s X e,
  let on_workload (r : result Workload) : verdict flavor_run :=
    match fl_config s, fl_csi s with
    | Some cm, None =>
        if bool_decide (configured_flavor cm = Unknown) then
          Next {| fl_config := fl_config s;
                  fl_csi := match r with Ok d => Some d | Err _ => None end |}
        else Violation
    | _, _ => Violation
    end in
  match e in Cmd X return X → verdict flavor_run with
  | GetObj _ k n name =>
      match k return result (obj k) → verdict flavor_run with
      | KConfigMap => λ r,
          if bool_decide (n = ns ∧ name = VeleroVSpherePluginConfig ∧ fl_config s = None)
          then Next {| fl_config := Some r; fl_csi := None |} else Violation
      | KDeployment => on_workload
      | KStatefulSet => on_workload
      | _ => λ _, Violation
      end
  | _ => λ _, Violation
  end.

(** The flavour that a workload of the CSI controller shows. *)
Definition csi_flavor (w : option Workload) : ClusterFlavor :=
  match w with
  | Some d => match GetCSIClusterTypeFromEnv (wl_Containers d) with Ok f => f | Err _ => Unknown end
  | None => Unknown
  end.

Definition known (f : ClusterFlavor) : ClusterFlavor :=
  if bool_decide (f = Unknown) then VSphere else f.

#[local] Arguments GetCSIClusterTypeFromEnv : simpl never.

(** The CSI controller is looked for only when the configuration tells
    nothing. *)
Lemma flavor_csi ns c r :
  configured_flavor r = Unknown →
  safe (flavor_monitor ns) (GetCSIClusterType c) (λ o s, fl_config s = Some r ∧
    ∃ x, o = Returned x ∧ match x with Ok f => f | Err _ => Unknown end = csi_flavor (fl_csi s))
    {| fl_config := Some r; fl_csi := None |}.
Proof.
  intros Hr. unfold GetCSIClusterType. cbn.
  assert (Hok : ∀ d : Workload, ∃ x, @Returned (result ClusterFlavor)
      (GetCSIClusterTypeFromEnv (wl_Containers d)) = Returned x ∧
    match x with Ok f => f | Err _ => Unknown end = csi_flavor (Some d)) by eauto.
  rewrite Hr, bool_decide_true by done.
  intros [d|e]; cbn; [auto|]. rewrite Hr, bool_decide_true by done.
  intros [d|e']; cbn; [auto|]. rewrite Hr, bool_decide_true by done.
  intros [d|e'']; cbn; eauto.
Qed.

(**  The flavour is determined by reads alone: that of the plugin's
    configuration map when it names one, and then the CSI controller is not
    looked at; else that of the first workload of the CSI controller that is
    found; and [VSphere] when neither tells.  It is never [Unknown], and the
    lookup never panics or waits. *)
Theorem retrieveClusterFlavor_spec c ns :
  safe (flavor_monitor ns) (retrieveClusterFlavor c ns) (λ o s, ∃ f, o = Returned f ∧ f ≠ Unknown ∧
    match fl_config s with
    | Some cm => f = if bool_decide (configured_flavor cm = Unknown)
                     then known (csi_flavor (fl_csi s)) else configured_flavor cm
    | None => False
    end) {| fl_config := None; fl_csi := None |}.
Proof.
  assert (Hk : ∀ f, known f ≠ Unknown).
  { intros f. unfold known. by case_bool_decide. }
  unfold retrieveClusterFlavor. eapply (safe_seq _ _ _ _ (λ o s, ∃ r x,
    s = {| fl_config := Some r; fl_csi := None |} ∧ o = Returned x ∧
    match x with Ok f => f | Err _ => Unknown end = configured_flavor r)).
  - unfold GetClusterTypeFromConfig. cbn. intros r. rewrite bool_decide_true by done.
    destruct r as [cm|e]; cbn; [|by exists (Err e); eauto].
    destruct (cm_Data cm !! ConfigClusterFlavorKey) as [f|] eqn:Hf; exists (Ok cm); cbn; rewrite Hf; eauto.
  - intros x s (r & ? & -> & [= <-] & Hx). rewrite Hx. case_bool_decide as Hu.
    + eapply (safe_seq _ _ _ _ (λ o s, fl_config s = Some r ∧ o = Returned (csi_flavor (fl_csi s))));
        [eapply safe_seq; [by apply flavor_csi|..]|..].
      * intros y s (Hs & z & [= <-] & Hy). cbn. by rewrite Hy.
      * by intros w s (_ & z & [=] & _).
      * by intros w s (_ & z & [=] & _).
      * intros f s [Hs [= ->]]. cbn. rewrite Hs, (bool_decide_true (configured_flavor r = _)) by done.
        exists (known (csi_flavor (fl_csi s))). auto.
      * by intros w s [_ [=]].
      * by intros w s [_ [=]].
    + cbn. rewrite !bool_decide_false by done. eauto.
  - by intros w s (? & ? & _ & [=] & _).
  - by intros w s (? & ? & _ & [=] & _).
Qed.
End flavor.

(** ** Backup storage locations *)

Section location.
Context `{Deps} (bslName : string).

(** The answers about storage locations: to the request for the one that was
    asked for, and to the request for all of them. *)
Record location_run := {
  lo_named : option (result BackupStorageLocation);
  lo_all : option (result (list BackupStorageLocation));
}.

Definition location_monitor : monitor Cmd location_run := λ s X e,
  match e in Cmd X return X → verdict location_run with
  | GetObj _ k _ name =>
      match k return result (obj k) → verdict location_run with
      | KBackupStorageLocation => λ r,
          if bool_decide (name = bslName ∧ lo_named s = None ∧ lo_all s = None)
          then Next {| lo_named := Some r; lo_all := None |} else Violation
      | _ => λ _, Violation
      end
  | ListObj _ k _ =>
      match k return result (list (obj k)) → verdict location_run with
      | KBackupStorageLocation => λ r,
          match lo_named s, lo_all s with
          | Some (Err e), None => Next {| lo_named := lo_named s; lo_all := Some r |}
          | _, _ => Violation
          end
      | _ => λ _, Violation
      end
  | e => λ _, if quiet e then Next s else Violation
  end.

(** The parameters [ps'] are those of the location, over [ps]. *)
Definition locates (bsl : BackupStorageLocation) (ps ps' : params) : Prop :=
  (∀ k, k ∈ ["region"; "s3ForcePathStyle"; "s3Url"; "profile"] →
     ps' !! k = Some (IString (map_get (bsl_Config bsl) k))) ∧
  ps' !! "bucket" = IString <$> bsl_Bucket bsl ∧
  ps' !! "caCert" = (match bsl_CACert bsl with Some ca => Some (IString ca) | None => ps !! "caCert" end) ∧
  ∀ k, k ∉ ["region"; "s3ForcePathStyle"; "s3Url"; "profile"; "bucket"; "caCert"] → ps' !! k = ps !! k.

Lemma bslParams_spec bsl ps :
  match bsl_Bucket bsl with
  | Some _ => ∃ ps', bslParams bsl ps = Ret (Ok ps') ∧ locates bsl ps ps'
  | None => ∃ w, bslParams bsl ps = Panic w
  end.
Proof.
  unfold bslParams. destruct (bsl_Bucket bsl) as [b|] eqn:Hb; [|by eauto].
  eexists. split; [done|]. unfold locates. rewrite Hb. split_and!.
  - intros k Hk. rewrite !elem_of_cons, elem_of_nil in Hk.
    by destruct Hk as [-> |[-> |[-> |[-> |[]]]]]; destruct (bsl_CACert bsl);
      rewrite ?(lookup_insert_ne _ "caCert") by done; simplify_map_eq.
  - destruct (bsl_CACert bsl); by simplify_map_eq.
  - destruct (bsl_CACert bsl); by simplify_map_eq.
  - intros k Hk. rewrite !not_elem_of_cons in Hk.
    destruct Hk as (?&?&?&?&?&?&_). destruct (bsl_CACert bsl); by simplify_map_eq.
Qed.

(** The location that is chosen, if any. *)
Definition chosen (s : location_run) : option BackupStorageLocation :=
  match lo_named s, lo_all s with
  | Some (Ok bsl), _ => Some bsl
  | Some (Err _), Some (Ok l) => last l
  | _, _ => None
  end.

Lemma pickBSL_last l : pickBSL l = last l.
Proof.
  unfold pickBSL. induction l as [|x l IH] using rev_ind; [done|].
  by rewrite foldl_snoc, last_snoc.
Qed.

Definition located (ps : params) (o : outcome (result params)) (s : location_run) : Prop :=
  match o with
  | Returned (Ok ps') => match chosen s with Some bsl => locates bsl ps ps' | None => ps' = ps end
  | Returned (Err _) => chosen s = None
  | Panicked _ => ∃ bsl, chosen s = Some bsl ∧ bsl_Bucket bsl = None
  | Hung _ => False
  end.

Lemma located_bslParams bsl ps s :
  chosen s = Some bsl → safe location_monitor (bslParams bsl ps) (located ps) s.
Proof.
  intros Hc. pose proof (bslParams_spec bsl ps) as Hp. destruct (bsl_Bucket bsl) eqn:Hb.
  - destruct Hp as (ps' & -> & Hps). cbn. by rewrite Hc.
  - destruct Hp as (w & ->). cbn. eauto.
Qed.

#[local] Arguments bslParams : simpl never.
#[local] Arguments pickBSL : simpl never.

(**  The parameters of the object store are those of the location
    that was asked for; when it cannot be read, those of the last location of
    the list, whatever its provider and region; and when the list is empty, or
    the namespace of Velero is not set, none at all, without an error.  The
    panic is that of a location without an object store. *)
Theorem RetrieveVSLFromVeleroBSLs_spec ps config :
  safe location_monitor (RetrieveVSLFromVeleroBSLs ps bslName config) (located ps)
    {| lo_named := None; lo_all := None |}.
Proof.
  unfold RetrieveVSLFromVeleroBSLs.
  eapply (safe_seq _ _ _ _ (λ o s, s = {| lo_named := None; lo_all := None |} ∧
    match o with Returned _ => True | _ => False end)).
  { destruct config as [c|]; cbn; [done|]. by intros [c|e]. }
  2,3: by intros w s [_ []].
  intros [c|e] s [-> _]; [|done]. cbn. intros [cl|e]; cbn; [|done].
  intros [ns|]; cbn; [|done]. intros r. rewrite bool_decide_true by done. cbn.
  destruct r as [bsl|e]; [by apply located_bslParams|]. cbn.
  intros [[|x l]|e']; cbn; [done| |done].
  rewrite pickBSL_last. destruct (last (x :: l)) as [bsl|] eqn:Hl; cbn; [|by rewrite Hl].
  by apply located_bslParams.
Qed.
End location.

(** ** The node of a volume *)

Section node.
Context `{Deps} (volumeId : string).

(** The volumes and the pods that were listed, with the pods' namespace. *)
Record node_run := {
  nd_volumes : option (list PersistentVolume);
  nd_pods : option (string * list Pod);
}.

(** [NotFoundError] is a type of this repository: no library answers it. *)
Definition foreign {A} (r : result A) (v : verdict node_run) : verdict node_run :=
  match r with Err (NotFoundError _) => Impossible | _ => v end.

Definition node_monitor : monitor Cmd node_run := λ s X e,
  match e in Cmd X return X → verdict node_run with
  | ListObj _ k ns =>
      match k return result (list (obj k)) → verdict node_run with
      | KPersistentVolume => λ r,
          if bool_decide (nd_volumes s = None) then
            foreign r (Next {| nd_volumes := match r with Ok l => Some l | Err _ => None end;
                               nd_pods := None |})
          else Violation
      | KPod => λ r,
          if bool_decide (is_Some (nd_volumes s)) && bool_decide (nd_pods s = None) then
            foreign r (Next {| nd_volumes := nd_volumes s;
                               nd_pods := match r with Ok l => Some (ns, l) | Err _ => None end |})
          else Violation
      | _ => λ _, Violation
      end
  | NewForConfig _ => λ r, foreign r (Next s)
  | e => λ _, if quiet e then Next s else Violation
  end.

(** The first volume of the list with the handle that is looked for. *)
Definition is_volume (pv : PersistentVolume) : Prop :=
  csi_VolumeHandle <$> pv_CSI pv = Some volumeId.

#[export] Instance is_volume_dec pv : Decision (is_volume pv).
Proof. unfold is_volume. apply _. Defined.

(** [node] runs a pod of the list that mounts the claim. *)
Definition mounts (claim : string) (p : Pod) : Prop :=
  ∃ v, v ∈ pod_Volumes p ∧ vol_ClaimName v = Some claim.

Lemma existsb_mounts claim p :
  existsb (λ v, bool_decide (vol_ClaimName v = Some claim)) (pod_Volumes p) = true ↔ mounts claim p.
Proof.
  rewrite existsb_exists. unfold mounts. split; intros (v & Hv & Hc); exists v;
    rewrite list_elem_of_In in *; by rewrite bool_decide_eq_true in *.
Qed.

Lemma nodeOfClaim_spec claim pods :
  (nodeOfClaim claim pods = "" ∧ ∀ p, p ∈ pods → mounts claim p → pod_NodeName p = "") ∨
  (nodeOfClaim claim pods ≠ "" ∧
   ∃ p, p ∈ pods ∧ mounts claim p ∧ pod_NodeName p = nodeOfClaim claim pods).
Proof.
  unfold nodeOfClaim. induction pods as [|p pods IH] using rev_ind; [left; split; [done|]|].
  { by intros p Hp%elem_of_nil. }
  rewrite foldl_snoc. set (node := foldl _ _ pods) in *.
  destruct IH as [[Hn Hall]|(Hn & q & Hq & Hm & Hnode)].
  - rewrite Hn. cbn. destruct (existsb _ _) eqn:Hp.
    + apply existsb_mounts in Hp. destruct (decide (pod_NodeName p = "")) as [He|He].
      * left. split; [done|]. intros q [Hq|Hq%list_elem_of_singleton]%elem_of_app; subst; auto.
      * right. split; [done|]. exists p. rewrite elem_of_app, list_elem_of_singleton. auto.
    + left. split; [done|]. intros q [Hq|Hq%list_elem_of_singleton]%elem_of_app; [auto|]. subst.
      intros Hm%existsb_mounts. congruence.
  - right. rewrite bool_decide_true by done. split; [done|]. exists q. rewrite elem_of_app. auto.
Qed.

(** The volume is bound to the claim that the pods were listed for. *)
Definition bound (s : node_run) (claim : string) (pods : list Pod) : Prop :=
  ∃ pvs pv ns i, nd_volumes s = Some pvs ∧ list_find is_volume pvs = Some (i, pv) ∧
    pv_ClaimRef pv = Some (ns, claim) ∧ nd_pods s = Some (ns, pods).

Definition node_found (o : outcome (result string)) (s : node_run) : Prop :=
  match o with
  | Returned (Ok node) => node ≠ "" ∧ ∃ claim pods p, bound s claim pods ∧
      p ∈ pods ∧ mounts claim p ∧ pod_NodeName p = node
  | Returned (Err (NotFoundError _)) =>
      ∀ claim pods p, bound s claim pods → p ∈ pods → mounts claim p → pod_NodeName p = ""
  | Returned (Err _) => True
  | Panicked _ => ∃ pvs pv i, nd_volumes s = Some pvs ∧
      list_find is_volume pvs = Some (i, pv) ∧ pv_ClaimRef pv = None
  | Hung _ => False
  end.

(**  The node of a volume is that of a pod that mounts the claim of the
    first persistent volume with the volume's handle, in the claim's namespace.
    [NotFound], on which the upload controller takes the upload itself, means
    that no such pod runs on a node.  The panic is that of a volume that is not
    bound to a claim. *)
Theorem RetrievePodNodesByVolumeId_spec :
  safe node_monitor (RetrievePodNodesByVolumeId volumeId) node_found
    {| nd_volumes := None; nd_pods := None |}.
Proof.
  unfold RetrievePodNodesByVolumeId, GetKubeClientConfig. cbn. intros [cfg|e]; cbn; [|done].
  intros [c|e]; cbn; [|by destruct e]. intros [pvs|e]; cbn; [|by destruct e].
  match goal with |- context [list_find ?P pvs] =>
    replace (list_find P pvs) with (list_find is_volume pvs)
      by (apply list_find_ext; intros pv; unfold is_volume; destruct (pv_CSI pv) as [csi|]; cbn;
          rewrite ?bool_decide_eq_true; naive_solver) end.
  destruct (list_find is_volume pvs) as [[i pv]|] eqn:Hf; [|cbn].
  2:{ intros claim pods p (l & pv & ns & j & [= <-] & Hf' & _). congruence. }
  destruct pv as [m csi v [[ns claim]|]]; [|cbn; eauto 6].
  destruct (bool_decide_reflect (ns = "")) as [Hns|Hns]; cbn.
  { by intros claim' pods p (l & pv & ns' & j & _ & _ & _ & [=]). }
  destruct (bool_decide_reflect (claim = "")) as [Hcl|Hcl]; cbn.
  { by intros claim' pods p (l & pv & ns' & j & _ & _ & _ & [=]). }
  intros [pods|e]; cbn; [|by destruct e].
  destruct (nodeOfClaim_spec claim pods) as [[Hn Hall]|(Hn & p & Hp & Hm & Hnode)].
  - rewrite Hn. cbn. intros claim' pods' p (l & pv & ns' & j & [= <-] & Hf' & Href & [= -> <-]).
    rewrite Hf in Hf'. injection Hf' as <- <-. injection Href as <-. auto.
  - rewrite bool_decide_false by done. cbn. split; [done|]. exists claim, pods, p.
    split_and!; [|done..]. eexists pvs, _, ns, i. split_and!; [done|exact Hf|done..].
Qed.
End node.

(** ** The watch on the vCenter secret *)

Section watch.
Context `{Deps} (h : handler Cmd unit).

Lemma watchedSecret_head c veleroNs flavor ns names w :
  run h (secretLocation c veleroNs flavor) tt = (Returned (Ok (ns, names)), tt) →
  run h (watchedSecret c veleroNs flavor) tt = (Returned w, tt) →
  w.1 = ns ∧ head names = Some w.2.
Proof.
  unfold secretLocation, watchedSecret. destruct flavor; [by cbn|cbn|by cbn|].
  - by intros [= <- <-] [= <-].
  - rewrite !run_bind. destruct (run h (IsFeatureEnabled _ _ _) tt) as [[[|]|?|?] []]; try done; cbv beta iota.
    + rewrite run_bind. destruct (run h (GetSecretNamespaceAndName _ _ _) tt) as [[[n m]|?|?] []]; try done.
      by intros [= <- <-] [= <-].
    + rewrite !run_bind. destruct (run h (GetCSIInstalledVersion _) tt) as [[[v|e]|?|?] []]; try done.
      by intros [= <- <-] [= <-].
Qed.

(** On a cluster that does not change, the informer's filter
    accepts exactly the first of the secrets that the lookup of the vCenter
    secret tries, and so none of those that the lookup falls back to. *)
Theorem vc_secret_watch f c ns names :
  run h GetVcConfigSecretFilterFunc tt = (Returned (Some f), tt) →
  run h (vcSecretLocation None) tt = (Returned (Ok (c, (ns, names))), tt) →
  ∀ s, f s = true ↔ om_Namespace (sec_Meta s) = ns ∧ head names = Some (om_Name (sec_Meta s)).
Proof.
  unfold GetVcConfigSecretFilterFunc, vcSecretLocation, GetKubeClientSet. rewrite !run_bind.
  destruct (run h GetKubeClientConfig tt) as [[[cfg|e]|?|?] []]; cbn [run]; try done.
  rewrite !run_bind. cbn [run call].
  destruct (h _ (NewForConfig cfg) tt) as [[cl|e] []]; cbn [run]; try done. rewrite !run_bind.
  destruct (run h veleroNamespaceOrDefault tt) as [[vns|?|?] []]; try done; cbv beta iota.
  rewrite !run_bind.
  destruct (run h (retrieveClusterFlavor cl vns) tt) as [[flavor|?|?] []]; try done; cbv beta iota.
  rewrite !run_bind.
  destruct (run h (secretLocation cl vns flavor) tt) as [[[[n l]|e]|?|?] []] eqn:Hl; try done.
  destruct (run h (watchedSecret cl vns flavor) tt) as [[[n' m]|?|?] []] eqn:Hw; try done.
  cbn. intros [= <-] [= <- <- <-] s. apply (watchedSecret_head _ _ _ _ _ _ Hl) in Hw as [Hn Hm].
  cbn in Hn, Hm. rewrite andb_true_iff, !bool_decide_eq_true, Hm, Hn. naive_solver.
Qed.
End watch.
