(* ===== verification/Supervisor.v ===== *)
(** * The supervisor cluster and the log level of the disk library (pkg/utils)

    How a guest cluster finds the supervisor cluster it belongs to, and what the
    installers and servers read of it. *)

From S2P Require Export Utils.
Open Scope Z_scope.

Definition BackupDriverNamespace : string := "velero-vsphere-plugin-backupdriver".
Definition PvApiEndpoint : string := "supervisor.default.svc".
Definition PvPort : string := "6443".
Definition PvSecretName : string := "pvbackupdriver-provider-creds".
Definition VCuuidKey : string := "vCenterUUID".
Definition SupervisorClusterIdKey : string := "SupervisorClusterId".
Definition SupervisorResourcePoolKey : string := "SupervisorResourcePool".
Definition VddkConfig : string := "vddk-config".
Definition VddkConfigLabelKey : string := "velero.io/vddk-config".
Definition VixDiskLib : string := "vix-disk-lib".

(** net.JoinHostPort, for a host without colons. *)
Definition JoinHostPort (host port : string) : string := host +:+ ":" +:+ port.

(** The first element of [strings.Split(s, sep)]. *)
Fixpoint before (sep s : string) : string :=
  if has_prefix sep s then ""
  else match s with EmptyString => "" | String a s => String a (before sep s) end.

Section supervisor.
Context `{Deps}.

Definition checkAndCreateNamespace (config : option RestConfig) (ns : string) : io (option error) :=
  let? config := (match config with
    | Some c => Ret (Ok c)
    | None => let? c := GetKubeClientConfig else e =>
                Ret (Err (Wrap e "Could not retrieve in-cluster config")) in Ret (Ok c)
    end) else e => Ret (Some e) in
  let? clientset := call (NewForConfig config) else e => Ret (Some e) in
  let! r := call (GetObj clientset KNamespace "" ns) in
  match r with
  | Ok _ => Ret None
  | Err _ =>
      let nsSpec := {| ns_Meta := {| om_Name := ns; om_Namespace := ""; om_Labels := ∅; om_Annotations := ∅;
                                     om_UID := ""; om_DeletionTimestamp := None; om_Finalizers := []; om_GenerateName := "" |} |} in
      let? _ := call (CreateObj clientset KNamespace "" nsSpec) else e => Ret (Some e) in
      Ret None
  end.

Definition event_secret (ev : watch_event Secret) : Secret :=
  match ev with Added s | Updated s | Deleted s => s end.

(** The first event for the secret ends the wait.  That of a deletion or an update
    carries no item, and the conversion of the item panics. *)
Definition waitForPvSecret (clientSet : client) (namespace : string) : io (result Secret) :=
  let! (events, done) := call (Watch clientSet KSecret namespace) in
  match list_find (λ ev, om_Name (sec_Meta (event_secret ev)) = PvSecretName) events with
  | Some (_, Added secret) => Ret (Ok secret)
  | Some _ => Panic "interface conversion: interface is nil, not *v1.Secret"
  | None =>
      match done with
      | Some e => Ret (Err e)
      | None => Hang "select: the secret is never created"
      end
  end.

(** A key of the secret's data; a key that is not there is empty. *)
Definition secretValue (s : Secret) (key : string) : string :=
  default "" ((list_to_map (sec_Data s) : gmap string string) !! key).

Definition supervisorConfig (secret : Secret) : RestConfig * string :=
  ({| rc_Host := "https://" +:+ JoinHostPort PvApiEndpoint PvPort; rc_CAData := secretValue secret "ca.crt";
      rc_BearerToken := secretValue secret "token"; rc_handle := 0 |}, secretValue secret "namespace").

Definition GetSupervisorConfig (guestConfig : option RestConfig) : io (result (RestConfig * string)) :=
  let? guestConfig := (match guestConfig with
    | Some c => Ret (Ok c)
    | None => let? c := GetKubeClientConfig else e =>
                Ret (Err (Wrap e "Could not retrieve in-cluster config")) in Ret (Ok c)
    end) else e => Ret (Err e) in
  let? clientset := call (NewForConfig guestConfig) else e =>
    Ret (Err (Wrap e "Could not retrieve in-cluster config client")) in
  check! checkAndCreateNamespace (Some guestConfig) BackupDriverNamespace else e => Ret (Err e) in
  let! r := call (GetObj clientset KSecret BackupDriverNamespace PvSecretName) in
  let? secret := (match r with
    | Ok s => Ret (Ok s)
    | Err _ => waitForPvSecret clientset BackupDriverNamespace
    end) else e => Ret (Err e) in
  Ret (Ok (supervisorConfig secret)).

(** What the annotations of the supervisor's namespace say; the format of the second is
    [<cluster ID>:<vCenter UUID>-ippool-<ip pool range>]. *)
Definition supervisorParams (nsAnnotations : gmap string string) : gmap string string :=
  let params := match nsAnnotations !! "vmware-system-resource-pool" with
    | Some resPool => {[SupervisorResourcePoolKey := resPool]} | None => ∅ end in
  match nsAnnotations !! "ncp/extpoolid" with
  | None => params
  | Some svcClusterInfo =>
      match Split svcClusterInfo ":" with
      | clusterId :: vc :: _ =>
          <[VCuuidKey := before "-ippool" vc]> (<[SupervisorClusterIdKey := clusterId]> params)
      | _ => params
      end
  end.

(** The parameters are empty when there is an error. *)
Definition GetSupervisorParameters (config : option RestConfig) (ns : string)
    : io (result (gmap string string)) :=
  let? (config, ns) := (match config with
    | Some c => if bool_decide (ns = "") then GetSupervisorConfig None else Ret (Ok (c, ns))
    | None => GetSupervisorConfig None
    end) else e => Ret (Err e) in
  let? clientset := call (NewForConfig config) else e => Ret (Err e) in
  let? nsapi := call (GetObj clientset KNamespace "" ns) else e => Ret (Err e) in
  Ret (Ok (supervisorParams (om_Annotations (ns_Meta nsapi)))).

Definition GetBackupdriverClient (config : RestConfig) : io (result client) := call (NewForConfig config).

Definition DeleteSvcSnapshot (svcSnapshotName gcSnapshotName gcSnapshotNamespace : string)
    (guestConfig : option RestConfig) : io (option error) :=
  if bool_decide (svcSnapshotName = "") then
    Ret (Some (ErrorString ("No corresponding supervisor cluster snapshot CR name for guest cluster snapshot "
      +:+ gcSnapshotNamespace +:+ "/" +:+ gcSnapshotName)))
  else
    let? (svcConfig, svcNamespace) := GetSupervisorConfig guestConfig else e => Ret (Some e) in
    if bool_decide (svcNamespace = "") then Ret (Some (ErrorString "Failed to retrieve svcNamespace"))
    else
      let? backupdriverClient := GetBackupdriverClient svcConfig else e => Ret (Some e) in
      check! call (DeleteObj backupdriverClient KSnapshot svcNamespace svcSnapshotName) else err =>
        Ret (if IsNotFound err then None else Some err) in
      Ret None.

(** *** The disk library *)

Definition quote : string := String "034" "".

Definition vddkSelector : string := VddkConfigLabelKey +:+ "=" +:+ VixDiskLib.

(** The entries of the configuration map go into the inner map of the parameters, whose
    conversion panics when it is something else. *)
Definition withVddkConfig (ps : params) (data : gmap string string) : option params :=
  match default (IMap ∅) (ps !! VddkConfig) with
  | IMap m => Some (<[VddkConfig := IMap (data ∪ m)]> ps)
  | _ => if bool_decide (data = ∅) then Some ps else None
  end.

Definition RetrieveVddkLogLevel (ps : params) : io (params * option error) :=
  let? kubeClient := CreateKubeClientSet else e => Ret (ps, Some e) in
  let! veleroNs := GetVeleroNamespace in
  match veleroNs with
  | None => Ret (ps, Some (ErrorString "Failed to lookup the ENV variable for velero namespace"))
  | Some veleroNs =>
      let? vddkConfigMaps := call (ListSelected kubeClient KConfigMap veleroNs vddkSelector) else e =>
        Ret (ps, Some e) in
      match vddkConfigMaps with
      | [] => Ret (ps, None)
      | [cm] =>
          match withVddkConfig ps (cm_Data cm) with
          | Some ps => Ret (ps, None)
          | None => Panic "interface conversion: not a map[string]string"
          end
      | _ => Ret (ps, Some (ErrorString ("found more than one ConfigMap matching label selector "
               +:+ quote +:+ vddkSelector +:+ quote +:+ ": [" +:+
               Join ((λ cm, om_Name (cm_Meta cm)) <$> vddkConfigMaps) " " +:+ "]")))
      end
  end.
End supervisor.

(** ** Theorems *)

Section supervisor_spec.
Context `{Deps}.

(** What is known of the namespace, and the secrets that were seen. *)
Definition seen_secret (events : list (watch_event Secret)) : verdict (list Secret) :=
  match list_find (λ ev, om_Name (sec_Meta (event_secret ev)) = PvSecretName) events with
  | Some (_, Added s) => Next [s]
  | Some _ => Impossible
  | None => Next []
  end.

(** The namespace is created only when it could not be read, and only the secret of the
    plugin is looked at.  An informer announces an object before its updates and deletion. *)
Definition supervisor_monitor : monitor Cmd (bool * list Secret) := λ '(missing, seen) X e,
  match e in Cmd X return X → verdict (bool * list Secret) with
  | GetObj _ k ns name =>
      match k return result (obj k) → verdict (bool * list Secret) with
      | KNamespace => λ r, Next (match r with Ok _ => false | Err _ => true end, seen)
      | KSecret => λ r,
          if bool_decide (ns = BackupDriverNamespace) && bool_decide (name = PvSecretName)
          then Next (missing, match r with Ok s => s :: seen | Err _ => seen end) else Violation
      | _ => λ _, Violation
      end
  | CreateObj _ k _ o =>
      match k return obj k → result (obj k) → verdict (bool * list Secret) with
      | KNamespace => λ o _,
          if missing && bool_decide (om_Name (ns_Meta o) = BackupDriverNamespace)
          then Next (false, seen) else Violation
      | _ => λ _ _, Violation
      end o
  | Watch _ k ns =>
      match k return list (watch_event (obj k)) * option error → verdict (bool * list Secret) with
      | KSecret => λ '(events, _),
          match seen_secret events with
          | Next l => if bool_decide (ns = BackupDriverNamespace) then Next (missing, l ++ seen) else Violation
          | Violation => Violation
          | Impossible => Impossible
          end
      | _ => λ _, Violation
      end
  | e => λ _, if quiet e then Next (missing, seen) else Violation
  end.

#[local] Instance supervisor_quiet : Quiet supervisor_monitor.
Proof. intros [missing seen] X e x Hq. destruct e; try discriminate Hq; cbn; auto. Qed.

Lemma safe_checkAndCreateNamespace c s :
  safe supervisor_monitor (checkAndCreateNamespace (Some c) BackupDriverNamespace)
    (λ o s', s'.2 = s.2 ∧ returns (λ _, True) o) s.
Proof.
  destruct s as [missing seen]. unfold checkAndCreateNamespace. cbn. intros [client|e]; [|done].
  cbn. intros [n|e]; [done|]. cbn. by intros [n|e'].
Qed.

Lemma safe_waitForPvSecret client missing seen :
  safe supervisor_monitor (waitForPvSecret client BackupDriverNamespace) (λ o s',
    match o with
    | Returned (Ok s) => s ∈ s'.2
    | Returned (Err _) | Hung _ => True
    | Panicked _ => False
    end) (missing, seen).
Proof.
  unfold waitForPvSecret. intros [events done]. cbn. unfold seen_secret.
  destruct (list_find _ events) as [[i [s|s|s]]|]; [|done..|].
  - cbn. by left.
  - cbn. by destruct done.
Qed.

(** The supervisor's configuration is made of the secret of the plugin, which was read or has
    just been announced; the namespace of the secret is created only when it could not be
    read.  The wait for the secret may last for ever, but nothing panics. *)
Theorem GetSupervisorConfig_protocol guestConfig :
  safe supervisor_monitor (GetSupervisorConfig guestConfig) (λ o '(_, seen), match o with
    | Returned (Ok config) => ∃ s, s ∈ seen ∧ config = supervisorConfig s
    | Returned (Err _) | Hung _ => True
    | Panicked _ => False
    end) (false, []).
Proof.
  assert (Hgo : ∀ c, safe supervisor_monitor
    (let? clientset := call (NewForConfig c) else e =>
       Ret (Err (Wrap e "Could not retrieve in-cluster config client")) in
     check! checkAndCreateNamespace (Some c) BackupDriverNamespace else e => Ret (Err e) in
     let! r := call (GetObj clientset KSecret BackupDriverNamespace PvSecretName) in
     let? secret := (match r with
       | Ok s => Ret (Ok s) | Err _ => waitForPvSecret clientset BackupDriverNamespace end) else e => Ret (Err e) in
     Ret (Ok (supervisorConfig secret))) (λ o '(_, seen), match o with
       | Returned (Ok config) => ∃ s, s ∈ seen ∧ config = supervisorConfig s
       | Returned (Err _) | Hung _ => True
       | Panicked _ => False
       end) (false, [])).
  { intros c [client|e]; [|done]. cbn [bind].
    eapply safe_seq; [apply safe_checkAndCreateNamespace| |by intros ? ? [_ []]..].
    intros [e|] [missing seen] [Hs _]; [done|]. cbn in Hs; subst seen. cbn [bind].
    intros [s|e]; cbn -[waitForPvSecret]; [exists s; split; [by left|done]|].
    eapply safe_seq; [apply safe_waitForPvSecret| |by intros ? [? ?]..].
    intros [s|e'] [missing' seen] Hs; [by exists s|done]. }
  unfold GetSupervisorConfig. destruct guestConfig as [c|]; [apply Hgo|].
  unfold GetKubeClientConfig. cbn [bind call]. intros [c|e]; [apply Hgo|done].
Qed.

(** A supervisor's annotation is read as it was written. *)
Lemma before_ippool v t :
  Contains v "-ippool" = false → before "-ippool" (v +:+ "-ippool" +:+ t) = v.
Proof.
  induction v as [|a v IH]; intros Hv; [done|].
  cbn [Contains] in Hv. apply orb_false_iff in Hv as [Hp Hv].
  assert (Hn : has_prefix "-ippool" (String a v +:+ "-ippool" +:+ t) = false).
  { clear IH Hv. destruct (has_prefix _ (String a v +:+ _)) eqn:Hh; [|done]. exfalso.
    assert (Hc : ∀ x u w, String x u +:+ w = String x (u +:+ w)) by done.
    assert (H0 : ∀ w : string, "" +:+ w = w) by done.
    do 7 (destruct v as [|? v]; [rewrite !Hc, H0 in Hh; cbn in Hp, Hh; repeat case_bool_decide; by simplify_eq/=|]).
    rewrite !Hc in Hh. cbn in Hp, Hh. congruence. }
  change (String a v +:+ "-ippool" +:+ t) with (String a (v +:+ "-ippool" +:+ t)) in *.
  cbn [before]. rewrite Hn. f_equal. by apply IH.
Qed.

(** The annotation [<cluster ID>:<vCenter UUID>-ippool-<range>] is read back as it was written. *)
Theorem supervisorParams_extpoolid annotations clusterId uuid range :
  has_byte ":" clusterId = false → has_byte ":" (uuid +:+ "-ippool" +:+ range) = false →
  Contains uuid "-ippool" = false →
  annotations !! "ncp/extpoolid" = Some (clusterId +:+ String ":" (uuid +:+ "-ippool" +:+ range)) →
  supervisorParams annotations !! SupervisorClusterIdKey = Some clusterId ∧
  supervisorParams annotations !! VCuuidKey = Some uuid.
Proof.
  intros Hc Hu Hp Ha. unfold supervisorParams. rewrite Ha. unfold Split.
  rewrite split_aux_sep by done. unfold Split. rewrite split_aux_no_sep by done. cbn -[before].
  assert (H0 : ∀ w : string, "" +:+ w = w) by done. rewrite !H0.
  rewrite before_ippool by done. split.
  - by rewrite lookup_insert_ne, lookup_insert_eq.
  - by rewrite lookup_insert_eq.
Qed.

(** The log level: an entry of the configuration map takes the place of one that the parameters
    have, and nothing else changes. *)
Theorem withVddkConfig_spec ps data m :
  default (IMap ∅) (ps !! VddkConfig) = IMap m →
  ∃ ps' m', withVddkConfig ps data = Some ps' ∧ ps' !! VddkConfig = Some (IMap m') ∧
    (∀ k, m' !! k = match data !! k with Some v => Some v | None => m !! k end) ∧
    ∀ k, k ≠ VddkConfig → ps' !! k = ps !! k.
Proof.
  intros Hm. unfold withVddkConfig. rewrite Hm. eexists _, _.
  split_and!; [done|by rewrite lookup_insert_eq| |].
  - intros k. rewrite lookup_union. by destruct (data !! k), (m !! k).
  - intros k Hk. by rewrite lookup_insert_ne.
Qed.

End supervisor_spec.
