(* ===== verification/Builders.v ===== *)
(** * Builders of custom resources (pkg/builder)

    A builder is the object under construction; every method returns the builder
    with one field set. *)

From S2P Require Export Utils.
Open Scope Z_scope.

Definition S3RepositoryDriver : string := "s3repository.astrolabe.vmware-tanzu.com".

Definition zero_progress : OperationProgress := {| pr_TotalBytes := 0; pr_BytesDone := 0 |}.

(** ** Options of the metadata (object_meta.go) *)

Definition ObjectMetaOpt : Type := ObjectMeta → ObjectMeta.

(** A key without a value at the end gets the empty one; a later entry wins. *)
Fixpoint setMapEntries (m : gmap string string) (vals : list string) : gmap string string :=
  match vals with
  | [] => m
  | [key] => <[key := ""]> m
  | key :: val :: vals => setMapEntries (<[key := val]> m) vals
  end.

Definition WithName (val : string) : ObjectMetaOpt := λ obj, obj <| om_Name := val |>.
Definition WithLabels (vals : list string) : ObjectMetaOpt :=
  λ obj, obj <| om_Labels := setMapEntries (om_Labels obj) vals |>.
(** The labels given win over those the object has. *)
Definition WithLabelsMap (labels : gmap string string) : ObjectMetaOpt :=
  λ obj, obj <| om_Labels := labels ∪ om_Labels obj |>.
Definition WithAnnotations (vals : list string) : ObjectMetaOpt :=
  λ obj, obj <| om_Annotations := setMapEntries (om_Annotations obj) vals |>.
Definition WithFinalizers (vals : list string) : ObjectMetaOpt := λ obj, obj <| om_Finalizers := vals |>.
Definition WithDeletionTimestamp (val : time) : ObjectMetaOpt :=
  λ obj, obj <| om_DeletionTimestamp := Some val |>.
Definition WithUID (val : string) : ObjectMetaOpt := λ obj, obj <| om_UID := val |>.
Definition WithGenerateName (val : string) : ObjectMetaOpt := λ obj, obj <| om_GenerateName := val |>.

(** Of pairs of a key and a value, the last one of a key stays. *)
Lemma setMapEntries_pairs m kvs :
  setMapEntries m (flat_map (λ '(k, v), [k; v]) kvs) = list_to_map (reverse kvs) ∪ m.
Proof.
  revert m. induction kvs as [|[k v] kvs IH]; intros m; cbn [flat_map app setMapEntries].
  { change (list_to_map (reverse [])) with (∅ : gmap string string). by rewrite (left_id_L ∅ (∪)). }
  rewrite IH, reverse_cons, list_to_map_app, <-(assoc_L (∪)). f_equal. cbn.
  by rewrite insert_union_singleton_l.
Qed.

(** ** Upload *)

Module Upload.
Definition ForUpload (ns name : string) : Upload := {|
  u_Meta := meta ns name (AppendVeleroExcludeLabels ∅);
  u_Spec := {| us_SnapshotID := ""; us_BackupTimestamp := None; us_UploadCancel := false;
               us_BackupRepositoryName := ""; us_SnapshotReference := "" |};
  u_Status := {| us_Phase := UploadPhaseUnset; us_Message := ""; us_StartTimestamp := None;
                 us_CompletionTimestamp := None; us_Progress := zero_progress;
                 us_ProcessingNode := ""; us_RetryCount := 0;
                 us_NextRetryTimestamp := None; us_CurrentBackOff := 0 |} |}.

Definition ObjectMeta (opts : list ObjectMetaOpt) (b : Upload) : Upload :=
  foldl (λ b opt, b <| u_Meta := opt (u_Meta b) |>) b opts.
Definition BackupTimestamp (val : time) (b : Upload) := b <| u_Spec; us_BackupTimestamp := Some val |>.
Definition Phase (phase : UploadPhase) (b : Upload) := b <| u_Status; us_Phase := phase |>.
Definition SnapshotID (id : string) (b : Upload) := b <| u_Spec; us_SnapshotID := id |>.
Definition StartTimestamp (val : time) (b : Upload) := b <| u_Status; us_StartTimestamp := Some val |>.
Definition CompletionTimestamp (val : time) (b : Upload) := b <| u_Status; us_CompletionTimestamp := Some val |>.
Definition ProcessingNode (node : string) (b : Upload) := b <| u_Status; us_ProcessingNode := node |>.
Definition Retry (cnt : Z) (b : Upload) := b <| u_Status; us_RetryCount := cnt |>.
Definition NextRetryTimestamp (val : time) (b : Upload) := b <| u_Status; us_NextRetryTimestamp := Some val |>.
Definition CurrentBackOff (backoff : Z) (b : Upload) := b <| u_Status; us_CurrentBackOff := backoff |>.
Definition BackupRepositoryName (br : string) (b : Upload) := b <| u_Spec; us_BackupRepositoryName := br |>.
Definition SnapshotReference (ref : string) (b : Upload) := b <| u_Spec; us_SnapshotReference := ref |>.
End Upload.

(** ** Download *)

Module Download.
Definition ForDownload (ns name : string) : Download := {|
  d_Meta := meta ns name (AppendVeleroExcludeLabels ∅);
  d_Spec := {| ds_SnapshotID := ""; ds_RestoreTimestamp := None; ds_ProtectedEntityID := "";
               ds_BackupRepositoryName := ""; ds_CloneFromSnapshotReference := "" |};
  d_Status := {| ds_VolumeID := ""; ds_Phase := DownloadPhaseUnset; ds_Message := "";
                 ds_StartTimestamp := None; ds_CompletionTimestamp := None;
                 ds_Progress := zero_progress; ds_ProcessingNode := ""; ds_RetryCount := 0;
                 ds_NextRetryTimestamp := None |} |}.

Definition ObjectMeta (opts : list ObjectMetaOpt) (b : Download) : Download :=
  foldl (λ b opt, b <| d_Meta := opt (d_Meta b) |>) b opts.
Definition RestoreTimestamp (val : time) (b : Download) := b <| d_Spec; ds_RestoreTimestamp := Some val |>.
Definition Phase (phase : DownloadPhase) (b : Download) := b <| d_Status; ds_Phase := phase |>.
Definition VolumeID (id : string) (b : Download) := b <| d_Status; ds_VolumeID := id |>.
Definition ProtectedEntityID (id : string) (b : Download) := b <| d_Spec; ds_ProtectedEntityID := id |>.
Definition BackupRepositoryName (br : string) (b : Download) := b <| d_Spec; ds_BackupRepositoryName := br |>.
Definition SnapshotID (id : string) (b : Download) := b <| d_Spec; ds_SnapshotID := id |>.
Definition StartTimestamp (val : time) (b : Download) := b <| d_Status; ds_StartTimestamp := Some val |>.
Definition CompletionTimestamp (val : time) (b : Download) := b <| d_Status; ds_CompletionTimestamp := Some val |>.
Definition ProcessingNode (node : string) (b : Download) := b <| d_Status; ds_ProcessingNode := node |>.
Definition Retry (cnt : Z) (b : Download) := b <| d_Status; ds_RetryCount := cnt |>.
Definition NextRetryTimestamp (val : time) (b : Download) := b <| d_Status; ds_NextRetryTimestamp := Some val |>.
Definition CloneFromSnapshotReference (ref : string) (b : Download) := b <| d_Spec; ds_CloneFromSnapshotReference := ref |>.
End Download.

(** ** Snapshot, CloneFromSnapshot and DeleteSnapshot *)

Module Snapshot.
Definition ForSnapshot (ns name : string) (labels : gmap string string) : Snapshot := {|
  s_Meta := meta ns name (AppendVeleroExcludeLabels labels);
  s_Spec := {| ss_ResourceHandle := {| ref_APIGroup := None; ref_Kind := ""; ref_Name := "" |};
               ss_BackupRepository := ""; ss_SnapshotCancel := false |};
  s_Status := {| ss_Phase := SnapshotPhaseUnset; ss_Message := ""; ss_Progress := zero_progress;
                 ss_SnapshotID := ""; ss_SvcSnapshotName := ""; ss_Metadata := "";
                 ss_CompletionTimestamp := None |} |}.

Definition BackupRepository (br : string) (b : Snapshot) := b <| s_Spec; ss_BackupRepository := br |>.
Definition ObjectReference (ref : TypedLocalObjectReference) (b : Snapshot) := b <| s_Spec; ss_ResourceHandle := ref |>.
Definition CancelState (cancel : bool) (b : Snapshot) := b <| s_Spec; ss_SnapshotCancel := cancel |>.
End Snapshot.

Module CloneFromSnapshot.
Definition ForCloneFromSnapshot (ns name : string) (labels : gmap string string) : CloneFromSnapshot := {|
  c_Meta := meta ns name (AppendVeleroExcludeLabels labels);
  c_Spec := {| cs_SnapshotID := ""; cs_Metadata := ""; cs_APIGroup := None; cs_Kind := "";
               cs_BackupRepository := ""; cs_CloneCancel := false |};
  c_Status := {| cs_Phase := ClonePhaseUnset; cs_Message := ""; cs_ResourceHandle := None;
                 cs_CompletionTimestamp := None |} |}.

Definition BackupRepository (br : string) (b : CloneFromSnapshot) := b <| c_Spec; cs_BackupRepository := br |>.
Definition SnapshotID (id : string) (b : CloneFromSnapshot) := b <| c_Spec; cs_SnapshotID := id |>.
Definition Metadata (md : string) (b : CloneFromSnapshot) := b <| c_Spec; cs_Metadata := md |>.
Definition APIGroup (g : option string) (b : CloneFromSnapshot) := b <| c_Spec; cs_APIGroup := g |>.
Definition Kind (k : string) (b : CloneFromSnapshot) := b <| c_Spec; cs_Kind := k |>.
Definition CancelState (cancel : bool) (b : CloneFromSnapshot) := b <| c_Spec; cs_CloneCancel := cancel |>.
End CloneFromSnapshot.

Module DeleteSnapshot.
Definition ForDeleteSnapshot (ns name : string) : DeleteSnapshot := {|
  del_Meta := meta ns name (AppendVeleroExcludeLabels ∅);
  del_Spec := {| dels_SnapshotID := ""; dels_BackupRepository := "" |};
  del_Status := {| dels_Phase := DeleteSnapshotPhaseUnset; dels_Message := "";
                   dels_CompletionTimestamp := None |} |}.

Definition SnapshotID (id : string) (b : DeleteSnapshot) := b <| del_Spec; dels_SnapshotID := id |>.
Definition BackupRepository (br : string) (b : DeleteSnapshot) := b <| del_Spec; dels_BackupRepository := br |>.
End DeleteSnapshot.

(** ** BackupRepository and BackupRepositoryClaim *)

(** A nil slice copied into a fresh one becomes an empty one. *)
Definition copy_slice (l : option (list string)) : option (list string) := Some (default [] l).

Module BackupRepository.
Definition ForBackupRepository (name : string) : BackupRepository := {|
  br_Meta := meta "" name (AppendVeleroExcludeLabels ∅);
  br_AllowedNamespaces := None; br_RepositoryDriver := ""; br_RepositoryParameters := None;
  br_BackupRepositoryClaim := ""; br_SvcBackupRepositoryName := "" |}.

Definition AllowedNamespaces (l : option (list string)) (b : BackupRepository) := b <| br_AllowedNamespaces := copy_slice l |>.
Definition RepositoryDriver (b : BackupRepository) := b <| br_RepositoryDriver := S3RepositoryDriver |>.
Definition RepositoryParameters (m : option (gmap string string)) (b : BackupRepository) := b <| br_RepositoryParameters := m |>.
Definition BackupRepositoryClaim (c : string) (b : BackupRepository) := b <| br_BackupRepositoryClaim := c |>.
Definition SvcBackupRepositoryName (n : string) (b : BackupRepository) :=
  if bool_decide (n ≠ "") then b <| br_SvcBackupRepositoryName := n |> else b.
End BackupRepository.

Module BackupRepositoryClaim.
Definition ForBackupRepositoryClaim (ns name : string) : BackupRepositoryClaim := {|
  brc_Meta := meta ns name (AppendVeleroExcludeLabels ∅);
  brc_AllowedNamespaces := None; brc_RepositoryDriver := ""; brc_RepositoryParameters := None;
  brc_BackupRepository := "" |}.

Definition AllowedNamespaces (l : option (list string)) (b : BackupRepositoryClaim) := b <| brc_AllowedNamespaces := copy_slice l |>.
Definition RepositoryDriver (b : BackupRepositoryClaim) := b <| brc_RepositoryDriver := S3RepositoryDriver |>.
Definition RepositoryParameters (m : option (gmap string string)) (b : BackupRepositoryClaim) := b <| brc_RepositoryParameters := m |>.
Definition BackupRepository (br : string) (b : BackupRepositoryClaim) := b <| brc_BackupRepository := br |>.
End BackupRepositoryClaim.
