(* ===== verification/Base64.v ===== *)
(** * encoding/base64, the standard encodings

    [base64.RawStdEncoding]: the standard alphabet without padding, and
    [base64.StdEncoding] with padding.  The decoders skip line breaks, accept
    non-zero trailing bits and reject a lone last character, as Go's do. *)

From S2P Require Export Go.
Open Scope Z_scope.

(** The error of both decoders; the position in its text is left out. *)
Definition CorruptInputError : error := ErrorString "illegal base64 data".

Definition byte_val (a : ascii) : Z := Z.of_nat (nat_of_ascii a).
Definition byte_of (z : Z) : ascii := ascii_of_nat (Z.to_nat z).

Lemma byte_val_range a : 0 ≤ byte_val a < 256.
Proof. unfold byte_val. pose proof (nat_ascii_bounded a). lia. Qed.

Lemma byte_of_val a : byte_of (byte_val a) = a.
Proof. unfold byte_of, byte_val. rewrite Nat2Z.id. apply ascii_nat_embedding. Qed.

(** The alphabet [A-Z a-z 0-9 + /]. *)
Definition b64_char (n : Z) : ascii :=
  if n <? 26 then byte_of (65 + n)
  else if n <? 52 then byte_of (97 + (n - 26))
  else if n <? 62 then byte_of (48 + (n - 52))
  else if n =? 62 then "+" else "/".

Definition b64_val (a : ascii) : option Z :=
  let c := byte_val a in
  if (65 <=? c) && (c <=? 90) then Some (c - 65)
  else if (97 <=? c) && (c <=? 122) then Some (c - 97 + 26)
  else if (48 <=? c) && (c <=? 57) then Some (c - 48 + 52)
  else if c =? 43 then Some 62
  else if c =? 47 then Some 63
  else None.

Fixpoint EncodeToString (s : string) : string :=
  match s with
  | String a (String b (String c s)) =>
      let '(a, b, c) := (byte_val a, byte_val b, byte_val c) in
      String (b64_char (a / 4))
        (String (b64_char (a mod 4 * 16 + b / 16))
          (String (b64_char (b mod 16 * 4 + c / 64))
            (String (b64_char (c mod 64)) (EncodeToString s))))
  | String a (String b EmptyString) =>
      let '(a, b) := (byte_val a, byte_val b) in
      String (b64_char (a / 4))
        (String (b64_char (a mod 4 * 16 + b / 16))
          (String (b64_char (b mod 16 * 4)) EmptyString))
  | String a EmptyString =>
      String (b64_char (byte_val a / 4))
        (String (b64_char (byte_val a mod 4 * 16)) EmptyString)
  | EmptyString => EmptyString
  end.

(** The characters the decoder keeps, as six-bit values. *)
Fixpoint sextets (s : string) : option (list Z) :=
  match s with
  | EmptyString => Some []
  | String a s =>
      if bool_decide (a = "010"%char) || bool_decide (a = "013"%char) then sextets s
      else match b64_val a, sextets s with
           | Some v, Some l => Some (v :: l)
           | _, _ => None
           end
  end.

Fixpoint quanta (l : list Z) : option string :=
  match l with
  | [] => Some EmptyString
  | [_] => None
  | [a; b] => Some (String (byte_of (a * 4 + b / 16)) EmptyString)
  | [a; b; c] =>
      Some (String (byte_of (a * 4 + b / 16))
             (String (byte_of (b mod 16 * 16 + c / 4)) EmptyString))
  | a :: b :: c :: d :: l =>
      match quanta l with
      | Some s =>
          Some (String (byte_of (a * 4 + b / 16))
                 (String (byte_of (b mod 16 * 16 + c / 4))
                   (String (byte_of (c mod 4 * 64 + d)) s)))
      | None => None
      end
  end.

Definition DecodeString (s : string) : option string :=
  match sextets s with
  | Some l => quanta l
  | None => None
  end.

(** ** Round trip *)

Lemma all_below (P : Z → bool) (n : nat) :
  forallb (λ k, P (Z.of_nat k)) (seq 0 n) = true → ∀ z, 0 ≤ z < Z.of_nat n → P z = true.
Proof.
  intros H z Hz. rewrite forallb_forall in H.
  specialize (H (Z.to_nat z)). rewrite Z2Nat.id in H by lia.
  apply H, in_seq. lia.
Qed.

Lemma b64_val_char n : 0 ≤ n < 64 →
  b64_val (b64_char n) = Some n ∧
  bool_decide (b64_char n = "010"%char) = false ∧
  bool_decide (b64_char n = "013"%char) = false.
Proof.
  intros Hn. pose proof (all_below (λ n, bool_decide (b64_val (b64_char n) = Some n
    ∧ bool_decide (b64_char n = "010"%char) = false
    ∧ bool_decide (b64_char n = "013"%char) = false)) 64 eq_refl n Hn) as H.
  by apply bool_decide_eq_true in H.
Qed.

Lemma sextets_char n s : 0 ≤ n < 64 →
  sextets (String (b64_char n) s) =
  match sextets s with Some l => Some (n :: l) | None => None end.
Proof.
  intros Hn. destruct (b64_val_char n Hn) as (Hv & Hr & Hl).
  cbn [sextets]. by rewrite Hr, Hl, Hv.
Qed.

Lemma string_ind3 (P : string → Prop) :
  P EmptyString → (∀ a, P (String a EmptyString)) →
  (∀ a b, P (String a (String b EmptyString))) →
  (∀ a b c s, P s → P (String a (String b (String c s)))) → ∀ s, P s.
Proof.
  intros H0 H1 H2 H3. fix IH 1. intros [|a [|b [|c s]]]; [auto..|exact (H3 a b c s (IH s))].
Qed.

Lemma byte_of_eq z a : z = byte_val a → byte_of z = a.
Proof. intros ->. apply byte_of_val. Qed.

Lemma DecodeString_EncodeToString s : DecodeString (EncodeToString s) = Some s.
Proof.
  unfold DecodeString. induction s as [|a|a b|a b c s IH] using string_ind3;
    [done| | |];
    pose proof (byte_val_range a);
    try pose proof (byte_val_range b); try pose proof (byte_val_range c);
    cbn [EncodeToString].
  - rewrite !sextets_char by (Z.div_mod_to_equations; lia). cbn.
    do 2 f_equal. apply byte_of_eq. Z.div_mod_to_equations; lia.
  - rewrite !sextets_char by (Z.div_mod_to_equations; lia). cbn.
    repeat f_equal; apply byte_of_eq; Z.div_mod_to_equations; lia.
  - rewrite !sextets_char by (Z.div_mod_to_equations; lia).
    destruct (sextets (EncodeToString s)) as [l|]; [|done].
    cbn [quanta] in *. rewrite IH.
    repeat f_equal; apply byte_of_eq; Z.div_mod_to_equations; lia.
Qed.

(** ** Decoding shrinks *)

Lemma sextets_length s l : sextets s = Some l → (length l ≤ String.length s)%nat.
Proof.
  revert l. induction s as [|a s IH]; intros l; cbn [sextets String.length].
  { by intros [= <-]. }
  destruct (_ || _); [intros H; apply IH in H; lia|].
  destruct (b64_val a), (sextets s) as [l'|]; try done.
  intros [= <-]. specialize (IH _ eq_refl). cbn. lia.
Qed.

Lemma quanta_length l s : quanta l = Some s →
  (String.length s ≤ length l)%nat ∧ (0 < length l → String.length s < length l)%nat.
Proof.
  revert s. induction l as [l IH] using (induction_ltof1 _ (@length Z)).
  destruct l as [|a [|b [|c [|d l]]]]; intros s; cbn [quanta].
  1-4: try done; intros [= <-]; cbn; lia.
  destruct (quanta l) as [s'|] eqn:Hl; [|done]. intros [= <-].
  assert (Hlt : ltof _ (@length Z) l (a :: b :: c :: d :: l)) by (unfold ltof; cbn; lia).
  specialize (IH _ Hlt _ Hl) as [IH _]. cbn. lia.
Qed.

Lemma DecodeString_length s d :
  DecodeString s = Some d → (String.length d ≤ String.length s)%nat.
Proof.
  unfold DecodeString. destruct (sextets s) as [l|] eqn:Hs; [|done].
  intros [Hq _]%quanta_length. apply sextets_length in Hs. lia.
Qed.

(** ** With padding *)

Fixpoint StdEncodeToString (s : string) : string :=
  match s with
  | String a (String b (String c s)) =>
      let '(a, b, c) := (byte_val a, byte_val b, byte_val c) in
      String (b64_char (a / 4))
        (String (b64_char (a mod 4 * 16 + b / 16))
          (String (b64_char (b mod 16 * 4 + c / 64))
            (String (b64_char (c mod 64)) (StdEncodeToString s))))
  | String a (String b EmptyString) =>
      let '(a, b) := (byte_val a, byte_val b) in
      String (b64_char (a / 4))
        (String (b64_char (a mod 4 * 16 + b / 16))
          (String (b64_char (b mod 16 * 4)) "="))
  | String a EmptyString =>
      String (b64_char (byte_val a / 4))
        (String (b64_char (byte_val a mod 4 * 16)) "==")
  | EmptyString => EmptyString
  end.

(** The characters the decoder keeps; [None] is the padding. *)
Fixpoint symbols (s : string) : option (list (option Z)) :=
  match s with
  | EmptyString => Some []
  | String a s =>
      if bool_decide (a = "010"%char) || bool_decide (a = "013"%char) then symbols s
      else
        match (if bool_decide (a = "="%char) then Some None else Some <$> b64_val a), symbols s with
        | Some v, Some l => Some (v :: l)
        | _, _ => None
        end
  end.

(** Four characters at a time; padding only at the end. *)
Fixpoint padded_quanta (l : list (option Z)) : option string :=
  match l with
  | [] => Some EmptyString
  | [Some a; Some b; None; None] => Some (String (byte_of (a * 4 + b / 16)) EmptyString)
  | [Some a; Some b; Some c; None] =>
      Some (String (byte_of (a * 4 + b / 16))
             (String (byte_of (b mod 16 * 16 + c / 4)) EmptyString))
  | Some a :: Some b :: Some c :: Some d :: l =>
      match padded_quanta l with
      | Some s =>
          Some (String (byte_of (a * 4 + b / 16))
                 (String (byte_of (b mod 16 * 16 + c / 4))
                   (String (byte_of (c mod 4 * 64 + d)) s)))
      | None => None
      end
  | _ => None
  end.

Definition StdDecodeString (s : string) : option string :=
  match symbols s with
  | Some l => padded_quanta l
  | None => None
  end.

Lemma symbols_char n s : 0 ≤ n < 64 →
  symbols (String (b64_char n) s) =
  match symbols s with Some l => Some (Some n :: l) | None => None end.
Proof.
  intros Hn. destruct (b64_val_char n Hn) as (Hv & Hr & Hl). cbn [symbols]. rewrite Hr, Hl. cbn.
  rewrite bool_decide_false; [by rewrite Hv|]. intros He. by rewrite He in Hv.
Qed.

Lemma StdDecodeString_StdEncodeToString s : StdDecodeString (StdEncodeToString s) = Some s.
Proof.
  unfold StdDecodeString. induction s as [|a|a b|a b c s IH] using string_ind3;
    [done| | |];
    pose proof (byte_val_range a);
    try pose proof (byte_val_range b); try pose proof (byte_val_range c);
    cbn [StdEncodeToString].
  - rewrite !symbols_char by (Z.div_mod_to_equations; lia).
    change (symbols "==") with (Some [@None Z; None]). cbn.
    do 2 f_equal. apply byte_of_eq. Z.div_mod_to_equations; lia.
  - rewrite !symbols_char by (Z.div_mod_to_equations; lia).
    change (symbols "=") with (Some [@None Z]). cbn.
    repeat f_equal; apply byte_of_eq; Z.div_mod_to_equations; lia.
  - rewrite !symbols_char by (Z.div_mod_to_equations; lia).
    destruct (symbols (StdEncodeToString s)) as [l|]; [|done].
    cbn [padded_quanta] in *. rewrite IH.
    repeat f_equal; apply byte_of_eq; Z.div_mod_to_equations; lia.
Qed.
