(* ===== verification/Repositories.v ===== *)
(** * Backup repositories (pkg/backuprepository)

    Claiming a repository by its parameters, creating the repository of a claim,
    the merge patch that ties them, and the S3 repository a BackupRepository
    stands for. *)

From S2P Require Export Builders.
Open Scope Z_scope.

(** [reflect.DeepEqual] on the parameters and namespaces distinguishes a nil map
    or slice from an empty one. *)
Definition compareBackupRepositoryClaim (repositoryDriver : string)
    (repositoryParameters : option (gmap string string))
    (allowedNamespaces : option (list string)) (brc : BackupRepositoryClaim) : bool :=
  if negb (bool_decide (repositoryParameters = brc_RepositoryParameters brc)) then false
  else if negb (bool_decide (repositoryDriver = brc_RepositoryDriver brc)) then false
  else if negb (bool_decide (allowedNamespaces = brc_AllowedNamespaces brc)) then false
  else true.

Definition GetBackupRepositoryNameForBackupRepositoryClaim (brc : BackupRepositoryClaim) : string :=
  "br-" +:+ om_UID (brc_Meta brc).

(** What the function sends on the result channel, if it sends. *)
Definition checkIfBackupRepositoryClaimIsReferenced (brcMap : gset string)
    (brc : BackupRepositoryClaim) : option string :=
  let brcName := brc_Name brc in
  let brRefName := brc_BackupRepository brc in
  if bool_decide (brRefName ≠ "") then
    if bool_decide (brcName ∈ brcMap) then Some brRefName else None
  else None.

(** The informer has handlers for additions and updates only. *)
Definition claimEvent (brcMap : gset string) (ev : watch_event BackupRepositoryClaim)
    : option string :=
  match ev with
  | Added brc => checkIfBackupRepositoryClaimIsReferenced brcMap brc
  | Updated brcNew => checkIfBackupRepositoryClaimIsReferenced brcMap brcNew
  | Deleted _ => None
  end.

(** The loop over the claims found: the repository of the first match that has
    one, or the names of the matches that wait for theirs.  The code keeps the
    claims under their names and only ever looks at the names. *)
Fixpoint matchClaims (repositoryDriver : string)
    (repositoryParameters : option (gmap string string))
    (allowedNamespaces : option (list string))
    (items : list BackupRepositoryClaim) (brcMap : gset string) : string + gset string :=
  match items with
  | [] => inr brcMap
  | item :: items =>
      if compareBackupRepositoryClaim repositoryDriver repositoryParameters allowedNamespaces item
      then
        if bool_decide (brc_BackupRepository item = "") then
          matchClaims repositoryDriver repositoryParameters allowedNamespaces items
            ({[brc_Name item]} ∪ brcMap)
        else inl (brc_BackupRepository item)
      else matchClaims repositoryDriver repositoryParameters allowedNamespaces items brcMap
  end.

Section BackupRepository.
Context `{Deps}.

(** The [select] on the result channel and the context. *)
Definition waitForClaim (c : client) (ns : string) (brcMap : gset string) : io (result string) :=
  let! (events, done) := call (Watch c KBackupRepositoryClaim ns) in
  match list_find (λ ev, is_Some (claimEvent brcMap ev)) events with
  | Some (_, ev) => Ret (Ok (default "" (claimEvent brcMap ev)))
  | None =>
      match done with
      | Some e => Ret (Err e)
      | None => Hang "select: no BackupRepositoryClaim is ever referenced"
      end
  end.

Definition ClaimBackupRepository (repositoryDriver : string)
    (repositoryParameters : option (gmap string string))
    (allowedNamespaces : option (list string)) (ns : string) (c : client)
    : io (result string) :=
  let? brcList := call (ListObj c KBackupRepositoryClaim ns) else _ =>
    Ret (Err (ErrorString ("Failed to list backup repository claims from the "
      +:+ ns +:+ " namespace"))) in
  match matchClaims repositoryDriver repositoryParameters allowedNamespaces brcList ∅ with
  | inl backupRepositoryNameFound => Ret (Ok backupRepositoryNameFound)
  | inr brcMap =>
      if bool_decide (brcMap = ∅) then
        let? uuid := call NewUUID else _ =>
          Ret (Err (ErrorString "Failed to generate backup repository claim name")) in
        let backupRepoClaimName := "brc-" +:+ uuid in
        let req := BackupRepositoryClaim.AllowedNamespaces allowedNamespaces
          (BackupRepositoryClaim.RepositoryDriver
            (BackupRepositoryClaim.RepositoryParameters repositoryParameters
              (BackupRepositoryClaim.ForBackupRepositoryClaim ns backupRepoClaimName))) in
        let? _ := call (CreateObj c KBackupRepositoryClaim ns req) else _ =>
          Ret (Err (ErrorString ("Failed to create backup repository claim with name "
            +:+ backupRepoClaimName +:+ " in namespace " +:+ ns))) in
        waitForClaim c ns {[backupRepoClaimName]}
      else waitForClaim c ns brcMap
  end.

Definition CreateBackupRepository (brc : BackupRepositoryClaim) (svcBrName : string)
    (c : client) : io (result BackupRepository) :=
  let backupRepoName := GetBackupRepositoryNameForBackupRepositoryClaim brc in
  let! r := call (GetObj c KBackupRepository "" backupRepoName) in
  match r with
  | Ok backupRepoReq => Ret (Ok backupRepoReq)
  | Err e =>
      if negb (IsNotFound e) then
        Ret (Err (ErrorString ("failed to retrieve BackupRepository API object "
          +:+ backupRepoName +:+ ": " +:+ Error e)))
      else
        let req := BackupRepository.SvcBackupRepositoryName svcBrName
          (BackupRepository.RepositoryDriver
            (BackupRepository.RepositoryParameters (brc_RepositoryParameters brc)
              (BackupRepository.AllowedNamespaces (brc_AllowedNamespaces brc)
                (BackupRepository.BackupRepositoryClaim (brc_Name brc)
                  (BackupRepository.ForBackupRepository backupRepoName))))) in
        let? newBackupRepo := call (CreateObj c KBackupRepository "" req) else e =>
          Ret (Err e) in
        Ret (Ok newBackupRepo)
  end.

Definition ClaimSvcBackupRepository (brc : BackupRepositoryClaim) (svcConfig : RestConfig)
    (svcNamespace : string) : io (result string) :=
  let? c := call (NewForConfig svcConfig) else e => Ret (Err (WithStack e)) in
  ClaimBackupRepository (brc_RepositoryDriver brc) (brc_RepositoryParameters brc)
    (Some [svcNamespace]) svcNamespace c.

Definition patchBackupRepositoryClaimInt (req : BackupRepositoryClaim)
    (mutate : BackupRepositoryClaim → io BackupRepositoryClaim) (c : client) (ns : string)
    : io (result BackupRepositoryClaim) :=
  check! call (MarshalJSON KBackupRepositoryClaim req) else e =>
    Ret (Err (Wrap e "Failed to marshall original BackupRepositoryClaim")) in
  let! req' := mutate req in
  check! call (MarshalJSON KBackupRepositoryClaim req') else e =>
    Ret (Err (Wrap e "Failed to marshall updated BackupRepositoryClaim")) in
  check! call (CreateMergePatch KBackupRepositoryClaim req req') else e =>
    Ret (Err (Wrap e "Failed to creat json merge patch for BackupRepositoryClaim")) in
  let? r := call (PatchObj c KBackupRepositoryClaim ns (brc_Name req') req req') else e =>
    Ret (Err (Wrap e "Failed to patch BackupRepositoryClaim")) in
  Ret (Ok r).

(** The claim is the object of the informer's cache in the only caller, and
    [mutate] writes to it. *)
Definition PatchBackupRepositoryClaim (brc : BackupRepositoryClaim)
    (backRepositoryName ns : string) (c : client) : io (option error) :=
  let mutate r :=
    let r' := r <| brc_BackupRepository := backRepositoryName |> in
    call (ListerWrite KBackupRepositoryClaim r') ;;; Ret r' in
  let? _ := patchBackupRepositoryClaimInt brc mutate c ns else _ =>
    Ret (Some (ErrorString ("Failed to patch backup repository claim " +:+ brc_Name brc
      +:+ " with backup repository " +:+ backRepositoryName +:+ " in namespace " +:+ ns))) in
  Ret None.

Definition GetRepositoryFromBackupRepository (br : BackupRepository) : io (result S3PETM) :=
  if bool_decide (br_RepositoryDriver br = S3RepositoryDriver) then
    GetS3PETMFromParamsMap (IString <$> default ∅ (br_RepositoryParameters br))
  else Ret (Err (ErrorString ("Unsupported backuprepository driver type: "
    +:+ br_RepositoryDriver br +:+ ". Only support " +:+ S3RepositoryDriver +:+ "."))).

(** [%v] of the configuration is left out of the second message. *)
Definition GetBackupRepositoryFromBackupRepositoryName (name : string)
    : io (result BackupRepository) :=
  let? config := GetKubeClientConfig else e =>
    Ret (Err (Wrap e "Failed to get k8s client config")) in
  let? pluginClient := call (NewForConfig config) else e =>
    Ret (Err (Wrap e "Failed to get k8s clientset from the given config")) in
  let? br := call (GetObj pluginClient KBackupRepository "" name) else e =>
    Ret (Err (Wrap e ("Error while retrieving the backup repository CR " +:+ name))) in
  Ret (Ok br).

Definition RetrieveBackupRepositoryFromBSL (bslName pvcNamespace veleroNs : string)
    (c : client) (restConfig : RestConfig) : io (result string) :=
  let? repositoryParameters := RetrieveParamsFromBSL bslName restConfig else e =>
    Ret (Err (WithStack e)) in
  let? backupRepositoryName := ClaimBackupRepository S3RepositoryDriver
      (Some repositoryParameters) (Some [pvcNamespace]) veleroNs c else e =>
    Ret (Err (WithStack e)) in
  Ret (Ok backupRepositoryName).
End BackupRepository.

(** ** What the functions only read *)

Section reads.
Context `{Deps}.

Lemma reads_GetRepositoryFromBackupRepository br :
  calls_only (@reads _) (GetRepositoryFromBackupRepository br).
Proof. unfold GetRepositoryFromBackupRepository. calls_tac. Qed.

Lemma reads_GetBackupRepositoryFromBackupRepositoryName name :
  calls_only (@reads _) (GetBackupRepositoryFromBackupRepositoryName name).
Proof. unfold GetBackupRepositoryFromBackupRepositoryName. calls_tac. Qed.
End reads.

#[export] Hint Resolve reads_GetRepositoryFromBackupRepository
  reads_GetBackupRepositoryFromBackupRepositoryName : calls.
