(* ===== verification/Healthy.v ===== *)
(** * Healthy clusters

    Clusters on which the set-up of a repository succeeds, and what the
    code of pkg/utils and pkg/backuprepository makes of them.  The theorems that
    work gets done assume one. *)

From S2P Require Export Repositories.
Open Scope Z_scope.

Section healthy.
Context `{Deps}.

(** A repository from which an S3 session can be set up. *)
Definition usable (br : BackupRepository) : bool :=
  let ps := IString <$> default ∅ (br_RepositoryParameters br) in
  bool_decide (br_RepositoryDriver br = S3RepositoryDriver)
  && (GetStringFromParamsMap ps "region").2 && (GetStringFromParamsMap ps "bucket").2
  && match GetS3SessionOptionsFromParamsMap ps with Ok _ => true | Err _ => false end.

Definition is_ok {A} (r : result A) : bool := match r with Ok _ => true | Err _ => false end.

(** The answers of a healthy cluster to the calls of a set-up; [None] for the other calls. *)
Definition healthy {X} (e : Cmd X) : option (X → bool) :=
  match e in Cmd X return option (X → bool) with
  | LoadClientConfig => Some is_ok
  | NewForConfig _ => Some is_ok
  | GetObj _ k _ _ =>
      match k return option (result (obj k) → bool) with
      | KBackupRepository => Some (λ r, match r with Ok br => usable br | Err _ => false end)
      | KBackupStorageLocation => Some (λ r, match r with
          | Ok bsl => bool_decide (is_Some (bsl_Bucket bsl)) | Err _ => false end)
      | _ => None
      end
  | MarshalJSON _ _ => Some (λ r, bool_decide (r = None))
  | CreateMergePatch _ _ _ => Some (λ r, bool_decide (r = None))
  | LookupEnv _ => Some (λ r, bool_decide (is_Some r))
  | NewSession _ => Some (λ r, bool_decide (r = None))
  | NewS3Repository _ _ _ => Some is_ok
  | _ => None
  end.

Definition assume {S} (b : bool) (s : S) : verdict S := if b then Next s else Impossible.

Lemma safe_assume {A S} (mon : monitor Cmd S) (b : bool) (p : io A) Q s :
  (b = true → safe mon p Q s) →
  match assume b s with Next s' => safe mon p Q s' | Violation => False | Impossible => True end.
Proof. destruct b; cbn; auto. Qed.

(** A monitor of a healthy cluster. *)
Class Healthy {S} (mon : monitor Cmd S) :=
  healthy_answers s X (e : Cmd X) f x : healthy e = Some f → mon s X e x = assume (f x) s.

(** The outcome of a program that succeeds and leaves the state alone. *)
Definition succeeds {S A} (s : S) (o : outcome (result A)) (s' : S) : Prop :=
  s' = s ∧ ∃ a, o = Returned (Ok a).

Context {S : Type} (mon : monitor Cmd S) `{!Healthy mon}.

(** One call of a set-up. *)
Lemma safe_healthy {X A} (e : Cmd X) f (k : X → io A) Q s :
  healthy e = Some f → (∀ x, f x = true → safe mon (k x) Q s) → safe mon (Do e k) Q s.
Proof.
  intros He Hk x. rewrite (healthy_answers s X e f x He). by apply safe_assume, Hk.
Qed.

Ltac healthy_step :=
  eapply safe_healthy; [reflexivity|cbn; intros [?|?] ?; cbn [bind call]; [|done]].

Lemma heal_S3 ps s :
  (GetStringFromParamsMap ps "region").2 = true → (GetStringFromParamsMap ps "bucket").2 = true →
  is_ok (GetS3SessionOptionsFromParamsMap ps) = true →
  safe mon (GetS3PETMFromParamsMap ps) (succeeds s) s.
Proof.
  unfold GetS3PETMFromParamsMap. destruct (GetStringFromParamsMap ps "region") as [r []]; [|done].
  destruct (GetStringFromParamsMap ps "bucket") as [b []]; [|done]. intros _ _.
  destruct (GetS3SessionOptionsFromParamsMap ps) as [o|]; [|done]. intros _. cbn [bind call].
  eapply safe_healthy; [reflexivity|]. intros e ->%bool_decide_eq_true.
  destruct (GetStringFromParamsMap ps "s3Url"), (GetStringFromParamsMap ps "s3ForcePathStyle").
  eapply safe_healthy; [reflexivity|]. intros [petm|] Hok; [|done]. cbn. unfold succeeds. eauto.
Qed.

Lemma heal_GetDefaultS3PETM s : safe mon GetDefaultS3PETM (succeeds s) s.
Proof.
  unfold GetDefaultS3PETM, RetrieveVSLFromVeleroBSLs, GetKubeClientConfig, GetVeleroNamespace. cbn [bind call].
  healthy_step. healthy_step.
  eapply safe_healthy; [reflexivity|]. intros ns [ns' ->]%bool_decide_eq_true. cbn [bind call].
  eapply safe_healthy; [reflexivity|]. intros [bsl|] Hok; [|done]. apply bool_decide_eq_true in Hok as [b Hb].
  cbn [bind call]. unfold bslParams. rewrite Hb. cbn [bind].
  apply heal_S3; unfold GetStringFromParamsMap, GetS3SessionOptionsFromParamsMap;
    destruct (bsl_CACert bsl); by simplify_map_eq.
Qed.

Lemma heal_GetRepository br s :
  usable br = true → safe mon (GetRepositoryFromBackupRepository br) (succeeds s) s.
Proof.
  unfold usable, GetRepositoryFromBackupRepository. destruct (bool_decide _); [|done].
  cbn. intros [[Hr Hb]%andb_prop Ho]%andb_prop. apply heal_S3; [done..|].
  by destruct (GetS3SessionOptionsFromParamsMap _).
Qed.

Lemma heal_GetBackupRepository name s :
  safe mon (GetBackupRepositoryFromBackupRepositoryName name)
    (λ o s', s' = s ∧ ∃ br, o = Returned (Ok br) ∧ usable br = true) s.
Proof.
  unfold GetBackupRepositoryFromBackupRepositoryName, GetKubeClientConfig. cbn [bind call].
  healthy_step. healthy_step. eapply safe_healthy; [reflexivity|]. intros [br|] Hok; [|done]. cbn. eauto.
Qed.
End healthy.
