(* ===== verification/CmdUtils.v ===== *)
(** * The command line's utilities (pkg/cmd/utils.go)

    What the installers find out about the Velero deployment, and the two
    configuration maps they leave for the plugin: the feature states and the
    list of blocked resources. *)

From S2P Require Export Repositories.
Open Scope Z_scope.

(** ** Tables of pkg/constants *)

(** A [map[string]bool] whose values are all true. *)
Definition true_at (keys : list string) : gmap string bool :=
  list_to_map ((λ k, (k, true)) <$> keys).

Definition ResourcesToBlock : gmap string bool := true_at
 ["addressbindings.crd.nsx.vmware.com"; "agentinstalls.installers.tmc.cloud.vmware.com";
   "availabilityzones.topology.tanzu.vmware.com";
   "aviloadbalancerconfigs.netoperator.vmware.com"; "blockaffinities.crd.projectcalico.org";
   "ccsplugins.appplatform.wcp.vmware.com"; "certificaterequests.cert-manager.io";
   "certificates.cert-manager.io"; "challenges.acme.cert-manager.io";
   "clusterclasses.cluster.x-k8s.io"; "clusterissuers.cert-manager.io";
   "clusternetworkinfos.nsx.vmware.com"; "clusterresourcesetbindings.addons.cluster.x-k8s.io";
   "clusterresourcesets.addons.cluster.x-k8s.io"; "clusters.cluster.x-k8s.io";
   "cnscsisvfeaturestates.cns.vmware.com"; "cnsfileaccessconfigs.cns.vmware.com";
   "cnsfilevolumeclients.cns.vmware.com"; "cnsnodevmattachments.cns.vmware.com";
   "cnsregistervolumes.cns.vmware.com"; "cnsvolumemetadatas.cns.vmware.com";
   "compatibilities.run.tanzu.vmware.com"; "contentlibraryproviders.vmoperator.vmware.com";
   "contentsourcebindings.vmoperator.vmware.com"; "contentsources.vmoperator.vmware.com";
   "drainrequests.psp.wcp.vmware.com"; "gatewayclasses.networking.x-k8s.io";
   "gateways.networking.x-k8s.io"; "haproxyloadbalancerconfigs.netoperator.vmware.com";
   "httproutes.networking.x-k8s.io"; "imagedisks.imagecontroller.vmware.com";
   "installoptions.appplatform.wcp.vmware.com"; "installrequirements.appplatform.wcp.vmware.com";
   "ipaddressallocations.crd.nsx.vmware.com"; "ipamblocks.crd.projectcalico.org";
   "ipamconfigs.crd.projectcalico.org"; "ipamhandles.crd.projectcalico.org";
   "ipblocksinfos.crd.nsx.vmware.com"; "ippools.crd.projectcalico.org";
   "ippools.netoperator.vmware.com"; "ippools.nsx.vmware.com"; "issuers.cert-manager.io";
   "kubeadmconfigs.bootstrap.cluster.x-k8s.io";
   "kubeadmconfigtemplates.bootstrap.cluster.x-k8s.io";
   "kubeadmcontrolplanes.controlplane.cluster.x-k8s.io";
   "kuberneteslicenses.licenseoperator.vmware.com"; "loadbalancerconfigs.netoperator.vmware.com";
   "loadbalancers.vmware.com"; "machinedeployments.cluster.x-k8s.io";
   "machinehealthchecks.cluster.x-k8s.io"; "machinepools.exp.cluster.x-k8s.io";
   "machines.cluster.x-k8s.io"; "machinesets.cluster.x-k8s.io";
   "members.registryagent.vmware.com"; "namespacenetworkinfos.nsx.vmware.com";
   "ncpconfigs.nsx.vmware.com"; "networkinfos.crd.nsx.vmware.com";
   "networkinterfaces.netoperator.vmware.com"; "networks.netoperator.vmware.com";
   "nsxerrors.nsx.vmware.com"; "nsxlocks.nsx.vmware.com"; "nsxnetworkinterfaces.nsx.vmware.com";
   "nsxnetworkconfigurations.nsx.vmware.com"; "nsxserviceaccounts.nsx.vmware.com";
   "orders.acme.cert-manager.io"; "packages.data.packaging.carvel.dev";
   "packagemetadatas.data.packaging.carvel.dev"; "persistenceinstanceinfoes.psp.wcp.vmware.com";
   "persistenceserviceconfigurations.psp.wcp.vmware.com"; "projects.registryagent.vmware.com";
   "providerserviceaccounts.run.tanzu.vmware.com"; "psprecencyrequests.psp.wcp.vmware.com";
   "pvcdisruptionbudgets.psp.wcp.vmware.com"; "registries.registryagent.vmware.com";
   "resourcecheckreports.psp.wcp.vmware.com"; "resourcechecks.psp.wcp.vmware.com";
   "routesets.nsx.vmware.com"; "securitypolicies.crd.nsx.vmware.com";
   "securitypolicies.nsx.vmware.com"; "statefuldrainnodes.psp.wcp.vmware.com";
   "statefulreadynodes.psp.wcp.vmware.com"; "staticroutes.crd.nsx.vmware.com";
   "storagepolicies.appplatform.wcp.vmware.com"; "storagepolicies.psp.wcp.vmware.com";
   "storagepools.cns.vmware.com"; "subnetports.crd.nsx.vmware.com"; "subnets.crd.nsx.vmware.com";
   "subnetsets.crd.nsx.vmware.com"; "supervisorservices.appplatform.wcp.vmware.com";
   "tanzukubernetesaddons.run.tanzu.vmware.com"; "tanzukubernetesclusters.run.tanzu.vmware.com";
   "tanzukubernetesreleases.run.tanzu.vmware.com"; "tcproutes.networking.x-k8s.io";
   "tkgserviceconfigurations.run.tanzu.vmware.com"; "vcuiplugins.appplatform.wcp.vmware.com";
   "veleroservices.veleroappoperator.vmware.com";
   "virtualmachineclassbindings.vmoperator.vmware.com";
   "virtualmachineclasses.vmoperator.vmware.com"; "virtualmachineimages.vmoperator.vmware.com";
   "virtualmachineservices.vmoperator.vmware.com";
   "virtualmachinesetresourcepolicies.vmoperator.vmware.com";
   "virtualmachines.vmoperator.vmware.com"; "virtualnetworkinterfaces.vmware.com";
   "virtualnetworks.vmware.com"; "vmxnet3networkinterfaces.netoperator.vmware.com";
   "vpcnetworkconfigurations.crd.nsx.vmware.com";
   "vspheredistributednetworks.netoperator.vmware.com";
   "wcpclusters.infrastructure.cluster.vmware.com"; "wcpnamespaces.appplatform.wcp.vmware.com";
   "wcpmachines.infrastructure.cluster.vmware.com";
   "wcpmachinetemplates.infrastructure.cluster.vmware.com";
   "webconsolerequests.vmoperator.vmware.com";
   "backuprepositories.backupdriver.cnsdp.vmware.com";
   "backuprepositoryclaims.backupdriver.cnsdp.vmware.com";
   "clonefromsnapshots.backupdriver.cnsdp.vmware.com";
   "deletesnapshots.backupdriver.cnsdp.vmware.com"; "downloads.datamover.cnsdp.vmware.com";
   "snapshots.backupdriver.cnsdp.vmware.com"; "uploads.datamover.cnsdp.vmware.com";
   "storagequotaperiodicsyncs.cns.vmware.com"; "storagepolicyusages.cns.vmware.com";
   "storagepolicyquotas.cns.vmware.com"; "storagequotas.cns.vmware.com"].

Definition ResourcesToBlockOnRestore : gmap string bool := true_at
 ["pods"; "images.imagecontroller.vmware.com"; "nsxlbmonitors.vmware.com";
   "nsxloadbalancermonitors.vmware.com"].

Definition ResourcesToHandle : gmap string bool := true_at ["persistentvolumeclaims"].

Definition PodAnnotationsToSkip : gmap string bool := true_at
 ["kubernetes.io/psp"; "mac"; "vlan"; "vmware-system-ephemeral-disk-uuid";
   "vmware-system-image-references"; "vmware-system-vm-moid"; "vmware-system-vm-uuid";
   "vmware-system-network"; "nsx.vmware.com/attachment"; "nsx.vmware.com/mac"].

Definition ResourcesToBlockListName : string := "velero-vsphere-plugin-blocked-resources-list".
Definition VSphereLocalModeFeature : string := "EnableLocalMode".
Definition CSIMigratedVolumeSupportFlag : string := "csi-migrated-volume-support".
Definition VeleroDeployment : string := "velero".
Definition VeleroMinVersion : string := "v1.5.1".

(** ** The Velero deployment *)

(** [container.Args[1:]] of the first container of that name; [None] is the
    panic of a container without arguments. *)
Fixpoint containerArgs (containers : list Container) (containerName : string)
    : option (list string) :=
  match containers with
  | [] => Some []
  | container :: containers =>
      if bool_decide (containerName = ctr_Name container) then
        match ctr_Args container with
        | [] => None
        | _ :: args => Some args
        end
      else containerArgs containers containerName
  end.

Section cmd_utils.
Context `{Deps}.

Definition GetFeatureFlagsFromImage (containers : list Container) (containerName : string)
    : option (list string) :=
  match containerArgs containers containerName with
  | None => None
  | Some [] => Some []
  | Some args => Some (Split (ParseFeatures args) ",")
  end.

Definition GetVeleroVersion (kubeClient : client) (ns : string) : io (result string) :=
  let? veleroDeployment := call (GetObj kubeClient KDeployment ns VeleroDeployment) else e =>
    Ret (Err e) in
  Ret (Ok (GetVersionFromImage (wl_Containers veleroDeployment) "velero")).

Definition GetVeleroFeatureFlags (kubeClient : client) (ns : string) : io (result (list string)) :=
  let? veleroDeployment := call (GetObj kubeClient KDeployment ns VeleroDeployment) else e =>
    Ret (Err e) in
  match GetFeatureFlagsFromImage (wl_Containers veleroDeployment) "velero" with
  | Some featureFlags => Ret (Ok featureFlags)
  | None => Panic "slice bounds out of range"
  end.

(** A version that is too old is only printed. *)
Definition CheckVeleroVersion (kubeClient : client) (ns : string) : io (option error) :=
  let! _ := GetVeleroVersion kubeClient ns in
  Ret None.

Definition CheckPluginImageRepo (kubeClient : client) (ns defaultImage serverType : string)
    : io (string * option error) :=
  let! r := GetCompatibleRepoAndTagFromPluginImage kubeClient ns serverType in
  match r with
  | Err e => Ret (defaultImage, Some e)
  | Ok image => Ret (image, None)
  end.

(** ** The feature states *)

(** The data that is written, given the data that is there. *)
Definition featureData (features : list string) (data : gmap string string) : gmap string string :=
  let keep k dflt := match data !! k with Some v => v | None => FormatBool dflt end in
  <[CSIMigratedVolumeSupportFlag := keep CSIMigratedVolumeSupportFlag false]>
  (<[DecoupleVSphereCSIDriverFlag := keep DecoupleVSphereCSIDriverFlag true]>
  (<[VSphereLocalModeFlag := FormatBool (Contains (Join features ",") VSphereLocalModeFeature)]> ∅)).

Definition CreateFeatureStateConfigMap (kubeClient : client) (features : list string)
    (veleroNs : string) : io (option error) :=
  let! r := call (GetObj kubeClient KConfigMap veleroNs VSpherePluginFeatureStates) in
  match r with
  | Err e =>
      if negb (IsNotFound e) then Ret (Some e)
      else
        let featureConfigMap := {| cm_Meta := meta veleroNs VSpherePluginFeatureStates ∅;
                                   cm_Data := featureData features ∅ |} in
        let? _ := call (CreateObj kubeClient KConfigMap veleroNs featureConfigMap) else e =>
          Ret (Some e) in
        Ret None
  | Ok featureConfigMap =>
      let? _ := call (UpdateObj kubeClient KConfigMap veleroNs
          (featureConfigMap <| cm_Data := featureData features (cm_Data featureConfigMap) |>)) else e =>
        Ret (Some e) in
      Ret None
  end.

(** ** The blocked resources *)

Definition CreateBlockListConfigMap (kubeClient : client) (veleroNs : string)
    (resourceToBlock : gmap string bool) : io (option error) :=
  let! r := call (GetObj kubeClient KConfigMap veleroNs ResourcesToBlockListName) in
  match r with
  | Ok _ => Ret None
  | Err e =>
      if negb (IsNotFound e) then Ret (Some e)
      else
        let blockListConfigMap := {| cm_Meta := meta veleroNs ResourcesToBlockListName ∅;
                                     cm_Data := FormatBool <$> resourceToBlock |} in
        let? _ := call (CreateObj kubeClient KConfigMap veleroNs blockListConfigMap) else e =>
          Ret (Some e) in
        Ret None
  end.

Definition RetrieveBlockListConfigMap : io (result (gmap string string)) :=
  let! veleroNs := GetVeleroNamespace in
  match veleroNs with
  | None => Ret (Err (ErrorString "Failed to lookup the ENV variable for velero namespace"))
  | Some veleroNs =>
      let? restConfig := GetKubeClientConfig else e => Ret (Err (WithStack e)) in
      let? kubeClient := call (NewForConfig restConfig) else e => Ret (Err (WithStack e)) in
      let? blockListConfigMap := call (GetObj kubeClient KConfigMap veleroNs ResourcesToBlockListName)
        else e => Ret (Err e) in
      Ret (Ok (cm_Data blockListConfigMap))
  end.
End cmd_utils.

(** ** The feature states are stable *)

(** Writing the feature states twice is the same as once: the flags that were
    there are kept, the missing ones get their defaults. *)
Lemma featureData_idempotent features data :
  featureData features (featureData features data) = featureData features data.
Proof. unfold featureData. by simplify_map_eq. Qed.

Lemma featureData_lookup features data :
  featureData features data !! VSphereLocalModeFlag =
    Some (FormatBool (Contains (Join features ",") VSphereLocalModeFeature)) ∧
  featureData features data !! DecoupleVSphereCSIDriverFlag =
    Some (default "true" (data !! DecoupleVSphereCSIDriverFlag)) ∧
  featureData features data !! CSIMigratedVolumeSupportFlag =
    Some (default "false" (data !! CSIMigratedVolumeSupportFlag)).
Proof.
  unfold featureData. by repeat split; simplify_map_eq; destruct (data !! _).
Qed.

Section reads.
Context `{Deps}.

Lemma reads_RetrieveBlockListConfigMap : calls_only (@reads _) RetrieveBlockListConfigMap.
Proof. unfold RetrieveBlockListConfigMap, GetVeleroNamespace. calls_tac. Qed.
End reads.

#[export] Hint Resolve reads_RetrieveBlockListConfigMap : calls.
