(* ===== verification/Install.v ===== *)
(** * The installers (pkg/install, pkg/cmd/datamgr, pkg/cmd/backupdriver)

    The manifests of the data manager and of the backup driver, how they are sent to
    the cluster, and how the installers wait for them. *)

From S2P Require Export CmdUtils.
Open Scope Z_scope.

Definition DefaultImageRegistry : string := "vsphereveleroplugin".
Definition DataManagerForPlugin : string := "data-manager-for-plugin".
Definition BackupDriverForPlugin : string := "backup-driver".
Definition Established : string := "Established".
Definition NamesAccepted : string := "NamesAccepted".
Definition DeploymentAvailable : string := "Available".

(** ** Manifests *)

(** The fields of the Kubernetes types that the manifests set. *)
Inductive EnvSource := EnvValue (v : string) | EnvFieldRef (path : string) | EnvSecretKeyRef (secret key : string).
Record EnvVar := { env_Name : string; env_Source : EnvSource }.
Record VolumeMount := { mount_Name : string; mount_Path : string }.
Inductive VolumeSource := EmptyDir | SecretVolume (name : string).
Record PodVolume := { pvol_Name : string; pvol_Source : VolumeSource }.
Record Toleration := { tol_Effect : string; tol_Key : string; tol_Operator : string; tol_Value : string }.

(** The client of an API resource, by identity. *)
Abbreviation dynClient := N.

(** Velero's parser of resource quantities, the generated definitions of the custom resources,
    and the conversions to and from untyped objects; [conditions] are the types of a
    definition's conditions, the type, status and last transition of a deployment's, and the
    numbers of available and of desired pods of a daemon set. *)
Class IDeps `{Deps} := {
  Resources : Type;
  Resources_zero : Resources;
  ParseCPUAndMemoryResources : string → string → string → string → result Resources;
  CRD : Type;
  CRDs : list CRD;
  SetLabels : gmap string string → CRD → CRD;
  IObject : Type;
  GetKind : IObject → string;
  GetName : IObject → string;
  GetNamespace : IObject → string;
  GetAPIVersion : IObject → string;
  CRDConditions : IObject → result (list string);
  DeploymentConditions : IObject → result (list (string * string * option time));
  DaemonSetStatus : IObject → result (Z * Z);
  IsNotExist : error → bool;
  BuildRegistry : string;
}.

Section manifests.
Context `{IDeps}.

Record PodContainer := {
  pc_Name : string;
  pc_Image : string;
  pc_ImagePullPolicy : string;
  pc_Command : list string;
  pc_Args : list string;
  pc_VolumeMounts : list VolumeMount;
  pc_Env : list EnvVar;
  pc_Resources : Resources;
}.

(** A daemon set or a deployment, with its one container; it runs as user 0. *)
Record Manifest := {
  mf_Kind : string;
  mf_Meta : ObjectMeta;
  mf_MatchLabels : gmap string string;
  mf_Labels : gmap string string;
  mf_Annotations : gmap string string;
  mf_RestartPolicy : string;
  mf_ServiceAccountName : string;
  mf_Volumes : list PodVolume;
  mf_Container : PodContainer;
  mf_Tolerations : list Toleration;
  mf_NodeSelector : gmap string string;
  mf_HostNetwork : bool;
}.

Record podTemplateConfig := {
  pt_image : string;
  pt_envVars : list EnvVar;
  pt_restoreOnly : bool;
  pt_annotations : gmap string string;
  pt_resources : Resources;
  pt_withSecret : bool;
  pt_masterAffinity : bool;
  pt_hostNetwork : bool;
}.

Definition podTemplateOption : Type := podTemplateConfig → podTemplateConfig.

#[export] Instance update_pt_image : Update pt_image := λ v r,
  let (_, a, b, c, d, e, f, g) := r in Build_podTemplateConfig v a b c d e f g.
#[export] Instance update_pt_envVars : Update pt_envVars := λ v r,
  let (a, _, b, c, d, e, f, g) := r in Build_podTemplateConfig a v b c d e f g.
#[export] Instance update_pt_restoreOnly : Update pt_restoreOnly := λ v r,
  let (a, b, _, c, d, e, f, g) := r in Build_podTemplateConfig a b v c d e f g.
#[export] Instance update_pt_annotations : Update pt_annotations := λ v r,
  let (a, b, c, _, d, e, f, g) := r in Build_podTemplateConfig a b c v d e f g.
#[export] Instance update_pt_resources : Update pt_resources := λ v r,
  let (a, b, c, d, _, e, f, g) := r in Build_podTemplateConfig a b c d v e f g.
#[export] Instance update_pt_withSecret : Update pt_withSecret := λ v r,
  let (a, b, c, d, e, _, f, g) := r in Build_podTemplateConfig a b c d e v f g.
#[export] Instance update_pt_masterAffinity : Update pt_masterAffinity := λ v r,
  let (a, b, c, d, e, f, _, g) := r in Build_podTemplateConfig a b c d e f v g.
#[export] Instance update_pt_hostNetwork : Update pt_hostNetwork := λ v r,
  let (a, b, c, d, e, f, g, _) := r in Build_podTemplateConfig a b c d e f g v.

Definition WithImage (image : string) : podTemplateOption := λ c, c <| pt_image := image |>.
Definition WithAnnotations (annotations : gmap string string) : podTemplateOption := λ c,
  c <| pt_annotations := annotations |>.
Definition WithSecret (secretPresent : bool) : podTemplateOption := λ c, c <| pt_withSecret := secretPresent |>.
Definition WithRestoreOnly : podTemplateOption := λ c, c <| pt_restoreOnly := true |>.
Definition WithResources (resources : Resources) : podTemplateOption := λ c, c <| pt_resources := resources |>.
Definition WithMasterNodeAffinity (affinity : bool) : podTemplateOption := λ c,
  c <| pt_masterAffinity := affinity |>.
Definition WithHostNetwork (hostNetwork : bool) : podTemplateOption := λ c, c <| pt_hostNetwork := hostNetwork |>.
Definition WithEnvFromSecretKey (varName secret key : string) : podTemplateOption := λ c,
  c <| pt_envVars := pt_envVars c ++ [{| env_Name := varName; env_Source := EnvSecretKeyRef secret key |}] |>.

Definition imageVersion : string := if bool_decide (BuildVersion = "") then "latest" else BuildVersion.
Definition imageRegistry : string :=
  if bool_decide (BuildRegistry = "") then DefaultImageRegistry else BuildRegistry.

Definition labels : gmap string string := {["component" := "velero"]}.
Definition objectMeta (namespace name : string) : ObjectMeta :=
  {| om_Name := name; om_Namespace := namespace; om_Labels := labels; om_Annotations := ∅;
     om_UID := ""; om_DeletionTimestamp := None; om_Finalizers := []; om_GenerateName := "" |}.

Definition DefaultDatamgrImage : string :=
  imageRegistry +:+ "/" +:+ DataManagerForPlugin +:+ ":" +:+ imageVersion.
Definition DefaultBackupDriverImage : string :=
  imageRegistry +:+ "/" +:+ BackupDriverForPlugin +:+ ":" +:+ imageVersion.

Definition defaultConfig (image : string) : podTemplateConfig := {|
  pt_image := image; pt_envVars := []; pt_restoreOnly := false; pt_annotations := ∅;
  pt_resources := Resources_zero; pt_withSecret := false; pt_masterAffinity := false;
  pt_hostNetwork := false |}.

Definition pullPolicy (image : string) : string :=
  match Split image ":" with
  | [_; tag] => if bool_decide (tag ≠ "latest") then "IfNotPresent" else "Always"
  | _ => "Always"
  end.

Definition scratchEnv : list EnvVar := [
  {| env_Name := "NODE_NAME"; env_Source := EnvFieldRef "spec.nodeName" |};
  {| env_Name := "VELERO_NAMESPACE"; env_Source := EnvFieldRef "metadata.namespace" |};
  {| env_Name := "VELERO_SCRATCH_DIR"; env_Source := EnvValue "/scratch" |};
  {| env_Name := "LD_LIBRARY_PATH"; env_Source := EnvValue "/vddkLibs" |}].

Definition DaemonSet (namespace : string) (opts : list podTemplateOption) : Manifest :=
  let c := fold_left (λ c opt, opt c) opts (defaultConfig DefaultDatamgrImage) in
  let name := "datamgr-for-vsphere-plugin" in
  let secret {A} (l : list A) := if pt_withSecret c then l else [] in
  {| mf_Kind := "DaemonSet"; mf_Meta := objectMeta namespace name;
     mf_MatchLabels := {["name" := name]};
     mf_Labels := {["name" := name; "component" := "velero"]};
     mf_Annotations := pt_annotations c; mf_RestartPolicy := ""; mf_ServiceAccountName := "velero";
     mf_Volumes := [{| pvol_Name := "scratch"; pvol_Source := EmptyDir |}] ++
       secret [{| pvol_Name := "cloud-credentials"; pvol_Source := SecretVolume "cloud-credentials" |}];
     mf_Container := {|
       pc_Name := name; pc_Image := pt_image c; pc_ImagePullPolicy := pullPolicy (pt_image c);
       pc_Command := ["/datamgr"]; pc_Args := ["server"];
       pc_VolumeMounts := [{| mount_Name := "scratch"; mount_Path := "/scratch" |}] ++
         secret [{| mount_Name := "cloud-credentials"; mount_Path := "/credentials" |}];
       pc_Env := scratchEnv ++ secret [
           {| env_Name := "GOOGLE_APPLICATION_CREDENTIALS"; env_Source := EnvValue "/credentials/cloud" |};
           {| env_Name := "AWS_SHARED_CREDENTIALS_FILE"; env_Source := EnvValue "/credentials/cloud" |};
           {| env_Name := "AZURE_CREDENTIALS_FILE"; env_Source := EnvValue "/credentials/cloud" |}]
         ++ pt_envVars c;
       pc_Resources := pt_resources c |};
     mf_Tolerations := []; mf_NodeSelector := ∅; mf_HostNetwork := false |}.

Definition masterTolerations : list Toleration := [
  {| tol_Effect := "NoSchedule"; tol_Key := "node-role.kubernetes.io/master";
     tol_Operator := "Exists"; tol_Value := "" |};
  {| tol_Effect := "NoSchedule"; tol_Key := "node-role.kubernetes.io/control-plane";
     tol_Operator := "Exists"; tol_Value := "" |};
  {| tol_Effect := "NoSchedule"; tol_Key := "kubeadmNode"; tol_Operator := "Equal"; tol_Value := "master" |}].

Definition Deployment (namespace : string) (opts : list podTemplateOption) : Manifest :=
  let c := fold_left (λ c opt, opt c) opts (defaultConfig DefaultBackupDriverImage) in
  let name := "backup-driver" in
  {| mf_Kind := "Deployment"; mf_Meta := objectMeta namespace name;
     mf_MatchLabels := {["name" := name]};
     mf_Labels := {["name" := name; "component" := "velero"]};
     mf_Annotations := pt_annotations c; mf_RestartPolicy := "Always"; mf_ServiceAccountName := "velero";
     mf_Volumes := [{| pvol_Name := "scratch"; pvol_Source := EmptyDir |}];
     mf_Container := {|
       pc_Name := name; pc_Image := pt_image c; pc_ImagePullPolicy := pullPolicy (pt_image c);
       pc_Command := ["/backup-driver"]; pc_Args := ["server"];
       pc_VolumeMounts := [{| mount_Name := "scratch"; mount_Path := "/scratch" |}];
       pc_Env := scratchEnv ++ pt_envVars c;
       pc_Resources := pt_resources c |};
     mf_Tolerations := if pt_masterAffinity c then masterTolerations else [];
     mf_NodeSelector := if pt_masterAffinity c
                        then {["node-role.kubernetes.io/control-plane" := ""]} else ∅;
     mf_HostNetwork := pt_hostNetwork c |}.

(** An object before its conversion to an untyped one. *)
Inductive typed := TypedCRD (c : CRD) | TypedManifest (m : Manifest).
End manifests.

(** The converter to untyped objects, and [delete(u, "status")]. *)
Class UDeps `{IDeps} := {
  ToUnstructured : typed → result IObject;
  DeleteStatus : IObject → IObject;
}.

Record PodOptions `{IDeps} := {
  po_Namespace : string;
  po_Image : string;
  po_ProviderName : string;
  po_Bucket : string;
  po_Prefix : string;
  po_PodAnnotations : gmap string string;
  po_PodResources : Resources;
  po_SecretData : string;
  po_SecretAdd : bool;
  po_MasterAffinity : bool;
  po_HostNetwork : bool;
}.

(** ** The calls of an installer

    [Kube] is a call of [Env].  [ClientForGroupVersionResource] has an API version, the
    resource's name, whether it is namespaced, and the namespace; [FeaturesEnable] and
    [FeaturesIsEnabled] are Velero's set of feature flags. *)
Section icmd.
Context `{UDeps}.

Inductive ICmd : Type → Type :=
| Kube {X} (e : Cmd X) : ICmd X
| KubeClient : ICmd (result client)
| DynamicClient : ICmd (result unit)
| ClientForGroupVersionResource (apiVersion name : string) (namespaced : bool) (ns : string)
    : ICmd (result dynClient)
| DynCreate (c : dynClient) (r : IObject) : ICmd (option error)
| DynGet (c : dynClient) (name : string) : ICmd (result IObject)
| ListNodes (c : client) : ICmd (result nat)
| FeaturesEnable (names : list string) : ICmd unit
| FeaturesIsEnabled (name : string) : ICmd bool
| AbsPath (path : string) : ICmd (result string)
| StatFile (path : string) : ICmd (option error)
| ReadFile (path : string) : ICmd (result string)
| PrintWithFormat (resources : list IObject) : ICmd (option error).

Abbreviation iio := (prog ICmd).

(** A program of the other packages, called by an installer. *)
Fixpoint kube {A} (p : io A) : iio A :=
  match p with
  | Ret a => Ret a
  | Panic w => Panic w
  | Hang w => Hang w
  | Do e k => Do (Kube e) (λ x, kube (k x))
  end.

(** A wait whose timeout is zero has none. *)
Fixpoint ipoll_forever {St R} (tries : nat) (cond : St → iio (St * poll_step R)) (st : St)
    : iio (St * result R) :=
  match tries with
  | O => Hang "wait.PollImmediate without timeout"
  | S n =>
      let! (st', r) := cond st in
      match r with
      | PollDone x => Ret (st', Ok x)
      | PollFail e => Ret (st', Err e)
      | PollAgain => ipoll_forever n cond st'
      end
  end.

Definition IPollImmediate {St R} (interval timeout : Z) (cond : St → iio (St * poll_step R)) (st : St)
    : iio (St * result R) :=
  if bool_decide (timeout = 0) then Do (Kube (PollForever interval)) (λ n, ipoll_forever n cond st)
  else Do (Kube (PollTicks interval timeout)) (λ n, poll_loop n cond st).

(** ** Lists of objects *)

(** The error is ignored by every caller: an object that cannot be converted is left out. *)
Definition appendUnstructured (items : list IObject) (obj : typed) : list IObject * option error :=
  match ToUnstructured obj with
  | Err e => (items, Some e)
  | Ok u => (items ++ [DeleteStatus u], None)
  end.

Definition AllCRDs : list IObject :=
  fold_left (λ resources crd, (appendUnstructured resources (TypedCRD (SetLabels labels crd))).1) CRDs [].

Definition AllDatamgrResources (o : PodOptions) (withCRDs : bool) : list IObject :=
  let resources := if withCRDs then AllCRDs else [] in
  let ds := DaemonSet (po_Namespace o)
    [WithAnnotations (po_PodAnnotations o); WithImage (po_Image o); WithResources (po_PodResources o);
     WithSecret (po_SecretAdd o)] in
  (appendUnstructured resources (TypedManifest ds)).1.

Definition AllBackupDriverResources (o : PodOptions) (withCRDs : bool) : list IObject :=
  let resources := if withCRDs then AllCRDs else [] in
  let deploy := Deployment (po_Namespace o)
    [WithAnnotations (po_PodAnnotations o); WithImage (po_Image o); WithResources (po_PodResources o);
     WithMasterNodeAffinity (po_MasterAffinity o); WithHostNetwork (po_HostNetwork o)] in
  (appendUnstructured resources (TypedManifest deploy)).1.

(** A [ResourceGroup]: the definitions of custom resources and the others. *)
Definition GroupResources (resources : list IObject) : list IObject * list IObject :=
  fold_left (λ rg r,
    if bool_decide (GetKind r = "CustomResourceDefinition") then (rg.1 ++ [r], rg.2)
    else (rg.1, rg.2 ++ [r])) resources ([], []).

(** ** Creation *)

Definition kindToResource : gmap string string := list_to_map [
  ("CustomResourceDefinition", "customresourcedefinitions"); ("Namespace", "namespaces");
  ("ClusterRoleBinding", "clusterrolebindings"); ("ServiceAccount", "serviceaccounts");
  ("Deployment", "deployments"); ("DaemonSet", "daemonsets"); ("Secret", "secrets");
  ("BackupStorageLocation", "backupstoragelocations");
  ("VolumeSnapshotLocation", "volumesnapshotlocations")].

Definition CRDsList : list string := ["backupstoragelocations.velero.io"; "volumesnapshotlocations.velero.io"].

Definition createResource (r : IObject) : iio (option error) :=
  let id := GetKind r +:+ "/" +:+ GetName r in
  let? c := call (ClientForGroupVersionResource (GetAPIVersion r) (map_get kindToResource (GetKind r))
      (bool_decide (GetNamespace r ≠ "")) (GetNamespace r)) else e =>
    Ret (Some (Wrap e ("Error creating client for resource " +:+ id))) in
  check! call (DynCreate c r) else e =>
    if IsAlreadyExists e then Ret None
    else Ret (Some (Wrap e ("Error creating resource " +:+ id))) in
  Ret None.

Fixpoint createResources (rs : list IObject) : iio (option error) :=
  match rs with
  | [] => Ret None
  | r :: rs => check! createResource r else e => Ret (Some e) in createResources rs
  end.

(** ** Readiness *)

(** The status of a condition is not looked at. *)
Definition crdIsReady (conditions : list string) : bool :=
  bool_decide (Established ∈ conditions) && bool_decide (NamesAccepted ∈ conditions).

(** One round over the definitions; those found are appended to [foundCRDs], which the
    rounds share. *)
Fixpoint getCRDs (c : dynClient) (crdKinds : list string) (foundCRDs : list (list string))
    : iio (list (list string) * poll_step unit) :=
  match crdKinds with
  | [] => Ret (foundCRDs, PollDone tt)
  | k :: crdKinds =>
      let? unstruct := call (DynGet c k) else e =>
        if IsNotFound e then Ret (foundCRDs, PollAgain)
        else Ret (foundCRDs, PollFail (Wrap e ("error waiting for " +:+ k +:+ " to be ready"))) in
      match CRDConditions unstruct with
      | Err e => Ret (foundCRDs, PollFail (Wrap e ("error converting " +:+ k +:+ " from unstructured")))
      | Ok crd => getCRDs c crdKinds (foundCRDs ++ [crd])
      end
  end.

Definition tryCRDs (c : dynClient) (crdKinds : list string) (foundCRDs : list (list string))
    : iio (list (list string) * poll_step unit) :=
  let! (foundCRDs, r) := getCRDs c crdKinds foundCRDs in
  match r with
  | PollDone _ =>
      if negb (bool_decide (length foundCRDs = length crdKinds)) then Ret (foundCRDs, PollAgain)
      else if forallb crdIsReady foundCRDs then Ret (foundCRDs, PollDone tt)
      else Ret (foundCRDs, PollAgain)
  | r => Ret (foundCRDs, r)
  end.

(** The error of the wait is dropped. *)
Definition crdsAreReady (crdKinds : list string) : iio (result bool) :=
  let? c := call (ClientForGroupVersionResource "apiextensions.k8s.io/v1beta1"
      (map_get kindToResource "CustomResourceDefinition") false "") else e =>
    Ret (Err (Wrap e "Error creating client for CustomResourceDefinition polling")) in
  let! (_, r) := IPollImmediate Second Minute (tryCRDs c crdKinds) [] in
  Ret (Ok (match r with Ok _ => true | Err _ => false end)).

Definition isAvailable (c : string * string * option time) : iio bool :=
  let '(Type', Status, LastTransitionTime) := c in
  if bool_decide (Type' = DeploymentAvailable) && bool_decide (Status = "True") then
    match LastTransitionTime with
    | None => Ret false
    | Some t => let! now := call (Kube Now) in Ret (After now (t + 10 * Second))
    end
  else Ret false.

(** Counts the conditions that are available, on top of the observations so far. *)
Fixpoint countAvailable (conditions : list (string * string * option time)) (readyObservations : Z)
    : iio Z :=
  match conditions with
  | [] => Ret readyObservations
  | cond :: conditions =>
      let! a := isAvailable cond in
      countAvailable conditions (if a then int32 (readyObservations + 1) else readyObservations)
  end.

Definition observed (readyObservations : Z) : Z * poll_step unit :=
  (readyObservations, if 4 <? readyObservations then PollDone tt else PollAgain).

Definition tryDeployment (c : dynClient) (readyObservations : Z) : iio (Z * poll_step unit) :=
  let? u := call (DynGet c "backup-driver") else e =>
    if IsNotFound e then Ret (readyObservations, PollAgain)
    else Ret (readyObservations, PollFail (Wrap e "error waiting for deployment to be ready")) in
  match DeploymentConditions u with
  | Err e => Ret (readyObservations, PollFail (Wrap e "error converting deployment from unstructured"))
  | Ok conditions =>
      let! readyObservations := countAvailable conditions readyObservations in
      Ret (observed readyObservations)
  end.

Definition tryDaemonSet (c : dynClient) (readyObservations : Z) : iio (Z * poll_step unit) :=
  let? u := call (DynGet c "datamgr-for-vsphere-plugin") else e =>
    if IsNotFound e then Ret (readyObservations, PollAgain)
    else Ret (readyObservations, PollFail (Wrap e "error waiting for daemonset to be ready")) in
  match DaemonSetStatus u with
  | Err e => Ret (readyObservations, PollFail (Wrap e "error converting daemonset from unstructured"))
  | Ok (NumberAvailable, DesiredNumberScheduled) =>
      Ret (observed (if bool_decide (NumberAvailable = DesiredNumberScheduled)
                     then int32 (readyObservations + 1) else readyObservations))
  end.

(** The answer is whether the object got ready, with the error of the wait. *)
Definition DeploymentIsReady (namespace : string) : iio (bool * option error) :=
  let? c := call (ClientForGroupVersionResource "apps/v1" "deployments" true namespace) else e =>
    Ret (false, Some (Wrap e "Error creating client for deployment polling")) in
  let! (_, r) := IPollImmediate Second Minute (tryDeployment c) 0 in
  Ret (match r with Ok _ => (true, None) | Err e => (false, Some e) end).

Definition DaemonSetIsReady (namespace : string) (nNodes : Z) : iio (bool * option error) :=
  let? c := call (ClientForGroupVersionResource "apps/v1" "daemonsets" true namespace) else e =>
    Ret (false, Some (Wrap e "Error creating client for daemonset polling")) in
  let timeout := int64 (nNodes * Minute) in
  let! (_, r) := IPollImmediate Second timeout (tryDaemonSet c) 0 in
  Ret (match r with Ok _ => (true, None) | Err e => (false, Some e) end).

(** ** The installation *)

Definition Install (resources : list IObject) : iio (option error) :=
  let rg := GroupResources resources in
  check! createResources rg.1 else e => Ret (Some e) in
  let? _ := crdsAreReady CRDsList else e =>
    match e with
    | ErrWaitTimeout => Ret (Some (ErrorString "timeout reached, CRDs not ready"))
    | e => Ret (Some e)
    end in
  check! createResources rg.2 else e => Ret (Some e) in
  Ret None.
End icmd.
Arguments ICmd {_ _} _.
Abbreviation iio := (prog ICmd).
