(* ===== verification/InstallCommands.v ===== *)
(** * The install commands (pkg/cmd/datamgr, pkg/cmd/backupdriver)

    [Complete] and [Run] of the two install commands, which thread the options they
    change. *)

From S2P Require Export Install.
Open Scope Z_scope.

Definition newline : string := String (ascii_of_nat 10) "".
Definition namespaceFile : string := "/var/run/secrets/kubernetes.io/serviceaccount/namespace".

Section complete.
Context `{UDeps}.

(** The namespace that both commands' Complete would set; [None] leaves the default. *)
Definition completeNamespace : iio (result (option string)) :=
  let! e := call (StatFile namespaceFile) in
  match e with
  | Some e => if IsNotExist e then Ret (Ok None) else Ret (Err (WithStack e))
  | None =>
      let? namespace := call (ReadFile namespaceFile) else e => Ret (Err (WithStack e)) in
      let? config := kube GetKubeClientConfig else e => Ret (Err (WithStack e)) in
      let? clientset := call (Kube (NewForConfig config)) else e => Ret (Err (WithStack e)) in
      let? _ := call (Kube (GetObj clientset KNamespace "" namespace)) else e => Ret (Err (WithStack e)) in
      Ret (Ok (Some namespace))
  end.
End complete.

(** ** The data manager *)
Module DataManager.
Section data_manager.
Context `{UDeps}.

Record InstallOptions := {
  Namespace : string;
  Image : string;
  BucketName : string;
  Prefix : string;
  ProviderName : string;
  PodAnnotations : gmap string string;
  PodCPURequest : string;
  PodMemRequest : string;
  PodCPULimit : string;
  PodMemLimit : string;
  SecretFile : string;
  NoSecret : bool;
  DryRun : bool;
  SkipInstall : bool;
}.

Definition NewInstallOptions : InstallOptions := {|
  Namespace := "velero"; Image := DefaultDatamgrImage; BucketName := ""; Prefix := ""; ProviderName := "";
  PodAnnotations := ∅; PodCPURequest := "0"; PodMemRequest := "0"; PodCPULimit := "0"; PodMemLimit := "0";
  SecretFile := ""; NoSecret := false; DryRun := false; SkipInstall := false |}.

#[global] Instance update_Namespace : Update Namespace := λ v r,
  let (_, a, b, c, d, e, f, g, h, i, j, k, l, m) := r in Build_InstallOptions v a b c d e f g h i j k l m.
#[global] Instance update_Image : Update Image := λ v r,
  let (n, _, b, c, d, e, f, g, h, i, j, k, l, m) := r in Build_InstallOptions n v b c d e f g h i j k l m.
#[global] Instance update_SkipInstall : Update SkipInstall := λ v r,
  let (n, a, b, c, d, e, f, g, h, i, j, k, l, _) := r in Build_InstallOptions n a b c d e f g h i j k l v.

(** The content of the secret's file; it is read only. *)
Definition readSecret (o : InstallOptions) : iio (result string) :=
  if bool_decide (SecretFile o ≠ "") && negb (NoSecret o) then
    let? realPath := call (AbsPath (SecretFile o)) else e => Ret (Err e) in
    call (ReadFile realPath)
  else Ret (Ok "").

Definition AsDatamgrOptions (o : InstallOptions) : iio (result PodOptions) :=
  let? secretData := readSecret o else e => Ret (Err e) in
  match ParseCPUAndMemoryResources (PodCPURequest o) (PodMemRequest o) (PodCPULimit o) (PodMemLimit o) with
  | Err e => Ret (Err e)
  | Ok podResources => Ret (Ok {|
      po_Namespace := Namespace o; po_Image := Image o; po_ProviderName := ProviderName o;
      po_Bucket := BucketName o; po_Prefix := Prefix o; po_PodAnnotations := PodAnnotations o;
      po_PodResources := podResources; po_SecretData := secretData; po_SecretAdd := true;
      po_MasterAffinity := false; po_HostNetwork := false |})
  end.

Definition Complete (o : InstallOptions) : iio (InstallOptions * option error) :=
  let! r := completeNamespace in
  match r with
  | Err e => Ret (o, Some e)
  | Ok None => Ret (o, None)
  | Ok (Some namespace) => Ret (o <| Namespace := namespace |>, None)
  end.

Definition getNumberOfNodes (kubeClient : client) : iio (result Z) :=
  let? n := call (ListNodes kubeClient) else e => Ret (Err e) in
  Ret (Ok (Z.of_nat n)).

(** An error leaves the flavour unknown. *)
Definition CheckClusterFlavorForDataManager (o : InstallOptions) : iio InstallOptions :=
  let! r := kube (RetrieveClusterFlavor None (Namespace o)) in
  match r with
  | Ok TkgGuest | Ok Supervisor => Ret (o <| SkipInstall := true |>)
  | _ => Ret o
  end.

Definition CheckFeatureFlagsForDataManager (o : InstallOptions) (kubeClient : client) : iio InstallOptions :=
  let! r := kube (GetVeleroFeatureFlags kubeClient (Namespace o)) in
  let! _ := call (FeaturesEnable (match r with Ok featureFlags => featureFlags | Err _ => [] end)) in
  let! localMode := call (A := bool) (FeaturesIsEnabled VSphereLocalModeFeature) in
  Ret (if localMode then o <| SkipInstall := true |> else o).

Definition errorMsg (o : InstallOptions) : string :=
  newline +:+ newline +:+ "Error installing data manager. Use `kubectl logs daemonset/" +:+ DataManagerForPlugin +:+
  " -n " +:+ Namespace o +:+ "` to check the logs".

(** Run, from the call of DynamicClient. *)
Definition runInstall (o : InstallOptions) (kubeClient : client) (resources : list IObject)
    : iio (option error) :=
  let? _ := call DynamicClient else e => Ret (Some e) in
  let? nNodes := getNumberOfNodes kubeClient else e =>
    Ret (Some (Wrap e "Error while getting number of nodes in kubernetes cluster")) in
  check! Install resources else e => Ret (Some (Wrap e (errorMsg o))) in
  let! (_, e) := DaemonSetIsReady (Namespace o) nNodes in
  match e with
  | Some e => Ret (Some (Wrap e (errorMsg o)))
  | None => Ret None
  end.

Definition Run (o : InstallOptions) : iio (option error) :=
  let? kubeClient := call KubeClient else e => Ret (Some (Wrap e "Failed to get kubeClient")) in
  let! o := CheckClusterFlavorForDataManager o in
  let! o := CheckFeatureFlagsForDataManager o kubeClient in
  if SkipInstall o then Ret None
  else
    let! _ := kube (CheckVeleroVersion kubeClient (Namespace o)) in
    let! (image, _) := kube (CheckPluginImageRepo kubeClient (Namespace o) (Image o) DataManagerForPlugin) in
    let o := o <| Image := image |> in
    let? vo := AsDatamgrOptions o else e => Ret (Some e) in
    let resources := AllDatamgrResources vo true in
    check! call (PrintWithFormat resources) else e => Ret (Some e) in
    if DryRun o then Ret None else runInstall o kubeClient resources.
End data_manager.
End DataManager.

(** ** The backup driver *)
Module BackupDriverInstall.
Section backup_driver.
Context `{UDeps}.

Record InstallOptions := {
  Namespace : string;
  Image : string;
  PodAnnotations : gmap string string;
  PodCPURequest : string;
  PodMemRequest : string;
  PodCPULimit : string;
  PodMemLimit : string;
  MasterAffinity : bool;
  HostNetwork : bool;
}.

Definition NewInstallOptions : InstallOptions := {|
  Namespace := "velero"; Image := DefaultBackupDriverImage; PodAnnotations := ∅; PodCPURequest := "0";
  PodMemRequest := "0"; PodCPULimit := "0"; PodMemLimit := "0"; MasterAffinity := false;
  HostNetwork := false |}.

#[global] Instance update_Namespace : Update Namespace := λ v r,
  let (_, a, b, c, d, e, f, g, h) := r in Build_InstallOptions v a b c d e f g h.
#[global] Instance update_Image : Update Image := λ v r,
  let (n, _, b, c, d, e, f, g, h) := r in Build_InstallOptions n v b c d e f g h.
#[global] Instance update_MasterAffinity : Update MasterAffinity := λ v r,
  let (n, a, b, c, d, e, f, _, h) := r in Build_InstallOptions n a b c d e f v h.
#[global] Instance update_HostNetwork : Update HostNetwork := λ v r,
  let (n, a, b, c, d, e, f, g, _) := r in Build_InstallOptions n a b c d e f g v.

Definition AsBackupDriverOptions (o : InstallOptions) : result PodOptions :=
  match ParseCPUAndMemoryResources (PodCPURequest o) (PodMemRequest o) (PodCPULimit o) (PodMemLimit o) with
  | Err e => Err e
  | Ok podResources => Ok {|
      po_Namespace := Namespace o; po_Image := Image o; po_ProviderName := ""; po_Bucket := "";
      po_Prefix := ""; po_PodAnnotations := PodAnnotations o; po_PodResources := podResources;
      po_SecretData := ""; po_SecretAdd := false; po_MasterAffinity := MasterAffinity o;
      po_HostNetwork := HostNetwork o |}
  end.

Definition Complete (o : InstallOptions) : iio (InstallOptions * option error) :=
  let! r := completeNamespace in
  match r with
  | Err e => Ret (o, Some e)
  | Ok None => Ret (o, None)
  | Ok (Some namespace) => Ret (o <| Namespace := namespace |>, None)
  end.

Definition CheckClusterFlavorForBackupDriver (o : InstallOptions) : iio (result InstallOptions) :=
  let? clusterFlavor := kube (RetrieveClusterFlavor None (Namespace o)) else e =>
    Ret (Err (Wrap e "Failed to get cluster flavor for backup-driver")) in
  Ret (Ok (if bool_decide (clusterFlavor = Supervisor)
           then o <| MasterAffinity := true |> <| HostNetwork := true |> else o)).

Definition CheckFeatureFlagsForBackupDriver (o : InstallOptions) (kubeClient : client) : iio (option error) :=
  let! r := kube (GetVeleroFeatureFlags kubeClient (Namespace o)) in
  let featureFlags := match r with Ok featureFlags => featureFlags | Err _ => [] end in
  kube (CreateFeatureStateConfigMap kubeClient featureFlags (Namespace o)).

Definition errorMsg (o : InstallOptions) : string :=
  newline +:+ newline +:+ "Error installing backup-driver. Use `kubectl logs deploy/" +:+ BackupDriverForPlugin +:+
  " -n " +:+ Namespace o +:+ "` to check the logs".

(** Run, from the call of DynamicClient. *)
Definition runInstall (o : InstallOptions) (resources : list IObject) : iio (option error) :=
  let? _ := call DynamicClient else e => Ret (Some e) in
  check! Install resources else e => Ret (Some (Wrap e (errorMsg o))) in
  let! (_, e) := DeploymentIsReady (Namespace o) in
  match e with
  | Some e => Ret (Some (Wrap e (errorMsg o)))
  | None => Ret None
  end.

Definition Run (o : InstallOptions) : iio (option error) :=
  let? kubeClient := call KubeClient else e => Ret (Some (Wrap e "Failed to get kubeClient")) in
  let! _ := kube (CheckVeleroVersion kubeClient (Namespace o)) in
  let! (image, _) := kube (CheckPluginImageRepo kubeClient (Namespace o) (Image o) BackupDriverForPlugin) in
  let? o := CheckClusterFlavorForBackupDriver (o <| Image := image |>) else e => Ret (Some e) in
  check! CheckFeatureFlagsForBackupDriver o kubeClient else e => Ret (Some e) in
  check! kube (CreateBlockListConfigMap kubeClient (Namespace o) ResourcesToBlock) else e =>
    Ret (Some e) in
  match AsBackupDriverOptions o with
  | Err e => Ret (Some e)
  | Ok vo =>
      let resources := AllBackupDriverResources vo true in
      check! call (PrintWithFormat resources) else e => Ret (Some e) in
      runInstall o resources
  end.
End backup_driver.
End BackupDriverInstall.
