(* ===== verification/InstallProtocol.v ===== *)
(** * Contracts of the installers

    The wait for the definitions of custom resources decides on the first round that
    finds them all; the data manager's installation creates each object once, in order,
    and reports success only for what it observed. *)

From S2P Require Export InstallCommands UtilsSpec.
Open Scope Z_scope.

(** ** Programs of the other packages in an installer *)

(** A monitor that ignores the calls of a class is where it was after a program of
    them. *)
Lemma safe_kube `{UDeps} {S A} (C : ∀ X, Cmd X → bool) (mon : monitor ICmd S) (p : io A) s :
  (∀ s X (e : Cmd X) x, C X e = true → mon s X (Kube e) x = Next s) →
  calls_only C p → safe mon (kube p) (λ o s', match o with Hung _ => False | _ => s' = s end) s.
Proof.
  intros Hm. induction p as [a|w|w|X e k IH]; cbn; auto.
  intros [HC Hk] x. rewrite Hm by done. auto.
Qed.

Lemma safe_ipoll_forever `{UDeps} {S St R} (mon : monitor ICmd S) (cond : St → iio (St * poll_step R))
    (I : St → S → Prop) (Q : outcome (St * result R) → S → Prop) tries st s :
  I st s → (∀ st s w, I st s → Q (Hung w) s) →
  (∀ st s, I st s → safe mon (cond st) (λ o s',
      match o with
      | Returned (st', PollDone x) => Q (Returned (st', Ok x)) s'
      | Returned (st', PollFail e) => Q (Returned (st', Err e)) s'
      | Returned (st', PollAgain) => I st' s'
      | Panicked w => Q (Panicked w) s'
      | Hung w => Q (Hung w) s'
      end) s) →
  safe mon (ipoll_forever tries cond st) Q s.
Proof.
  intros HI Hh Hc. revert st s HI. induction tries as [|n IH]; intros st s HI; cbn; [eauto|].
  apply safe_bind. eapply safe_mono; [exact (Hc st s HI)|].
  intros [[st' [|x|e]]|w|w] s' Hs; cbn; auto.
Qed.

(** A wait: an invariant that every unfinished try preserves. *)
Lemma safe_IPollImmediate `{UDeps} {S St R} (mon : monitor ICmd S) (cond : St → iio (St * poll_step R))
    (I : St → S → Prop) (Q : outcome (St * result R) → S → Prop) interval timeout st s :
  (∀ s n, mon s _ (Kube (PollTicks interval timeout)) n = Next s) →
  (∀ s n, mon s _ (Kube (PollForever interval)) n = Next s) →
  I st s → (timeout = 0 → ∀ st s w, I st s → Q (Hung w) s) →
  (∀ st s, I st s → safe mon (cond st) (λ o s',
      match o with
      | Returned (st', PollDone x) => Q (Returned (st', Ok x)) s'
      | Returned (st', PollFail e) => Q (Returned (st', Err e)) s'
      | Returned (st', PollAgain) => I st' s' ∧ Q (Returned (st', Err ErrWaitTimeout)) s'
      | Panicked w => Q (Panicked w) s'
      | Hung w => Q (Hung w) s'
      end) s) →
  safe mon (IPollImmediate interval timeout cond st) Q s.
Proof.
  intros Hm Hm' HI Hh Hc. unfold IPollImmediate. case_bool_decide as Ht; intros n.
  - rewrite Hm'. eapply safe_ipoll_forever; [done|by apply Hh|]. intros st' s' HI'.
    eapply safe_mono; [by apply Hc|]. intros [[? [|?|?]]|?|?] ?; naive_solver.
  - rewrite Hm. by apply (safe_poll_loop mon cond I).
Qed.

(** ** The definitions of custom resources *)

Section crds.
Context `{UDeps}.

(** The definitions that were found, while every answer was of the first round that found
    any; [Late] when that round did not find them all, or is over. *)
Inductive seen := Seen (found : list (list string)) | Late.

Definition crds_protocol (crdKinds : list string) : monitor ICmd seen := λ s X e,
  match e in ICmd X return X → verdict seen with
  | DynGet _ name => λ r,
      match s with
      | Late => Next Late
      | Seen found =>
          if bool_decide (length found = length crdKinds) then Next Late
          else if bool_decide (crdKinds !! length found = Some name) then
            match r with
            | Err e => if bool_decide (found = []) && IsNotFound e then Next s else Next Late
            | Ok u => match CRDConditions u with
                      | Ok conditions => Next (Seen (found ++ [conditions]))
                      | Err _ => Next Late
                      end
            end
          else Violation
      end
  | DynCreate _ _ => λ _, Violation
  | _ => λ _, Next s
  end.

Definition all_ready (crdKinds : list string) (s : seen) : Prop :=
  ∃ found, s = Seen found ∧ length found = length crdKinds ∧ forallb crdIsReady found = true.

(** What a round leaves that is not the last. *)
Definition waiting (crdKinds : list string) (st : list (list string)) (s : seen) : Prop :=
  (st = [] ∧ s = Seen [] ∧ crdKinds ≠ []) ∨
  (st ≠ [] ∧ (s = Late ∨ s = Seen st ∧ length st = length crdKinds ∧ forallb crdIsReady st = false)).

Lemma waiting_not_ready crdKinds st s : waiting crdKinds st s → ¬ all_ready crdKinds s.
Proof.
  intros [(-> & -> & Hk)|(Hst & [->|(-> & _ & Hr)])] (f & Hs & Hl & Hf); simplify_eq; try congruence.
  by destruct crdKinds.
Qed.

(** A round of the first kind, with the definitions [st] found so far. *)
Lemma getCRDs_first crdKinds c rest st :
  length crdKinds = (length st + length rest)%nat → (∀ i, rest !! i = crdKinds !! (length st + i)%nat) →
  safe (crds_protocol crdKinds) (getCRDs c rest st) (λ o s,
    match o with
    | Returned (st', PollDone _) => s = Seen st' ∧ length st' = length crdKinds
    | Returned (st', PollAgain) => waiting crdKinds st' s
    | Returned (st', PollFail _) => s = Late
    | _ => False
    end) (Seen st).
Proof.
  revert st. induction rest as [|k rest IH]; intros st Hl Hi; cbn.
  { split; [done|]. cbn in Hl. lia. }
  cbn in Hl. intros r. rewrite bool_decide_false by lia.
  rewrite bool_decide_true by (rewrite <- (Nat.add_0_r (length st)), <- Hi; done).
  destruct r as [u|e]; cbn.
  - destruct (CRDConditions u) as [cs|e]; [|done]. apply IH.
    + rewrite length_app. cbn. lia.
    + intros i. rewrite length_app. cbn.
      replace (length st + 1 + i)%nat with (length st + S i)%nat by lia. by rewrite <- Hi.
  - case_bool_decide as Hst; cbn.
    + subst st. destruct (IsNotFound e); cbn; [|done]. left. split_and!; [done|done|].
      by destruct crdKinds.
    + destruct (IsNotFound e); cbn; [|done]. right. auto.
Qed.

(** A later round only adds to what was found, and the monitor does not follow it. *)
Lemma getCRDs_late crdKinds c rest st s :
  s = Late ∨ (∃ found, s = Seen found ∧ length found = length crdKinds) →
  safe (crds_protocol crdKinds) (getCRDs c rest st) (λ o s',
    match o with
    | Returned (st', r) => (s' = Late ∨ s' = s ∧ rest = []) ∧ (length st ≤ length st')%nat ∧
        match r with PollDone _ => length st' = (length st + length rest)%nat | _ => True end
    | _ => False
    end) s.
Proof.
  revert st s. induction rest as [|k rest IH]; intros st s Hs; cbn; [repeat split; auto; lia|].
  intros r. assert (Hm : crds_protocol crdKinds s _ (DynGet c k) r = Next Late).
  { destruct Hs as [->|(f & -> & Hf)]; cbn; [done|]. by rewrite bool_decide_true. }
  cbn in Hm. rewrite Hm. clear Hm.
  destruct r as [u|e]; cbn; [|destruct (IsNotFound e); cbn; auto].
  destruct (CRDConditions u) as [cs|e]; cbn; [|auto].
  eapply safe_mono; [apply (IH (st ++ [cs])); by left|].
  intros [[st' r]|w|w] s'; cbn; auto. rewrite length_app. cbn. intros (Hl & Hr & Hd).
  repeat split; [naive_solver|lia|]. destruct r; auto. lia.
Qed.

Lemma tryCRDs_spec crdKinds c st s :
  waiting crdKinds st s → safe (crds_protocol crdKinds) (tryCRDs c crdKinds st) (λ o s',
    match o with
    | Returned (st', PollDone _) => all_ready crdKinds s'
    | Returned (st', PollAgain) => waiting crdKinds st' s'
    | Returned (st', PollFail _) => ¬ all_ready crdKinds s'
    | _ => False
    end) s.
Proof.
  intros Hw. unfold tryCRDs. apply safe_bind.
  pose proof (waiting_not_ready _ _ _ Hw) as Hn.
  destruct Hw as [(-> & -> & Hk)|(Hst & Hs)].
  - eapply safe_mono; [by apply getCRDs_first|].
    intros [[st' [|[]|e]]|w|w] s'; cbn; auto.
    + intros (-> & Hl). rewrite bool_decide_true by done. cbn.
      destruct (forallb crdIsReady st') eqn:Hf; cbn.
      * by exists st'.
      * right. split; [|auto]. intros ->. by destruct crdKinds.
    + intros -> (f & [=] & _).
  - eapply safe_mono; [apply getCRDs_late; naive_solver|].
    intros [[st' r]|w|w] s'; cbn; auto. intros (Hs' & Hl & Hd).
    assert (Hne : st' ≠ []) by (destruct st, st'; cbn in *; (done || lia)).
    assert (s' = Late) as ->.
    { destruct Hs' as [->|[-> Hk]]; [done|]. destruct Hs as [->|(-> & Hl' & _)]; [done|].
      rewrite Hk in Hl'. by destruct st. }
    assert (Hlate : ¬ all_ready crdKinds Late) by (intros (? & [=] & _)).
    destruct r as [|[]|e]; cbn; [right; auto| |done].
    rewrite bool_decide_false by (destruct st; cbn in *; (done || lia)). right. auto.
Qed.

(** The wait for the definitions answers true exactly when the first round that found any
    found them all, in order, each with both conditions: a definition that gets ready, or
    appears, after that round is never counted.  A wait that ends without that, by its
    timeout or by an error, answers false with no error. *)
Theorem crdsAreReady_first_round crdKinds :
  safe (crds_protocol crdKinds) (crdsAreReady crdKinds) (λ o s,
    match o with
    | Returned (Ok ready) => ready = true ↔ all_ready crdKinds s
    | Returned (Err _) => s = Seen []
    | _ => False
    end) (Seen []).
Proof.
  intros [c|e]; [|done]. cbn [bind]. apply safe_bind.
  destruct (decide (crdKinds = [])) as [->|Hk].
  { intros n. cbn. destruct n; (split; [intros _|done]); by exists []. }
  eapply (safe_IPollImmediate _ _ (waiting crdKinds)); [done|done|by left|done|].
  intros st s Hw. eapply safe_mono; [by apply tryCRDs_spec|].
  intros [[st' [|[]|e]]|w|w] s'; cbn; auto; [|naive_solver|naive_solver].
  intros Hw'. split; [done|]. split; [done|]. intros Hr. by destruct (waiting_not_ready _ _ _ Hw').
Qed.
End crds.

(** ** The installation of the data manager *)

Section calls.
Context `{Deps}.

(** Reads that tell nothing of the cluster's flavour. *)
Definition other_objects {X} (e : Cmd X) : bool :=
  match e with
  | GetObj _ KConfigMap _ name => negb (bool_decide (name = VeleroVSpherePluginConfig))
  | GetObj _ KDeployment _ name | GetObj _ KStatefulSet _ name => negb (bool_decide (name = VSphereCSIController))
  | e => reads e
  end.

Lemma others_GetVeleroFeatureFlags c ns : calls_only (@other_objects) (GetVeleroFeatureFlags c ns).
Proof. unfold GetVeleroFeatureFlags. calls_tac. Qed.

Lemma others_CheckVeleroVersion c ns : calls_only (@other_objects) (CheckVeleroVersion c ns).
Proof. unfold CheckVeleroVersion, GetVeleroVersion. calls_tac. Qed.

Lemma others_CheckPluginImageRepo c ns image server : calls_only (@other_objects) (CheckPluginImageRepo c ns image server).
Proof. unfold CheckPluginImageRepo, GetCompatibleRepoAndTagFromPluginImage. calls_tac. Qed.
End calls.

Section install.
Context `{UDeps}.

(** What an installation did: whether it may not go on (local mode, a failed creation), whether
    local mode was found, what tells the flavour of the cluster, the objects it showed, those it
    created, whether it looked at the definitions, and how often the daemon set was seen ready. *)
Record progress := {
  pg_stopped : bool;
  pg_local : bool;
  pg_flavor : flavor_run;
  pg_shown : option (list IObject);
  pg_created : list IObject;
  pg_waited : bool;
  pg_observed : Z;
}.

Definition is_crd (r : IObject) : bool := bool_decide (GetKind r = "CustomResourceDefinition").

#[local] Instance update_pg_created : Update pg_created := λ v s,
  let (a, b, c, d, _, f, g) := s in Build_progress a b c d v f g.
#[local] Instance update_pg_stopped : Update pg_stopped := λ v s,
  let (_, b, c, d, e, f, g) := s in Build_progress v b c d e f g.
#[local] Instance update_pg_local : Update pg_local := λ v s,
  let (a, _, c, d, e, f, g) := s in Build_progress a v c d e f g.
#[local] Instance update_pg_flavor : Update pg_flavor := λ v s,
  let (a, b, _, d, e, f, g) := s in Build_progress a b v d e f g.
#[local] Instance update_pg_waited : Update pg_waited := λ v s,
  let (a, b, c, d, e, _, g) := s in Build_progress a b c d e v g.
#[local] Instance update_pg_observed : Update pg_observed := λ v s,
  let (a, b, c, d, e, f, _) := s in Build_progress a b c d e f v.
#[local] Instance update_pg_shown : Update pg_shown := λ v s,
  let (a, b, c, _, e, f, g) := s in Build_progress a b c v e f g.

(** The plugin's configuration map that was read first, and the first workload of the CSI
    controller that was found. *)
Definition on_flavor {X} (e : Cmd X) (fl : flavor_run) : X → flavor_run :=
  let on_workload (name : string) (r : result Workload) : flavor_run :=
    match fl_csi fl, r with
    | None, Ok w => if bool_decide (name = VSphereCSIController)
                    then {| fl_config := fl_config fl; fl_csi := Some w |} else fl
    | _, _ => fl
    end in
  match e in Cmd X return X → flavor_run with
  | GetObj _ k _ name =>
      match k return result (obj k) → flavor_run with
      | KConfigMap => λ r,
          if bool_decide (name = VeleroVSpherePluginConfig ∧ fl_config fl = None)
          then {| fl_config := Some r; fl_csi := fl_csi fl |} else fl
      | KDeployment => on_workload name
      | KStatefulSet => on_workload name
      | _ => λ _, fl
      end
  | _ => λ _, fl
  end.

(** The flavour: that of the configuration when it names one, else that of the CSI controller. *)
Definition shown_flavor (fl : flavor_run) : ClusterFlavor :=
  match fl_config fl with
  | Some cm => if bool_decide (configured_flavor cm = Unknown) then csi_flavor (fl_csi fl) else configured_flavor cm
  | None => Unknown
  end.

(** Nothing of Kubernetes is written but by creations of objects that were shown before,
    definitions before the wait for them and the others after; a creation that fails, and
    local mode, are the last. *)
Definition install_protocol : monitor ICmd progress := λ s X e,
  match e in ICmd X return X → verdict progress with
  | Kube e => λ x, if reads e then Next (s <| pg_flavor := on_flavor e (pg_flavor s) x |>) else Violation
  | FeaturesIsEnabled name => λ b,
      if bool_decide (name = VSphereLocalModeFeature)
      then Next (s <| pg_stopped := pg_stopped s || b |> <| pg_local := pg_local s || b |>) else Next s
  | PrintWithFormat rs => λ r,
      if pg_stopped s then Violation
      else Next (match r with None => s <| pg_shown := Some rs |> | Some _ => s <| pg_stopped := true |> end)
  | DynCreate _ r => λ x,
      if pg_stopped s || bool_decide (pg_shown s = None) then Violation
      else if Bool.eqb (is_crd r) (pg_waited s) then Violation
      else match x with
           | None => Next (s <| pg_created := pg_created s ++ [r] |>)
           | Some e => if IsAlreadyExists e then Next (s <| pg_created := pg_created s ++ [r] |>)
                       else Next (s <| pg_stopped := true |>)
           end
  | DynGet _ name => λ x,
      if bool_decide (name = "datamgr-for-vsphere-plugin") then
        match x with
        | Ok u => match DaemonSetStatus u with
                  | Ok (a, d) => Next (if bool_decide (a = d) then s <| pg_observed := pg_observed s + 1 |> else s)
                  | Err _ => Next s
                  end
        | Err _ => Next s
        end
      else Next (s <| pg_waited := true |>)
  | _ => λ _, Next s
  end.

Lemma GroupResources_filter rs :
  GroupResources rs = (filter is_crd rs, filter (λ r, negb (is_crd r)) rs).
Proof.
  unfold GroupResources. assert (Hg : ∀ l m, fold_left (λ rg r,
      if bool_decide (GetKind r = "CustomResourceDefinition") then (rg.1 ++ [r], rg.2)
      else (rg.1, rg.2 ++ [r])) rs (l, m) = (l ++ filter is_crd rs, m ++ filter (λ r, negb (is_crd r)) rs)).
  { induction rs as [|r rs IH]; intros l m; cbn [fold_left].
    { by rewrite !filter_nil, !app_nil_r. }
    fold (is_crd r). rewrite !filter_cons.
    destruct (is_crd r); cbn [fst snd negb]; rewrite IH, <- app_assoc; by repeat case_decide. }
  by rewrite Hg.
Qed.

(** The objects in the order of their creation. *)
Definition in_order (rs : list IObject) : list IObject := filter is_crd rs ++ filter (λ r, negb (is_crd r)) rs.

Lemma createResources_spec rs s :
  pg_stopped s = false → pg_shown s ≠ None → Forall (λ r, is_crd r = negb (pg_waited s)) rs →
  safe install_protocol (createResources rs) (λ o s', ∃ l b,
    s' = s <| pg_created := pg_created s ++ l |> <| pg_stopped := b |> ∧ l `prefix_of` rs ∧
    match o with Returned None => l = rs ∧ b = false | Returned (Some _) => True | _ => False end) s.
Proof.
  intros Hst Hsh Hk. revert s Hst Hsh Hk. induction rs as [|r rs IH]; intros s Hst Hsh Hk.
  { exists [], false. destruct s; cbn in *; subst. rewrite app_nil_r. by repeat split. }
  inversion_clear Hk as [|? ? Hr Hk']. intros [c|e]; cbn.
  2:{ exists [], false. destruct s; cbn in *; subst. rewrite app_nil_r. repeat split. apply prefix_nil. }
  assert (He : Bool.eqb (is_crd r) (pg_waited s) = false) by (rewrite Hr; by destruct (pg_waited s)).
  assert (Hgo : safe install_protocol (createResources rs) (λ o s', ∃ l b,
      s' = s <| pg_created := pg_created s ++ l |> <| pg_stopped := b |> ∧ l `prefix_of` (r :: rs) ∧
      match o with Returned None => l = r :: rs ∧ b = false | Returned (Some _) => True | _ => False end)
      (s <| pg_created := pg_created s ++ [r] |>)).
  { eapply safe_mono; [apply IH; by destruct s|]. intros o s' (l & b & -> & Hl & Ho).
    exists (r :: l), b. split; [|split].
    - destruct s; cbn. by rewrite <- app_assoc.
    - by apply prefix_cons.
    - destruct o as [[|]|w|w]; auto. by destruct Ho as [-> ->]. }
  intros x. rewrite Hst, bool_decide_false by done. cbn [orb]. rewrite He.
  destruct x as [e|]; cbn; [|done]. destruct (IsAlreadyExists e); cbn; [done|].
  exists [], true. destruct s; cbn in *; subst. rewrite app_nil_r. repeat split. apply prefix_nil.
Qed.

Lemma getCRDs_waited c rest st s :
  pg_waited s = true → Forall (λ k, k ≠ "datamgr-for-vsphere-plugin") rest →
  safe install_protocol (getCRDs c rest st) (λ o s', (∃ r, o = Returned r) ∧ s' = s) s.
Proof.
  intros Hs Hr. revert st. induction Hr as [|k rest Hk Hr IH]; intros st; cbn; [eauto|].
  intros r. rewrite bool_decide_false by done. replace (s <| pg_waited := true |>) with s by (by destruct s; cbn in *; subst).
  destruct r as [u|e]; cbn; [|destruct (IsNotFound e); cbn; eauto].
  destruct (CRDConditions u); cbn; eauto.
Qed.

Lemma crdsAreReady_waits s :
  safe install_protocol (crdsAreReady CRDsList) (λ o s', match o with
    | Returned (Ok _) => s' = s <| pg_waited := true |>
    | Returned (Err _) => s' = s
    | _ => False
    end) s.
Proof.
  intros [c|e]; [|done]. cbn [bind]. apply safe_bind.
  eapply (safe_IPollImmediate _ _ (λ _ s', s' = s ∨ s' = s <| pg_waited := true |>)); [by intros []|by intros []|by left|done|].
  intros st s0 Hs. unfold tryCRDs. apply safe_bind.
  assert (Hw : s0 <| pg_waited := true |> = s <| pg_waited := true |>) by (by destruct Hs as [-> | ->]; destruct s).
  unfold CRDsList at 1. cbn [getCRDs call bind]. intros r.
  change (install_protocol s0 _ _ r) with (Next (s0 <| pg_waited := true |>)). rewrite Hw. cbv beta iota.
  eapply (safe_mono _ _ (λ o s', (∃ r, o = Returned r) ∧ s' = s <| pg_waited := true |>)).
  - destruct r as [u|e]; cbn [bind]; [|destruct (IsNotFound e); cbn; eauto].
    destruct (CRDConditions u); [|cbn; eauto].
    refine (getCRDs_waited c ["volumesnapshotlocations.velero.io"] (st ++ [a]) _ _ _); [by destruct s|].
    by repeat constructor.
  - intros o s' [[[st' [|[]|e]] ->] ->]; cbn; auto.
    case_bool_decide; cbn; auto. destruct (forallb crdIsReady st'); cbn; auto.
Qed.

(** What an installation left, having started from [s]. *)
Lemma Install_spec rs s :
  pg_stopped s = false → pg_shown s ≠ None → pg_waited s = false →
  safe install_protocol (Install rs) (λ o s', ∃ l b w,
    s' = s <| pg_created := pg_created s ++ l |> <| pg_stopped := b |> <| pg_waited := w |> ∧
    l `prefix_of` in_order rs ∧
    match o with
    | Returned None => l = in_order rs ∧ b = false ∧ w = true
    | Returned (Some _) => True
    | _ => False
    end) s.
Proof.
  intros Hst Hsh Hw. unfold Install. rewrite GroupResources_filter. cbn [fst snd].
  assert (Hin : ∀ l, l `prefix_of` filter is_crd rs → l `prefix_of` in_order rs) by (intros; by apply prefix_app_r).
  eapply safe_seq; [apply createResources_spec; [done..|]|..].
  { rewrite Hw. apply Forall_forall. intros r [Hr _]%list_elem_of_filter. by destruct (is_crd r). }
  2,3: by intros w s' (l & b & _ & _ & []).
  intros [e|] s' (l & b & -> & Hl & Ho).
  { exists l, b, false. split; [|auto]. destruct s; cbn in *; by subst. }
  destruct Ho as [-> ->].
  eapply safe_seq; [apply crdsAreReady_waits|..]; [|done..].
  intros [ready|e] s' Hs'; subst s'.
  2:{ assert (∃ e', match e with
        | ErrWaitTimeout => @Ret ICmd _ (Some (ErrorString "timeout reached, CRDs not ready"))
        | e => Ret (Some e) end = Ret (Some e')) as [e' ->] by (destruct e; eauto).
      exists (filter is_crd rs), false, false. split; [by destruct s; cbn in *; subst|auto]. }
  eapply safe_seq; [apply createResources_spec; [by destruct s..|]|..].
  { destruct s; cbn in *. apply Forall_forall. intros r [Hr _]%list_elem_of_filter. by destruct (is_crd r). }
  2,3: by intros w s' (l' & b & _ & _ & []).
  assert (Hx : ∀ l' b, s <| pg_created := pg_created s ++ filter is_crd rs |> <| pg_stopped := false |>
      <| pg_waited := true |> <| pg_created := (pg_created s ++ filter is_crd rs) ++ l' |> <| pg_stopped := b |> =
    s <| pg_created := pg_created s ++ (filter is_crd rs ++ l') |> <| pg_stopped := b |> <| pg_waited := true |>).
  { intros l' b. rewrite app_assoc. by destruct s. }
  intros [e|] s' (l' & b & -> & Hl' & Ho).
  - exists (filter is_crd rs ++ l'), b, true. split; [|split; [by apply prefix_app|done]].
    rewrite <- Hx. by destruct s.
  - destruct Ho as [-> ->]. exists (in_order rs), false, true. split; [|by repeat split].
    unfold in_order. rewrite <- Hx. by destruct s.
Qed.

(** The wait for the daemon set counts what the monitor counts. *)
Lemma DaemonSetIsReady_spec ns nNodes s :
  pg_observed s = 0 →
  safe install_protocol (DaemonSetIsReady ns nNodes) (λ o s', ∃ n, s' = s <| pg_observed := n |> ∧
    match o with
    | Returned (b, e) => b = bool_decide (e = None) ∧ (e = None → n = 5) ∧ (e ≠ None → 0 ≤ n < 5)
    | Hung _ => 0 ≤ n < 5
    | Panicked _ => False
    end) s.
Proof.
  intros Hs [c|e]; cbn [bind]; [|exists 0; split; [by destruct s; cbn in *; subst|done]].
  apply safe_bind.
  eapply (safe_IPollImmediate _ _ (λ st s', s' = s <| pg_observed := st |> ∧ 0 ≤ st < 5));
    [by intros []|by intros []|split; [by destruct s; cbn in *; subst|lia]| |].
  { intros _ st s' w [-> Hst]. exists st. auto. }
  intros st s' [-> Hst]. unfold tryDaemonSet. cbn [bind call]. intros r.
  assert (Hnot : ∀ e : error, ∃ n, s <| pg_observed := st |> = s <| pg_observed := n |> ∧
     false = false ∧ (Some e = None → n = 5) ∧ (Some e ≠ None → 0 ≤ n < 5)).
  { intros e. exists st. done. }
  cbn. rewrite bool_decide_true by done. destruct r as [u|e]; cbn.
  2:{ destruct (IsNotFound e); cbn; auto. }
  destruct (DaemonSetStatus u) as [[a d]|e]; cbn; auto.
  unfold observed. case_bool_decide as Had; cbn.
  2:{ rewrite (proj2 (Z.ltb_ge _ _)) by lia. cbn. auto. }
  rewrite int32_id by lia. replace (s <| pg_observed := st |> <| pg_observed := _ |>)
    with (s <| pg_observed := st + 1 |>) by by destruct s.
  destruct (4 <? st + 1) eqn:Hlt; cbn.
  - exists (st + 1). split; [done|]. split; [done|]. split; [lia|done].
  - assert (0 ≤ st + 1 < 5) by lia. split; [done|]. exists (st + 1). done.
Qed.

(** ** The command *)

(** The options of the pods are those of the command, but for the image and the secret. *)
Definition options_of (o : DataManager.InstallOptions) (vo : PodOptions) : Prop :=
  po_Namespace vo = DataManager.Namespace o ∧ po_ProviderName vo = DataManager.ProviderName o ∧
  po_Bucket vo = DataManager.BucketName o ∧ po_Prefix vo = DataManager.Prefix o ∧
  po_PodAnnotations vo = DataManager.PodAnnotations o ∧
  ParseCPUAndMemoryResources (DataManager.PodCPURequest o) (DataManager.PodMemRequest o)
    (DataManager.PodCPULimit o) (DataManager.PodMemLimit o) = Ok (po_PodResources vo).

(** The installation is skipped: it was asked for, or local mode is on, or the cluster is a guest or
    a supervisor. *)
Definition skipped (o : DataManager.InstallOptions) (s : progress) : Prop :=
  DataManager.SkipInstall o = true ∨ pg_local s = true ∨
  shown_flavor (pg_flavor s) = TkgGuest ∨ shown_flavor (pg_flavor s) = Supervisor.

(** How an installation of [o] may end. *)
Definition installed (o : DataManager.InstallOptions) (out : outcome (option error)) (s : progress) : Prop :=
  match pg_shown s with
  | None => pg_created s = [] ∧ pg_observed s = 0 ∧ (out = Returned None → skipped o s)
  | Some rs =>
      (∃ vo, options_of o vo ∧ rs = AllDatamgrResources vo true) ∧ DataManager.SkipInstall o = false ∧
      if DataManager.DryRun o then pg_created s = [] ∧ pg_observed s = 0 ∧ out = Returned None
      else pg_created s `prefix_of` in_order rs ∧
        (out = Returned None → pg_created s = in_order rs) ∧
        (pg_observed s = 5 ↔ out = Returned None)
  end.

Definition nothing (stopped : bool) (fl : flavor_run) : progress :=
  {| pg_stopped := stopped; pg_local := stopped; pg_flavor := fl; pg_shown := None; pg_created := [];
     pg_waited := false; pg_observed := 0 |}.
Definition shown (fl : flavor_run) (rs : list IObject) : progress :=
  {| pg_stopped := false; pg_local := false; pg_flavor := fl; pg_shown := Some rs; pg_created := [];
     pg_waited := false; pg_observed := 0 |}.

Definition install_start : progress := nothing false {| fl_config := None; fl_csi := None |}.

Lemma safe_others {A} (p : io A) s :
  calls_only (@other_objects _) p →
  safe install_protocol (kube p) (λ o s', match o with Hung _ => False | _ => s' = s end) s.
Proof.
  intros Hp. apply (safe_kube (@other_objects _)); [|done]. intros s' X e x He.
  assert (Hf : on_flavor e (pg_flavor s') x = pg_flavor s').
  { destruct e as []; try done. destruct k; try done; cbn in He |- *; apply negb_true_iff, bool_decide_eq_false in He.
    - rewrite bool_decide_false by naive_solver. done.
    - rewrite bool_decide_false by done. by repeat case_match.
    - rewrite bool_decide_false by done. by repeat case_match. }
  assert (Hr : reads e = true) by (revert He; destruct e; try done; by destruct k).
  unfold install_protocol. rewrite Hr, Hf. by destruct s'.
Qed.

(** The flavour that is answered is the one shown. *)
Lemma RetrieveClusterFlavor_shown ns :
  safe install_protocol (kube (RetrieveClusterFlavor None ns)) (λ out s, ∃ fl, s = nothing false fl ∧
    match out with
    | Returned (Ok f) => f = known (shown_flavor fl)
    | Returned (Err _) => True
    | _ => False
    end) install_start.
Proof.
  unfold RetrieveClusterFlavor, configOr, GetKubeClientConfig, GetKubeClientSet, retrieveClusterFlavor,
    GetClusterTypeFromConfig, install_start.
  intros [c|e]; [|by eexists]. intros [cl|e]; [|by eexists]. cbn [bind kube].
  intros r. match goal with |- match ?m with _ => _ end =>
    change m with (Next (nothing false {| fl_config := Some r; fl_csi := None |})) end. cbv beta iota.
  assert (Hend : ∀ w f, (if bool_decide (configured_flavor r = Unknown) then csi_flavor w else configured_flavor r) = f →
    ∃ fl, nothing false {| fl_config := Some r; fl_csi := w |} = nothing false fl ∧
      (if bool_decide (f = Unknown) then VSphere else f) = known (shown_flavor fl)).
  { intros w f <-. by exists {| fl_config := Some r; fl_csi := w |}. }
  assert (Hr : ∃ x, (let? cm := @Ret Cmd _ r else e => Ret (Err e) in
      match cm_Data cm !! ConfigClusterFlavorKey with
      | Some flavor => Ret (Ok (ConvertConfigClusterFlavor flavor)) | None => Ret (Ok Unknown) end) = Ret x ∧
      match x with Ok f => f | Err _ => Unknown end = configured_flavor r).
  { destruct r as [cm|e]; cbn; [|eauto]. destruct (cm_Data cm !! _); eauto. }
  destruct Hr as (x & -> & Hx). cbn [bind]. rewrite Hx. case_bool_decide as Hu.
  - unfold GetCSIClusterType. cbn [bind kube].
    intros [w|e]; [by apply (Hend (Some w))|]. intros [w|e']; [by apply (Hend (Some w))|].
    intros [w|e'']; [by apply (Hend (Some w))|by apply (Hend None)].
  - by apply (Hend None).
Qed.

(** The checks: local mode, and a flavour that needs no data manager, skip the installation, and
    nothing else does. *)
Lemma checks_spec o kubeClient :
  safe install_protocol (let! o := DataManager.CheckClusterFlavorForDataManager o in
                         DataManager.CheckFeatureFlagsForDataManager o kubeClient)
    (λ out s, ∃ b fl, s = nothing b fl ∧ match out with
      | Returned o' => (∃ skip, o' = o <| DataManager.SkipInstall := skip |>) ∧
                       (DataManager.SkipInstall o' = true → skipped o s) ∧
                       (b = true ∨ DataManager.SkipInstall o = true → DataManager.SkipInstall o' = true)
      | Panicked _ => True
      | Hung _ => False
      end) install_start.
Proof.
  eapply (safe_seq _ _ _ _ (λ out s, ∃ fl, s = nothing false fl ∧ match out with
      | Returned o' => (∃ skip, o' = o <| DataManager.SkipInstall := skip |>) ∧
          (DataManager.SkipInstall o' = true → skipped o s) ∧
          (DataManager.SkipInstall o = true → DataManager.SkipInstall o' = true)
      | Panicked _ => True | Hung _ => False end)).
  - assert (Hsame : ∃ skip, o = o <| DataManager.SkipInstall := skip |>) by (exists (DataManager.SkipInstall o); by destruct o).
    eapply safe_seq; [apply RetrieveClusterFlavor_shown|..]; [|by intros w s (fl & _ & [])..].
    intros r s (fl & -> & Hf). assert (Hf' : ∀ f, r = Ok f → f = TkgGuest ∨ f = Supervisor → shown_flavor fl = f).
    { intros f -> Hg. revert Hf. unfold known. case_bool_decide; intros ->; [|done]. by destruct Hg. }
    assert (Hskip : ∀ f, r = Ok f → f = TkgGuest ∨ f = Supervisor → skipped o (nothing false fl)).
    { intros f Hr Hg. pose proof (Hf' f Hr Hg). unfold skipped. cbn. destruct Hg as [-> | ->]; auto. }
    destruct r as [[]|e]; cbn; exists fl; (split; [done|]);
      first [split; [by eexists|]; split; [intros _; eapply Hskip; [done|auto]|by destruct o]
            |split; [exact Hsame|]; split; [by left|done]].
  - intros o' s (fl & -> & (skip & ->) & Hs & Hk). unfold DataManager.CheckFeatureFlagsForDataManager.
    eapply safe_seq; [apply safe_others, others_GetVeleroFeatureFlags|..]; [|by intros w s ->; eauto|done].
    intros r s ->. intros []. intros local. exists local, fl. split; [by destruct local|].
    destruct local; cbn.
    + split; [exists true; by destruct o|]. split; [|by destruct o]. intros _. right. by left.
    + split; [by eexists|]. split; [exact Hs|]. intros [[=]|Ho]. auto.
  - intros w s (fl & -> & _). eauto.
  - by intros w s (fl & _ & []).
Qed.

Lemma AsDatamgrOptions_spec o s :
  safe install_protocol (DataManager.AsDatamgrOptions o) (λ out s', s' = s ∧ match out with
    | Returned (Ok vo) => options_of o vo | Returned (Err _) => True | _ => False end) s.
Proof.
  assert (Hr : safe install_protocol (DataManager.readSecret o) (λ out s', s' = s ∧ ∃ r, out = Returned r) s).
  { unfold DataManager.readSecret. destruct (_ && _); cbn; [|eauto]. intros [p|e]; cbn; eauto. }
  unfold DataManager.AsDatamgrOptions. eapply safe_seq; [exact Hr|..]; [|by intros w s' [_ [? [=]]]..].
  intros [d|e] s' [-> _]; cbn; [|done]. destruct (ParseCPUAndMemoryResources _ _ _ _) eqn:Hp; [|done].
  split; [done|]. by split_and!.
Qed.

Lemma runInstall_spec o kubeClient fl rs :
  safe install_protocol (DataManager.runInstall o kubeClient rs) (λ out s,
    pg_shown s = Some rs ∧ pg_created s `prefix_of` in_order rs ∧
    (out = Returned None → pg_created s = in_order rs) ∧ (pg_observed s = 5 ↔ out = Returned None)) (shown fl rs).
Proof.
  assert (Hf : ∀ e : error, pg_shown (shown fl rs) = Some rs ∧ [] `prefix_of` in_order rs ∧
    (Returned (Some e) = Returned None → [] = in_order rs) ∧ (0 = 5 ↔ Returned (Some e) = Returned None)).
  { intros e. split; [done|]. split; [apply prefix_nil|]. done. }
  intros [[]|e]; [|apply Hf]. intros [n|e]; [|apply Hf]. cbn [bind].
  eapply safe_seq; [by apply Install_spec|..].
  2,3: by intros w s (l & b & w' & _ & _ & []).
  intros [e|] s (l & b & w & -> & Hl & Ho).
  { split; [done|]. split; [done|]. done. }
  destruct Ho as (-> & -> & ->). eapply safe_seq; [by apply DaemonSetIsReady_spec|..].
  - intros [ready [e|]] s (m & -> & Hb & Hn & He); cbn; repeat split; auto; try done; naive_solver lia.
  - by intros w s (m & _ & []).
  - intros w s (m & -> & Hm); cbn. repeat split; auto; try done. lia.
Qed.

(** C25. The data manager's installation writes nothing but the objects it printed, those of the
    command's options, definitions before others, none after a creation that failed, none in a
    dry run, and none once local mode was found.  It reports success only when it skipped the
    installation, because it was asked to, because of local mode, or because of a flavour that
    the configuration or the CSI controller shows, guest or supervisor; in a dry run that printed
    the objects; or when every object was created or was there and the daemon set was seen ready
    five times. *)
Theorem datamgr_install_protocol o :
  safe install_protocol (DataManager.Run o) (installed o) install_start.
Proof.
  assert (Hno : ∀ b fl out, (out = Returned None → skipped o (nothing b fl)) → installed o out (nothing b fl)) by done.
  intros [c|e]; [|by apply Hno]. cbn [bind].
  apply (proj2 (safe_bind_bind _ (DataManager.CheckClusterFlavorForDataManager o)
    (λ o, DataManager.CheckFeatureFlagsForDataManager o c) _ _ _)).
  eapply safe_seq; [apply checks_spec|..].
  2: by intros w s (b & fl & -> & _); apply Hno.
  2: by intros w s (b & fl & _ & []).
  intros o' s (b & fl & -> & (skip & ->) & Hs & Hb).
  destruct (DataManager.SkipInstall (o <| _ := skip |>)) eqn:Hskip; [apply Hno; intros _; by apply Hs|].
  assert (b = false) as -> by (destruct b; [|done]; discriminate Hb; by left).
  assert (Hso : DataManager.SkipInstall o = false) by (destruct (DataManager.SkipInstall o); [|done]; discriminate Hb; by right).
  eapply safe_seq; [apply safe_others, others_CheckVeleroVersion|..]; [|by intros w s ->; apply Hno|done].
  intros _ s ->.
  eapply safe_seq; [apply safe_others, others_CheckPluginImageRepo|..]; [|by intros w s ->; apply Hno|done].
  intros [image e] s ->. set (o' := _ <| DataManager.Image := image |>).
  assert (Ho' : ∀ vo, options_of o' vo → options_of o vo) by by destruct o.
  assert (Hd : DataManager.DryRun o' = DataManager.DryRun o) by by destruct o. clearbody o'.
  eapply safe_seq; [apply AsDatamgrOptions_spec|..]; [|by intros w s [_ []]..].
  intros [vo|e'] s [-> Hvo]; [|by apply Hno]. intros [e'|]; [by split_and!|].
  change (safe install_protocol (if DataManager.DryRun o' then Ret None
    else DataManager.runInstall o' c (AllDatamgrResources vo true)) (installed o) (shown fl (AllDatamgrResources vo true))).
  destruct (DataManager.DryRun o') eqn:Hdry.
  - unfold installed. cbn. rewrite <- Hd. split; [|done]. eauto.
  - eapply safe_mono; [apply runInstall_spec|]. intros out s (Hsh & Hp & Hn & Ho).
    unfold installed. rewrite Hsh, <- Hd. eauto 10.
Qed.
End install.
