(* ===== verification/PluginUtil.v ===== *)
(** * Helpers of the item actions (pkg/plugin/util/util.go) *)

From S2P Require Export CmdUtils Base64.
Open Scope Z_scope.

(** ** Constants *)

Definition minComponents : nat := 5.
Definition k8sNamespaceIndex : nat := 3.
Definition crNamespaceIndex : nat := 4.
Definition crGroupIndex : nat := 2.
Definition PluginKindRestoreItemAction : string := "RestoreItemAction".
Definition ChangeStorageClassLabelKey : string := "velero.io/change-storage-class".
Definition PluginConfigLabelKey : string := "velero.io/plugin-config".
Definition EmptyStorageClass : string := "com.vmware.cnsdp.emptystorageclass".
Definition VSphereCSIDriverName : string := "csi.vsphere.vmware.com".
Definition VSphereCSIDriverMigrationAnnotation : string := "pv.kubernetes.io/migrated-to".
Definition VolumeBindingWaitForFirstConsumer : string := "WaitForFirstConsumer".
Definition ClaimBound : string := "Bound".

(** [%q] of a string without special characters. *)
Definition quoted (s : string) : string := String "034" (s +:+ String "034" "").

(** ** Names of resources *)

(** [None] is the panic of an index that is out of range: a link that ends with
    the namespace, as that of a Namespace does. *)
Definition SelfLinkToCRDName (selfLink : string) : option string :=
  let components := Split selfLink "/" in
  let root := nth 1 components "" in
  if bool_decide (length components < minComponents)%nat
     || bool_decide (nth 0 components "" ≠ "")
     || (bool_decide (root ≠ "apis") && bool_decide (root ≠ "api"))
  then Some ""
  else
    let hasGroup := negb (bool_decide (root = "api")) in
    let namespacesIndex := if hasGroup then crNamespaceIndex else k8sNamespaceIndex in
    let pluralIndex :=
      if bool_decide (nth namespacesIndex components "" = "namespaces")
      then (namespacesIndex + 2)%nat else namespacesIndex in
    plural ← nth_error components pluralIndex;
    Some (if hasGroup then plural +:+ "." +:+ nth crGroupIndex components "" else plural).

(** The plural of a kind. *)
Definition pluralName (kind : string) : string :=
  if HasSuffix kind "y" then drop_last (ToLower kind) +:+ "ies" else ToLower kind +:+ "s".

(** [resourcesToBlock[resourceName]], as a boolean. *)
Definition IsResourceBlocked (resourceName : string) (resourcesToBlock : gmap string string) : bool :=
  default false (ParseBool (map_get resourcesToBlock resourceName)).

Definition IsResourceBlockedOnRestore (resourceName : string) : bool :=
  default false (ResourcesToBlockOnRestore !! resourceName).

(** The slice is made with its final length and then appended to: the names come
    after as many empty strings.  A [range] visits a map in any order; the model
    takes that of [map_to_list]. *)
Definition GetResources (blockListConfigMap : gmap string string) : list string :=
  replicate (size ResourcesToHandle + size blockListConfigMap) ""
  ++ (map_to_list ResourcesToHandle).*1 ++ (map_to_list blockListConfigMap).*1.

(** ** Annotations *)

Definition RemoveAnnotations (o : ObjectMeta) (keys : list string) : ObjectMeta :=
  o <| om_Annotations := foldl (λ m k, delete k m) (om_Annotations o) keys |>.

Definition AddAnnotations (o : ObjectMeta) (vals : gmap string string) : ObjectMeta :=
  o <| om_Annotations := vals ∪ om_Annotations o |>.

Definition IsMigratedCSIVolume (pv : PersistentVolume) : bool :=
  let isProvisionedByVCP := pv_VsphereVolume pv in
  let isAnnotatedByVsphereCSI :=
    bool_decide (map_get (om_Annotations (pv_Meta pv)) VSphereCSIDriverMigrationAnnotation
                 = VSphereCSIDriverName) in
  isProvisionedByVCP && isAnnotatedByVsphereCSI.

(** [util.Contains] *)
Definition ContainsString (slice : list string) (key : string) : bool := bool_decide (key ∈ slice).

Section plugin_util.
Context `{Deps}.

Definition UnstructuredToCRDName (item : Unstructured) : result string :=
  match ItemAPIVersion item with
  | Err e => Err e
  | Ok apiVersion =>
      match ItemKind item with
      | Err e => Err e
      | Ok kind =>
          let group := ParseGroup apiVersion in
          Ok (if bool_decide (group ≠ "") then pluralName kind +:+ "." +:+ group else pluralName kind)
      end
  end.

(** The item's kind, printed with the error, is left out. *)
Definition IsObjectBlocked (item : Unstructured) : io (result (bool * string)) :=
  match UnstructuredToCRDName item with
  | Err _ => Ret (Err (ErrorString "Could not translate item kind to CRD name"))
  | Ok crdName =>
      let! r := RetrieveBlockListConfigMap in
      match r with
      | Err e => if negb (IsNotFound e) then Ret (Err (WithStack e)) else Ret (Ok (false, crdName))
      | Ok blockListConfigMap => Ret (Ok (IsResourceBlocked crdName blockListConfigMap, crdName))
      end
  end.

(** ** The Snapshot kept in an annotation *)

Definition GetSnapshotFromPVCAnnotation (snapshotAnnotation : string) : result Snapshot :=
  match StdDecodeString snapshotAnnotation with
  | None => Err (WithStack CorruptInputError)
  | Some decodedItemSnapshot =>
      match UnmarshalSnapshot decodedItemSnapshot with
      | Err e => Err (WithStack e)
      | Ok itemSnapshot => Ok itemSnapshot
      end
  end.

Definition GetAnnotationFromSnapshot (itemSnapshot : Snapshot) : result string :=
  match MarshalSnapshot itemSnapshot with
  | Err e => Err e
  | Ok itemSnapshotByteArray => Ok (StdEncodeToString itemSnapshotByteArray)
  end.

Definition UpdateSnapshotWithNewNamespace (itemSnapshot : Snapshot) (ns : string) : result Snapshot :=
  match UnmarshalPVC (ss_Metadata (s_Status itemSnapshot)) with
  | Err e => Err e
  | Ok pvc =>
      match MarshalPVC (pvc <| pvc_Meta; om_Namespace := ns |>) with
      | Err e => Err e
      | Ok updatedSnapshotMetadata =>
          Ok (itemSnapshot <| s_Status; ss_Metadata := updatedSnapshotMetadata |>)
      end
  end.

(** ** Storage classes *)

Definition GetKubeClient (config : option RestConfig) : io (result client) :=
  let? config := (match config with
    | Some c => Ret (Ok c)
    | None => let? c := GetKubeClientConfig else e =>
        Ret (Err (Wrap e "could not retrieve in-cluster config")) in Ret (Ok c)
    end) else e => Ret (Err e) in
  call (NewForConfig config).

Definition storageClassSelector : string :=
  PluginConfigLabelKey +:+ "," +:+ ChangeStorageClassLabelKey +:+ "=" +:+ PluginKindRestoreItemAction.

(** A nil map is the empty one: the caller only asks whether there are entries. *)
Definition RetrieveStorageClassMapping (config : option RestConfig) (veleroNs : string)
    : io (result (gmap string string)) :=
  let? clientset := GetKubeClient config else e => Ret (Err e) in
  let? configMaps := call (ListSelected clientset KConfigMap veleroNs storageClassSelector) else e =>
    Ret (Err e) in
  match configMaps with
  | [] => Ret (Ok ∅)
  | [item] => Ret (Ok (cm_Data item))
  | items => Ret (Err (ErrorString ("found more than one ConfigMap matching label selector "
      +:+ quoted storageClassSelector +:+ ": ["
      +:+ Join ((λ i, om_Name (cm_Meta i)) <$> items) " " +:+ "]")))
  end.

(** The storage class a claim names, the empty string being none. *)
Definition storageClassOf (pvc : PersistentVolumeClaim) : option string :=
  match pvc_StorageClassName pvc with
  | Some name => if bool_decide (name = "") then None else Some name
  | None => None
  end.

Definition ValidateRestoreStorageClass (config : option RestConfig) (itemSnapshot : option Snapshot)
    : io (option error) :=
  match itemSnapshot with
  | None => Ret (Some (ErrorString
      "itemSnapshot is nil, unable to retrieve the StorageClass for validation"))
  | Some itemSnapshot =>
      match UnmarshalPVC (ss_Metadata (s_Status itemSnapshot)) with
      | Err e => Ret (Some e)
      | Ok pvc =>
          match storageClassOf pvc with
          | None => Ret (Some (ErrorString ("PVC " +:+ pvc_Namespace pvc +:+ "/" +:+ pvc_Name pvc
              +:+ " has no storage class, unable to validate StorageClass")))
          | Some restoreStorageClassName =>
              let? clientset := GetKubeClient config else e => Ret (Some e) in
              let? restoreStorageClass :=
                call (GetObj clientset KStorageClass "" restoreStorageClassName) else e =>
                Ret (Some (Wrap e ("error getting storage class " +:+ restoreStorageClassName
                  +:+ " for validation"))) in
              if bool_decide (sc_VolumeBindingMode restoreStorageClass
                              = Some VolumeBindingWaitForFirstConsumer)
              then Ret (Some (ErrorString ("The PVC to be restored is associated with StorageClass with "
                +:+ "WaitForFirstConsumer VolumeBindingMode, this is currently not supported. "
                +:+ "Only StorageClass with Immediate VolumeBindingMode is supported.")))
              else Ret None
          end
      end
  end.

Definition UpdateSnapshotWithNewStorageClass (config : option RestConfig)
    (itemSnapshot : option Snapshot) (storageClassMapping : gmap string string)
    : io (result Snapshot) :=
  match itemSnapshot with
  | None => Ret (Err (ErrorString "itemSnapshot is nil, unable to update"))
  | Some itemSnapshot =>
      match UnmarshalPVC (ss_Metadata (s_Status itemSnapshot)) with
      | Err e => Ret (Err e)
      | Ok pvc =>
          let old := default EmptyStorageClass (storageClassOf pvc) in
          match storageClassOf pvc, storageClassMapping !! old with
          | None, None => Ret (Err (ErrorString ("PVC " +:+ pvc_Namespace pvc +:+ "/" +:+ pvc_Name pvc
              +:+ " has no storage class, unable to restore")))
          | Some _, None => Ret (Ok itemSnapshot)
          | _, Some newName =>
              let? clientset := GetKubeClient config else e => Ret (Err e) in
              let? _ := call (GetObj clientset KStorageClass "" newName) else e =>
                Ret (Err (Wrap e ("error getting storage class " +:+ newName +:+ " from API"))) in
              match MarshalPVC (pvc <| pvc_StorageClassName := Some newName |>) with
              | Err e => Ret (Err e)
              | Ok updatedSnapshotMetadata =>
                  Ret (Ok (itemSnapshot <| s_Status; ss_Metadata := updatedSnapshotMetadata |>))
              end
          end
      end
  end.

(** ** Claims, volumes and pods *)

Definition GetPVForPVC (pvc : PersistentVolumeClaim) (pvGetter : client)
    : io (result PersistentVolume) :=
  let name := pvc_Namespace pvc +:+ "/" +:+ pvc_Name pvc in
  if bool_decide (pvc_VolumeName pvc = "") then
    Ret (Err (ErrorString ("PVC " +:+ name +:+ " has no volume backing this claim")))
  else if bool_decide (pvc_Phase pvc ≠ ClaimBound) then
    Ret (Err (ErrorString ("PVC " +:+ name +:+ " is in phase " +:+ pvc_Phase pvc
      +:+ " and is not bound to a volume")))
  else
    let? pv := call (GetObj pvGetter KPersistentVolume "" (pvc_VolumeName pvc)) else e =>
      Ret (Err (Wrap e ("failed to get PV " +:+ pvc_VolumeName pvc +:+ " for PVC " +:+ name))) in
    Ret (Ok pv).

Definition usesPVC (pvcName : string) (v : Volume) : bool :=
  bool_decide (vol_ClaimName v = Some pvcName).

(** A pod is listed once for each of its volumes that uses the claim. *)
Definition podsUsing (pvcName : string) (podList : list Pod) : list Pod :=
  flat_map (λ p, flat_map (λ v, if usesPVC pvcName v then [p] else []) (pod_Volumes p)) podList.

Definition GetPodsUsingPVC (pvcNamespace pvcName : string) (podsGetter : client)
    : io (result (list Pod)) :=
  let? podList := call (ListObj podsGetter KPod pvcNamespace) else e => Ret (Err e) in
  Ret (Ok (podsUsing pvcName podList)).

Definition GetPodVolumeNameForPVC (pod : Pod) (pvcName : string) : result string :=
  match list_find (λ v, usesPVC pvcName v = true) (pod_Volumes pod) with
  | Some (_, v) => Ok (vol_Name v)
  | None => Err (ErrorString ("Pod " +:+ om_Namespace (pod_Meta pod) +:+ "/" +:+ om_Name (pod_Meta pod)
      +:+ " does not use PVC " +:+ om_Namespace (pod_Meta pod) +:+ "/" +:+ pvcName))
  end.

(** The loop over the pods that use the claim. *)
Fixpoint backedUpByFs (pods : list Pod) (pvcName : string) (defaultVolumesToFsBackup : bool)
    : result bool :=
  match pods with
  | [] => Ok false
  | p :: pods =>
      let fsBackedVols := GetVolumesByPod p defaultVolumesToFsBackup in
      if bool_decide (length fsBackedVols = 0%nat) then
        backedUpByFs pods pvcName defaultVolumesToFsBackup
      else
        match GetPodVolumeNameForPVC p pvcName with
        | Err e => Err e
        | Ok volName => if ContainsString fsBackedVols volName then Ok true
                        else backedUpByFs pods pvcName defaultVolumesToFsBackup
        end
  end.

Definition IsPVCBackedUpByFsBackup (pvcNamespace pvcName : string) (podClient : client)
    (defaultVolumesToFsBackup : bool) : io (result bool) :=
  let? pods := GetPodsUsingPVC pvcNamespace pvcName podClient else e => Ret (Err (WithStack e)) in
  Ret (backedUpByFs pods pvcName defaultVolumesToFsBackup).

(** With an error client-go answers an object without a name. *)
Definition SkipPVCCreation (config : option RestConfig) (pvc : option PersistentVolumeClaim)
    (targetNamespace : string) : io (result bool) :=
  match pvc with
  | None => Ret (Err (ErrorString "Input PVC cannot be nil"))
  | Some pvc =>
      let? kubeClient := GetKubeClient config else e => Ret (Err e) in
      let! r := call (GetObj kubeClient KPersistentVolumeClaim targetNamespace (pvc_Name pvc)) in
      let found := match r with
        | Ok getPvc => (pvc_Namespace getPvc, pvc_Name getPvc)
        | Err _ => ("", "")
        end in
      match r with
      | Err e => if negb (IsNotFound e) then Ret (Err e)
                 else Ret (Ok (bool_decide (found = (targetNamespace, pvc_Name pvc))))
      | Ok _ => Ret (Ok (bool_decide (found = (targetNamespace, pvc_Name pvc))))
      end
  end.
End plugin_util.
