(* ===== verification/RepositoryClaims.v ===== *)
(** * What claiming and creating repositories promises

    The repository of a claim, on a server that stores repositories; and which
    repository a claim by parameters answers. *)

From S2P Require Export Repositories.
Open Scope Z_scope.

(** ** Creating the repository of a claim *)

Section create.
Context `{Deps}.

Definition missing : error :=
  External {| ext_msg := "not found"; ext_not_found := true;
              ext_already_exists := false; ext_canceled := false |}.

Definition already_there : error :=
  External {| ext_msg := "already exists"; ext_not_found := false;
              ext_already_exists := true; ext_canceled := false |}.

(** An API server that stores repositories under their names, and answers
    nothing else. *)
Definition repository_server : handler Cmd (gmap string BackupRepository) := λ X e s,
  match e in Cmd X return X * gmap string BackupRepository with
  | GetObj _ k _ name =>
      match k return result (obj k) * gmap string BackupRepository with
      | KBackupRepository => (match s !! name with Some b => Ok b | None => Err missing end, s)
      | _ => (Err unavailable, s)
      end
  | CreateObj _ k _ o =>
      match k return obj k → result (obj k) * gmap string BackupRepository with
      | KBackupRepository => λ b,
          match s !! br_Name b with
          | Some _ => (Err already_there, s)
          | None => (Ok b, <[br_Name b := b]> s)
          end
      | _ => λ _, (Err unavailable, s)
      end o
  | e => (default_answer e, s)
  end.

(** The repository [b] is the one that the claim describes. *)
Definition repository_of (brc : BackupRepositoryClaim) (svcBrName : string) (b : BackupRepository)
    : Prop :=
  br_Name b = GetBackupRepositoryNameForBackupRepositoryClaim brc ∧
  br_BackupRepositoryClaim b = brc_Name brc ∧
  br_RepositoryDriver b = S3RepositoryDriver ∧
  br_SvcBackupRepositoryName b = svcBrName ∧
  br_RepositoryParameters b = brc_RepositoryParameters brc.

Lemma repository_name_inj brc brc' :
  GetBackupRepositoryNameForBackupRepositoryClaim brc =
  GetBackupRepositoryNameForBackupRepositoryClaim brc' →
  om_UID (brc_Meta brc) = om_UID (brc_Meta brc').
Proof. unfold GetBackupRepositoryNameForBackupRepositoryClaim. cbn. by intros [=]. Qed.

(** On a server that stores repositories, creating the
    repository of a claim always succeeds: it answers the repository stored
    under the claim's name, which is the old one if there was one and else has
    the claim's parameters; it changes no repository of a claim with another
    UID; and doing it again answers the same repository and changes nothing. *)
Theorem CreateBackupRepository_idempotent brc svc c s :
  let name := GetBackupRepositoryNameForBackupRepositoryClaim brc in
  ∃ b s',
    run repository_server (CreateBackupRepository brc svc c) s = (Returned (Ok b), s') ∧
    s' !! name = Some b ∧
    (match s !! name with Some b' => b' = b | None => repository_of brc svc b end) ∧
    (∀ brc', om_UID (brc_Meta brc') ≠ om_UID (brc_Meta brc) →
       s' !! GetBackupRepositoryNameForBackupRepositoryClaim brc' =
       s !! GetBackupRepositoryNameForBackupRepositoryClaim brc') ∧
    run repository_server (CreateBackupRepository brc svc c) s' = (Returned (Ok b), s').
Proof.
  intros name. unfold CreateBackupRepository. fold name.
  set (req := BackupRepository.SvcBackupRepositoryName svc _).
  assert (Hreq : repository_of brc svc req).
  { unfold repository_of, req, BackupRepository.SvcBackupRepositoryName.
    case_bool_decide as Hsvc; [done|]. by rewrite Hsvc. }
  assert (Hn : br_Name req = name) by apply Hreq.
  destruct (s !! name) as [b|] eqn:Hs.
  - exists b, s. cbn. by rewrite Hs.
  - exists req, (<[name := req]> s). cbn. rewrite Hs. cbn. rewrite Hn, Hs, lookup_insert_eq.
    split_and!; try done.
    intros brc' Hu. apply lookup_insert_ne. intros Heq. by apply repository_name_inj in Heq.
Qed.
End create.

(** ** Claiming a repository by its parameters *)

Section claim.
Context `{Deps} (driver : string) (ps : option (gmap string string))
  (allowed : option (list string)) (ns : string).

(** The claims that were listed, the claim that was created, and the events
    of the wait. *)
Record claim_run := {
  cl_listed : option (list BackupRepositoryClaim);
  cl_created : option BackupRepositoryClaim;
  cl_events : list (watch_event BackupRepositoryClaim);
}.

Definition claim_start : claim_run :=
  {| cl_listed := None; cl_created := None; cl_events := [] |}.

(** The claim is of the driver, with the parameters and for the namespaces that were asked for. *)
Definition as_asked (brc : BackupRepositoryClaim) : Prop :=
  brc_RepositoryDriver brc = driver ∧ brc_RepositoryParameters brc = ps ∧ brc_AllowedNamespaces brc = allowed.

#[local] Instance as_asked_dec brc : Decision (as_asked brc).
Proof. unfold as_asked. apply _. Defined.

Lemma compare_as_asked brc : compareBackupRepositoryClaim driver ps allowed brc = true ↔ as_asked brc.
Proof.
  unfold compareBackupRepositoryClaim, as_asked. repeat case_bool_decide; cbn; naive_solver.
Qed.

(** A listed claim that is as it was asked for. *)
Definition fits (s : claim_run) (brc : BackupRepositoryClaim) : Prop :=
  ∃ l, cl_listed s = Some l ∧ brc ∈ l ∧ as_asked brc.

(** Nothing but one list of the claims, one creation, of a claim with the
    parameters that were asked for and only when no listed claim has them, and
    one wait for the claims of the namespace. *)
Definition claim_protocol : monitor Cmd claim_run := λ s X e,
  match e in Cmd X return X → verdict claim_run with
  | ListObj _ k n =>
      match k return result (list (obj k)) → verdict claim_run with
      | KBackupRepositoryClaim => λ r,
          if bool_decide (n = ns ∧ cl_listed s = None) then
            Next (match r with
                  | Ok l => {| cl_listed := Some l; cl_created := None; cl_events := [] |}
                  | Err _ => s
                  end)
          else Violation
      | _ => λ _, Violation
      end
  | CreateObj _ k n o =>
      match k return obj k → result (obj k) → verdict claim_run with
      | KBackupRepositoryClaim => λ o r,
          match cl_listed s, cl_created s with
          | Some l, None =>
              if forallb (λ brc, negb (bool_decide (as_asked brc))) l
                 && bool_decide (n = ns ∧ brc_Namespace o = ns ∧ brc_RepositoryParameters o = ps
                                 ∧ brc_AllowedNamespaces o = copy_slice allowed
                                 ∧ brc_RepositoryDriver o = S3RepositoryDriver
                                 ∧ brc_BackupRepository o = "")
              then Next {| cl_listed := cl_listed s;
                           cl_created := match r with Ok _ => Some o | Err _ => None end;
                           cl_events := [] |}
              else Violation
          | _, _ => Violation
          end
      | _ => λ _ _, Violation
      end o
  | Watch _ k n =>
      match k return list (watch_event (obj k)) * option error → verdict claim_run with
      | KBackupRepositoryClaim => λ r,
          if bool_decide (n = ns ∧ is_Some (cl_listed s)) then
            Next {| cl_listed := cl_listed s; cl_created := cl_created s; cl_events := r.1 |}
          else Violation
      | _ => λ _, Violation
      end
  | NewUUID => λ _, Next s
  | _ => λ _, Violation
  end.

(** The claims whose repository is awaited. *)
Definition awaited (s : claim_run) (name : string) : Prop :=
  match cl_created s with
  | Some brc => name = brc_Name brc
  | None => ∃ brc, fits s brc ∧ brc_Name brc = name ∧ brc_BackupRepository brc = ""
  end.

(** An addition or an update of the claim [brc]. *)
Definition announces (ev : watch_event BackupRepositoryClaim) (brc : BackupRepositoryClaim) : Prop :=
  ev = Added brc ∨ ev = Updated brc.

(** The repository answered: that of a listed claim, or of an awaited one. *)
Definition claimed (o : outcome (result string)) (s : claim_run) : Prop :=
  match o with
  | Returned (Ok name) =>
      name ≠ "" ∧ ∃ brc, brc_BackupRepository brc = name ∧
        (fits s brc ∨ (awaited s (brc_Name brc) ∧ ∃ ev, ev ∈ cl_events s ∧ announces ev brc))
  | Returned (Err _) => True
  | Panicked _ => False
  | Hung _ => ∀ ev brc, ev ∈ cl_events s → announces ev brc → awaited s (brc_Name brc) →
      brc_BackupRepository brc = ""
  end.

(** What the loop over the list finds, with the names [m] found before. *)
Lemma matchClaims_spec items m :
  match matchClaims driver ps allowed items m with
  | inl name => name ≠ "" ∧ ∃ brc, brc ∈ items ∧ brc_BackupRepository brc = name ∧
      as_asked brc
  | inr m' =>
      (∀ name, name ∈ m' ↔ name ∈ m ∨ ∃ brc, brc ∈ items ∧ brc_Name brc = name ∧
         as_asked brc ∧ brc_BackupRepository brc = "") ∧
      ∀ brc, brc ∈ items → as_asked brc →
        brc_Name brc ∈ m'
  end.
Proof.
  revert m. induction items as [|x items IH]; intros m; cbn; [set_solver|].
  assert (Hx := compare_as_asked x). destruct (compareBackupRepositoryClaim driver ps allowed x);
    [apply proj1 in Hx; specialize (Hx eq_refl)|assert (¬ as_asked x) by (by intros ?%Hx); clear Hx].
  - destruct (bool_decide_reflect (brc_BackupRepository x = "")) as [Hr|Hr].
    + specialize (IH ({[brc_Name x]} ∪ m)). destruct (matchClaims _ _ _ _ _) as [name|m'].
      { destruct IH as (Hne & brc & ? & ? & ?). split; [done|]. exists brc. set_solver. }
      destruct IH as [IH1 IH2]. split.
      * intros name. rewrite IH1. set_solver.
      * intros brc [->|Hin]%elem_of_cons; [|auto]. intros _. apply IH1. set_solver.
    + split; [done|]. exists x. set_solver.
  - specialize (IH m). destruct (matchClaims _ _ _ _ _) as [name|m'].
    { destruct IH as (Hne & brc & ? & ? & ?). split; [done|]. exists brc. set_solver. }
    destruct IH as [IH1 IH2]. split.
    + intros name. rewrite IH1. split; [set_solver|].
      intros [?|(brc & [->|?]%elem_of_cons & ? & ? & ?)]; [by left|done|set_solver].
    + intros brc [->|Hin]%elem_of_cons; [done|auto].
Qed.

Lemma claimEvent_Some m ev name :
  claimEvent m ev = Some name ↔
  ∃ brc, announces ev brc ∧ brc_Name brc ∈ m ∧ brc_BackupRepository brc = name ∧ name ≠ "".
Proof.
  assert (Hc : ∀ brc, checkIfBackupRepositoryClaimIsReferenced m brc = Some name ↔
    brc_Name brc ∈ m ∧ brc_BackupRepository brc = name ∧ name ≠ "").
  { intros brc. unfold checkIfBackupRepositoryClaimIsReferenced.
    repeat case_bool_decide; naive_solver. }
  unfold announces. destruct ev as [brc|brc|brc]; cbn; rewrite ?Hc; split; try done.
  1, 3: intros H'; exists brc; auto.
  all: by intros (brc' & [[=]|[=]] & ?); subst.
Qed.

Lemma claim_wait c m s :
  is_Some (cl_listed s) → (∀ name, name ∈ m ↔ awaited s name) →
  safe claim_protocol (waitForClaim c ns m) claimed s.
Proof.
  intros Hl Hm. unfold waitForClaim. cbn. intros [events done]. rewrite bool_decide_true by done.
  cbn. set (s' := {| cl_events := events |}).
  destruct (list_find _ events) as [[i ev]|] eqn:Hf.
  - apply list_find_Some in Hf as (Hi & [name Hname] & _). rewrite Hname. cbn.
    apply claimEvent_Some in Hname as (brc & Ha & Hin & Hbr & Hne). split; [done|].
    exists brc. split; [done|]. right. split; [by apply Hm|]. exists ev. split; [|done].
    by apply list_elem_of_lookup_2 in Hi.
  - destruct done as [e|]; [done|]. cbn. intros ev brc Hin Ha Haw.
    destruct (decide (brc_BackupRepository brc = "")) as [|Hne]; [done|exfalso].
    apply list_find_None in Hf. rewrite Forall_forall in Hf. apply (Hf ev Hin).
    exists (brc_BackupRepository brc). apply claimEvent_Some. exists brc.
    split_and!; try done. by apply Hm.
Qed.

#[local] Arguments waitForClaim : simpl never.

End claim.
