(* ===== verification/SnapshotUtils.v ===== *)
(** * Creating records and waiting for them (pkg/snapshotUtils)

    The item actions and the guest clusters' entities ask the backup driver for
    work by creating a Snapshot, CloneFromSnapshot or DeleteSnapshot, and
    wait until its phase is one of those they look for. *)

From S2P Require Export Repositories.
Open Scope Z_scope.

Definition SnapshotBackupLabel : string := "velero.io/backup-name".

Section wait.
Context `{Deps}.

(** What an informer's event sends on the unbuffered result channel: nothing for
    another record or for a phase that is not waited for; for a deletion a nil
    item with an error. *)
Definition phaseEvent {A P} `{EqDecision P} (name_of : A → string) (phase_of : A → P)
    (name : string) (waitForPhases : list P) (deleted : string) (ev : watch_event A)
    : option (option A * option error) :=
  match ev with
  | Added a | Updated a =>
      if bool_decide (name_of a ≠ name) then None
      else if existsb (λ checkPhase, bool_decide (phase_of a = checkPhase)) waitForPhases
      then Some (Some a, None) else None
  | Deleted a =>
      if bool_decide (name_of a ≠ name) then None
      else Some (None, Some (ErrorString deleted))
  end.

(** The [select] on the result channel and the context: the first event that
    sends something.  [result.item.( *T)] panics on a nil item. *)
Definition firstResult {A} (send : watch_event A → option (option A * option error))
    (events : list (watch_event A)) (done : option error) : io (result A) :=
  match list_find (λ ev, is_Some (send ev)) events with
  | Some (_, ev) =>
      match send ev with
      | Some (Some a, None) => Ret (Ok a)
      | Some (Some _, Some e) => Ret (Err e)
      | _ => Panic "interface conversion: interface is nil"
      end
  | None =>
      match done with
      | Some e => Ret (Err e)
      | None => Hang "select: no event and no end of the context"
      end
  end.

Definition WaitForPhases (clientSet : client) (snapshotToWait : Snapshot)
    (waitForPhases : list SnapshotPhase) (namespace : string) : io (result Snapshot) :=
  let! (events, done) := call (Watch clientSet KSnapshot namespace) in
  firstResult (phaseEvent (λ s, s_Name s) (λ s, s_Phase s) (s_Name snapshotToWait) waitForPhases "Snapshot deleted")
    events done.

Definition WaitForClonePhases (clientSet : client) (cloneToWait : CloneFromSnapshot)
    (waitForPhases : list ClonePhase) (namespace : string) : io (result CloneFromSnapshot) :=
  let! (events, done) := call (Watch clientSet KCloneFromSnapshot namespace) in
  firstResult (phaseEvent (λ c, c_Name c) (λ c, c_Phase c) (c_Name cloneToWait) waitForPhases
    "CloneFromSnapshot deleted") events done.

Definition WaitForDeleteSnapshotPhases (clientSet : client) (deleteSnapshotToWait : DeleteSnapshot)
    (waitForPhases : list DeleteSnapshotPhase) (namespace : string) : io (result DeleteSnapshot) :=
  let! (events, done) := call (Watch clientSet KDeleteSnapshot namespace) in
  firstResult (phaseEvent (λ d, del_Name d) (λ d, del_Phase d) (del_Name deleteSnapshotToWait) waitForPhases
    "DeleteSnapshot CRD deleted") events done.

(** A [BackupRepository] of this package is a name. *)
Definition SnapshotRef (clientSet : client) (objectToSnapshot : TypedLocalObjectReference)
    (namespace repository : string) (labels : gmap string string)
    (waitForPhases : list SnapshotPhase) : io (result Snapshot) :=
  let? snapshotUUID := call NewUUID else e =>
    Ret (Err (Wrap e "Could not create snapshot UUID")) in
  let snapshotReq := Snapshot.CancelState false (Snapshot.ObjectReference objectToSnapshot
    (Snapshot.BackupRepository repository
      (Snapshot.ForSnapshot namespace ("snap-" +:+ snapshotUUID) labels))) in
  let? writtenSnapshot := call (CreateObj clientSet KSnapshot namespace snapshotReq) else e =>
    Ret (Err (Wrap e "Failed to create snapshot record")) in
  let writtenSnapshot := writtenSnapshot <| s_Status; ss_Phase := SnapshotPhaseNew |> in
  let? writtenSnapshot := call (UpdateStatusObj clientSet KSnapshot namespace writtenSnapshot)
    else e => Ret (Err (Wrap e "Failed to update status of snapshot record")) in
  let? updatedSnapshot := WaitForPhases clientSet writtenSnapshot waitForPhases namespace
    else e => Ret (Err (Wrap e "Failed to wait for expected snapshot phases")) in
  Ret (Ok updatedSnapshot).

Definition CloneFromSnapshopRef (clientSet : client) (snapshotID metadata : string)
    (apiGroup : option string) (kind namespace repo : string) (waitForPhases : list ClonePhase)
    : io (result CloneFromSnapshot) :=
  let? cloneFromSnapshotUUID := call NewUUID else e =>
    Ret (Err (Wrap e "Could not create cloneFromSnapshot UUID")) in
  let cloneFromSnapshotCR := CloneFromSnapshot.BackupRepository repo
    (CloneFromSnapshot.Kind kind (CloneFromSnapshot.APIGroup apiGroup
      (CloneFromSnapshot.Metadata metadata (CloneFromSnapshot.SnapshotID snapshotID
        (CloneFromSnapshot.ForCloneFromSnapshot namespace cloneFromSnapshotUUID ∅))))) in
  let? writtenClone := call (CreateObj clientSet KCloneFromSnapshot namespace cloneFromSnapshotCR)
    else e => Ret (Err (Wrap e "Failed to create cloneFromSnapshot record")) in
  let writtenClone := writtenClone <| c_Status; cs_Phase := ClonePhaseNew |> in
  let? writtenClone := call (UpdateStatusObj clientSet KCloneFromSnapshot namespace writtenClone)
    else e => Ret (Err (Wrap e "Failed to update status of cloneFromSnapshot record")) in
  let? updatedClone := WaitForClonePhases clientSet writtenClone waitForPhases namespace
    else e => Ret (Err (Wrap e "Failed to wait for expected clone phases")) in
  let! now := call Now in
  let updatedClone := updatedClone <| c_Status; cs_CompletionTimestamp := Some now |> in
  let? updatedClone := call (UpdateStatusObj clientSet KCloneFromSnapshot namespace updatedClone)
    else e => Ret (Err (Wrap e "Failed to update status of cloneFromSnapshot record")) in
  Ret (Ok updatedClone).

Definition DeleteSnapshotRef (clientSet : client) (snapshotID namespace repo : string)
    (waitForPhases : list DeleteSnapshotPhase) : io (result DeleteSnapshot) :=
  let? deleteSnapshotUUID := call NewUUID else e =>
    Ret (Err (Wrap e "Could not create deleteSnapshot UUID")) in
  let deleteSnapshotName := "delete-" +:+ deleteSnapshotUUID in
  let deleteSnapshotCR := DeleteSnapshot.BackupRepository repo
    (DeleteSnapshot.SnapshotID snapshotID
      (DeleteSnapshot.ForDeleteSnapshot namespace deleteSnapshotName)) in
  let? writtenDeleteSnapCR := call (CreateObj clientSet KDeleteSnapshot namespace deleteSnapshotCR)
    else e => Ret (Err (Wrap e "Failed to create DeleteSnapshot record")) in
  let writtenDeleteSnapCR :=
    writtenDeleteSnapCR <| del_Status; dels_Phase := DeleteSnapshotPhaseNew |> in
  let? writtenDeleteSnapCR :=
    call (UpdateStatusObj clientSet KDeleteSnapshot namespace writtenDeleteSnapCR)
    else e => Ret (Err (Wrap e "Failed to update status of delete snapshot record")) in
  let? updatedDeleteSnapCR :=
    WaitForDeleteSnapshotPhases clientSet writtenDeleteSnapCR waitForPhases namespace
    else e => Ret (Err (Wrap e "Failed to wait for expected delete-snapshot phases")) in
  Ret (Ok updatedDeleteSnapCR).
End wait.

(** ** What a wait answers *)

Section answer.
Context {A P : Type} `{EqDecision P} (name_of : A → string) (phase_of : A → P).
Context (name : string) (phases : list P).

(** An event that shows the record in a phase that is waited for. *)
Definition shows (a : A) (ev : watch_event A) : Prop :=
  (ev = Added a ∨ ev = Updated a) ∧ name_of a = name ∧ phase_of a ∈ phases.

(** An event that shows the record deleted. *)
Definition deletes (ev : watch_event A) : Prop :=
  ∃ a, ev = Deleted a ∧ name_of a = name.

(** The first event that ends the wait satisfies [Q]. *)
Definition first_event (events : list (watch_event A)) (Q : watch_event A → Prop) : Prop :=
  ∃ before ev after, events = before ++ ev :: after ∧ Q ev ∧
    ∀ ev', ev' ∈ before → ¬ deletes ev' ∧ ∀ a, ¬ shows a ev'.

Definition waited (events : list (watch_event A)) (done : option error)
    (o : outcome (result A)) : Prop :=
  match o with
  | Returned (Ok a) => first_event events (shows a)
  | Returned (Err e) => done = Some e
  | Panicked _ => first_event events deletes
  | Hung _ => done = None ∧ ∀ ev, ev ∈ events → ¬ deletes ev ∧ ∀ a, ¬ shows a ev
  end.

Lemma phaseEvent_spec deleted ev :
  match phaseEvent name_of phase_of name phases deleted ev with
  | Some (Some a, None) => shows a ev
  | Some (None, _) => deletes ev
  | Some (Some _, Some _) => False
  | None => ¬ deletes ev ∧ ∀ a, ¬ shows a ev
  end.
Proof.
  assert (Hin : ∀ a, existsb (λ p, bool_decide (phase_of a = p)) phases = true ↔ phase_of a ∈ phases).
  { intros a. rewrite existsb_exists. setoid_rewrite bool_decide_eq_true.
    setoid_rewrite <-list_elem_of_In. naive_solver. }
  unfold phaseEvent, shows, deletes.
  destruct ev as [a|a|a]; (case_bool_decide as Hn; [naive_solver|]).
  3: eauto.
  all: specialize (Hin a); destruct (existsb _ _); [naive_solver|].
  all: split; [naive_solver|]; intros a' ([[= ->]|[= ->]] & _ & Hp); naive_solver.
Qed.

Lemma firstResult_spec `{Deps} deleted events done :
  ∃ o, waited events done o ∧
    firstResult (phaseEvent name_of phase_of name phases deleted) events done =
    match o with Returned r => Ret r | Panicked w => Panic w | Hung w => Hang w end.
Proof.
  unfold firstResult. set (send := phaseEvent _ _ _ _ _).
  assert (Hnone : ∀ ev, ¬ is_Some (send ev) → ¬ deletes ev ∧ ∀ a, ¬ shows a ev).
  { intros ev Hev. pose proof (phaseEvent_spec deleted ev) as Hs. fold send in Hs.
    destruct (send ev) as [p|]; [|done]. by destruct Hev. }
  destruct (list_find _ events) as [[i ev]|] eqn:Hf.
  - apply list_find_Some in Hf as (Hi & [p Hp] & Hbefore).
    assert (Hfirst : ∀ Q : watch_event A → Prop, Q ev → first_event events Q).
    { intros Q HQ. exists (take i events), ev, (drop (S i) events).
      split_and!; [by rewrite take_drop_middle|done|].
      intros ev' (j & Hj)%list_elem_of_lookup. apply lookup_take_Some in Hj as [Hj Hlt].
      apply Hnone. by apply (Hbefore j). }
    pose proof (phaseEvent_spec deleted ev) as Hs. fold send in Hs. rewrite Hp in Hs |- *.
    destruct p as [[a|] [e|]]; [done| | |].
    + exists (Returned (Ok a)). split; [by apply Hfirst|done].
    + eexists (Panicked _). split; [by apply Hfirst|done].
    + eexists (Panicked _). split; [by apply Hfirst|done].
  - apply list_find_None in Hf. destruct done as [e|].
    + by exists (Returned (Err e)).
    + eexists (Hung _). split; [|done]. split; [done|]. intros ev Hin. apply Hnone.
      by rewrite Forall_forall in Hf; apply Hf.
Qed.
End answer.

(** ** Snapshots *)

(** The record as it was created and as its status was written, and what the
    watch told. *)
Record ref_run (A : Type) := RefRun {
  rf_created : option A;
  rf_written : option A;
  rf_seen : option (list (watch_event A) * option error);
}.
Arguments RefRun {A} _ _ _.
Arguments rf_created {A} _.
Arguments rf_written {A} _.
Arguments rf_seen {A} _.

Definition ref_start {A} : ref_run A := RefRun None None None.

(** The answer of a wait, or of a request before it that failed. *)
Definition ref_done {A P} `{EqDecision P} (name_of : A → string) (phase_of : A → P)
    (phases : list P) (o : outcome (result A)) (s : ref_run A) : Prop :=
  match rf_written s, rf_seen s with
  | Some w, Some (events, done) =>
      match o with
      | Returned (Err _) => is_Some done
      | o => waited name_of phase_of (name_of w) phases events done o
      end
  | _, _ => ∃ e, o = Returned (Err e)
  end.

Section snapshot_ref.
Context `{Deps} (object : TypedLocalObjectReference) (ns repository : string).
Context (labels : gmap string string) (phases : list SnapshotPhase).

(** The Snapshot that is asked for. *)
Definition asked_snapshot (o : Snapshot) : Prop :=
  s_Namespace o = ns ∧ ss_ResourceHandle (s_Spec o) = object ∧
  ss_BackupRepository (s_Spec o) = repository ∧ ss_SnapshotCancel (s_Spec o) = false ∧
  om_Labels (s_Meta o) = <[VeleroExcludeLabel := "true"]> labels.

#[export] Instance asked_snapshot_dec o : Decision (asked_snapshot o).
Proof. unfold asked_snapshot. apply _. Defined.

(** One record is created, its status set to [New], and then only watched. *)
Definition snapshot_ref_monitor : monitor Cmd (ref_run Snapshot) := λ s X e,
  match e in Cmd X return X → verdict (ref_run Snapshot) with
  | NewUUID => λ _, Next s
  | CreateObj _ k n o =>
      match k return obj k → result (obj k) → verdict (ref_run Snapshot) with
      | KSnapshot => λ o r,
          if bool_decide (n = ns ∧ asked_snapshot o ∧ rf_created s = None)
          then Next (RefRun (match r with Ok a => Some a | Err _ => None end) None None)
          else Violation
      | _ => λ _ _, Violation
      end o
  | UpdateStatusObj _ k n o =>
      match k return obj k → result (obj k) → verdict (ref_run Snapshot) with
      | KSnapshot => λ o r,
          if bool_decide (n = ns ∧ rf_written s = None ∧
               Some o = (λ a, a <| s_Status; ss_Phase := SnapshotPhaseNew |>) <$> rf_created s)
          then Next (RefRun (rf_created s) (match r with Ok a => Some a | Err _ => None end) None)
          else Violation
      | _ => λ _ _, Violation
      end o
  | Watch _ k n =>
      match k return list (watch_event (obj k)) * option error → verdict (ref_run Snapshot) with
      | KSnapshot => λ r,
          if bool_decide (n = ns ∧ is_Some (rf_written s) ∧ rf_seen s = None)
          then Next (RefRun (rf_created s) (rf_written s) (Some r)) else Violation
      | _ => λ _, Violation
      end
  | _ => λ _, Violation
  end.

(** [SnapshotRef] creates one Snapshot, of the object and with the repository and
    the labels given, sets the phase of the record the server answered to [New],
    and then only watches.  The Snapshot it answers is the one of the
    first event that shows the record in a phase that is waited for, if no event
    before shows it deleted.  If one does, the function panics: the error meant
    for that case is never returned.  It waits for ever only when no event ends
    the wait and the context has no end. *)
Theorem SnapshotRef_protocol c :
  safe snapshot_ref_monitor (SnapshotRef c object ns repository labels phases)
    (ref_done (λ s, s_Name s) (λ s, s_Phase s) phases) ref_start.
Proof.
  unfold SnapshotRef. cbn -[WaitForPhases]. intros [uuid|e]; cbn -[WaitForPhases]; [|eauto].
  rewrite bool_decide_true by done. intros [a|e]; cbn -[WaitForPhases]; [|eauto].
  rewrite bool_decide_true by done. intros [w|e]; cbn; [|eauto].
  rewrite bool_decide_true by done. intros [events done]. cbn.
  destruct (firstResult_spec (λ s, s_Name s) (λ s, s_Phase s) (s_Name w) phases "Snapshot deleted"
    events done) as (o & Ho & ->).
  destruct o as [[a'|e]|w'|w']; cbn; [exact Ho|by rewrite Ho|exact Ho|exact Ho].
Qed.
End snapshot_ref.

(** ** Clones *)

Section clone_ref.
Context `{Deps} (snapshotID metadata : string) (apiGroup : option string) (kind ns repo : string).
Context (phases : list ClonePhase).

(** With the last status written, and the answer. *)
Record clone_ref_run := CloneRefRun {
  clr_ref : ref_run CloneFromSnapshot;
  clr_final : option (CloneFromSnapshot * result CloneFromSnapshot);
}.

Definition clone_ref_start : clone_ref_run := CloneRefRun ref_start None.

(** The CloneFromSnapshot that is asked for. *)
Definition asked_clone (o : CloneFromSnapshot) : Prop :=
  c_Namespace o = ns ∧ cs_SnapshotID (c_Spec o) = snapshotID ∧
  cs_Metadata (c_Spec o) = metadata ∧ cs_APIGroup (c_Spec o) = apiGroup ∧
  cs_Kind (c_Spec o) = kind ∧ cs_BackupRepository (c_Spec o) = repo ∧
  cs_CloneCancel (c_Spec o) = false.

#[export] Instance asked_clone_dec o : Decision (asked_clone o).
Proof. unfold asked_clone. apply _. Defined.

(** One record is created, its status set to [New]; then it is watched, and at
    the end its status is written once more. *)
Definition clone_ref_monitor : monitor Cmd clone_ref_run := λ s X e,
  let r0 := clr_ref s in
  match e in Cmd X return X → verdict clone_ref_run with
  | NewUUID => λ _, Next s
  | Now => λ _, Next s
  | CreateObj _ k n o =>
      match k return obj k → result (obj k) → verdict clone_ref_run with
      | KCloneFromSnapshot => λ o r,
          if bool_decide (n = ns ∧ asked_clone o) && bool_decide (¬ is_Some (rf_created r0))
          then Next (CloneRefRun
                 (RefRun (match r with Ok a => Some a | Err _ => None end) None None) None)
          else Violation
      | _ => λ _ _, Violation
      end o
  | UpdateStatusObj _ k n o =>
      match k return obj k → result (obj k) → verdict clone_ref_run with
      | KCloneFromSnapshot => λ o r,
          match rf_created r0, rf_written r0, rf_seen r0, clr_final s with
          | Some a, None, _, _ =>
              if bool_decide (n = ns ∧ c_Meta o = c_Meta a ∧ c_Phase o = ClonePhaseNew)
              then Next (CloneRefRun
                     (RefRun (Some a) (match r with Ok a => Some a | Err _ => None end) None) None)
              else Violation
          | _, Some _, Some _, None =>
              if bool_decide (n = ns) then Next (CloneRefRun r0 (Some (o, r))) else Violation
          | _, _, _, _ => Violation
          end
      | _ => λ _ _, Violation
      end o
  | Watch _ k n =>
      match k return list (watch_event (obj k)) * option error → verdict clone_ref_run with
      | KCloneFromSnapshot => λ r,
          if bool_decide (n = ns) && bool_decide (is_Some (rf_written r0))
          then Next (CloneRefRun (RefRun (rf_created r0) (rf_written r0) (Some r)) None)
          else Violation
      | _ => λ _, Violation
      end
  | _ => λ _, Violation
  end.

(** A wait that showed the record in a phase that is waited for is followed by
    the last update, of that record with a completion time. *)
Definition clone_ref_done (o : outcome (result CloneFromSnapshot)) (s : clone_ref_run) : Prop :=
  match clr_final s with
  | None => ref_done (λ c, c_Name c) (λ c, c_Phase c) phases o (clr_ref s)
            ∧ ∀ a, o ≠ Returned (Ok a)
  | Some (written, r) =>
      ∃ a now, ref_done (λ c, c_Name c) (λ c, c_Phase c) phases (Returned (Ok a)) (clr_ref s) ∧
        written = a <| c_Status; cs_CompletionTimestamp := Some now |> ∧
        match r with Ok u => o = Returned (Ok u) | Err _ => ∃ e, o = Returned (Err e) end
  end.

(** [CloneFromSnapshopRef] creates one CloneFromSnapshot with the snapshot, metadata, kind
    and repository given, sets its phase to [New], and then only watches. Only
    after the first event that shows the record in a phase that is waited for does it write that
    record's status again, with a completion time, and it answers
    what the server answers to that. A record shown deleted makes it panic. *)
Theorem CloneFromSnapshopRef_protocol c :
  safe clone_ref_monitor (CloneFromSnapshopRef c snapshotID metadata apiGroup kind ns repo phases)
    clone_ref_done clone_ref_start.
Proof.
  unfold CloneFromSnapshopRef. cbn -[WaitForClonePhases].
  intros [uuid|e]; cbn -[WaitForClonePhases]; [|split; [eauto|done]].
  rewrite !bool_decide_true by (try done; by intros []).
  intros [a|e]; cbn -[WaitForClonePhases]; [|split; [eauto|done]].
  rewrite bool_decide_true by done. intros [w|e]; cbn; [|split; [eauto|done]].
  rewrite !bool_decide_true by done. intros [events done]. cbn.
  destruct (firstResult_spec (λ c, c_Name c) (λ c, c_Phase c) (c_Name w) phases
    "CloneFromSnapshot deleted" events done) as (o & Ho & ->).
  destruct o as [[a'|e]|w'|w']; cbn; [|by rewrite Ho|by split..].
  intros now. rewrite bool_decide_true by done.
  intros [u|e]; cbn; exists a', now; (split_and!; [exact Ho|done|eauto]).
Qed.
End clone_ref.

