(* ===== verification/DataMover.v ===== *)
(** * The data mover (pkg/dataMover)

    Copies between the local and the remote repository under a mutex, and the
    map of the uploads in progress with their cancel functions. *)

From S2P Require Export Repositories.
Open Scope Z_scope.

Section DataMover.
Context `{Deps}.

(** The mutex and the [sync.Map] are shared and reached by calls. *)
Record DataMover := { dm_ivdPETM : PETM }.

Context (this : DataMover).

Definition withReloadConfigLock {A} (body : io A) : io A :=
  call Lock ;;; defer (call Unlock) body.

Definition RegisterOngoingUpload (peID : PEID) (cancelFunc : CancelFunc) : io unit :=
  call (MapStore peID cancelFunc).

Definition UnregisterOngoingUpload (peID : PEID) : io unit :=
  let! v := call (MapLoad peID) in
  match v with
  | None => Ret tt
  | Some _ => call (MapDelete peID)
  end.

Definition IsUploading (peID : PEID) : io bool :=
  let! v := call (MapLoad peID) in
  Ret (bool_decide (is_Some v)).

Definition CancelUpload (peID : PEID) : io (option error) :=
  let! v := call (MapLoad peID) in
  match v with
  | Some cancelFunc =>
      call (Cancel cancelFunc) ;;;
      call (MapDelete peID) ;;;
      Ret None
  | None => Ret (Some (ErrorString "The pe was not found to be uploading on the node."))
  end.

(** A failed copy returns without taking the entry back out of the map. *)
Definition copyToRepo (peID : PEID) (s3PETM : S3PETM) : io (result PEID) :=
  let? updatedPE := call (PetmGetProtectedEntity (dm_ivdPETM this) peID) else e => Ret (Err e) in
  let! cancelFunc := call WithCancel in
  RegisterOngoingUpload peID cancelFunc ;;;
  let? s3PE := call (PetmCopy s3PETM (Some cancelFunc) updatedPE AllocateNewObject) else e =>
    Ret (Err e) in
  Ret (Ok (PE_GetID s3PE)).

Definition CopyToRepo (peID : PEID) : io (result PEID) :=
  withReloadConfigLock (
    let? s3PETM := GetDefaultS3PETM else e => Ret (Err e) in
    copyToRepo peID s3PETM).

Definition CopyToRepoWithBackupRepository (peID : PEID) (br : BackupRepository)
    : io (result PEID) :=
  withReloadConfigLock (
    let? s3PETM := GetRepositoryFromBackupRepository br else e => Ret (Err e) in
    copyToRepo peID s3PETM).

Definition copyFromRepo (peID targetPEID : PEID) (s3PETM : S3PETM) (options : CopyCreateOptions)
    : io (result PEID) :=
  let? pe := call (PetmGetProtectedEntity s3PETM peID) else e => Ret (Err e) in
  if bool_decide (options = UpdateExistingObject) then
    let? targetPE := call (PetmGetProtectedEntity (dm_ivdPETM this) targetPEID) else e =>
      Ret (Err e) in
    check! call (PeOverwrite targetPE pe) else e => Ret (Err e) in
    Ret (Ok (PE_GetID targetPE))
  else
    let? ivdPE := call (PetmCopy (dm_ivdPETM this) None pe options) else e => Ret (Err e) in
    Ret (Ok (PE_GetID ivdPE)).

Definition CopyFromRepo (peID targetPEID : PEID) (options : CopyCreateOptions)
    : io (result PEID) :=
  withReloadConfigLock (
    let? s3PETM := GetDefaultS3PETM else e => Ret (Err e) in
    copyFromRepo peID targetPEID s3PETM options).

Definition CopyFromRepoWithBackupRepository (peID targetPEID : PEID) (br : BackupRepository)
    (options : CopyCreateOptions) : io (result PEID) :=
  withReloadConfigLock (
    let? s3PETM := GetRepositoryFromBackupRepository br else e => Ret (Err e) in
    copyFromRepo peID targetPEID s3PETM options).

Definition ReloadDataMoverIvdPetmConfig (ps : params) : io (option error) :=
  withReloadConfigLock (
    if negb (PETM_IsIVD (dm_ivdPETM this)) then
      Ret (Some (ErrorString
        "Called with non IVDProtectedEntityTypeManager protected entity type manager"))
    else
      check! call (ReloadIvdConfig (dm_ivdPETM this) ps) else e => Ret (Some e) in
      Ret None).
End DataMover.

(** ** The mutex *)

Section lock.
Context `{Deps}.

(** Whether the mutex is held.  Locking it again would block for ever, and
    unlocking a free one is a fatal error. *)
Definition lock_monitor : monitor Cmd bool := λ held X e _,
  match e with
  | Lock => if held then Violation else Next true
  | Unlock => if held then Next false else Violation
  | _ => Next held
  end.

(** The operation ended, and the mutex is free again. *)
Definition released {A} (o : outcome A) (held : bool) : Prop :=
  match o with Hung _ => False | _ => held = false end.

Lemma lock_monitor_lock_free s X (e : Cmd X) x :
  lock_free e = true → lock_monitor s X e x = Next s.
Proof. unfold lock_monitor. destruct e; cbn; congruence. Qed.

Lemma safe_lock_free {A} (p : io A) held :
  calls_only (@lock_free _) p →
  safe lock_monitor p (λ o s, match o with Hung _ => False | _ => s = held end) held.
Proof. apply safe_calls_only, lock_monitor_lock_free. Qed.

Lemma safe_withReloadConfigLock {A} (body : io A) :
  calls_only (@lock_free _) body →
  safe lock_monitor (withReloadConfigLock body) released false.
Proof.
  intros Hb. unfold withReloadConfigLock. cbn. intros ?. apply safe_defer. eapply safe_mono.
  - by apply (safe_lock_free body true).
  - intros [a|w|w] s; cbn; [intros ->; auto..|done].
Qed.

Lemma lock_free_reads {A} (p : io A) : calls_only (@reads _) p → calls_only (@lock_free _) p.
Proof. apply calls_only_mono, reads_lock_free. Qed.

Lemma lock_free_copyToRepo d id m : calls_only (@lock_free _) (copyToRepo d id m).
Proof. unfold copyToRepo, RegisterOngoingUpload. calls_tac. Qed.

Lemma lock_free_copyFromRepo d id t m o : calls_only (@lock_free _) (copyFromRepo d id t m o).
Proof. unfold copyFromRepo. calls_tac. Qed.

Hint Resolve lock_free_reads lock_free_copyToRepo lock_free_copyFromRepo : calls.

Lemma released_CopyToRepo d id : safe lock_monitor (CopyToRepo d id) released false.
Proof. apply safe_withReloadConfigLock. calls_tac. Qed.

Lemma released_CopyToRepoWithBackupRepository d id br :
  safe lock_monitor (CopyToRepoWithBackupRepository d id br) released false.
Proof. apply safe_withReloadConfigLock. calls_tac. Qed.

Lemma released_CopyFromRepo d id t o :
  safe lock_monitor (CopyFromRepo d id t o) released false.
Proof. apply safe_withReloadConfigLock. calls_tac. Qed.

Lemma released_CopyFromRepoWithBackupRepository d id t br o :
  safe lock_monitor (CopyFromRepoWithBackupRepository d id t br o) released false.
Proof. apply safe_withReloadConfigLock. calls_tac. Qed.

Lemma released_ReloadDataMoverIvdPetmConfig d ps :
  safe lock_monitor (ReloadDataMoverIvdPetmConfig d ps) released false.
Proof. apply safe_withReloadConfigLock. calls_tac. Qed.

(** C31.  The five operations of the data mover that take the mutex never
    take it twice and never release it unheld; they always end, and however
    they end (with a result, an error or a panic) the mutex is free again. *)
Theorem data_mover_lock_discipline d :
  (∀ id, safe lock_monitor (CopyToRepo d id) released false) ∧
  (∀ id br, safe lock_monitor (CopyToRepoWithBackupRepository d id br) released false) ∧
  (∀ id t o, safe lock_monitor (CopyFromRepo d id t o) released false) ∧
  (∀ id t br o, safe lock_monitor (CopyFromRepoWithBackupRepository d id t br o) released false) ∧
  (∀ ps, safe lock_monitor (ReloadDataMoverIvdPetmConfig d ps) released false).
Proof.
  auto using released_CopyToRepo, released_CopyToRepoWithBackupRepository,
    released_CopyFromRepo, released_CopyFromRepoWithBackupRepository,
    released_ReloadDataMoverIvdPetmConfig.
Qed.
End lock.

#[export] Hint Resolve lock_free_reads lock_free_copyToRepo lock_free_copyFromRepo : calls.

(** ** The map of uploads in progress *)

Section cancel.
Context `{Deps}.

(** The [sync.Map], and the cancel functions that were called. *)
Record cancel_state := {
  cn_map : PEID → option CancelFunc;
  cn_cancelled : list CancelFunc;
}.

Definition map_set (m : PEID → option CancelFunc) (id : PEID) (v : option CancelFunc) :=
  λ j, if bool_decide (j = id) then v else m j.

Definition set_map (s : cancel_state) (id : PEID) (v : option CancelFunc) : cancel_state :=
  {| cn_map := map_set (cn_map s) id v; cn_cancelled := cn_cancelled s |}.

(** The answers of the map are those of a map. *)
Definition cancel_monitor : monitor Cmd cancel_state := λ s X e,
  match e in Cmd X return X → verdict cancel_state with
  | MapLoad id => λ v, if bool_decide (v = cn_map s id) then Next s else Impossible
  | MapStore id f => λ _, Next (set_map s id (Some f))
  | MapDelete id => λ _, Next (set_map s id None)
  | Cancel f => λ _, Next {| cn_map := cn_map s; cn_cancelled := f :: cn_cancelled s |}
  | _ => λ _, Next s
  end.

#[export] Instance cancel_monitor_quiet : Quiet cancel_monitor.
Proof. solve_quiet. Qed.

Lemma map_set_same m id v : map_set m id v id = v.
Proof. unfold map_set. by rewrite bool_decide_true. Qed.

Lemma map_set_other m id v j : j ≠ id → map_set m id v j = m j.
Proof. intros. unfold map_set. by rewrite bool_decide_false. Qed.

Lemma safe_MapLoad {A} id (k : option CancelFunc → io A) Q s :
  safe cancel_monitor (k (cn_map s id)) Q s →
  safe cancel_monitor (Do (MapLoad id) k) Q s.
Proof. intros H'. cbn. intros v. by destruct (bool_decide_reflect (v = cn_map s id)) as [->|]. Qed.

Lemma cancel_IsUploading id s :
  safe cancel_monitor (IsUploading id)
    (λ o s', o = Returned (bool_decide (is_Some (cn_map s id))) ∧ s' = s) s.
Proof. by apply safe_MapLoad. Qed.

(** What [CancelUpload] does to the map and to the uploads. *)
Definition cancelled_upload (id : PEID) (s : cancel_state)
    (o : outcome (option error)) (s' : cancel_state) : Prop :=
  match cn_map s id with
  | Some f => o = Returned None ∧ cn_cancelled s' = f :: cn_cancelled s ∧
              cn_map s' id = None ∧ ∀ j, j ≠ id → cn_map s' j = cn_map s j
  | None => s' = s ∧ ∃ e, o = Returned (Some e)
  end.

Lemma cancel_CancelUpload id s :
  safe cancel_monitor (CancelUpload id) (cancelled_upload id s) s.
Proof.
  apply safe_MapLoad. unfold cancelled_upload.
  destruct (cn_map s id) as [f|] eqn:Hf; cbn; [|by eauto].
  intros [] []. split_and!; [done..| |]; cbn; [apply map_set_same|].
  intros j Hj. by apply map_set_other.
Qed.

(** The map of uploads in progress: an upload is uploading just
    when it has an entry; cancelling it calls the function registered for it
    (and no other) and takes the entry out; cancelling an upload without an
    entry is an error and changes nothing; unregistering removes the entry
    and leaves the others. *)
Theorem cancel_map_operations id s :
  safe cancel_monitor (IsUploading id)
    (λ o s', o = Returned (bool_decide (is_Some (cn_map s id))) ∧ s' = s) s ∧
  safe cancel_monitor (CancelUpload id) (cancelled_upload id s) s ∧
  safe cancel_monitor (UnregisterOngoingUpload id)
    (λ o s', o = Returned tt ∧ cn_map s' id = None ∧
             ∀ j, j ≠ id → cn_map s' j = cn_map s j) s.
Proof.
  split_and!; [apply cancel_IsUploading|apply cancel_CancelUpload|].
  apply safe_MapLoad. destruct (cn_map s id) as [f|] eqn:Hf; cbn; [|by eauto].
  intros []. split_and!; [done|apply map_set_same|]. intros j Hj. by apply map_set_other.
Qed.

(** A copy to the repository registers its cancel function and
    leaves it registered, whether the copy succeeds or fails: after an error
    the map either is as it was (the entity was not found) or still has the
    entry of the upload that failed. *)
Theorem copyToRepo_stays_registered d id m s :
  safe cancel_monitor (copyToRepo d id m) (λ o s', match o with
    | Returned (Ok _) => ∃ f, s' = set_map s id (Some f)
    | Returned (Err _) => s' = s ∨ ∃ f, s' = set_map s id (Some f)
    | _ => False
    end) s.
Proof.
  unfold copyToRepo, RegisterOngoingUpload. cbn.
  intros [pe|e]; cbn; [|by left]. intros f []. intros [pe'|e]; cbn; eauto.
Qed.
End cancel.
