(* ===== verification/SnapshotManager.v ===== *)
(** * The snapshot manager (pkg/snapshotmgr)

    Local snapshots and their Upload records, deletion of local and durable
    snapshots, Download records for restores, and the decoding of nested
    snapshot IDs. *)

From S2P Require Export Base64 DataMover.
Open Scope Z_scope.

Definition SnapshotParamBackupName : string := "BackupName".
Definition SnapshotParamSvcSnapshotName : string := "SvcSnapshotName".
Definition SnapshotParamBackupRepository : string := "BackupRepository".
(** astrolabe.PvcPEType and astrolabe.IvdPEType *)
Definition PvcPEType : string := "pvc".
Definition IvdPEType : string := "ivd".
Definition InvalidStateMessage : string := "The operation is not allowed in the current state".

(** ** Decoding snapshot IDs *)

Section decode.
Context `{Deps}.

(** The recursion of [decodePeIdFromSnapshotID], bounded by [fuel]: [None] is
    a recursion that is deeper. *)
Fixpoint decodePeIdFrom (fuel : nat) (snapshotID : SnapID) : option (result PEID) :=
  match fuel with
  | O => None
  | S fuel =>
      let snapshotID64Str := SnapIDString snapshotID in
      match DecodeString snapshotID64Str with
      | None => Some (Err (Wrap CorruptInputError
          ("decodePeIdFromSnapshotID: Could not decode snapshot ID encoded string "
            +:+ snapshotID64Str)))
      | Some bytes =>
          match NewProtectedEntityIDFromString bytes with
          | Err e => Some (Err (Wrap e
              ("decodePeIdFromSnapshotID: Could not translate decoded snapshotID "
                +:+ bytes +:+ " into pe-id")))
          | Ok peId =>
              if HasSnapshot peId && negb (bool_decide (GetPeType peId = IvdPEType)) then
                decodePeIdFrom fuel (GetSnapshotID peId)
              else Some (Ok peId)
          end
      end
  end.

Fixpoint decodeSnapshotIDFrom (fuel : nat) (snapshotID : SnapID) : option (result string) :=
  match fuel with
  | O => None
  | S fuel =>
      let snapshotID64Str := SnapIDString snapshotID in
      match DecodeString snapshotID64Str with
      | None => Some (Err (Wrap CorruptInputError
          ("Could not decode snapshot ID encoded string " +:+ snapshotID64Str)))
      | Some bytes =>
          match NewProtectedEntityIDFromString bytes with
          | Err e => Some (Err (Wrap e
              ("Could not translate decoded snapshotID " +:+ bytes +:+ " into pe-id")))
          | Ok decodedPEID =>
              if HasSnapshot decodedPEID && negb (bool_decide (GetPeType decodedPEID = IvdPEType))
              then decodeSnapshotIDFrom fuel (GetSnapshotID decodedPEID)
              else Some (Ok (SnapIDString (GetSnapshotID decodedPEID)))
          end
      end
  end.

(** A nested ID is shorter than the text that holds it, so its length bounds
    the recursion. *)
Definition decode_fuel (snapshotID : SnapID) : nat := S (String.length (SnapIDString snapshotID)).

Definition decodePeIdFromSnapshotID (snapshotID : SnapID) : option (result PEID) :=
  decodePeIdFrom (decode_fuel snapshotID) snapshotID.

Definition decodeSnapshotID (snapshotID : SnapID) : option (result string) :=
  decodeSnapshotIDFrom (decode_fuel snapshotID) snapshotID.

Definition uploadCRNameForSnapshotPEID (snapshotPEID : PEID) : result string :=
  if negb (HasSnapshot snapshotPEID) then
    Err (ErrorString ("snapshotPEID " +:+ PEIDString snapshotPEID
      +:+ " does not have a snapshot ID"))
  else Ok ("upload-" +:+ SnapIDString (GetSnapshotID snapshotPEID)).
End decode.

Definition isTerminalState (uploadCR : option Upload) : bool :=
  match uploadCR with
  | None => true
  | Some uploadCR =>
      bool_decide (u_Phase uploadCR = UploadPhaseCompleted)
      || bool_decide (u_Phase uploadCR = UploadPhaseCleanupFailed)
      || bool_decide (u_Phase uploadCR = UploadPhaseCanceled)
      || bool_decide (u_Phase uploadCR = UploadPhaseUploadFailedAfterRetry)
  end.

(** The string conversion [ClonePhase(phase)]. *)
Definition ClonePhase_of_DownloadPhase (phase : DownloadPhase) : ClonePhase :=
  match phase with
  | DownloadPhaseUnset => ClonePhaseUnset
  | DownloadPhaseNew => ClonePhaseNew
  | DownloadPhaseInProgress => ClonePhaseInProgress
  | DownloadPhaseCompleted => ClonePhaseCompleted
  | DownLoadPhaseRetry => ClonePhaseRetry
  | DownloadPhaseFailed => ClonePhaseFailed
  | DownloadPhaseOther s =>
      if bool_decide (s = "Canceling") then ClonePhaseCanceling
      else if bool_decide (s = "Canceled") then ClonePhaseCanceled
      else ClonePhaseOther s
  end.

Section SnapshotManager.
Context `{Deps}.

(** [Pem] is reached by calls. *)
Record SnapshotManager := { sm_clusterFlavor : ClusterFlavor }.

Context (this : SnapshotManager).

(** The two places where local mode is inferred. *)
Definition inferLocalMode (kubeClient : client) (backupRepositoryName : string) : io bool :=
  if bool_decide (backupRepositoryName = WithoutBackupRepository) then
    IsFeatureEnabled kubeClient VSphereLocalModeFlag false
  else Ret (bool_decide (backupRepositoryName = "")).

(** ** Creating *)

Definition UploadSnapshot (uploadPE : PE) (backupRepositoryName snapshotRef : string)
    : io (result (option Upload)) :=
  let? pluginClient := CreatePluginClientSet else e => Ret (Err e) in
  let! ns := call (LookupEnv VELERO_NAMESPACE) in
  match ns with
  | None => Ret (Ok None)  (* the error returned is the nil one of the call before *)
  | Some veleroNs =>
      let? uploadSnapshotPEID :=
        (if bool_decide (GetPeType (PE_GetID uploadPE) = PvcPEType) then
           let? components := call (PeGetComponents uploadPE) else e => Ret (Err e) in
           match components with
           | [c] => Ret (Ok (PE_GetID c))
           | _ => Ret (Err (ErrorString ("Expected 1 component, "
               +:+ PEIDString (PE_GetID uploadPE) +:+ " has "
               +:+ pretty (length components))))
           end
         else Ret (Ok (PE_GetID uploadPE))) else e => Ret (Err e) in
      match uploadCRNameForSnapshotPEID uploadSnapshotPEID with
      | Err e => Ret (Err e)
      | Ok uploadName =>
          let! now1 := call Now in
          let! now2 := call Now in
          let upload := Upload.SnapshotID (PEIDString uploadSnapshotPEID)
            (Upload.SnapshotReference snapshotRef
              (Upload.Phase UploadPhaseNew
                (Upload.NextRetryTimestamp now2
                  (Upload.BackupTimestamp now1 (Upload.ForUpload veleroNs uploadName))))) in
          let upload := if bool_decide (backupRepositoryName ≠ "")
                        then Upload.BackupRepositoryName backupRepositoryName upload
                        else upload in
          let! (_, r) := PollImmediate (RetryInterval * Second)
            (RetryInterval * RetryMaximum * Second)
            (λ _, let? u := call (CreateObj pluginClient KUpload veleroNs upload) else e =>
                    Ret (tt, PollFail e) in
                  Ret (tt, PollDone u)) tt in
          match r with
          | Ok u => Ret (Ok (Some u))
          | Err e => Ret (Err e)
          end
      end
  end.

(** The local snapshot: one attempt per second while the entity is busy. *)
Definition snapshotWithRetry (pe : PE) (typ : string) (ps : params) : io (params * result SnapID) :=
  PollImmediate Second Hour
    (λ ps, let! (ps, r) := call (PeSnapshot pe typ ps) in
           match r with
           | Err e => if Contains (Error e) InvalidStateMessage
                      then Ret (ps, PollAgain) else Ret (ps, PollFail e)
           | Ok id => Ret (ps, PollDone id)
           end) ps.

(** [tags] is not used.  The entity and the name of the supervisor snapshot are
    returned with an error too. *)
Definition createSnapshot (peID : PEID) (backupRepositoryName snapshotRef backupName : string)
    : io (PEID * string * option error) :=
  let? pe := call (PemGetProtectedEntity peID) else e => Ret (PEID_zero, "", Some e) in
  let guestSnapshotParams : params :=
    <[SnapshotParamBackupName := IString backupName]>
      (<[SnapshotParamBackupRepository := IString backupRepositoryName]> ∅) in
  let? kubeClient := CreateKubeClientSet else e => Ret (PEID_zero, "", Some e) in
  let! (guestSnapshotParams, r) :=
    snapshotWithRetry pe (GetPeType peID) guestSnapshotParams in
  match r with
  | Err e => Ret (PEID_zero, "", Some e)
  | Ok peSnapID =>
      let svcSnapshotName := match guestSnapshotParams !! SnapshotParamSvcSnapshotName with
                             | Some v => Sprintv v
                             | None => ""
                             end in
      let snapshotPEID := IDWithSnapshot peID peSnapID in
      if bool_decide (sm_clusterFlavor this = TkgGuest) then
        Ret (snapshotPEID, svcSnapshotName, None)
      else
        let! isLocalMode := inferLocalMode kubeClient backupRepositoryName in
        if (isLocalMode : bool) then Ret (snapshotPEID, svcSnapshotName, None)
        else
          let? snapshotPE := call (PemGetProtectedEntity snapshotPEID) else e =>
            Ret (snapshotPEID, svcSnapshotName, Some e) in
          let? _ := UploadSnapshot snapshotPE backupRepositoryName snapshotRef else e =>
            Ret (snapshotPEID, svcSnapshotName, Some e) in
          Ret (snapshotPEID, svcSnapshotName, None)
  end.

Definition CreateSnapshot (peID : PEID) : io (PEID * option error) :=
  let! (id, _, err) := createSnapshot peID WithoutBackupRepository "" "" in
  Ret (id, err).

Definition CreateSnapshotWithBackupRepository (peID : PEID)
    (backupRepositoryName snapshotRef backupName : string)
    : io (PEID * string * option error) :=
  createSnapshot peID backupRepositoryName snapshotRef backupName.

(** ** Deleting *)

(** [petm] is a nil interface when no manager has the type. *)
Definition deleteSnapshotFromRepo (peID : PEID) (petm : option PETM) : io (option error) :=
  if negb (HasSnapshot peID) then Ret None
  else
    match petm with
    | None => Panic "nil interface: petm.GetProtectedEntity"
    | Some petm =>
        let? pe := call (PetmGetProtectedEntity petm peID) else e => Ret (Some e) in
        let? snapshotIds := call (PeListSnapshots pe) else e =>
          Ret (Some (Wrap e "Failed to list snapshots")) in
        if bool_decide (length snapshotIds = 0%nat) then Ret None
        else
          let! (_, r) := PollImmediate Second Hour
            (λ _, let! r := call (PeDeleteSnapshot pe (GetSnapshotID peID) ∅) in
                  match r with
                  | Err e => if Contains (Error e) InvalidStateMessage
                             then Ret (tt, PollAgain) else Ret (tt, PollFail e)
                  | Ok _ => Ret (tt, PollDone tt)
                  end) tt in
          Ret (err_of r)
    end.

Definition DeleteLocalSnapshot (peID : PEID) : io (option error) :=
  let! petm := call (PemGetTypeManager (GetPeType peID)) in
  deleteSnapshotFromRepo peID petm.

Definition DeleteRemoteSnapshot (peID : PEID) : io (option error) :=
  let? s3PETM := GetDefaultS3PETM else e => Ret (Some e) in
  deleteSnapshotFromRepo peID (Some (s3PETM : PETM)).

(** The error of the first call is only logged. *)
Definition DeleteRemoteSnapshotFromRepo (peID : PEID) (br : BackupRepository)
    : io (option error) :=
  let! r := GetRepositoryFromBackupRepository br in
  deleteSnapshotFromRepo peID (Some (match r with Ok m => m | Err _ => S3_nil end : PETM)).

(** The name of the Upload of a snapshot that is to be deleted. *)
Definition uploadNameToCancel (peID : PEID) : option (result string) :=
  if bool_decide (GetPeType peID = IvdPEType) then
    Some (Ok ("upload-" +:+ SnapIDString (GetSnapshotID peID)))
  else match decodeSnapshotID (GetSnapshotID peID) with
       | Some (Ok snapIDDecoded) => Some (Ok ("upload-" +:+ snapIDDecoded))
       | r => r
       end.

(** The entity whose snapshot is deleted. *)
Definition peToDelete (peID : PEID) : option (result PEID) :=
  if bool_decide (GetPeType peID = IvdPEType) then Some (Ok peID)
  else match decodePeIdFromSnapshotID (GetSnapshotID peID) with
       | Some (Err e) => Some (Err (Wrap e ("Failed to translate snapshotID "
           +:+ SnapIDString (GetSnapshotID peID) +:+ " into pe-id")))
       | r => r
       end.

(** Asks for the cancellation of an upload in progress; the mutation does not
    touch the phase. *)
Definition requestUploadCancel (uploadCR : Upload) (pluginClient : client) (veleroNs : string)
    : io (option error) :=
  let mutate r :=
    let! now := call Now in
    Ret (r <| u_Spec; us_UploadCancel := true |>
           <| u_Status; us_StartTimestamp := Some now |>
           <| u_Status; us_Message := "Canceling on going upload to repository." |>) in
  let! (_, r) := PatchUpload uploadCR mutate pluginClient veleroNs in
  Ret (err_of r).

(** What follows step 0: the local snapshot, then the durable one. *)
Definition deleteLocalAndRemote (peID : PEID) (backupRepositoryName deleteSnapshotName : string)
    (clusterFlavor : ClusterFlavor) (kubeClient pluginClient : client) : io (option error) :=
  let? pe := call (PemGetProtectedEntity peID) else e => Ret (Some e) in
  let guestSnapshotParams : params :=
    <["DeleteSnapshotName" := IString deleteSnapshotName]>
      (<["BackupRepositoryName" := IString backupRepositoryName]> ∅) in
  let? _ := call (PeDeleteSnapshot pe (GetSnapshotID (PE_GetID pe))
                   {[GetPeType peID := guestSnapshotParams]}) else e => Ret (Some e) in
  if bool_decide (clusterFlavor = TkgGuest) then Ret None
  else
    let! isLocalMode := inferLocalMode kubeClient backupRepositoryName in
    if (isLocalMode : bool) then Ret None
    else if bool_decide (backupRepositoryName ≠ "")
            && bool_decide (backupRepositoryName ≠ WithoutBackupRepository) then
      let? br := call (GetObj pluginClient KBackupRepository "" backupRepositoryName) else e =>
        Ret (Some e) in
      DeleteRemoteSnapshotFromRepo peID br
    else DeleteRemoteSnapshot peID.

(** An Upload that cannot be read counts as terminal, whatever the error.
    Without VELERO_NAMESPACE the error returned is the nil one of the call
    before. *)
Definition deleteSnapshot (peID : PEID) (backupRepositoryName deleteSnapshotName : string)
    : io (option error) :=
  let? config := GetKubeClientConfig else e => Ret (Some e) in
  let? kubeClient := call (NewForConfig config) else e => Ret (Some e) in
  let? pluginClient := call (NewForConfig config) else e => Ret (Some e) in
  let? clusterFlavor := GetClusterFlavor (Some config) else e => Ret (Some e) in
  if bool_decide (clusterFlavor = Supervisor) || bool_decide (clusterFlavor = VSphere) then
    let! ns := call (LookupEnv VELERO_NAMESPACE) in
    match ns with
    | None => Ret None
    | Some veleroNs =>
        match uploadNameToCancel peID with
        | None => Hang "decodeSnapshotID"
        | Some (Err e) => Ret (Some e)
        | Some (Ok uploadName) =>
            let! r := call (GetObj pluginClient KUpload veleroNs uploadName) in
            let uploadCR := match r with Ok u => Some u | Err _ => None end in
            match uploadCR, isTerminalState uploadCR with
            | Some uploadCR, false => requestUploadCancel uploadCR pluginClient veleroNs
            | _, _ =>
                match peToDelete peID with
                | None => Hang "decodePeIdFromSnapshotID"
                | Some (Err e) => Ret (Some e)
                | Some (Ok peID) =>
                    deleteLocalAndRemote peID backupRepositoryName deleteSnapshotName
                      clusterFlavor kubeClient pluginClient
                end
            end
        end
    end
  else deleteLocalAndRemote peID backupRepositoryName deleteSnapshotName
         clusterFlavor kubeClient pluginClient.

Definition DeleteSnapshotWithBackupRepository (peID : PEID)
    (backupRepository deleteSnapshotCRName : string) : io (option error) :=
  deleteSnapshot peID backupRepository deleteSnapshotCRName.

(** [SnapshotManager.DeleteSnapshot] *)
Definition DeleteSnapshotOf (peID : PEID) : io (option error) :=
  deleteSnapshot peID WithoutBackupRepository WithoutDeleteSnapshot.

(** ** Restoring *)

(** One look at the Download record. *)
Definition pollDownload (pluginClient : client) (veleroNs downloadRecordName : string)
    : io (poll_step Download) :=
  let? download := call (GetObj pluginClient KDownload veleroNs downloadRecordName) else _ =>
    Ret PollAgain in
  if bool_decide (d_Phase download = DownloadPhaseCompleted) then Ret (PollDone download)
  else if bool_decide (d_Phase download = DownloadPhaseFailed) then
    Ret (PollFail (ErrorString "Download Failed."))
  else Ret PollAgain.

(** The status of the CloneFromSnapshot after the download: no completion
    timestamp is set. *)
Definition cloneStatusAfterDownload (download : Download) (clone : CloneFromSnapshot)
    : CloneFromSnapshot :=
  clone <| c_Status; cs_Phase := ClonePhase_of_DownloadPhase (d_Phase download) |>
        <| c_Status; cs_Message := ds_Message (d_Status download) |>
        <| c_Status; cs_ResourceHandle := Some
             {| ref_APIGroup := Some ""; ref_Kind := "PersistentVolumeClaim";
                ref_Name := ds_VolumeID (d_Status download) |} |>.

(** The name of the entity restored.  The clock of the log messages is left
    out. *)
Definition CreateVolumeFromSnapshot (sourcePEID destinationPEID : PEID)
    (ps : gmap string params) : io (result PEID) :=
  let? pluginClient := CreatePluginClientSet else e => Ret (Err e) in
  let! ns := call (LookupEnv VELERO_NAMESPACE) in
  match ns with
  | None => Ret (Ok PEID_zero)  (* the error returned is nil *)
  | Some veleroNs =>
      let? uuID := call NewUUID else e => Ret (Err e) in
      let cloneParams := default ∅ (ps !! "CloneFromSnapshotReference") in
      let '(cloneNs, cloneNsExists) :=
        GetStringFromParamsMap cloneParams "CloneFromSnapshotNamespace" in
      let '(cloneName, cloneNameExists) :=
        GetStringFromParamsMap cloneParams "CloneFromSnapshotName" in
      let '(br, ok) := GetStringFromParamsMap cloneParams "BackupRepositoryName" in
      let backupRepositoryName := if (ok : bool) then br else WithoutBackupRepository in
      let cloneRef := cloneNs +:+ "/" +:+ cloneName in
      let downloadRecordName :=
        "download-" +:+ SnapIDGetID (GetSnapshotID sourcePEID) +:+ "-" +:+ uuID in
      let! now1 := call Now in
      let! now2 := call Now in
      let download := Download.BackupRepositoryName backupRepositoryName
        (Download.CloneFromSnapshotReference cloneRef
          (Download.Phase DownloadPhaseNew
            (Download.SnapshotID (PEIDString sourcePEID)
              (Download.NextRetryTimestamp now2
                (Download.RestoreTimestamp now1
                  (Download.ForDownload veleroNs downloadRecordName)))))) in
      let download := if bool_decide (destinationPEID ≠ PEID_zero)
                      then Download.ProtectedEntityID (PEIDString destinationPEID) download
                      else download in
      let! (_, r) := PollImmediate (RetryInterval * Second) (RetryInterval * RetryMaximum * Second)
        (λ _, let? _ := call (CreateObj pluginClient KDownload veleroNs download) else _ =>
                Ret (tt, PollAgain) in
              Ret (tt, PollDone tt)) tt in
      match r with
      | Err e => Ret (Err e)
      | Ok _ =>
          let? download := PollImmediateInfinite Second
            (pollDownload pluginClient veleroNs downloadRecordName) else e => Ret (Err e) in
          match NewProtectedEntityIDFromString (ds_VolumeID (d_Status download)) with
          | Err e => Ret (Err e)
          | Ok updatedID =>
              if cloneNameExists && cloneNsExists then
                let? cloneFromSnap := call (GetObj pluginClient KCloneFromSnapshot cloneNs cloneName)
                  else e => Ret (Err e) in
                let? _ := call (UpdateStatusObj pluginClient KCloneFromSnapshot cloneNs
                            (cloneStatusAfterDownload download cloneFromSnap)) else e =>
                  Ret (Err e) in
                Ret (Ok updatedID)
              else Ret (Ok updatedID)
          end
      end
  end.

(** [peTM.(T)] panics unless [isT] accepts the manager. *)
Definition assertPETM (isT : PETM → bool) (m : option PETM) : io PETM :=
  match m with
  | Some m => if isT m then Ret m else Panic "interface conversion: ProtectedEntityTypeManager"
  | None => Panic "interface conversion: ProtectedEntityTypeManager is nil"
  end.

Definition CreateVolumeFromSnapshotWithMetadata (peID : PEID) (metadata snapshotIDStr
    backupRepositoryName cloneFromSnapshotNamespace cloneFromSnapshotName : string)
    : io (result PEID) :=
  match NewProtectedEntityIDFromString snapshotIDStr with
  | Err e => Ret (Err (Wrap e "Error creating volume from metadata"))
  | Ok snapshotID =>
      if negb (bool_decide (sm_clusterFlavor this = TkgGuest)) then
        if bool_decide (backupRepositoryName ≠ "")
           && bool_decide (backupRepositoryName ≠ WithoutBackupRepository) then
          let? br := GetBackupRepositoryFromBackupRepositoryName backupRepositoryName else e =>
            Ret (Err e) in
          let? snapshotRepo := GetRepositoryFromBackupRepository br else e => Ret (Err e) in
          let! m := call (PemGetTypeManager (GetPeType peID)) in
          let! pvcPETM := assertPETM PETM_IsPVC m in
          let? pe := call (CreateFromMetadata pvcPETM metadata snapshotID (Some (snapshotRepo : PETM))
              cloneFromSnapshotNamespace cloneFromSnapshotName backupRepositoryName) else e =>
            Ret (Err (Wrap e "Error creating volume from metadata")) in
          Ret (Ok (PE_GetID pe))
        else Ret (Err (ErrorString
          "BackupRepository unset during restore, local mode set during restore is unsupported."))
      else
        let! m := call (PemGetTypeManager "paravirt-pv") in
        let! paravirtPETM := assertPETM PETM_IsParaVirt m in
        let? pe := call (CreateFromMetadata paravirtPETM metadata snapshotID None
            cloneFromSnapshotNamespace cloneFromSnapshotName backupRepositoryName) else e =>
          Ret (Err (Wrap e "Error creating volume from metadata")) in
        Ret (Ok (PE_GetID pe))
  end.

(** ** The wrapper of type managers (data_manager_protected_entity*.go) *)

(** [DataManagerProtectedEntity.Overwrite] *)
Definition Overwrite (target source : PE) (ps : gmap string params) : io (option error) :=
  let! r := CreateVolumeFromSnapshot (PE_GetID source) (PE_GetID target) ps in
  Ret (err_of r).

Definition ReloadDmIvdPetm (petm : PETM) (ivdParams : params) : io (option error) :=
  if PETM_IsIVD petm then
    check! call (ReloadIvdConfig petm ivdParams) else e =>
      Ret (Some (Wrap e "Failed to Reload IVD Config in datapetm.")) in
    Ret None
  else Ret None.

Definition ReloadSnapshotManagerIvdPetmConfig (ivdParams : params) : io (option error) :=
  let! petm := call (PemGetTypeManager "ivd") in
  match petm with
  | None => Ret (Some (ErrorString
      "Failed to retrieve IVD Protected Type Manager from Snapshot Manager"))
  | Some petm =>
      match PETM_AsDataManager petm with
      | Some base =>
          check! ReloadDmIvdPetm base ivdParams else e =>
            Ret (Some (Wrap e "Failed to Reload IVD Config in SnapshotManager.")) in
          Ret None
      | None => Ret (Some (ErrorString "Failed to find ivd petm associated with snapshot manager."))
      end
  end.
End SnapshotManager.
