(* ===== verification/ItemActions.v ===== *)
(** * Velero's item actions (pkg/plugin)

    What Velero calls for each item of a backup, of a restore and of a deleted
    backup, and the volume snapshotter that is kept for backups of old
    versions. *)

From S2P Require Export SnapshotUtils PluginUtil SnapshotManager.
Open Scope Z_scope.

Definition ItemSnapshotLabel : string := "velero-plugin-for-vsphere/item-snapshot-blob".
Definition PluginVersionLabel : string := "velero-plugin-for-vsphere/plugin-version".
Definition AnnVolumeHealth : string := "volumehealth.storage.kubernetes.io/health".
Definition AnnVolumeHealthTS : string := "volumehealth.storage.kubernetes.io/health-timestamp".
Definition VMwareSystemVMUUID : string := "vmware-system-vm-uuid".
Definition CnsBlockVolumeType : string := "ivd".

Definition healthAnnotations : list string := [AnnVolumeHealth; AnnVolumeHealthTS].

(** The phases the backup waits for. *)
Definition backupPhases : list SnapshotPhase :=
  [SnapshotPhaseSnapshotted; SnapshotPhaseSnapshotFailed; SnapshotPhaseUploaded;
   SnapshotPhaseUploading; SnapshotPhaseUploadFailed; SnapshotPhaseCanceling;
   SnapshotPhaseCanceled; SnapshotPhaseCleanupFailed].

Section item_actions.
Context `{Deps}.

(** [os.LookupEnv], the configuration and the client, as the three actions get
    them; [errMsg] is the message when the variable is not set. *)
Definition clusterAccess (errMsg : string) : io (result (string * RestConfig * client)) :=
  let! ns := call (LookupEnv VELERO_NAMESPACE) in
  match ns with
  | None => Ret (Err (ErrorString errMsg))
  | Some veleroNs =>
      let? restConfig := GetKubeClientConfig else e => Ret (Err (WithStack e)) in
      let? kubeClient := call (NewForConfig restConfig) else e => Ret (Err (WithStack e)) in
      Ret (Ok (veleroNs, restConfig, kubeClient))
  end.

(** No repository is claimed in local mode. *)
Definition claimRepository (kubeClient backupdriverClient : client) (restConfig : RestConfig)
    (bslName pvcNamespace veleroNs : string) : io (result string) :=
  let! isLocalMode := IsFeatureEnabled kubeClient VSphereLocalModeFlag false in
  if (isLocalMode : bool) then Ret (Ok "")
  else
    let? backupRepositoryName :=
      RetrieveBackupRepositoryFromBSL bslName pvcNamespace veleroNs backupdriverClient restConfig
      else e => Ret (Err (WithStack e)) in
    Ret (Ok backupRepositoryName).

(** ** Backup *)

Definition BackupAppliesTo : io (result (list string)) :=
  let! r := RetrieveBlockListConfigMap in
  match r with
  | Err e => if negb (IsNotFound e) then Ret (Err (WithStack e)) else Ret (Ok (GetResources ∅))
  | Ok blockListConfigMap => Ret (Ok (GetResources blockListConfigMap))
  end.

(** What becomes of a claim, by its volume: a snapshot is taken ([Ok true]), the
    item is passed on as it is ([Ok false]), or the backup of the item fails. *)
Definition snapshotVolume (migratedVolumes : bool) (pvc : PersistentVolumeClaim)
    (pv : PersistentVolume) : result bool :=
  let skipping := "skipping " +:+ pvc_Namespace pvc +:+ "/" +:+ pvc_Name pvc
                    +:+ ", associated PV " +:+ om_Name (pv_Meta pv) in
  match pv_CSI pv with
  | None =>
      if migratedVolumes then
        if negb (IsMigratedCSIVolume pv)
        then Err (ErrorString (skipping +:+ " is not a CSI volume, nor a migrated volume"))
        else Ok true
      else Ok false
  | Some csi =>
      if bool_decide (csi_Driver csi = VSphereCSIDriverName) then Ok true
      else if migratedVolumes then Err (ErrorString (skipping +:+ " is not a vSphere CSI volume"))
      else Ok false
  end.

(** The error that the phase of the Snapshot stands for. *)
Definition snapshotError (updatedSnapshot : Snapshot) : option error :=
  let msg := ss_Message (s_Status updatedSnapshot) in
  match s_Phase updatedSnapshot with
  | SnapshotPhaseSnapshotFailed => Some (ErrorString
      ("Failed to create a Snapshot CR: Phase=SnapshotFailed, err=" +:+ msg))
  | SnapshotPhaseUploadFailed => Some (ErrorString
      ("Failed to upload a Snapshot: Phase=UploadFailed, err=" +:+ msg))
  | SnapshotPhaseCanceled => Some (ErrorString
      ("Snapshot upload canceled: Phase=Canceled, err=" +:+ msg))
  | _ => None
  end.

(** The claim with the Snapshot in an annotation. *)
Definition annotatedItem (pvc : PersistentVolumeClaim) (updatedSnapshot : Snapshot)
    : result Unstructured :=
  match GetAnnotationFromSnapshot updatedSnapshot with
  | Err e => Err (WithStack e)
  | Ok snapshotAnnotation =>
      let vals := {[ItemSnapshotLabel := snapshotAnnotation; PluginVersionLabel := BuildVersion]} in
      match PVCToUnstructured
              (pvc <| pvc_Meta := AddAnnotations (RemoveAnnotations (pvc_Meta pvc) healthAnnotations) vals |>)
      with
      | Err e => Err (WithStack e)
      | Ok item => Ok item
      end
  end.

(** The Snapshot of the claim, once it is decided to take one. *)
Definition snapshotClaim (pvc : PersistentVolumeClaim) (backup : Backup) (veleroNs : string)
    (restConfig : RestConfig) (kubeClient : client) : io (result Unstructured) :=
  let? backupdriverClient := call (NewForConfig restConfig) else e => Ret (Err (WithStack e)) in
  let? backupRepositoryName := claimRepository kubeClient backupdriverClient restConfig
      (bk_StorageLocation backup) (pvc_Namespace pvc) veleroNs else e => Ret (Err e) in
  let objectToSnapshot := {| ref_APIGroup := Some ""; ref_Kind := pvc_Kind pvc;
                             ref_Name := pvc_Name pvc |} in
  let labels := {[SnapshotBackupLabel := om_Name (bk_Meta backup)]} in
  let? updatedSnapshot := SnapshotRef backupdriverClient objectToSnapshot (pvc_Namespace pvc)
      backupRepositoryName labels backupPhases else e => Ret (Err (WithStack e)) in
  match snapshotError updatedSnapshot with
  | Some e => Ret (Err e)
  | None => Ret (annotatedItem pvc updatedSnapshot)
  end.

(** The additional items are always empty. *)
Definition BackupExecute (item : Unstructured) (backup : Backup) : io (result Unstructured) :=
  if bool_decide (bk_SnapshotVolumes backup = Some false) then Ret (Ok item)
  else
    let? (blocked, crdName) := IsObjectBlocked item else e =>
      Ret (Err (Wrap e "Failed during IsObjectBlocked check")) in
    if (blocked : bool) then
      Ret (Err (ErrorString ("Resource CRD " +:+ crdName +:+ " is blocked in backup, skipping")))
    else
      match PVCFromUnstructured item with
      | Err e => Ret (Err (WithStack e))
      | Ok pvc =>
          let? (veleroNs, restConfig, kubeClient) :=
              clusterAccess "Failed to lookup the ENV variable for velero namespace" else e =>
            Ret (Err e) in
          let? pv := GetPVForPVC pvc kubeClient else e => Ret (Err (WithStack e)) in
          let? isFsBackupUsed := IsPVCBackedUpByFsBackup (pvc_Namespace pvc) (pvc_Name pvc) kubeClient
              (bool_decide (bk_DefaultVolumesToFsBackup backup = Some true)) else e =>
            Ret (Err (WithStack e)) in
          if (isFsBackupUsed : bool) then Ret (Ok item)
          else
            let! migratedVolumes := IsFeatureEnabled kubeClient CSIMigratedVolumeSupportFlag false in
            match snapshotVolume migratedVolumes pvc pv with
            | Err e => Ret (Err e)
            | Ok false => Ret (Ok item)
            | Ok true => snapshotClaim pvc backup veleroNs restConfig kubeClient
            end
      end.

(** ** Restore *)

Record RestoreInput := {
  ri_Item : Unstructured;
  ri_ItemFromBackup : Unstructured;
  ri_Restore : Restore;
}.

Record RestoreOutput := {
  ro_UpdatedItem : option Unstructured;
  ro_SkipRestore : bool;
}.

Definition updated (item : Unstructured) : RestoreOutput :=
  {| ro_UpdatedItem := Some item; ro_SkipRestore := false |}.
Definition skipped : RestoreOutput := {| ro_UpdatedItem := None; ro_SkipRestore := true |}.

Definition RestoreAppliesTo : io (result (list string)) :=
  let resources m := "persistentvolumeclaims" :: (map_to_list m).*1
                       ++ (map_to_list ResourcesToBlockOnRestore).*1 in
  let! r := RetrieveBlockListConfigMap in
  match r with
  | Err e => if negb (IsNotFound e) then Ret (Err (WithStack e))
             else Ret (Ok (resources (∅ : gmap string string)))
  | Ok blockListConfigMap => Ret (Ok (resources blockListConfigMap))
  end.

(** A pod of a virtual machine gets metadata of its own. *)
Definition restoredPodMeta (m : ObjectMeta) : ObjectMeta :=
  (meta (om_Namespace m) (om_Name m) (om_Labels m))
    <| om_Annotations := filter (λ '(k, _), PodAnnotationsToSkip !! k = None) (om_Annotations m) |>.

Definition createPod (item : Unstructured) : result RestoreOutput :=
  match PodFromUnstructured item with
  | Err e => Err (WithStack e)
  | Ok pod =>
      if bool_decide (is_Some (om_Annotations (pod_Meta pod) !! VMwareSystemVMUUID)) then
        match PodToUnstructured (pod <| pod_Meta := restoredPodMeta (pod_Meta pod) |>) with
        | Err e => Err (WithStack e)
        | Ok item => Ok (updated item)
        end
      else Ok {| ro_UpdatedItem := None; ro_SkipRestore := false |}
  end.

(** The Snapshot of the annotation, with the claim's new namespace. *)
Definition itemSnapshotFor (pvc : PersistentVolumeClaim) (restore : Restore) (annotation : string)
    : result (Snapshot * string) :=
  match GetSnapshotFromPVCAnnotation annotation with
  | Err e => Err (WithStack e)
  | Ok itemSnapshot =>
      match rst_NamespaceMapping restore !! pvc_Namespace pvc with
      | None => Ok (itemSnapshot, pvc_Namespace pvc)
      | Some targetNamespace =>
          match UpdateSnapshotWithNewNamespace itemSnapshot targetNamespace with
          | Err e => Err (WithStack e)
          | Ok itemSnapshot => Ok (itemSnapshot, targetNamespace)
          end
      end
  end.

(** The Snapshot with the storage class that the mapping gives its claim. *)
Definition mapStorageClass (restConfig : RestConfig) (itemSnapshot : Snapshot) (veleroNs : string)
    : io (result Snapshot) :=
  let? storageClassMapping := RetrieveStorageClassMapping (Some restConfig) veleroNs else e =>
    Ret (Err (ErrorString ("Failed to retrieve storage class mapping information : " +:+ Error e))) in
  let? itemSnapshot :=
    (if bool_decide (storageClassMapping = ∅) then Ret (Ok itemSnapshot)
     else UpdateSnapshotWithNewStorageClass (Some restConfig) (Some itemSnapshot) storageClassMapping)
    else e => Ret (Err (WithStack e)) in
  check! ValidateRestoreStorageClass (Some restConfig) (Some itemSnapshot) else e =>
    Ret (Err (WithStack e)) in
  Ret (Ok itemSnapshot).

(** The CloneFromSnapshot of the claim, once it is decided to restore it. *)
Definition cloneClaim (pvc : PersistentVolumeClaim) (itemSnapshot : Snapshot)
    (targetNamespace veleroNs backupName : string) (restConfig : RestConfig)
    (kubeClient backupdriverClient : client) : io (result RestoreOutput) :=
  let? itemSnapshot := mapStorageClass restConfig itemSnapshot veleroNs else e => Ret (Err e) in
  let? bslName := RetrieveBSLFromBackup backupName (Some restConfig) else e =>
    Ret (Err (WithStack e)) in
  let? backupRepositoryName := claimRepository kubeClient backupdriverClient restConfig
      bslName (pvc_Namespace pvc) veleroNs else e => Ret (Err e) in
  let ref := ss_ResourceHandle (s_Spec itemSnapshot) in
  let? clone := CloneFromSnapshopRef backupdriverClient (ss_SnapshotID (s_Status itemSnapshot))
      (ss_Metadata (s_Status itemSnapshot)) (ref_APIGroup ref) (ref_Kind ref) targetNamespace
      backupRepositoryName [ClonePhaseCompleted; ClonePhaseFailed] else e =>
    Ret (Err (WithStack e)) in
  if bool_decide (c_Phase clone = ClonePhaseFailed) then
    Ret (Err (ErrorString ("Failed to create a CloneFromSnapshot CR: Phase=Failed, err="
      +:+ cs_Message (c_Status clone))))
  else Ret (Ok skipped).

(** The claim of a restore. *)
Definition restoreClaim (pvc : PersistentVolumeClaim) (item : Unstructured) (restore : Restore)
    : io (result RestoreOutput) :=
  if bool_decide (rst_RestorePVs restore = Some false) then Ret (Ok (updated item))
  else
    match om_Annotations (pvc_Meta pvc) !! ItemSnapshotLabel with
    | None => Ret (Ok (updated item))
    | Some annotation =>
        match itemSnapshotFor pvc restore annotation with
        | Err e => Ret (Err e)
        | Ok (itemSnapshot, targetNamespace) =>
            let? (veleroNs, restConfig, kubeClient) :=
                clusterAccess "failed to lookup the ENV variable for velero namespace" else e =>
              Ret (Err e) in
            let? backupdriverClient := call (NewForConfig restConfig) else e =>
              Ret (Err (WithStack e)) in
            let? bSkipPVC := SkipPVCCreation (Some restConfig) (Some pvc) targetNamespace else e =>
              Ret (Err (WithStack e)) in
            if (bSkipPVC : bool) then Ret (Ok (updated item))
            else cloneClaim pvc itemSnapshot targetNamespace veleroNs (rst_BackupName restore)
                   restConfig kubeClient backupdriverClient
        end
    end.

Definition RestoreExecute (input : RestoreInput) : io (result RestoreOutput) :=
  let? (blocked, crdName) := IsObjectBlocked (ri_ItemFromBackup input) else e =>
    Ret (Err (Wrap e "Failed during IsObjectBlocked check")) in
  let blocked := blocked || IsResourceBlockedOnRestore crdName in
  let item := ri_Item input in
  if blocked then
    if bool_decide (crdName = "pods") then Ret (createPod item)
    else if IsResourceBlockedOnRestore crdName then Ret (Ok skipped)
    else Ret (Err (ErrorString ("Resource CRD " +:+ crdName +:+ " is blocked in restore, skipping")))
  else
    match PVCFromUnstructured item with
    | Err e => Ret (Err (WithStack e))
    | Ok pvc =>
        let pvc := pvc <| pvc_Meta := RemoveAnnotations (pvc_Meta pvc) healthAnnotations |> in
        match PVCToUnstructured pvc with
        | Err e => Ret (Err (WithStack e))
        | Ok item => restoreClaim pvc item (ri_Restore input)
        end
    end.

(** ** Deletion of a backup *)

Definition DeleteAppliesTo : list string := ["persistentvolumeclaims"].

Definition DeleteExecute (item : Unstructured) (backup : Backup) : io (option error) :=
  let? (blocked, crdName) := IsObjectBlocked item else e =>
    Ret (Some (Wrap e "Failed during IsObjectBlocked check")) in
  if (blocked : bool) then
    Ret (Some (ErrorString ("Resource CRD " +:+ crdName +:+ " is blocked, skipping")))
  else
    match PVCFromUnstructured item with
    | Err e => Ret (Some (WithStack e))
    | Ok pvc =>
        match om_Annotations (pvc_Meta pvc) !! ItemSnapshotLabel with
        | None => Ret None
        | Some snapshotAnnotation =>
            match GetSnapshotFromPVCAnnotation snapshotAnnotation with
            | Err e => Ret (Some (WithStack e))
            | Ok itemSnapshot =>
                let? (veleroNs, restConfig, kubeClient) :=
                    clusterAccess "failed to lookup the ENV variable for velero namespace" else e =>
                  Ret (Some e) in
                let? backupdriverClient := call (NewForConfig restConfig) else e =>
                  Ret (Some (WithStack e)) in
                let? backupRepositoryName := claimRepository kubeClient backupdriverClient restConfig
                    (bk_StorageLocation backup) (pvc_Namespace pvc) veleroNs else e => Ret (Some e) in
                let? del := DeleteSnapshotRef backupdriverClient
                    (ss_SnapshotID (s_Status itemSnapshot)) veleroNs backupRepositoryName
                    [DeleteSnapshotPhaseCompleted; DeleteSnapshotPhaseFailed] else e =>
                  Ret (Some (WithStack e)) in
                if bool_decide (del_Phase del = DeleteSnapshotPhaseFailed) then
                  Ret (Some (ErrorString ("Failed to create a DeleteSnapshot CR: Phase=Failed, err="
                    +:+ dels_Message (del_Status del))))
                else Ret None
            end
        end
    end.

(** ** The volume snapshotter *)

Record NewVolumeSnapshotter := {
  vs_snapMgr : SnapshotManager;
  vs_clusterFlavor : ClusterFlavor;
}.

Section snapshotter.
Context (p : NewVolumeSnapshotter).

Definition VSCreateVolumeFromSnapshot (snapshotID : string) : io (result string) :=
  if bool_decide (vs_clusterFlavor p ≠ VSphere) then
    Ret (Err (ErrorString ("NotSupported: Restore of vsphere volume snapshots with version less than "
      +:+ "or prior to 1.0.2 are NOT supported in Supervisor and Guest Clusters.")))
  else
    match NewProtectedEntityIDFromString snapshotID with
    | Err e => Ret (Err e)
    | Ok peId =>
        let? returnPeId := CreateVolumeFromSnapshot peId PEID_zero ∅ else e => Ret (Err e) in
        Ret (Ok (GetID returnPeId))
    end.

Definition GetVolumeInfo : string * Z := (CnsBlockVolumeType, 100).
Definition IsVolumeReady : bool := true.
Definition VSCreateSnapshot : string := "".
Definition GetVolumeID : string := "".

Definition VSDeleteSnapshot (snapshotID : string) : io (option error) :=
  if bool_decide (vs_clusterFlavor p ≠ VSphere) then
    Ret (Some (ErrorString ("NotSupported: Delete of vsphere volume snapshots with version less than "
      +:+ "or prior to 1.0.2 are NOT supported in Supervisor and Guest Clusters.")))
  else
    match NewProtectedEntityIDFromString snapshotID with
    | Err e => Ret (Some e)
    | Ok peID => DeleteSnapshotOf peID
    end.

Definition SetVolumeID (unstructuredPV : Unstructured) (volumeID : string) : result Unstructured :=
  match PVFromUnstructured unstructuredPV with
  | Err e => Err (WithStack e)
  | Ok pv =>
      match pv_CSI pv with
      | None => Err (ErrorString "Spec.CSI not found")
      | Some csi =>
          match PVToUnstructured (pv <| pv_CSI := Some {| csi_Driver := csi_Driver csi;
                                                         csi_VolumeHandle := volumeID |} |>) with
          | Err e => Err (WithStack e)
          | Ok res => Ok res
          end
      end
  end.
End snapshotter.
End item_actions.
