(* ===== verification/ItemNames.v ===== *)
(** * Names and annotations of items

    What the name parsers of pkg/plugin/util answer on the names Kubernetes
    gives, which resources the block list reaches, and the way of a Snapshot
    from the backup of its claim to the restore. *)

From S2P Require Export ItemActions.
Open Scope Z_scope.

#[local] Arguments String.append (s1 s2)%_string_scope : simpl nomatch.

(** ** Self links *)

(** A resource as its self link names it. *)
Record link := {
  lk_group : option string;
  lk_version : string;
  lk_namespace : option string;
  lk_plural : string;
  lk_name : string;
}.

Definition link_components (l : link) : list string :=
  "" :: match lk_group l with Some g => ["apis"; g] | None => ["api"] end
  ++ lk_version l :: match lk_namespace l with Some n => ["namespaces"; n] | None => [] end
  ++ [lk_plural l; lk_name l].

Definition self_link (l : link) : string := Join (link_components l) "/".

Definition crd_name (l : link) : string :=
  match lk_group l with Some g => lk_plural l +:+ "." +:+ g | None => lk_plural l end.

Lemma Split_Join l sep :
  l ≠ [] → Forall (λ s, has_byte sep s = false) l → Split (Join l (String sep "")) sep = l.
Proof.
  intros Hne Hl. induction Hl as [|s l Hs Hl IH]; [done|]. destruct l as [|s' l].
  - cbn. unfold Split. by rewrite split_aux_no_sep.
  - change (Join (s :: s' :: l) (String sep "")) with (s +:+ String sep (Join (s' :: l) (String sep ""))).
    unfold Split. rewrite split_aux_sep by done. cbn. f_equal. by apply IH.
Qed.

(**  [SelfLinkToCRDName] reads the name of a resource off its self link,
    for each of the four forms a link can have: the plural and the group, or the plural alone for
    a core resource.  The exception are resources whose plural is
    [namespaces]: on the link of a Namespace the function indexes past the end
    and panics. *)
Theorem SelfLinkToCRDName_self_link l :
  Forall (λ s, has_byte "/" s = false) (link_components l) →
  SelfLinkToCRDName (self_link l) =
  if bool_decide (lk_namespace l = None ∧ lk_plural l = "namespaces") then None
  else Some (crd_name l).
Proof.
  intros Hl. unfold SelfLinkToCRDName, self_link. rewrite Split_Join by done. clear Hl.
  destruct l as [[g|] v [ns|] plural name]; unfold link_components, crd_name;
    [reflexivity| |reflexivity|]; cbn -[bool_decide];
    change (bool_decide ("apis" = "api")) with false; change (bool_decide ("api" = "api")) with true;
    cbn -[bool_decide]; (destruct (decide (plural = "namespaces")) as [->|Hp]; [reflexivity|]);
    rewrite !(bool_decide_false (plural = "namespaces")), (bool_decide_false (_ ∧ _)) by naive_solver;
    reflexivity.
Qed.

Example SelfLinkToCRDName_self_link_witness :
  let l := {| lk_group := Some "velero.io"; lk_version := "v1"; lk_namespace := Some "velero";
              lk_plural := "backups"; lk_name := "kibishii-1" |} in
  self_link l = "/apis/velero.io/v1/namespaces/velero/backups/kibishii-1" ∧
  SelfLinkToCRDName (self_link l) = Some "backups.velero.io".
Proof.
  set (l := Build_link _ _ _ _ _). split; [reflexivity|].
  exact (SelfLinkToCRDName_self_link l ltac:(repeat constructor)).
Defined.

(** ** The block list *)

(** What the plugin looks up in the list the installer writes. *)
Definition installed_block_list : gmap string string := FormatBool <$> ResourcesToBlock.

Lemma IsResourceBlocked_written name (m : gmap string bool) :
  IsResourceBlocked name (FormatBool <$> m) = default false (m !! name).
Proof.
  unfold IsResourceBlocked, map_get. rewrite lookup_fmap. destruct (m !! name) as [b|]; cbn; [|done].
  by rewrite ParseBool_FormatBool.
Qed.

Lemma has_prefix_app p s : has_prefix p s = true → ∃ r, s = p +:+ r.
Proof.
  revert s. induction p as [|a p IH]; intros s; [by exists s|]. destruct s as [|b s]; [done|]. cbn.
  intros [->%bool_decide_eq_true [r ->]%IH]%andb_prop. by exists r.
Qed.

Lemma has_prefix_refl p r : has_prefix p (p +:+ r) = true.
Proof. induction p as [|a p IH]; cbn; [done|]. by rewrite bool_decide_true. Qed.

Lemma str_rev_app_dist s t : str_rev (s +:+ t) "" = str_rev t "" +:+ str_rev s "".
Proof.
  induction s as [|a s IH]; cbn; [by rewrite str_app_nil_r|].
  rewrite str_rev_app, IH, (str_rev_app s (String a "")). by rewrite str_app_assoc.
Qed.

Lemma str_rev_involutive s : str_rev (str_rev s "") "" = s.
Proof.
  induction s as [|a s IH]; [done|]. cbn. rewrite (str_rev_app s (String a "")), str_rev_app_dist, IH. done.
Qed.

Lemma HasSuffix_app s suf : HasSuffix s suf = true → ∃ p, s = p +:+ suf.
Proof.
  intros [r Hr]%has_prefix_app. exists (str_rev r "").
  by rewrite <-(str_rev_involutive s), Hr, str_rev_app_dist, str_rev_involutive.
Qed.

Lemma ToLower_app s t : ToLower (s +:+ t) = ToLower s +:+ ToLower t.
Proof. induction s as [|a s IH]; cbn; [done|]. by rewrite IH. Qed.

Lemma Contains_app s sub t : Contains (s +:+ sub +:+ t) sub = true.
Proof.
  induction s as [|a s IH]; cbn [String.append].
  - destruct (sub +:+ t) eqn:He; cbn; rewrite <-He, has_prefix_refl; done.
  - cbn. by rewrite IH, orb_true_r.
Qed.

Lemma true_at_lookup keys k : true_at keys !! k = if bool_decide (k ∈ keys) then Some true else None.
Proof.
  unfold true_at. induction keys as [|x keys IH]; [done|]. rewrite fmap_cons, list_to_map_cons. cbn [fst snd].
  destruct (decide (k = x)) as [->|Hne].
  - rewrite lookup_insert_eq. by rewrite bool_decide_true by (by left).
  - rewrite lookup_insert_ne, IH by done. by rewrite (bool_decide_ext (k ∈ x :: keys) (k ∈ keys)) by set_solver.
Qed.

(** The name of a kind of a group, as [UnstructuredToCRDName] computes it. *)
Definition parsed_name (kind group : string) : string :=
  if bool_decide (group ≠ "") then pluralName kind +:+ "." +:+ group else pluralName kind.

Lemma parsed_name_ss kind group :
  HasSuffix kind "ss" = true → Contains (parsed_name kind group) "sss" = true.
Proof.
  intros [p ->]%HasSuffix_app. unfold parsed_name, pluralName.
  destruct (HasSuffix (p +:+ "ss") "y") eqn:Hy.
  { apply HasSuffix_app in Hy as [q Hq]. apply (f_equal (λ s, str_rev s "")) in Hq.
    by rewrite !str_rev_app_dist in Hq. }
  rewrite ToLower_app, !str_app_assoc. change (ToLower "ss") with "ss".
  case_bool_decide.
  - change ("ss" +:+ "s" +:+ "." +:+ group) with ("sss" +:+ "." +:+ group). apply Contains_app.
  - change ("ss" +:+ "s") with ("sss" +:+ ""). apply Contains_app.
Qed.

Lemma true_at_without sub keys name :
  forallb (λ k, negb (Contains k sub)) keys = true → Contains name sub = true →
  true_at keys !! name = None.
Proof.
  intros Hk Hn. rewrite true_at_lookup, bool_decide_false; [done|]. intros Hin.
  rewrite forallb_forall in Hk. apply list_elem_of_In, Hk in Hin. by rewrite Hn in Hin.
Qed.

Section names.
Context `{Deps}.

Lemma UnstructuredToCRDName_parsed item apiVersion kind :
  ItemAPIVersion item = Ok apiVersion → ItemKind item = Ok kind →
  UnstructuredToCRDName item = Ok (parsed_name kind (ParseGroup apiVersion)).
Proof. intros Ha Hk. unfold UnstructuredToCRDName. by rewrite Ha, Hk. Qed.

(**  The list of blocked resources that the installer writes does
    not reach the kinds that end in [ss]: the name computed for one ends in
    [sss], and no entry of the table does.  The table has entries meant
    for such kinds, of which three are given here: ClusterClass, GatewayClass and VirtualMachineClass
    are backed up and restored as if they were not blocked. *)
Theorem kinds_in_ss_not_blocked item apiVersion kind :
  ItemAPIVersion item = Ok apiVersion → ItemKind item = Ok kind → HasSuffix kind "ss" = true →
  (∃ name, UnstructuredToCRDName item = Ok name ∧
     IsResourceBlocked name installed_block_list = false ∧ IsResourceBlockedOnRestore name = false) ∧
  IsResourceBlocked "clusterclasses.cluster.x-k8s.io" installed_block_list = true ∧
  IsResourceBlocked "gatewayclasses.networking.x-k8s.io" installed_block_list = true ∧
  IsResourceBlocked "virtualmachineclasses.vmoperator.vmware.com" installed_block_list = true.
Proof.
  intros Ha Hk Hss. unfold installed_block_list. split; [|rewrite !IsResourceBlocked_written; by vm_compute].
  eexists. split; [by apply UnstructuredToCRDName_parsed|].
  pose proof (parsed_name_ss kind (ParseGroup apiVersion) Hss) as Hn.
  rewrite IsResourceBlocked_written. unfold IsResourceBlockedOnRestore.
  unfold ResourcesToBlock, ResourcesToBlockOnRestore.
  rewrite !(true_at_without "sss") by (done || by vm_compute). done.
Qed.

(** ** The Snapshot of a claim *)

Lemma GetSnapshotFromPVCAnnotation_roundtrip s b :
  MarshalSnapshot s = Ok b → UnmarshalSnapshot b = Ok s →
  ∃ a, GetAnnotationFromSnapshot s = Ok a ∧ GetSnapshotFromPVCAnnotation a = Ok s.
Proof.
  intros Hm Hu. unfold GetAnnotationFromSnapshot, GetSnapshotFromPVCAnnotation. rewrite Hm.
  eexists. split; [done|]. by rewrite StdDecodeString_StdEncodeToString, Hu.
Qed.

Lemma RemoveAnnotations_lookup o keys k :
  om_Annotations (RemoveAnnotations o keys) !! k =
  if bool_decide (k ∈ keys) then None else om_Annotations o !! k.
Proof.
  unfold RemoveAnnotations. cbn. generalize (om_Annotations o). induction keys as [|x keys IH]; intros m; [done|].
  cbn [foldl]. rewrite IH. destruct (decide (k = x)) as [->|Hne].
  - rewrite lookup_delete_eq, (bool_decide_true (x ∈ x :: keys)) by (by left). by case_match.
  - rewrite lookup_delete_ne by done. by rewrite (bool_decide_ext (k ∈ x :: keys) (k ∈ keys)) by set_solver.
Qed.

(** C37.  The Snapshot that a backup keeps in the annotation of a claim
    is the one a restore or a deletion of the backup reads off the item, provided that JSON and the
    object converters give back what they were given: the claim of the item is the backed-up
    claim but for its annotations, the annotation parses to that Snapshot, and the
    two health annotations are gone. *)
Theorem annotated_item_roundtrip pvc s b item :
  MarshalSnapshot s = Ok b → UnmarshalSnapshot b = Ok s →
  (∀ p i, PVCToUnstructured p = Ok i → PVCFromUnstructured i = Ok p) →
  annotatedItem pvc s = Ok item →
  ∃ p a, PVCFromUnstructured item = Ok p ∧
    p <| pvc_Meta; om_Annotations := om_Annotations (pvc_Meta pvc) |> = pvc ∧
    om_Annotations (pvc_Meta p) !! ItemSnapshotLabel = Some a ∧
    GetSnapshotFromPVCAnnotation a = Ok s ∧
    om_Annotations (pvc_Meta p) !! AnnVolumeHealth = None ∧
    om_Annotations (pvc_Meta p) !! AnnVolumeHealthTS = None.
Proof.
  intros Hm Hu Hconv. unfold annotatedItem.
  destruct (GetSnapshotFromPVCAnnotation_roundtrip s b Hm Hu) as (a & -> & Ha).
  set (p := pvc <| pvc_Meta := _ |>). destruct (PVCToUnstructured p) as [i|] eqn:Hi; [|done].
  intros [= <-]. exists p, a. split; [by apply Hconv|].
  assert (Hl : ∀ k, k ≠ ItemSnapshotLabel → k ≠ PluginVersionLabel →
    om_Annotations (pvc_Meta p) !! k = om_Annotations (RemoveAnnotations (pvc_Meta pvc) healthAnnotations) !! k).
  { intros k H1 H2. subst p. cbn. rewrite lookup_union_r; [done|]. by rewrite !lookup_insert_ne. }
  split; [by destruct pvc as [[] ? ? ? ? ? ? ? ?]|]. split; [|split; [done|]].
  - subst p. cbn. apply lookup_union_Some_l. by rewrite lookup_insert_eq.
  - rewrite !Hl by done. rewrite !RemoveAnnotations_lookup. by split; rewrite bool_decide_true by (unfold healthAnnotations; set_solver).
Qed.
End names.
