(* ===== verification/ItemProtocol.v ===== *)
(** * What a backup, a restore and a deletion ask of the backup driver

    The item actions decide for each item whether the backup driver has work to
    do, and then create one record for it and wait.  A monitor keeps the facts that an
    action has learnt from the API server, and accepts the calls for the record
    only when these allow it. *)

From S2P Require Export ItemActions.
Open Scope Z_scope.

(** ** Preparing *)

Section prepares.
Context `{Deps}.

(** Reads, and the claim of a repository. *)
Definition prepares {X} (e : Cmd X) : bool :=
  reads e ||
  match e with
  | CreateObj _ KBackupRepositoryClaim _ _ | Watch _ KBackupRepositoryClaim _ => true
  | _ => false
  end.

Abbreviation prep := (calls_within (@prepares)).

Lemma prep_reads {A} (p : io A) : calls_only (@reads _) p → prep p.
Proof. apply calls_within_only. intros X e. unfold prepares. by intros ->. Qed.

Lemma prep_clusterAccess msg : prep (clusterAccess msg).
Proof. apply prep_reads. unfold clusterAccess, GetKubeClientConfig. calls_tac. Qed.

Lemma prep_claim driver ps allowed ns c : prep (ClaimBackupRepository driver ps allowed ns c).
Proof.
  assert (Hw : ∀ m, prep (waitForClaim c ns m)).
  { intros m. unfold waitForClaim. split; [done|]. intros [events done]. cbn.
    by destruct (list_find _ events) as [[]|]; [|destruct done]. }
  unfold ClaimBackupRepository. split; [done|]. intros [l|e]; cbn; [|done].
  destruct (matchClaims _ _ _ _ _) as [name|m]; [done|]. case_bool_decide; [|apply Hw].
  split; [done|]. intros [u|e]; cbn; [|done]. split; [done|]. intros [b|e]; [apply Hw|done].
Qed.

Lemma prep_claimRepository kc bc config bsl ns veleroNs :
  prep (claimRepository kc bc config bsl ns veleroNs).
Proof.
  unfold claimRepository, RetrieveBackupRepositoryFromBSL.
  apply calls_within_bind; [apply prep_reads; calls_tac|]. intros [|]; [done|].
  apply calls_within_bind; [|by intros []].
  apply calls_within_bind; [apply prep_reads; calls_tac|]. intros [ps|e]; [|done].
  apply calls_within_bind; [apply prep_claim|]. by intros [].
Qed.
End prepares.

(** ** Facts *)

Section facts.
Context `{Deps}.

(** An answer of the API server, with what was asked; the block list also stands
    for the errors that keep it from being read. *)
Inductive fact :=
| BlockList (r : result ConfigMap)
| VolumeRead (name : string) (pv : PersistentVolume)
| PodsRead (ns : string) (pods : list Pod)
| ClaimRead (ns name : string) (r : result PersistentVolumeClaim)
| ClassRead (name : string) (sc : StorageClass).

Definition fact_of {X} (e : Cmd X) : X → list fact :=
  match e in Cmd X return X → list fact with
  | LoadClientConfig => λ r, match r with Ok _ => [] | Err e => [BlockList (Err e)] end
  | NewForConfig _ => λ r, match r with Ok _ => [] | Err e => [BlockList (Err e)] end
  | GetObj _ k ns name =>
      match k return result (obj k) → list fact with
      | KConfigMap => λ r, if bool_decide (name = ResourcesToBlockListName) then [BlockList r] else []
      | KPersistentVolume => λ r, match r with Ok pv => [VolumeRead name pv] | Err _ => [] end
      | KPersistentVolumeClaim => λ r, [ClaimRead ns name r]
      | KStorageClass => λ r, match r with Ok sc => [ClassRead name sc] | Err _ => [] end
      | _ => λ _, []
      end
  | ListObj _ k ns =>
      match k return result (list (obj k)) → list fact with
      | KPod => λ r, match r with Ok pods => [PodsRead ns pods] | Err _ => [] end
      | _ => λ _, []
      end
  | _ => λ _, []
  end.

(** Some fact that was learnt passes the test. *)
Definition learnt (f : list fact) (test : fact → bool) : bool := existsb test f.

Lemma learnt_in f test x : x ∈ f → test x = true → learnt f test = true.
Proof. intros Hx Ht. apply existsb_exists. exists x. by rewrite <-list_elem_of_In. Qed.

Lemma learnt_mono f f' test : f ⊆ f' → learnt f test = true → learnt f' test = true.
Proof.
  intros Hf (x & Hx & Ht)%existsb_exists. apply list_elem_of_In in Hx. eauto using learnt_in.
Qed.

(** *** The protocol of an action

    A call that does not prepare is one that [work] accepts, and is made only when
    the facts [may] be acted on. *)
Context {S : Type} (may : list fact → ∀ X, Cmd X → bool) (work : ∀ X, Cmd X → monitor Cmd S).

Definition action_protocol : monitor Cmd (list fact * S) := λ '(f, s) X e x,
  if prepares e then Next (f ++ fact_of e x, s)
  else if may f X e then
    match work X e s X e x with
    | Next s' => Next (f, s')
    | Violation => Violation
    | Impossible => Impossible
    end
  else Violation.

(** Preparing only adds facts. *)
Lemma safe_prepares {A} (p : io A) f s :
  calls_within (@prepares _) p →
  safe action_protocol p (λ _ t, f ⊆ t.1 ∧ t.2 = s) (f, s).
Proof.
  intros Hp. apply (safe_calls_within (@prepares _) _ (λ t, f ⊆ t.1 ∧ t.2 = s)); [|done|done].
  intros [f' s'] X e x [Hf Hs] He. cbn in *. rewrite He. cbn. split; [set_solver|done].
Qed.

(** Once the facts may be acted on, the calls that [work] accepts are made. *)
Lemma safe_work {A} (mon : monitor Cmd S) (p : io A) Q f s :
  (∀ s X (e : Cmd X) x,
     match mon s X e x with
     | Next s' => if prepares e then s' = s ∧ fact_of e x = []
                  else may f X e = true ∧ work X e s X e x = Next s'
     | Violation => True
     | Impossible => False
     end) →
  safe mon p Q s → safe action_protocol p (λ o t, t.1 = f ∧ Q o t.2) (f, s).
Proof.
  intros Hw Hp. eapply safe_mono.
  - eapply (safe_follows (λ s t, t = (f, s))); [|done|exact Hp].
    intros s' t X e x ->. specialize (Hw s' X e x). cbn. destruct (mon s' X e x) as [s''| |]; [|done..].
    destruct (prepares e); [destruct Hw as [-> ->]; rewrite app_nil_r; eauto|].
    destruct Hw as [-> ->]. eauto.
  - by intros o [f' s'] (r & [= -> ->] & Hr).
Qed.

(** The block list lets the item's kind pass; there may be none. *)
Definition unblocked (item : Unstructured) (f : fact) : bool :=
  match UnstructuredToCRDName item, f with
  | Ok crdName, BlockList (Ok cm) => negb (IsResourceBlocked crdName (cm_Data cm))
  | Ok _, BlockList (Err e) => IsNotFound e
  | _, _ => false
  end.

Lemma safe_IsObjectBlocked item s :
  safe action_protocol (IsObjectBlocked item) (λ o t, t.2 = s ∧
    match o with
    | Returned (Ok (false, crd)) => UnstructuredToCRDName item = Ok crd ∧
        learnt t.1 (unblocked item) = true
    | Returned (Ok (true, crd)) => UnstructuredToCRDName item = Ok crd
    | Returned (Err _) => True
    | _ => False
    end) ([], s).
Proof.
  unfold IsObjectBlocked, RetrieveBlockListConfigMap, GetVeleroNamespace, GetKubeClientConfig.
  destruct (UnstructuredToCRDName item) as [crd|e] eqn:Hcrd; [|done].
  assert (Hu : ∀ r, learnt [BlockList r] (unblocked item) =
    match r with Ok cm => negb (IsResourceBlocked crd (cm_Data cm)) | Err e => IsNotFound e end).
  { intros []; unfold learnt, unblocked; cbn; rewrite Hcrd; cbn; by rewrite orb_false_r. }
  cbn. intros [ns|]; [|done]. cbn -[learnt].
  do 3 (intros [?|e]; cbn -[learnt]; rewrite ?(bool_decide_true (_ = _)) by done;
    [|destruct (IsNotFound e) eqn:He; cbn -[learnt]; by rewrite ?Hu]).
  destruct (IsResourceBlocked _ _) eqn:Hb; cbn -[learnt]; [done|]. by rewrite Hu, Hb.
Qed.
End facts.

#[global] Arguments learnt : simpl never.
#[local] Arguments IsObjectBlocked : simpl never.
#[local] Arguments clusterAccess : simpl never.
#[local] Arguments claimRepository : simpl never.

(** Steps over a program that only prepares; [r] is its answer, [f] the facts after
    it, [Hf] that they include those before. *)
Ltac prepare H r f Hf :=
  let s := fresh in let Hs := fresh in
  eapply safe_seq; [apply safe_prepares, H
                   |intros r [f s] [Hf Hs]; cbn in Hf, Hs; subst s
                   |intros ? [? ?] [_ ?]; by left..].

(** ** Backups *)

Section backup.
Context `{Deps} (item : Unstructured) (backup : Backup).

(** The volume belongs to vSphere's CSI driver, or was migrated to it. *)
Definition vsphere_volume (pv : PersistentVolume) : bool :=
  match pv_CSI pv with
  | Some csi => bool_decide (csi_Driver csi = VSphereCSIDriverName)
  | None => IsMigratedCSIVolume pv
  end.

(** The claim is bound to a volume of vSphere. *)
Definition vsphere_claim (p : PersistentVolumeClaim) (f : fact) : bool :=
  match f with
  | VolumeRead name pv => bool_decide (name = pvc_VolumeName p) && vsphere_volume pv
  | _ => false
  end.

(** No pod has its copy of the claim in Velero's file-system backup. *)
Definition not_fs_backed (p : PersistentVolumeClaim) (f : fact) : bool :=
  match f with
  | PodsRead ns pods =>
      bool_decide (ns = pvc_Namespace p) &&
      match backedUpByFs (podsUsing (pvc_Name p) pods) (pvc_Name p)
              (bool_decide (bk_DefaultVolumesToFsBackup backup = Some true)) with
      | Ok b => negb b
      | Err _ => false
      end
  | _ => false
  end.

Definition may_snapshot (f : list fact) : bool :=
  bool_decide (bk_SnapshotVolumes backup ≠ Some false) && learnt f (unblocked item) &&
  match PVCFromUnstructured item with
  | Ok p => learnt f (vsphere_claim p) && learnt f (not_fs_backed p)
  | Err _ => false
  end.

(** The repository that a request for a Snapshot names. *)
Definition snapshot_repository {X} (e : Cmd X) : string :=
  match e with
  | CreateObj _ k _ o =>
      match k return obj k → string with
      | KSnapshot => λ o, ss_BackupRepository (s_Spec o)
      | _ => λ _, ""
      end o
  | _ => ""
  end.

(** The calls for a Snapshot of the claim, with a label for the backup. *)
Definition snapshot_work X (e : Cmd X) : monitor Cmd (ref_run Snapshot) := λ s Y e' x,
  match PVCFromUnstructured item with
  | Ok p =>
      snapshot_ref_monitor
        {| ref_APIGroup := Some ""; ref_Kind := pvc_Kind p; ref_Name := pvc_Name p |}
        (pvc_Namespace p) (snapshot_repository e)
        {[SnapshotBackupLabel := om_Name (bk_Meta backup)]} s Y e' x
  | Err _ => Violation
  end.

Definition backup_protocol : monitor Cmd (list fact * ref_run Snapshot) :=
  action_protocol (λ f _ _, may_snapshot f) snapshot_work.

(** How a backup of the item ends: with the item as it was, when no Snapshot was
    asked for; or with the claim that carries the Snapshot awaited, which did not
    fail.  A panic or an endless wait is one before the Snapshot was asked for
    (in the claim of a repository), or that of the wait for it. *)
Definition backed_up (o : outcome (result Unstructured)) (t : list fact * ref_run Snapshot) : Prop :=
  let ends := ref_done (λ s, s_Name s) (λ s, s_Phase s) backupPhases in
  match o with
  | Returned (Ok i) =>
      t.2 = ref_start ∧ i = item ∨
      ∃ p sn, PVCFromUnstructured item = Ok p ∧ ends (Returned (Ok sn)) t.2 ∧
        snapshotError sn = None ∧ annotatedItem p sn = Ok i
  | Returned (Err _) => True
  | Panicked w => t.2 = ref_start ∨ ends (Panicked w) t.2
  | Hung w => t.2 = ref_start ∨ ends (Hung w) t.2
  end.

#[local] Arguments SnapshotRef : simpl never.

(** The calls of [SnapshotRef], once a snapshot may be taken. *)
Lemma backup_snapshot p repository f c :
  PVCFromUnstructured item = Ok p → may_snapshot f = true →
  safe backup_protocol
    (SnapshotRef c {| ref_APIGroup := Some ""; ref_Kind := pvc_Kind p; ref_Name := pvc_Name p |}
       (pvc_Namespace p) repository {[SnapshotBackupLabel := om_Name (bk_Meta backup)]} backupPhases)
    (λ o t, t.1 = f ∧ ref_done (λ s, s_Name s) (λ s, s_Phase s) backupPhases o t.2) (f, ref_start).
Proof.
  intros Hp Hm. eapply safe_work; [|apply SnapshotRef_protocol].
  intros s X e x. unfold snapshot_work. rewrite Hp, Hm.
  destruct e; try done; try match goal with k : kind |- _ => destruct k end; try done; cbn.
  all: repeat case_bool_decide; try done.
  unfold asked_snapshot in *. intuition.
Qed.

Lemma may_snapshot_mono f f' : f ⊆ f' → may_snapshot f = true → may_snapshot f' = true.
Proof.
  intros Hf. unfold may_snapshot. destruct (PVCFromUnstructured item); rewrite !andb_true_iff;
    naive_solver eauto using learnt_mono.
Qed.

Lemma backup_claim p f veleroNs config c :
  PVCFromUnstructured item = Ok p → may_snapshot f = true →
  safe backup_protocol (snapshotClaim p backup veleroNs config c) backed_up (f, ref_start).
Proof.
  intros Hp Hm. unfold snapshotClaim.
  prepare (prep_reads (call (NewForConfig config))) r f1 Hf1; [calls_tac|]. destruct r as [bc|e]; [|done].
  prepare (prep_claimRepository c bc) r f2 Hf2. destruct r as [br|e]; [|done].
  eapply safe_seq; [apply backup_snapshot; [done|by do 2 (eapply may_snapshot_mono; [eassumption|])]| |by intros ? ? [_ ?]; right..].
  intros [sn|e] t [_ Hd]; [|done]. cbn. destruct (snapshotError sn) eqn:He; [done|]. cbn.
  destruct (annotatedItem p sn) as [i|] eqn:Hi; [|done]. right. by exists p, sn.
Qed.

End backup.

(** ** Restores *)

Section restore.
Context `{Deps} (input : RestoreInput).

(** What there is to restore: the claim, the Snapshot in its annotation, and
    the namespace it goes to. *)
Definition restore_plan : option (PersistentVolumeClaim * Snapshot * string) :=
  match PVCFromUnstructured (ri_Item input) with
  | Ok pvc =>
      let pvc := pvc <| pvc_Meta := RemoveAnnotations (pvc_Meta pvc) healthAnnotations |> in
      match om_Annotations (pvc_Meta pvc) !! ItemSnapshotLabel with
      | Some annotation =>
          match itemSnapshotFor pvc (ri_Restore input) annotation with
          | Ok (sn, target) => Some (pvc, sn, target)
          | Err _ => None
          end
      | None => None
      end
  | Err _ => None
  end.

(** The claim is not in the namespace it goes to. *)
Definition claim_absent (p : PersistentVolumeClaim) (target : string) (f : fact) : bool :=
  match f with
  | ClaimRead ns name r =>
      bool_decide (ns = target ∧ name = pvc_Name p) &&
      match r with
      | Ok p' => bool_decide ((pvc_Namespace p', pvc_Name p') ≠ (target, pvc_Name p))
      | Err e => IsNotFound e
      end
  | _ => false
  end.

(** The claim in [md] has a storage class, which exists and binds at once. *)
Definition class_checked (md : string) (f : fact) : bool :=
  match f, UnmarshalPVC md with
  | ClassRead name sc, Ok p =>
      bool_decide (storageClassOf p = Some name ∧
                   sc_VolumeBindingMode sc ≠ Some VolumeBindingWaitForFirstConsumer)
  | _, _ => false
  end.

(** [md] is the claim of [old] with an existing storage class. *)
Definition reclassed (old md : string) (f : fact) : bool :=
  match f, UnmarshalPVC old with
  | ClassRead name _, Ok p =>
      match MarshalPVC (p <| pvc_StorageClassName := Some name |>) with
      | Ok md' => bool_decide (md' = md)
      | Err _ => false
      end
  | _, _ => false
  end.

Definition clone_metadata (f : list fact) (sn : Snapshot) (md : string) : bool :=
  let old := ss_Metadata (s_Status sn) in
  learnt f (class_checked md) && (bool_decide (md = old) || learnt f (reclassed old md)).

Definition may_clone (f : list fact) (o : option CloneFromSnapshot) : bool :=
  bool_decide (rst_RestorePVs (ri_Restore input) ≠ Some false) &&
  learnt f (unblocked (ri_ItemFromBackup input)) &&
  match UnstructuredToCRDName (ri_ItemFromBackup input), restore_plan with
  | Ok crdName, Some (p, sn, target) =>
      negb (IsResourceBlockedOnRestore crdName) && learnt f (claim_absent p target) &&
      match o with
      | Some o => clone_metadata f sn (cs_Metadata (c_Spec o))
      | None => true
      end
  | _, _ => false
  end.

(** The CloneFromSnapshot that a call creates. *)
Definition clone_asked {X} (e : Cmd X) : option CloneFromSnapshot :=
  match e with
  | CreateObj _ k _ o =>
      match k return obj k → option CloneFromSnapshot with
      | KCloneFromSnapshot => Some
      | _ => λ _, None
      end o
  | _ => None
  end.

(** The calls for a CloneFromSnapshot of the Snapshot, in the namespace it goes to. *)
Definition clone_work X (e : Cmd X) : monitor Cmd clone_ref_run := λ s Y e' x,
  match restore_plan with
  | Some (_, sn, target) =>
      let ref := ss_ResourceHandle (s_Spec sn) in
      let spec := c_Spec <$> clone_asked e in
      clone_ref_monitor (ss_SnapshotID (s_Status sn)) (default "" (cs_Metadata <$> spec))
        (ref_APIGroup ref) (ref_Kind ref) target (default "" (cs_BackupRepository <$> spec)) s Y e' x
  | None => Violation
  end.

Definition restore_item_protocol : monitor Cmd (list fact * clone_ref_run) :=
  action_protocol (λ f _ e, may_clone f (clone_asked e)) clone_work.

(** How the restore of an item ends: without a clone, where skipping
    the item means that its kind is blocked on a restore; or skipping it because
    the clone that was awaited is there, and has not failed. *)
Definition restored (o : outcome (result RestoreOutput)) (t : list fact * clone_ref_run) : Prop :=
  let ends := clone_ref_done [ClonePhaseCompleted; ClonePhaseFailed] in
  match o with
  | Returned (Ok out) =>
      t.2 = clone_ref_start ∧ (ro_SkipRestore out = true →
        ∃ crd, UnstructuredToCRDName (ri_ItemFromBackup input) = Ok crd ∧
          IsResourceBlockedOnRestore crd = true) ∨
      out = skipped ∧ ∃ u, ends (Returned (Ok u)) t.2 ∧ c_Phase u ≠ ClonePhaseFailed
  | Returned (Err _) => True
  | Panicked w => t.2 = clone_ref_start ∨ ends (Panicked w) t.2
  | Hung w => t.2 = clone_ref_start ∨ ends (Hung w) t.2
  end.

#[local] Arguments CloneFromSnapshopRef : simpl never.

(** The Snapshot [sn'] asks for what [sn] does, but for the storage class. *)
Definition reclassed_snapshot (f : list fact) (sn sn' : Snapshot) : Prop :=
  ss_SnapshotID (s_Status sn') = ss_SnapshotID (s_Status sn) ∧
  ss_ResourceHandle (s_Spec sn') = ss_ResourceHandle (s_Spec sn) ∧
  (ss_Metadata (s_Status sn') = ss_Metadata (s_Status sn) ∨
   learnt f (reclassed (ss_Metadata (s_Status sn)) (ss_Metadata (s_Status sn'))) = true).

Lemma restore_reclass config sn m f s :
  safe restore_item_protocol (UpdateSnapshotWithNewStorageClass (Some config) (Some sn) m)
    (λ o t, f ⊆ t.1 ∧ t.2 = s ∧ match o with
      | Returned (Ok sn') => reclassed_snapshot t.1 sn sn'
      | Returned (Err _) => True
      | _ => False
      end) (f, s).
Proof.
  unfold UpdateSnapshotWithNewStorageClass.
  destruct (UnmarshalPVC _) as [p|e] eqn:Hp; [|done]. cbn.
  assert (Hsame : reclassed_snapshot f sn sn) by (split_and!; auto).
  assert (Hnew : ∀ name, safe restore_item_protocol
    (let? clientset := GetKubeClient (Some config) else e => Ret (Err e) in
     let? _ := call (GetObj clientset KStorageClass "" name) else e =>
       Ret (Err (Wrap e ("error getting storage class " +:+ name +:+ " from API"))) in
     match MarshalPVC (p <| pvc_StorageClassName := Some name |>) with
     | Err e => Ret (Err e)
     | Ok md => Ret (Ok (sn <| s_Status; ss_Metadata := md |>))
     end)
    (λ o t, f ⊆ t.1 ∧ t.2 = s ∧ match o with
      | Returned (Ok sn') => reclassed_snapshot t.1 sn sn'
      | Returned (Err _) => True
      | _ => False
      end) (f, s)).
  { intros name. cbn. intros [c|e]; cbn; [|set_solver]. intros [sc|e]; cbn; [|set_solver].
    destruct (MarshalPVC _) as [md|e] eqn:Hm; cbn; (split; [set_solver|split; [done|]]); [|done].
    split_and!; [done..|]. right. eapply (learnt_in _ _ (ClassRead name sc)); [set_solver|].
    unfold reclassed. rewrite Hp, Hm. by rewrite bool_decide_true. }
  destruct (storageClassOf p) as [old|]; cbn -[GetKubeClient]; destruct (m !! _) as [name|];
    [apply Hnew|done|apply Hnew|done].
Qed.

Lemma restore_validate config sn f s :
  safe restore_item_protocol (ValidateRestoreStorageClass (Some config) (Some sn))
    (λ o t, f ⊆ t.1 ∧ t.2 = s ∧ match o with
      | Returned None => learnt t.1 (class_checked (ss_Metadata (s_Status sn))) = true
      | Returned (Some _) => True
      | _ => False
      end) (f, s).
Proof.
  unfold ValidateRestoreStorageClass. destruct (UnmarshalPVC _) as [p|e] eqn:Hp; [|done].
  destruct (storageClassOf p) as [name|] eqn:Hc; [|done]. cbn.
  intros [c|e]; cbn; [|set_solver]. intros [sc|e]; cbn; [|set_solver].
  case_bool_decide as Hb; (split; [set_solver|split; [done|]]); [done|].
  eapply (learnt_in _ _ (ClassRead name sc)); [set_solver|]. unfold class_checked.
  by rewrite Hp, bool_decide_true.
Qed.

Lemma prep_RetrieveStorageClassMapping config ns :
  calls_within (@prepares _) (RetrieveStorageClassMapping config ns).
Proof. apply prep_reads. unfold RetrieveStorageClassMapping, GetKubeClient. calls_tac. Qed.

Lemma restore_class config sn ns f s :
  safe restore_item_protocol (mapStorageClass config sn ns)
    (λ o t, f ⊆ t.1 ∧ t.2 = s ∧ match o with
      | Returned (Ok sn') =>
          ss_SnapshotID (s_Status sn') = ss_SnapshotID (s_Status sn) ∧
          ss_ResourceHandle (s_Spec sn') = ss_ResourceHandle (s_Spec sn) ∧
          clone_metadata t.1 sn (ss_Metadata (s_Status sn')) = true
      | _ => True
      end) (f, s).
Proof.
  unfold mapStorageClass.
  eapply safe_seq; [apply safe_prepares, prep_RetrieveStorageClassMapping| |naive_solver..].
  intros [m|e] [f1 s1] [Hf1 Hs1]; cbn in Hf1, Hs1; subst s1; [|done].
  eapply (safe_seq _ _ _ _ (λ o t, f1 ⊆ t.1 ∧ t.2 = s ∧ match o with
      | Returned (Ok sn') => reclassed_snapshot t.1 sn sn' | _ => True end)).
  { case_bool_decide; [by split; [|split; [|split_and!; auto]]|]. eapply safe_mono; [apply restore_reclass|].
    intros o t (? & ? & ?). split_and!; [done..|]. by destruct o as [[]| |]. }
  2, 3: set_solver.
  intros [sn'|e] [f2 s2] (Hf2 & Hs2 & Hr); cbn in Hf2, Hs2; subst s2; [|cbn; set_solver].
  eapply safe_seq; [apply restore_validate| |set_solver..].
  intros [e|] [f3 s3] (Hf3 & Hs3 & Hv); cbn in Hf3, Hs3; subst s3; (split; [set_solver|split; [done|]]); [done|].
  destruct Hr as (Hid & Hh & Hmd). split_and!; [done..|]. unfold clone_metadata.
  cbn [fst] in *. rewrite Hv. cbn -[reclassed]. destruct Hmd as [Hmd|Hmd]; [by rewrite bool_decide_true|].
  by rewrite (learnt_mono _ _ _ Hf3 Hmd), orb_true_r.
Qed.

Lemma may_clone_mono f f' o : f ⊆ f' → may_clone f o = true → may_clone f' o = true.
Proof.
  intros Hf. unfold may_clone, clone_metadata.
  destruct (UnstructuredToCRDName _); [|by rewrite !andb_false_r].
  destruct restore_plan as [[[p sn] target]|]; [|by rewrite !andb_false_r].
  destruct o; rewrite !andb_true_iff, ?orb_true_iff; naive_solver eauto using learnt_mono.
Qed.

(** The calls of [CloneFromSnapshopRef], once a clone may be asked for. *)
Lemma safe_clone_calls p sn target md repository f c :
  restore_plan = Some (p, sn, target) → may_clone f None = true → clone_metadata f sn md = true →
  let ref := ss_ResourceHandle (s_Spec sn) in
  safe restore_item_protocol
    (CloneFromSnapshopRef c (ss_SnapshotID (s_Status sn)) md (ref_APIGroup ref) (ref_Kind ref)
       target repository [ClonePhaseCompleted; ClonePhaseFailed])
    (λ o t, t.1 = f ∧ clone_ref_done [ClonePhaseCompleted; ClonePhaseFailed] o t.2)
    (f, clone_ref_start).
Proof.
  intros Hp Hm Hmd ref. eapply safe_work; [|apply CloneFromSnapshopRef_protocol].
  assert (Hm' : ∀ o : CloneFromSnapshot, cs_Metadata (c_Spec o) = md → may_clone f (Some o) = true).
  { intros o Ho. revert Hm. unfold may_clone. rewrite Hp.
    destruct (UnstructuredToCRDName _); [|done]. by rewrite Ho, Hmd. }
  intros s X e x. unfold clone_work. rewrite Hp.
  destruct e; try done; try match goal with k : kind |- _ => destruct k end; try done; cbn.
  2, 3: repeat case_match; naive_solver.
  destruct (bool_decide (_ ∧ asked_clone _ md _ _ _ _ _)) eqn:Ha; [|done].
  apply bool_decide_eq_true in Ha as (-> & Ha). cbn. case_bool_decide; [|done].
  assert (Ho : cs_Metadata (c_Spec o) = md) by apply Ha. split; [by apply Hm'|].
  rewrite bool_decide_true; [done|]. split; [done|]. unfold asked_clone in *. naive_solver.
Qed.

Lemma restore_cloneClaim p sn target veleroNs backupName config kc bc f :
  restore_plan = Some (p, sn, target) → may_clone f None = true →
  safe restore_item_protocol (cloneClaim p sn target veleroNs backupName config kc bc) restored
    (f, clone_ref_start).
Proof.
  intros Hp Hm. unfold cloneClaim.
  eapply safe_seq; [apply restore_class| |by intros w t (_ & ? & _); left..].
  intros [sn'|e] [f1 s1] (Hf1 & Hs1 & Hc); cbn in Hf1, Hs1; subst s1; [|done].
  destruct Hc as (Hid & Hh & Hmd). cbn [fst] in Hmd.
  prepare (prep_reads (RetrieveBSLFromBackup backupName (Some config))) r f2 Hf2.
  { unfold RetrieveBSLFromBackup, GetVeleroNamespace, GetKubeClientConfig. calls_tac. }
  destruct r as [bsl|e]; [|done].
  prepare (prep_claimRepository kc bc) r f3 Hf3. destruct r as [br|e]; [|done]. rewrite Hid, Hh.
  assert (Hf : f1 ⊆ f3) by set_solver.
  eapply safe_seq; [apply (safe_clone_calls p)| |by intros w t [_ ?]; right..]; [done| | |].
  - by apply (may_clone_mono _ _ _ (PreOrder_Transitive _ _ _ Hf1 Hf)).
  - unfold clone_metadata in *. rewrite andb_true_iff, orb_true_iff in *.
    naive_solver eauto using learnt_mono.
  - intros [u|e] t [_ Hd]; [|done]. cbn. case_bool_decide; [done|]. right. split; [done|]. by exists u.
Qed.

End restore.
