(* ===== verification/GenericController.v ===== *)
(** * Work queues (pkg/controller/generic_controller.go)

    A worker takes a key, runs the handler and forgets the key or hands it to
    the retry handler.  The queue is part of the environment. *)

From S2P Require Export SnapshotManager.
Open Scope Z_scope.

Section genericController.
Context `{Deps}.

Record genericController := {
  gc_queue : string;
  gc_syncHandler : string → io (option error);
  gc_retryHandler : string → io (option error);
}.

Context (c : genericController).

(** The answer says whether the worker goes on.  The deferred [Done] runs
    even when the handler panics. *)
Definition processNextWorkItem : io bool :=
  let! (key, quit) := call (QueueGet (gc_queue c)) in
  if (quit : bool) then Ret false
  else
    defer (call (QueueDone (gc_queue c) key)) (
      let! err := gc_syncHandler c key in
      match err with
      | None => call (QueueForget (gc_queue c) key) ;;; Ret true
      | Some _ => gc_retryHandler c key ;;; Ret true
      end).

(** [runWorker] for at most [n] items; [None] when the queue is still open. *)
Fixpoint runWorker (n : nat) : io (option unit) :=
  match n with
  | O => Ret None
  | S n =>
      let! more := processNextWorkItem in
      if (more : bool) then runWorker n else Ret (Some tt)
  end.
End genericController.

Section enqueue.
Context `{Deps}.

(** An object without a key is logged and dropped. *)
Definition enqueue (queue : string) (m : ObjectMeta) : io unit :=
  match MetaNamespaceKeyFunc m with
  | Err _ => Ret tt
  | Ok key => call (QueueAdd queue key)
  end.
End enqueue.
