(* ===== verification/UploadController.v ===== *)
(** * The upload controller (pkg/controller/upload_controller.go) *)

From S2P Require Export GenericController.
Open Scope Z_scope.

(** [%v] of an error that may be nil. *)
Definition Sprint_err (e : option error) : string :=
  match e with Some e => Error e | None => "<nil>" end.

(** An Upload the code holds a pointer to: a copy of its own, or the object in
    the informer's cache, which every reader of the cache shares. *)
Inductive home := Private | Cached.

(** The state a failed try leaves in [r.Status]: minutes until the next one. *)
Definition uploadBackOff (retry : Z) : Z :=
  (* int32(math.Exp2(float64(retry - 1))), at most UPLOAD_MAX_BACKOFF *)
  let e := int32 (retry - 1) in
  if e <? 0 then 0 else Z.min (2 ^ e) UPLOAD_MAX_BACKOFF.

Section UploadController.
Context `{Deps}.

Record uploadController := {
  uc_uploadClient : client;
  uc_nodeName : string;
  uc_dataMover : DataMover;
  uc_snapMgr : SnapshotManager;
  uc_externalDataMgr : bool;
}.

Context (c : uploadController).

(** ** Patching the status *)

(** The object [req] points to after the call, and the result. *)
Definition patchUpload (at_ : home) (req : Upload) (mutate : Upload → io Upload)
    : io (Upload * result Upload) :=
  PatchUpload req
    (λ r, let! r := mutate r in
          match at_ with
          | Private => Ret r
          | Cached => call (ListerWrite KUpload r) ;;; Ret r
          end)
    (uc_uploadClient c) (u_Namespace req).

Definition mutateDone (newPhase : UploadPhase) (msg : string) (r : Upload) : io Upload :=
  let! now := call Now in
  Ret (r <| u_Status; us_Phase := newPhase |>
         <| u_Status; us_CompletionTimestamp := Some now |>
         <| u_Status; us_Message := msg |>).

Definition mutateRetry (newPhase : UploadPhase) (msg : string) (r : Upload) : io Upload :=
  let! now := call Now in
  let retry := int32 (us_RetryCount (u_Status r) + 1) in
  let currentBackOff := uploadBackOff retry in
  let! now2 := call Now in
  Ret (r <| u_Status; us_Phase := newPhase |>
         <| u_Status; us_CompletionTimestamp := Some now |>
         <| u_Status; us_Message := msg |>
         <| u_Status; us_RetryCount := retry |>
         <| u_Status; us_CurrentBackOff := currentBackOff |>
         <| u_Status; us_NextRetryTimestamp := Some (now2 + currentBackOff * Minute) |>).

Definition mutateInProgress (newPhase : UploadPhase) (r : Upload) : io Upload :=
  let! r :=
    (if bool_decide (u_Phase r = UploadPhaseNew) then
       let! now := call Now in
       Ret (r <| u_Status; us_StartTimestamp := Some now |>
              <| u_Status; us_RetryCount := MIN_RETRY |>)
     else Ret r) in
  Ret (r <| u_Status; us_Phase := newPhase |>
         <| u_Status; us_ProcessingNode := uc_nodeName c |>).

Definition patchUploadByStatus (at_ : home) (req : Upload) (newPhase : UploadPhase) (msg : string)
    : io (Upload * result Upload) :=
  match newPhase with
  | UploadPhaseCompleted => patchUpload at_ req (mutateDone newPhase msg)
  | UploadPhaseUploadError | UploadPhaseCleanupFailed =>
      patchUpload at_ req (mutateRetry newPhase msg)
  | UploadPhaseInProgress => patchUpload at_ req (mutateInProgress newPhase)
  | UploadPhaseCanceled => patchUpload at_ req (mutateDone newPhase msg)
  | UploadPhaseCanceling => patchUpload at_ req (mutateDone newPhase msg)
  | UploadPhaseUploadFailedAfterRetry => patchUpload at_ req (mutateDone newPhase msg)
  | _ => Ret (req, Err (ErrorString "Unexpected upload phase"))
  end.

(** Every try patches the object the previous one left behind. *)
Definition patchUploadByStatusWithRetry (at_ : home) (req : Upload) (newPhase : UploadPhase)
    (msg : string) : io (result Upload) :=
  let! (_, r) := PollImmediate (RetryInterval * Second) (RetryInterval * RetryMaximum * Second)
    (λ req, let! (req, r) := patchUploadByStatus at_ req newPhase msg in
            match r with
            | Err _ => Ret (req, PollAgain)
            | Ok u => Ret (req, PollDone u)
            end) req in
  Ret r.

(** ** Cancellation *)

(** [req] is the object of the informer's cache. *)
Definition triggerUploadCancellation (req : Upload) : io (option error) :=
  match NewProtectedEntityIDFromString (us_SnapshotID (u_Spec req)) with
  | Err e => Ret (Some e)
  | Ok cancelPeId =>
      let! uploadStatus := IsUploading cancelPeId in
      if negb uploadStatus then Ret None
      else
        let? _ := patchUploadByStatusWithRetry Cached req UploadPhaseCanceling
            "Canceling on-going upload to repository." else e => Ret (Some e) in
        check! CancelUpload cancelPeId else e => Ret (Some e) in
        Ret None
  end.

(** ** Informer events *)

(** The node that should do the upload; [None] when it cannot be told. *)
Definition uploadNode (peID : PEID) : io (option string) :=
  let! r := RetrievePodNodesByVolumeId (GetID peID) in
  match r with
  | Ok node => Ret (Some node)
  | Err (NotFoundError _) => Ret (Some (uc_nodeName c))
  | Err _ => Ret None
  end.

(** What follows the switch on the phase of the record. *)
Definition enqueueActive (req : Upload) : io unit :=
  if us_UploadCancel (u_Spec req) then
    triggerUploadCancellation req ;;; Ret tt
  else
    let! now := call Now in
    match us_NextRetryTimestamp (u_Status req) with
    | None => Panic "nil pointer: Status.NextRetryTimestamp"
    | Some next =>
        if Unix now <? Unix next then Ret tt
        else if negb (uc_externalDataMgr c) then
          match NewProtectedEntityIDFromString (us_SnapshotID (u_Spec req)) with
          | Err _ => Ret tt
          | Ok peID =>
              let! node := uploadNode peID in
              match node with
              | Some node =>
                  if bool_decide (uc_nodeName c ≠ node) then Ret tt
                  else enqueue "upload" (u_Meta req)
              | None => Ret tt
              end
          end
        else enqueue "upload" (u_Meta req)
    end.

Definition enqueueUploadItem (req : Upload) : io unit :=
  match u_Phase req with
  | UploadPhaseUnset | UploadPhaseNew | UploadPhaseInProgress | UploadPhaseUploadError
  | UploadPhaseCleanupFailed | UploadPhaseCanceling => enqueueActive req
  | UploadPhaseCanceled => Ret tt
  | UploadPhaseCompleted =>
      let! now := call Now in
      match us_CompletionTimestamp (u_Status req) with
      | None => Panic "nil pointer: Status.CompletionTimestamp"
      | Some done =>
          if After now (done + DefaultCRCleanUpWindow * Hour) then
            call (DeleteObj (uc_uploadClient c) KUpload (u_Namespace req) (u_Name req)) ;;; Ret tt
          else Ret tt
      end
  | _ => Ret tt
  end.

(** ** Processing *)

(** The copy to the repository the Upload names. *)
Definition copyUpload (req : Upload) (peID : PEID) : io (result (result PEID)) :=
  let br := us_BackupRepositoryName (u_Spec req) in
  if bool_decide (br ≠ "") && bool_decide (br ≠ WithoutBackupRepository) then
    let? backupRepositoryCR := GetBackupRepositoryFromBackupRepositoryName br else e => Ret (Err e) in
    let! r := CopyToRepoWithBackupRepository (uc_dataMover c) peID backupRepositoryCR in
    Ret (Ok r)
  else
    let! r := CopyToRepo (uc_dataMover c) peID in
    Ret (Ok r).

(** The local snapshot could not be deleted: the phase says so and the queue
    retries. *)
Definition cleanupFailed (req : Upload) (peID : PEID) (e : error) : io (option error) :=
  let errMsg := "Failed to clean up local snapshot, " +:+ PEIDString peID +:+ ", error: "
                  +:+ Error e +:+ ". will retry." in
  let! r := patchUploadByStatusWithRetry Private req UploadPhaseCleanupFailed errMsg in
  Ret (Some (ErrorString
    (match r with
     | Err e => "Failed to patch Upload status with retry, errror: " +:+ Error e
     | Ok _ => errMsg
     end))).

(** A message with the error of the patch that was to record it. *)
Definition withPatchError (errMsg : string) (r : result Upload) : error :=
  ErrorString (match r with
               | Err e => errMsg +:+ ". " +:+ Error e
               | Ok _ => errMsg
               end).

(** What follows a copy that failed with [e]. *)
Definition uploadFailed (req : Upload) (peID : PEID) (e : error) : io (option error) :=
  if IsCanceled e then
    let? _ := patchUploadByStatusWithRetry Private req UploadPhaseCanceled
        "The upload was canceled." else e => Ret (Some e) in
    Ret None
  else
    let errMsg := "Failed to upload snapshot, " +:+ PEIDString peID
                    +:+ ", to durable object storage. " +:+ Error e in
    let! uploadCRRetryMaximum := GetUploadCRRetryMaximum None in
    if us_RetryCount (u_Status req) <? int32 uploadCRRetryMaximum then
      let! r := patchUploadByStatusWithRetry Private req UploadPhaseUploadError errMsg in
      Ret (Some (withPatchError errMsg r))
    else
      check! DeleteLocalSnapshot peID else e => cleanupFailed req peID e in
      let msg := "Successfully deleted local snapshot, " +:+ PEIDString peID in
      patchUploadByStatusWithRetry Private req UploadPhaseUploadFailedAfterRetry msg ;;;
      Ret None.

(** What follows a successful copy. *)
Definition uploadCopied (req : Upload) (peID : PEID) : io (option error) :=
  UnregisterOngoingUpload peID ;;;
  check! DeleteLocalSnapshot peID else e => (
    let errMsg := "Failed to clean up local snapshot after uploading snapshot, "
                    +:+ PEIDString peID +:+ ". " +:+ Error e in
    let! r := patchUploadByStatusWithRetry Private req UploadPhaseCleanupFailed errMsg in
    Ret (Some (withPatchError errMsg r))) in
  let? _ := patchUploadByStatusWithRetry Private req UploadPhaseCompleted "Upload completed"
    else e => Ret (Some (WithStack e)) in
  Ret None.

(** The record whose upload is over but for the local snapshot. *)
Definition retryCleanup (req : Upload) (peID : PEID) : io (option error) :=
  check! DeleteLocalSnapshot peID else e => cleanupFailed req peID e in
  patchUploadByStatusWithRetry Private req UploadPhaseCompleted
    ("Successfully deleted local snapshot, " +:+ PEIDString peID) ;;;
  Ret None.

(** The steps once the record is in progress (or its clean-up is retried). *)
Definition doUpload (req : Upload) : io (option error) :=
  match NewProtectedEntityIDFromString (us_SnapshotID (u_Spec req)) with
  | Err e =>
      let errMsg := "Failed to get PEID from SnapshotID, " +:+ us_SnapshotID (u_Spec req)
                      +:+ ". " +:+ Error e in
      let! r := patchUploadByStatusWithRetry Private req UploadPhaseUploadError errMsg in
      Ret (Some (withPatchError errMsg r))
  | Ok peID =>
      if bool_decide (u_Phase req = UploadPhaseCleanupFailed) then retryCleanup req peID
      else
        let? r := copyUpload req peID else e => Ret (Some e) in
        match r with
        | Err e => uploadFailed req peID e
        | Ok _ => uploadCopied req peID
        end
  end.

Definition processUpload (req : Upload) : io (option error) :=
  let? req := call (GetObj (uc_uploadClient c) KUpload (u_Namespace req) (u_Name req)) else e =>
    Ret (Some (WithStack e)) in
  if bool_decide (u_Phase req = UploadPhaseCanceled) then Ret None
  else if bool_decide (u_Phase req = UploadPhaseCanceling) then Ret None
  else if bool_decide (u_Phase req = UploadPhaseCompleted) then Ret None
  else if bool_decide (u_Phase req = UploadPhaseUploadFailedAfterRetry) then Ret None
  else
    let? req :=
      (if bool_decide (u_Phase req ≠ UploadPhaseInProgress)
          && bool_decide (u_Phase req ≠ UploadPhaseCleanupFailed)
       then patchUploadByStatusWithRetry Private req UploadPhaseInProgress ""
       else Ret (Ok req)) else e => Ret (Some (WithStack e)) in
    doUpload req.

(** A candidate that loses the lease while it works goes on in the background:
    [processErr] is still nil when RunOrDie returns. *)
Definition processUploadItem (key : string) : io (option error) :=
  match SplitMetaNamespaceKey key with
  | Err _ => Ret None
  | Ok (ns, name) =>
      let! r := call (ListerGet KUpload ns name) in
      match r with
      | Err e => if IsNotFound e then Ret None else Ret (Some (Wrap e "Failed to get Upload"))
      | Ok req =>
          match u_Phase req with
          | UploadPhaseUnset | UploadPhaseNew | UploadPhaseInProgress | UploadPhaseUploadError
          | UploadPhaseCleanupFailed | UploadPhaseCanceling =>
              if us_UploadCancel (u_Spec req) then
                triggerUploadCancellation req ;;; Ret None
              else
                let! l := call (RunOrDie ("upload-lease." +:+ name) ns (uc_nodeName c)) in
                match l with
                | LeaseHeldByOther => Ret None
                | LeaseHeld => processUpload req
                | LeaseLost => processUpload req ;;; Ret None
                end
          | _ => Ret None
          end
      end
  end.

(** The retry handler: the key comes back after the record's back-off. *)
Definition exponentialBackoffHandler (key : string) : io (option error) :=
  match SplitMetaNamespaceKey key with
  | Err _ => call (QueueForget "upload" key) ;;; Ret None
  | Ok (ns, name) =>
      let! r := call (ListerGet KUpload ns name) in
      match r with
      | Err e => if IsNotFound e then call (QueueForget "upload" key) ;;; Ret None
                 else Ret (Some (Wrap e "Failed to get Upload"))
      | Ok req =>
          call (QueueAddAfter "upload" key (us_CurrentBackOff (u_Status req) * Minute)) ;;;
          Ret None
      end
  end.

Definition NewUploadController : genericController := {|
  gc_queue := "upload";
  gc_syncHandler := processUploadItem;
  gc_retryHandler := exponentialBackoffHandler;
|}.
End UploadController.

(** ** Patching, for any monitor *)

Definition same_but_status (r r' : Upload) : Prop :=
  u_Spec r' = u_Spec r ∧ u_Meta r' = u_Meta r.

(** What a status patch to the phase [p] does to the fields that later code
    relies on: it records the time of the end, unless it is a start; the next try,
    the count and the back-off are kept, or set to proper values. *)
Definition stamped (p : UploadPhase) (r r' : Upload) : Prop :=
  let st := u_Status r in let st' := u_Status r' in
  (p = UploadPhaseInProgress ∧ us_CompletionTimestamp st' = us_CompletionTimestamp st ∨
   is_Some (us_CompletionTimestamp st')) ∧
  (us_NextRetryTimestamp st' = us_NextRetryTimestamp st ∨ is_Some (us_NextRetryTimestamp st')) ∧
  (us_RetryCount st' = us_RetryCount st ∨ - 2^31 ≤ us_RetryCount st' < 2^31) ∧
  (us_CurrentBackOff st' = us_CurrentBackOff st ∨ 0 ≤ us_CurrentBackOff st' ≤ UPLOAD_MAX_BACKOFF).

(** The patches that are sent for the record [req]: the first is computed from
    [req], the others from the object that the try before left. *)
Definition patch_of (req : Upload) (p : UploadPhase) (old new : Upload) : Prop :=
  same_but_status req old ∧ same_but_status req new ∧ u_Phase new = p ∧
  (old = req ∨ u_Phase old = p) ∧ stamped p old new.

Lemma uploadBackOff_bounds r : 0 ≤ uploadBackOff r ≤ UPLOAD_MAX_BACKOFF.
Proof.
  unfold uploadBackOff, UPLOAD_MAX_BACKOFF. destruct (Z.ltb_spec (int32 (r - 1)) 0); [lia|].
  pose proof (Z.pow_nonneg 2 (int32 (r - 1))). lia.
Qed.

Section patch.
Context `{Deps} {S : Type} (mon : monitor Cmd S) `{!Quiet mon} (c : uploadController).

(** What a mutation of the status does: no call of consequence, and the new
    object differs in its status alone and has the phase [p]. *)
Definition sets_phase (p : UploadPhase) (r : Upload) (m : io Upload) : Prop :=
  ∀ s, safe mon m (λ o s', match o with
    | Returned r' => s' = s ∧ same_but_status r r' ∧ u_Phase r' = p ∧ stamped p r r'
    | _ => False
    end) s.

Lemma sets_phase_mutateDone p msg r : sets_phase p r (mutateDone p msg r).
Proof.
  intros s. unfold mutateDone. cbn. intros now. quiet_step. do 3 (split; [done|]).
  unfold stamped. cbn. eauto 10.
Qed.

Lemma sets_phase_mutateRetry p msg r : sets_phase p r (mutateRetry p msg r).
Proof.
  intros s. unfold mutateRetry. cbn. intros now. quiet_step.
  intros now2. quiet_step. do 3 (split; [done|]).
  unfold stamped. cbn. pose proof (int32_range (us_RetryCount (u_Status r) + 1)).
  pose proof (uploadBackOff_bounds (int32 (us_RetryCount (u_Status r) + 1))). eauto 10.
Qed.

Lemma sets_phase_mutateInProgress r :
  sets_phase UploadPhaseInProgress r (mutateInProgress c UploadPhaseInProgress r).
Proof.
  intros s. unfold mutateInProgress. destruct (bool_decide _); cbn; [intros now; quiet_step|];
    (do 3 (split; [done|])); unfold stamped, MIN_RETRY; cbn; split_and!; auto with lia.
Qed.

Context (I : S → Prop) (R : Upload → S → Prop).

(** The monitor accepts a patch of the record [req] to the phase [p]. *)
Definition accepts_patch (req : Upload) (p : UploadPhase) : Prop :=
  ∀ s old new, I s → patch_of req p old new → ∀ r, ∃ s', mon s (result Upload) (PatchObj (uc_uploadClient c) KUpload (u_Namespace req) (u_Name req) old new) r
             = Next s' ∧ match r with Ok u => R u s' | Err _ => I s' end.

Definition accepts_writes (at_ : home) : Prop :=
  at_ = Cached → ∀ s new x, I s → mon s _ (ListerWrite KUpload new) x = Next s.

(** An object that is sent next for the record [req]. *)
Definition resent (req : Upload) (p : UploadPhase) (req' : Upload) : Prop :=
  same_but_status req req' ∧ (req' = req ∨ u_Phase req' = p).

Definition patched (req : Upload) (p : UploadPhase) (o : outcome (Upload * result Upload)) (s : S) : Prop :=
  match o with
  | Returned (req', r) =>
      resent req p req' ∧ match r with Ok u => R u s | Err _ => I s end
  | _ => False
  end.

Lemma safe_patchUpload at_ req0 req p mutate s :
  I s → accepts_patch req0 p → accepts_writes at_ → resent req0 p req →
  sets_phase p req (mutate req) →
  safe mon (patchUpload c at_ req mutate) (patched req0 p) s.
Proof.
  intros HI Hp Hw [[Hs Hm] Hor] Hmut. unfold patchUpload, PatchUpload. cbn.
  intros [e|]; quiet_step; cbn; [done|].
  eapply safe_seq.
  - apply safe_bind. eapply safe_mono; [apply Hmut|].
    intros [r'|w|w] s' Hr; [|done..]. cbn.
    instantiate (1 := λ o s', match o with
      | Returned r' => s' = s ∧ same_but_status req r' ∧ u_Phase r' = p ∧ stamped p req r'
      | _ => False end).
    destruct Hr as [-> Hr]. destruct at_; cbn; [done|].
    intros x. by rewrite Hw.
  - intros r' s' (-> & [Hs' Hm'] & Hph & Hst). cbn.
    assert (Hres : resent req0 p r') by (split; [split; congruence|by right]).
    intros [e|]; quiet_step; cbn; [done|].
    intros [e|]; quiet_step; cbn; [done|].
    intros r. destruct (Hp s req r' HI ltac:(split_and!; [done|apply Hres|done..]) r) as (s' & Hmon & Hr).
    rewrite Hm', Hm, Hmon. by destruct r.
  - done.
  - done.
Qed.

Lemma safe_patchUploadByStatus at_ req0 req p msg s :
  I s → accepts_patch req0 p → accepts_writes at_ → resent req0 p req →
  safe mon (patchUploadByStatus c at_ req p msg) (patched req0 p) s.
Proof.
  intros HI Hp Hw Hsame. unfold patchUploadByStatus.
  destruct p; try (by split);
    (eapply safe_patchUpload; [done..|];
     first [apply sets_phase_mutateDone | apply sets_phase_mutateRetry
           | apply sets_phase_mutateInProgress]).
Qed.

(** The rule for the patch with retries. *)
Lemma safe_patchUploadByStatusWithRetry at_ req p msg s :
  I s → accepts_patch req p → accepts_writes at_ →
  safe mon (patchUploadByStatusWithRetry c at_ req p msg) (λ o s', match o with
    | Returned (Ok u) => R u s'
    | Returned (Err _) => I s'
    | _ => False
    end) s.
Proof.
  intros HI Hp Hw. unfold patchUploadByStatusWithRetry. apply safe_bind.
  eapply safe_mono.
  - apply (safe_PollImmediate mon _ (λ st s, I s ∧ resent req p st)
      (λ o s', match o with
        | Returned (_, Ok u) => R u s' | Returned (_, Err _) => I s' | _ => False end)).
    + split; [done|]. split; [done|by left].
    + intros st s' [HI' Hst]. apply safe_bind. eapply safe_mono.
      { by apply (safe_patchUploadByStatus at_ req st p msg). }
      intros [[req' [u|e]]|w|w] s''; cbn; tauto.
  - intros [[req' [u|e]]|w|w] s'' H'; cbn; auto.
Qed.
End patch.
