(* ===== verification/UploadProtocol.v ===== *)
(** * What the upload controller promises

    The protocol a node follows when it processes an Upload, as a monitor over
    its calls, and the proof that [processUpload] follows it whatever its
    environment answers. *)

From S2P Require Export UploadController.
Open Scope Z_scope.

(** ** The protocol *)

(** A phase that ends the life of an Upload, or in which the cancellation is
    someone else's business. *)
Definition finished (p : UploadPhase) : bool :=
  match p with
  | UploadPhaseCanceled | UploadPhaseCanceling | UploadPhaseCompleted
  | UploadPhaseUploadFailedAfterRetry => true
  | _ => false
  end.

Section protocol.
Context `{Deps}.

(** What is known of one run: the record as the API server last answered it,
    the phase it was first read in, whether the server holds it as in
    progress, the ID of the entity that was answered for the one that the record names, whether its data reached
    the repository and whether its local snapshot is gone, the last phase written, and whether
    there was no local snapshot at some write. *)
Record upload_run := {
  ur_record : option Upload;
  ur_first : option UploadPhase;
  ur_started : bool;
  ur_entity : option PEID;
  ur_copied : bool;
  ur_cleaned : bool;
  ur_last : option UploadPhase;
  ur_was_clean : bool;
}.

Definition upload_start : upload_run :=
  {| ur_record := None; ur_first := None; ur_started := false; ur_entity := None; ur_copied := false;
     ur_cleaned := false; ur_last := None; ur_was_clean := false |}.

Definition on_read (u : Upload) (s : upload_run) : upload_run :=
  {| ur_record := Some u; ur_first := Some (u_Phase u);
     ur_started := bool_decide (u_Phase u = UploadPhaseInProgress); ur_entity := None; ur_copied := ur_copied s;
     ur_cleaned := ur_cleaned s; ur_last := ur_last s;
     ur_was_clean := ur_was_clean s |}.
Definition on_entity (r : result PE) (s : upload_run) : upload_run :=
  {| ur_record := ur_record s; ur_first := ur_first s; ur_started := ur_started s;
     ur_entity := match r with Ok pe => Some (PE_GetID pe) | Err _ => None end; ur_copied := ur_copied s;
     ur_cleaned := ur_cleaned s; ur_last := ur_last s;
     ur_was_clean := ur_was_clean s |}.
Definition on_copied (s : upload_run) : upload_run :=
  {| ur_record := ur_record s; ur_first := ur_first s; ur_started := ur_started s; ur_entity := ur_entity s; ur_copied := true;
     ur_cleaned := ur_cleaned s; ur_last := ur_last s;
     ur_was_clean := ur_was_clean s |}.
Definition on_cleaned (s : upload_run) : upload_run :=
  {| ur_record := ur_record s; ur_first := ur_first s; ur_started := ur_started s; ur_entity := ur_entity s; ur_copied := ur_copied s;
     ur_cleaned := true; ur_last := ur_last s;
     ur_was_clean := ur_was_clean s |}.
(** The record was read and is not finished. *)
Definition working (s : upload_run) : bool :=
  match ur_first s with Some p => negb (finished p) | None => false end.

(** The record says that only the local snapshot is left. *)
Definition cleaning (s : upload_run) : bool :=
  match ur_record s with
  | Some u => bool_decide (u_Phase u = UploadPhaseCleanupFailed)
  | None => false
  end.

(** An entity with the ID of the one answered. *)
Definition of_entity (s : upload_run) (pe : PE) : bool := bool_decide (ur_entity s = Some (PE_GetID pe)).

(** The entity that the record names. *)
Definition names (s : upload_run) (id : PEID) : bool :=
  match ur_record s with
  | Some u => match NewProtectedEntityIDFromString (us_SnapshotID (u_Spec u)) with
              | Ok peID => bool_decide (peID = id)
              | Err _ => false
              end
  | None => false
  end.

Definition names_snapshot (s : upload_run) (snap : string) : bool :=
  match ur_record s with
  | Some u => match NewProtectedEntityIDFromString (us_SnapshotID (u_Spec u)) with
              | Ok peID => bool_decide (SnapIDGetID (GetSnapshotID peID) = snap)
              | Err _ => false
              end
  | None => false
  end.

(** There is no local snapshot, or no longer one. *)
Definition clean (s : upload_run) : bool :=
  ur_cleaned s ||
  match ur_record s with
  | Some u => match NewProtectedEntityIDFromString (us_SnapshotID (u_Spec u)) with
              | Ok peID => negb (HasSnapshot peID)
              | Err _ => false
              end
  | None => false
  end.

Definition on_patch (p : UploadPhase) (r : result Upload) (s : upload_run) : upload_run :=
  {| ur_record := match r with Ok u => Some u | Err _ => ur_record s end;
     ur_first := ur_first s;
     ur_started := ur_started s || match r with
                                   | Ok _ => bool_decide (p = UploadPhaseInProgress)
                                   | Err _ => false
                                   end;
     ur_entity := None; ur_copied := ur_copied s; ur_cleaned := ur_cleaned s; ur_last := Some p; ur_was_clean := ur_was_clean s || clean s |}.

(** The phases that may be written. *)
Definition may_write (s : upload_run) (p : UploadPhase) : bool :=
  match p with
  | UploadPhaseInProgress =>
      negb (ur_copied s) && negb (ur_cleaned s) && negb (cleaning s)
  | UploadPhaseUploadError => negb (ur_copied s) && negb (ur_cleaned s)
  | UploadPhaseCanceled => negb (ur_copied s) && negb (ur_cleaned s) && negb (cleaning s)
  | UploadPhaseCleanupFailed => negb (ur_cleaned s)
  | UploadPhaseCompleted => (ur_copied s || cleaning s) && clean s
  | UploadPhaseUploadFailedAfterRetry => negb (ur_copied s) && clean s
  | _ => false
  end.

Definition check_ (b : bool) (s : upload_run) : verdict upload_run :=
  if b then Next s else Violation.

(** One read of the Upload; after it, calls with an effect only while the
    record is not finished, and only on the entity and the snapshot it names; a
    copy only of a record in progress; no write but patches of the Upload's
    status, each to a phase the run has earned. *)
Definition upload_protocol : monitor Cmd upload_run := λ s X e,
  match e in Cmd X return X → verdict upload_run with
  | GetObj _ k _ _ =>
      match k return result (obj k) → verdict upload_run with
      | KUpload => λ r,
          match ur_first s, r with
          | None, Ok u => Next (on_read u s)
          | None, Err _ => Next s
          | Some _, _ => Violation
          end
      | _ => λ _, Next s
      end
  | PatchObj _ k ns name old new =>
      match k return obj k → obj k → result (obj k) → verdict upload_run with
      | KUpload => λ old new r,
          check_ (working s && may_write s (u_Phase new)
                  && bool_decide (u_Spec new = u_Spec old ∧ u_Meta new = u_Meta old
                                  ∧ ns = u_Namespace old ∧ name = u_Name old))
            (on_patch (u_Phase new) r s)
      | _ => λ _ _ _, Violation
      end old new
  | PetmCopy m _ pe _ => λ r,
      check_ (negb (PETM_IsIVD m) && working s && negb (cleaning s) && ur_started s && of_entity s pe && negb (ur_copied s) && negb (ur_cleaned s))
        (match r with Ok _ => on_copied s | Err _ => s end)
  | PeListSnapshots pe => λ r,
      check_ (working s && of_entity s pe && negb (ur_cleaned s)) (match r with Ok [] => on_cleaned s | _ => s end)
  | PeDeleteSnapshot pe snap _ => λ r,
      check_ (working s && of_entity s pe && names_snapshot s (SnapIDGetID snap) && negb (ur_cleaned s))
        (match r with Ok _ => on_cleaned s | Err _ => s end)
  | Lock | Unlock => λ _, check_ (working s) s
  | WithCancel => λ _, check_ (working s) s
  | MapLoad id => λ _, check_ (working s && names s id) s
  | MapStore id _ | MapDelete id => λ _, check_ (working s && names s id) s
  | PemGetTypeManager _ => λ _, check_ (working s) s
  | PetmGetProtectedEntity _ id => λ r, check_ (working s && names s id) (on_entity r s)
  | e => λ _, check_ (reads e) s
  end.

#[export] Instance upload_protocol_quiet : Quiet upload_protocol.
Proof. solve_quiet. Qed.

Lemma upload_protocol_reads s X (e : Cmd X) x :
  reads e = true → upload_protocol s X e x = Next s.
Proof.
  destruct e; cbn; try congruence; try (intros ->); try done;
    destruct k; cbn; congruence.
Qed.

Lemma protocol_reads {A} (p : io A) s :
  calls_only (@reads _) p →
  safe upload_protocol p (λ o s', match o with Hung _ => False | _ => s' = s end) s.
Proof. apply safe_calls_only, upload_protocol_reads. Qed.

(** *** Callees *)

Lemma check_true b s : b = true → check_ b s = Next s.
Proof. by intros ->. Qed.

Lemma names_names_snapshot s id :
  names s id = true → names_snapshot s (SnapIDGetID (GetSnapshotID id)) = true.
Proof.
  unfold names, names_snapshot. destruct (ur_record s); [|done].
  destruct (NewProtectedEntityIDFromString _); [|done].
  intros ->%bool_decide_eq_true. by rewrite bool_decide_true.
Qed.

(** A run in which nothing is new but the entity that was answered. *)
Definition same_run (s s' : upload_run) : Prop := s' = s ∨ ∃ r, s' = on_entity r s.

(** What the clean-up of a run does to it. *)
Definition after_cleanup (s : upload_run) (peID : PEID) (o : outcome (option error)) (s' : upload_run) : Prop :=
  match o with
  | Returned None => (∃ r, s' = on_cleaned (on_entity r s)) ∨ (s' = s ∧ HasSnapshot peID = false)
  | Returned (Some _) => same_run s s'
  | Panicked _ => True
  | Hung _ => False
  end.

Lemma of_entity_refl pe s : of_entity (on_entity (Ok pe) s) pe = true.
Proof. by apply bool_decide_true. Qed.

(** A working run that has not cleaned up yet. *)
Lemma protocol_deleteSnapshotFromRepo peID m s :
  working s = true → names s peID = true → ur_cleaned s = false →
  safe upload_protocol (deleteSnapshotFromRepo peID m) (after_cleanup s peID) s.
Proof.
  intros Hw Hn Hc. unfold deleteSnapshotFromRepo, after_cleanup.
  destruct (HasSnapshot peID); cbn; [|by right].
  destruct m as [m|]; cbn; [|done].
  intros [pe|e]; rewrite check_true by (by rewrite Hw, Hn); cbn; [|right; by exists (Err e)].
  set (s1 := on_entity (Ok pe) s).
  assert (Hk : working s1 && of_entity s1 pe && negb (ur_cleaned s1) = true).
  { unfold s1. rewrite of_entity_refl. unfold working in *. cbn. by rewrite Hw, Hc. }
  intros [[|id ids]|e]; rewrite check_true by done; cbn; [left; by exists (Ok pe)| |right; by exists (Ok pe)].
  rewrite bool_decide_false by done. apply safe_bind. eapply safe_mono.
  - apply (safe_PollImmediate upload_protocol _ (λ _ s', s' = s1)
      (λ o s', match o with
        | Returned (_, Ok _) => s' = on_cleaned s1
        | Returned (_, Err _) => s' = s1
        | _ => False end)); [done|].
    intros _ s' ->. cbn. apply names_names_snapshot in Hn.
    assert (Hd : working s1 && of_entity s1 pe && names_snapshot s1 (SnapIDGetID (GetSnapshotID peID)) && negb (ur_cleaned s1) = true).
    { apply andb_true_iff in Hk as [-> ->]. change (names_snapshot s1) with (names_snapshot s). by rewrite Hn. }
    intros [b|e]; rewrite check_true by done; cbn; [done|].
    by destruct (Contains _ _).
  - intros [[[] [[]|e]]|w|w] s'; cbn; auto; [intros ->; left; by exists (Ok pe)|intros ->; right; by exists (Ok pe)].
Qed.

Lemma protocol_DeleteLocalSnapshot peID s :
  working s = true → names s peID = true → ur_cleaned s = false →
  safe upload_protocol (DeleteLocalSnapshot peID) (after_cleanup s peID) s.
Proof.
  intros Hw Hn Hc. unfold DeleteLocalSnapshot. cbn. intros m. rewrite check_true by done.
  by apply protocol_deleteSnapshotFromRepo.
Qed.

(** A patch to a phase the run has earned. *)
Lemma protocol_patch c req p msg s :
  working s = true → may_write s p = true →
  safe upload_protocol (patchUploadByStatusWithRetry c Private req p msg) (λ o s', match o with
    | Returned (Ok u) => s' = on_patch p (Ok u) s
    | Returned (Err e) => s' = s ∨ s' = on_patch p (Err ErrWaitTimeout) s
    | _ => False
    end) s.
Proof.
  intros Hw Hp.
  apply (safe_patchUploadByStatusWithRetry upload_protocol c
    (λ s', s' = s ∨ s' = on_patch p (Err ErrWaitTimeout) s)
    (λ u s', s' = on_patch p (Ok u) s)); [by left| |done].
  intros s' old new Hs' ([Hspec Hmeta] & [Hspec' Hmeta'] & Hph & _) r. exists (on_patch p r s). split.
  - cbn. rewrite Hph, Hmeta, Hmeta', Hspec, Hspec'. rewrite bool_decide_true by done.
    destruct Hs' as [-> | ->].
    + by rewrite Hw, Hp.
    + unfold check_, may_write, cleaning, clean, working in *. cbn. rewrite Hp.
      destruct (ur_first s) as [q|]; [|done]. rewrite Hw. cbn. f_equal.
      unfold on_patch, clean. cbn. f_equal; [by rewrite orb_false_r|].
      destruct (ur_was_clean s), (ur_cleaned s), (ur_record s) as [u|]; cbn; try done;
        try by destruct (NewProtectedEntityIDFromString _).
      destruct (NewProtectedEntityIDFromString _); cbn; [|done]. by destruct (HasSnapshot _).
  - destruct r; [done|by right].
Qed.

(** *** The copy *)

(** A run that may copy the entity [id]. *)
Definition may_copy (s : upload_run) (id : PEID) : Prop :=
  working s = true ∧ cleaning s = false ∧ ur_started s = true ∧ names s id = true ∧
  ur_copied s = false ∧ ur_cleaned s = false.

Definition after_copy {A} (s : upload_run) (o : outcome (result A)) (s' : upload_run) : Prop :=
  match o with
  | Returned (Ok _) => ∃ r, s' = on_copied (on_entity r s)
  | Returned (Err _) => same_run s s'
  | Panicked _ => working s' = true
  | Hung _ => False
  end.

Lemma protocol_copyToRepo d peID m s :
  may_copy s peID → safe upload_protocol (copyToRepo d peID m) (after_copy s) s.
Proof.
  intros (Hw & Hc & Hs & Hn & Hcp & Hcl). unfold copyToRepo, RegisterOngoingUpload. cbn.
  intros [pe|e]; rewrite check_true by (by rewrite Hw, Hn); cbn; [|right; by exists (Err e)].
  set (s1 := on_entity (Ok pe) s).
  intros f. change (working s1) with (working s). change (names s1) with (names s). rewrite check_true by done. cbn.
  intros []. change (working s1) with (working s). change (names s1) with (names s).
  rewrite check_true by (by rewrite Hw, Hn). cbn.
  change (working s1) with (working s). change (cleaning s1) with (cleaning s). unfold s1. rewrite of_entity_refl. cbn.
  rewrite S3_not_ivd, Hw, Hc, Hs, Hcp, Hcl. intros [pe'|e]; cbn; [by exists (Ok pe)|right; by exists (Ok pe)].
Qed.

(** A body under the mutex that first finds its repository. *)
Lemma protocol_withLock (find : io (result S3PETM)) d peID s :
  may_copy s peID → calls_only (@reads _) find →
  safe upload_protocol
    (withReloadConfigLock (let? m := find else e => Ret (Err e) in copyToRepo d peID m))
    (after_copy s) s.
Proof.
  intros Hcp Hf. pose proof Hcp as (Hw & _).
  unfold withReloadConfigLock. cbn. intros []. rewrite check_true by done.
  apply safe_defer. eapply (safe_mono _ _ (after_copy s)).
  - eapply safe_seq; [by apply (protocol_reads find)|..].
    + intros [m|e] s' ->; [by apply protocol_copyToRepo|by left].
    + by intros w s' ->.
    + done.
  - intros [[id|e]|w|w] s'; cbn; [intros [r ->]|intros [-> |[r ->]]|intros Hs'|done];
      intros []; rewrite check_true by done; cbn; eauto; [by left|right; by exists r].
Qed.

Lemma protocol_copyUpload c req peID s :
  may_copy s peID →
  safe upload_protocol (copyUpload c req peID) (λ o s', match o with
    | Returned (Ok (Ok _)) => ∃ r, s' = on_copied (on_entity r s)
    | Returned _ => same_run s s'
    | Panicked _ => True
    | Hung _ => False
    end) s.
Proof.
  intros Hcp. unfold copyUpload.
  assert (Hgo : ∀ p : io (result PEID), safe upload_protocol p (after_copy s) s →
    safe upload_protocol (let! r := p in Ret (Ok r)) (λ o s', match o with
      | Returned (Ok (Ok _)) => ∃ r, s' = on_copied (on_entity r s) | Returned _ => same_run s s'
      | Panicked _ => True | Hung _ => False end) s).
  { intros p Hp. eapply safe_seq; [exact Hp|..]; [by intros [] s' ?|done|done]. }
  destruct (_ && _).
  - eapply safe_seq; [apply protocol_reads; auto with calls|..]; [|done|done].
    intros [br|e] s' ->; [|by left]. apply Hgo, protocol_withLock; auto with calls.
  - apply Hgo, protocol_withLock; auto with calls.
Qed.

(** *** The handler *)

(** A nil result, on which the queue forgets the key, means that the record was
    finished when it was read, that its local snapshot is gone, or that the
    cancellation was recorded. *)
Definition upload_settled (s : upload_run) : Prop :=
  match ur_first s with Some p => finished p = true | None => False end
  ∨ ur_was_clean s = true ∨ clean s = true ∨ ur_last s = Some UploadPhaseCanceled.

Definition upload_done (o : outcome (option error)) (s : upload_run) : Prop :=
  match o with
  | Returned None => upload_settled s
  | Returned (Some _) | Panicked _ => True
  | Hung _ => False
  end.

Ltac patch_step :=
  eapply safe_seq; [apply protocol_patch; [done|]|..]; [| |done|done].

Lemma protocol_cleanupFailed c req peID e s :
  working s = true → ur_cleaned s = false →
  safe upload_protocol (cleanupFailed c req peID e) upload_done s.
Proof.
  intros Hw Hc. unfold cleanupFailed. patch_step; [by cbn; rewrite Hc|done].
Qed.

(** The record of the run, and the entity it names. *)
Definition on_record (req : Upload) (peID : PEID) (s : upload_run) : Prop :=
  working s = true ∧ ur_record s = Some req ∧ ur_cleaned s = false ∧
  NewProtectedEntityIDFromString (us_SnapshotID (u_Spec req)) = Ok peID.

Lemma on_record_same req peID s s' : same_run s s' → on_record req peID s → on_record req peID s'.
Proof. by intros [-> |[r ->]]. Qed.

(** The local snapshot, and then the phase [p] that records its end. *)
Lemma protocol_delete_then req peID (fail : error → io (option error)) (ok : io (option error)) s :
  on_record req peID s →
  (∀ e s', same_run s s' → safe upload_protocol (fail e) upload_done s') →
  (∀ s', working s' = true → clean s' = true → ur_copied s' = ur_copied s →
     ur_record s' = ur_record s → safe upload_protocol ok upload_done s') →
  safe upload_protocol (check! DeleteLocalSnapshot peID else e => fail e in ok) upload_done s.
Proof.
  intros (Hw & Hu & Hc & Hid) Hfail Hok.
  eapply safe_seq; [apply protocol_DeleteLocalSnapshot; [done| |done]|..]; [| |done|done].
  { unfold names. by rewrite Hu, Hid, bool_decide_true. }
  intros [e|] s'; [intros Hs; by apply Hfail|].
  intros [[r ->] | [-> Hs]]; apply Hok; try done.
  unfold clean. by rewrite Hu, Hid, Hs, orb_true_r.
Qed.

Lemma settled_patch p r s : clean s = true → upload_settled (on_patch p r s).
Proof. intros H'. right; left. cbn. rewrite H'. apply orb_true_r. Qed.

(** A last patch whose result does not matter, once the snapshot is gone. *)
Lemma protocol_final_patch c req p msg s :
  working s = true → may_write s p = true → clean s = true →
  safe upload_protocol (patchUploadByStatusWithRetry c Private req p msg ;;; Ret None)
    upload_done s.
Proof.
  intros Hw Hp Hc. patch_step; [done|].
  intros [u|e] s'; cbn; [intros ->; by apply settled_patch|].
  intros [-> | ->]; [by right; right; left|by apply settled_patch].
Qed.

Lemma protocol_retryCleanup c req peID s :
  on_record req peID s → u_Phase req = UploadPhaseCleanupFailed →
  safe upload_protocol (retryCleanup c req peID) upload_done s.
Proof.
  intros (Hw & Hr & Hc & Hid) Hph. unfold retryCleanup.
  apply (protocol_delete_then req); [done|..].
  - intros e s' (Hw' & _ & Hc' & _)%(on_record_same req peID); [|done]. by apply protocol_cleanupFailed.
  - intros s' Hw' Hc' _ Hr'. apply protocol_final_patch; [done| |done].
    cbn. unfold cleaning. rewrite Hr', Hr, Hph, bool_decide_true, Hc' by done.
    by rewrite orb_true_r.
Qed.

Lemma protocol_uploadCopied c req peID s :
  on_record req peID s → ur_copied s = true →
  safe upload_protocol (uploadCopied c req peID) upload_done s.
Proof.
  intros (Hw & Hr & Hc & Hid) Hcp. unfold uploadCopied, UnregisterOngoingUpload.
  assert (Hn : names s peID = true).
  { unfold names. by rewrite Hr, Hid, bool_decide_true. }
  cbn. intros m. rewrite check_true by (by rewrite Hw, Hn).
  enough (Hgo : safe upload_protocol (check! DeleteLocalSnapshot peID else e => (
      let errMsg := "Failed to clean up local snapshot after uploading snapshot, "
                    +:+ PEIDString peID +:+ ". " +:+ Error e in
      let! r := patchUploadByStatusWithRetry c Private req UploadPhaseCleanupFailed errMsg in
      Ret (Some (withPatchError errMsg r))) in
    let? _ := patchUploadByStatusWithRetry c Private req UploadPhaseCompleted "Upload completed"
      else e => Ret (Some (WithStack e)) in
    Ret None) upload_done s).
  { destruct m as [f|]; cbn; [intros []; rewrite check_true by (by rewrite Hw, Hn)|]; exact Hgo. }
  apply (protocol_delete_then req); [done|..].
  - intros e s' (Hw' & _ & Hc' & _)%(on_record_same req peID); [|done].
    eapply safe_seq; [apply protocol_patch; [done|by cbn; rewrite Hc']|..]; done.
  - intros s' Hw' Hc' Hcp' Hr'. patch_step; [by cbn; rewrite Hcp', Hcp, Hc'|].
    intros [u|e'] s''; [|done]. cbn. intros ->. by apply settled_patch.
Qed.

Lemma protocol_uploadFailed c req peID e s :
  on_record req peID s → ur_copied s = false → cleaning s = false →
  safe upload_protocol (uploadFailed c req peID e) upload_done s.
Proof.
  intros (Hw & Hr & Hc & Hid) Hcp Hcl. unfold uploadFailed. destruct (IsCanceled e).
  - patch_step; [by cbn; rewrite Hcp, Hc, Hcl|].
    intros [u|e'] s''; [|done]. cbn. intros ->. by right; right; right.
  - eapply safe_seq; [apply protocol_reads; auto with calls|..]; [|done|done].
    intros mx s' ->. destruct (_ <? _).
    + patch_step; [by cbn; rewrite Hcp, Hc|done].
    + apply (protocol_delete_then req); [done|..].
      * intros e' s' (Hw' & _ & Hc' & _)%(on_record_same req peID); [|done]. by apply protocol_cleanupFailed.
      * intros s' Hw' Hc' Hcp' Hr'. apply protocol_final_patch; [done| |done].
        by cbn; rewrite Hcp', Hcp, Hc'.
Qed.

Lemma protocol_doUpload c req s :
  working s = true → ur_record s = Some req → ur_copied s = false → ur_cleaned s = false →
  (ur_started s = true ∨ u_Phase req = UploadPhaseCleanupFailed) →
  safe upload_protocol (doUpload c req) upload_done s.
Proof.
  intros Hw Hr Hcp Hc Hst. unfold doUpload.
  destruct (NewProtectedEntityIDFromString _) as [peID|e] eqn:Hid.
  - assert (on_record req peID s) by done.
    destruct (bool_decide _) eqn:Hph.
    { apply bool_decide_eq_true in Hph. by apply protocol_retryCleanup. }
    assert (cleaning s = false) by (unfold cleaning; by rewrite Hr).
    apply bool_decide_eq_false in Hph. destruct Hst as [Hst|]; [|done].
    eapply safe_seq; [apply (protocol_copyUpload c req peID)|..]; [| |done|done].
    { split_and!; try done. unfold names. by rewrite Hr, Hid, bool_decide_true. }
    intros [[id|e]|e] s'; [intros [r ->]|intros Hs|done].
    + by apply protocol_uploadCopied.
    + apply protocol_uploadFailed; [by eapply on_record_same|..]; by destruct Hs as [-> |[r ->]].
  - patch_step; [by cbn; rewrite Hcp, Hc|done].
Qed.
End protocol.

(** ** The handler follows the protocol *)

Lemma processUpload_follows `{Deps} (c : uploadController) (req : Upload) :
  safe upload_protocol (processUpload c req) upload_done upload_start.
Proof.
  unfold processUpload. cbn. intros [u|e]; [|done]. cbn.
  destruct (finished (u_Phase u)) eqn:Hf.
  { destruct (u_Phase u) eqn:Hph; try done; cbn; left; cbn; by rewrite Hph. }
  set (s := on_read u upload_start).
  assert (Hw : working s = true) by (cbn; by rewrite Hf).
  rewrite !(bool_decide_false (u_Phase u = _)) by (intros Hph; by rewrite Hph in Hf).
  destruct (_ && _) eqn:Hp.
  - apply andb_prop in Hp as [_ Hp%bool_decide_eq_true].
    eapply safe_seq; [apply (protocol_patch c u UploadPhaseInProgress); [done|]|..]; [|..|done|done].
    { cbn. by rewrite bool_decide_false. }
    intros [u'|e] s'; [|done]. cbn. intros ->. apply protocol_doUpload; try done. left.
    cbn. by rewrite orb_true_r.
  - apply protocol_doUpload; try done. cbn.
    apply andb_false_iff in Hp as [Hp|Hp]; apply bool_decide_eq_false, dec_stable in Hp; auto.
    left. by rewrite bool_decide_true.
Qed.

(** C1.  Whatever the API servers, the repositories and the other
    nodes answer, [processUpload] reads the Upload once; it touches nothing when
    the record is finished; it copies only a record that the server
    holds as in progress, at most once with success, to an S3 repository, and only the entity
    answered for the ID that the record names; it lists the snapshots of that entity alone, and
    deletes only the one named, none of it once the snapshot is gone; it writes [Completed] only after the data was copied, or for a record it found
    in [CleanupFailed], and once the local snapshot is gone,
    [UploadFailedAfterRetry] only without a copy and with the local snapshot
    gone, [CleanupFailed] only while the local snapshot is left, [UploadError]
    and [Canceled] only when nothing was copied; it never waits for ever; and it
    answers nil only for a settled record. *)
Theorem processUpload_protocol `{Deps} (c : uploadController) (req : Upload) :
  safe upload_protocol (processUpload c req) upload_done upload_start.
Proof. apply processUpload_follows. Qed.
