(* ===== verification/UploadRetry.v ===== *)
(** * Retries, back-off and cancellation of uploads

    What a failed try records, when the controller gives up, what the retries of
    a patch send, when a record is queued, and what a cancellation does. *)

From S2P Require Export UploadController.
Open Scope Z_scope.

(** ** Back-off *)

Lemma uploadBackOff_pos retry :
  1 ≤ retry < 2^31 → 1 ≤ uploadBackOff retry ∧
  uploadBackOff retry = Z.min (2 ^ (retry - 1)) UPLOAD_MAX_BACKOFF.
Proof.
  intros Hr. unfold uploadBackOff, UPLOAD_MAX_BACKOFF. rewrite int32_id by lia.
  destruct (_ <? _) eqn:He; [apply Z.ltb_lt in He; lia|].
  pose proof (Z.pow_pos_nonneg 2 (retry - 1)). split; lia.
Qed.

(** The back-off of the tries 1, 2, 3, ... doubles from one
    minute, never shrinks and stays at 60 minutes from the seventh try on. *)
Theorem uploadBackOff_monotone r1 r2 :
  1 ≤ r1 → r1 ≤ r2 → r2 < 2^31 →
  1 ≤ uploadBackOff r1 ≤ uploadBackOff r2 ∧ uploadBackOff r2 ≤ 60 ∧
  (r1 ≤ 6 → uploadBackOff r1 = 2 ^ (r1 - 1)) ∧ (7 ≤ r1 → uploadBackOff r1 = 60).
Proof.
  intros H1 H2 H3.
  destruct (uploadBackOff_pos r1) as [Hp1 ->]; [lia|].
  destruct (uploadBackOff_pos r2) as [Hp2 ->]; [lia|].
  destruct (uploadBackOff_pos r1) as [Hp1' He1]; [lia|].
  pose proof (Z.pow_le_mono_r 2 (r1 - 1) (r2 - 1)). unfold UPLOAD_MAX_BACKOFF in *.
  split_and!; try lia.
  - intros H6. pose proof (Z.pow_le_mono_r 2 (r1 - 1) 5). lia.
  - intros H7. pose proof (Z.pow_le_mono_r 2 6 (r1 - 1)). lia.
Qed.

Example uploadBackOff_monotone_witness :
  1 ≤ uploadBackOff 3 ≤ uploadBackOff 9 ∧ uploadBackOff 9 ≤ 60 ∧
  (3 ≤ 6 → uploadBackOff 3 = 2 ^ (3 - 1)) ∧ (7 ≤ 3 → uploadBackOff 3 = 60).
Proof. apply (uploadBackOff_monotone 3 9); lia. Defined.

Section retry.
Context `{Deps}.

(** What a failed try leaves in the status, for the status [st] it found, at the
    time [now]. *)
Definition records_retry (st st' : UploadStatus) (p : UploadPhase) (msg : string) (now : time)
    : Prop :=
  us_Phase st' = p ∧ us_Message st' = msg ∧
  us_RetryCount st' = int32 (us_RetryCount st + 1) ∧
  0 ≤ us_CurrentBackOff st' ≤ 60 ∧
  (0 ≤ us_RetryCount st < 2^31 - 1 →
     us_RetryCount st' = us_RetryCount st + 1 ∧ 1 ≤ us_CurrentBackOff st') ∧
  us_NextRetryTimestamp st' = Some (now + us_CurrentBackOff st' * Minute).

(** The times the clock showed, the last one first; no other call. *)
Definition clock : monitor Cmd (list time) := λ s X e,
  match e in Cmd X return X → verdict (list time) with
  | Now => λ t, Next (t :: s)
  | _ => λ _, Violation
  end.

(** The status a failed try records: the new phase and
    message, one more retry (in 32 bits), a back-off of at most an hour, at
    least a minute unless the counter has overflowed, and a next try that is
    the back-off away from the time the clock showed last.  Metadata and
    specification stay, and nothing but the clock is read. *)
Theorem mutateRetry_record p msg r :
  safe clock (mutateRetry p msg r) (λ o times, match o, times with
    | Returned r', [now2; now1] =>
        same_but_status r r' ∧ records_retry (u_Status r) (u_Status r') p msg now2
        ∧ us_CompletionTimestamp (u_Status r') = Some now1
    | _, _ => False
    end) [].
Proof.
  unfold mutateRetry. cbn. intros now now2.
  pose proof (uploadBackOff_bounds (int32 (us_RetryCount (u_Status r) + 1))).
  unfold UPLOAD_MAX_BACKOFF, records_retry in *. cbn. split_and!; try done; try lia.
  intros Hr. rewrite !int32_id by lia. split; [done|].
  apply uploadBackOff_pos. lia.
Qed.

(** ** Giving up *)

(** The maximum the configuration sets, as far as it was read. *)
Definition configured_maximum (r : result ConfigMap) : Z :=
  match r with
  | Ok cm => match cm_Data cm !! UploadCRRetryMaximumKey with
             | Some s => default DefaultUploadCRRetryMaximum (Atoi s)
             | None => DefaultUploadCRRetryMaximum
             end
  | Err _ => DefaultUploadCRRetryMaximum
  end.

(** The maximum, the tries of the present poll that are left, and what the server recorded. *)
Record giving_up := { gu_maximum : Z; gu_left : nat; gu_recorded : option UploadPhase }.

Definition not_given_up : giving_up :=
  {| gu_maximum := DefaultUploadCRRetryMaximum; gu_left := 1; gu_recorded := None |}.

Definition with_left (n : nat) (s : giving_up) : giving_up :=
  {| gu_maximum := gu_maximum s; gu_left := n; gu_recorded := gu_recorded s |}.

Definition with_maximum (mx : Z) (s : giving_up) : giving_up :=
  {| gu_maximum := mx; gu_left := gu_left s; gu_recorded := gu_recorded s |}.

(** An answer to a step of a try. *)
Definition on_try (e : option error) (s : giving_up) : giving_up :=
  match e with Some _ => with_left (pred (gu_left s)) s | None => s end.

Definition on_recorded (p : UploadPhase) (r : result Upload) (s : giving_up) : giving_up :=
  match r with
  | Ok _ => {| gu_maximum := gu_maximum s; gu_left := gu_left s; gu_recorded := Some p |}
  | Err e => on_try (Some e) s
  end.

(** Another try is recorded only below the maximum, and the local snapshot is deleted, and the
    end of the upload recorded, only once it is reached. *)
Definition may_end (cnt : Z) (s : giving_up) (p : UploadPhase) : bool :=
  match p with
  | UploadPhaseUploadError => cnt <? int32 (gu_maximum s)
  | UploadPhaseCleanupFailed | UploadPhaseUploadFailedAfterRetry => int32 (gu_maximum s) <=? cnt
  | _ => false
  end.

Definition retry_limit (cnt : Z) : monitor Cmd giving_up := λ s X e,
  match e in Cmd X return X → verdict giving_up with
  | GetObj _ k _ _ =>
      match k return result (obj k) → verdict giving_up with
      | KConfigMap => λ r, Next (with_maximum (configured_maximum r) s)
      | _ => λ _, Next s
      end
  | PeDeleteSnapshot _ _ _ => λ _, if int32 (gu_maximum s) <=? cnt then Next s else Violation
  | PollTicks _ _ => λ n, Next (with_left (S n) s)
  | MarshalJSON _ _ | CreateMergePatch _ _ _ => λ e, Next (on_try e s)
  | PatchObj _ k _ _ old new =>
      match k return obj k → obj k → result (obj k) → verdict giving_up with
      | KUpload => λ old new r,
          if may_end cnt s (u_Phase new) then Next (on_recorded (u_Phase new) r s) else Violation
      | _ => λ _ _ _, Violation
      end old new
  | _ => λ _, Next s
  end.

(** It was recorded that the upload ends so, or every try of the last poll failed. *)
Definition recorded_or_tried (p : UploadPhase) (s : giving_up) : Prop :=
  gu_recorded s = Some p ∨ gu_left s = O.

Lemma retry_limit_maximum cnt s :
  safe (retry_limit cnt) (GetUploadCRRetryMaximum None)
    (λ o s', ∃ mx, o = Returned mx ∧ s' = with_maximum mx s) (with_maximum DefaultUploadCRRetryMaximum s).
Proof.
  unfold GetUploadCRRetryMaximum, GetUploadCRRetryMaximumFromConfig, configOr,
    GetKubeClientConfig, GetKubeClientSet, veleroNamespaceOrDefault, GetVeleroNamespace.
  cbn. intros [cfg|e]; cbn; [|eauto]. intros [c|e]; cbn; [|eauto].
  intros ns [cm|e]; cbn; [|eauto]. destruct (_ !! _); cbn; eauto.
Qed.

(** A try fails at one step, or the server records the phase. *)
Definition after_try (p : UploadPhase) (s : giving_up) (o : outcome (Upload * result Upload)) (s' : giving_up) : Prop :=
  match o with
  | Returned (_, Ok u) => s' = on_recorded p (Ok u) s
  | Returned (_, Err e) => s' = on_try (Some e) s
  | _ => False
  end.

Definition sets (cnt : Z) (p : UploadPhase) (m : io Upload) : Prop :=
  ∀ s, safe (retry_limit cnt) m (λ o s', match o with Returned r => s' = s ∧ u_Phase r = p | _ => False end) s.

Lemma sets_mutateDone cnt p msg r : sets cnt p (mutateDone p msg r).
Proof. by intros s now. Qed.
Lemma sets_mutateRetry cnt p msg r : sets cnt p (mutateRetry p msg r).
Proof. by intros s now now2. Qed.

Lemma retry_limit_try cnt c req p mutate s :
  may_end cnt s p = true → sets cnt p (mutate req) →
  safe (retry_limit cnt) (patchUpload c Private req mutate) (after_try p s) s.
Proof.
  intros Hp Hm. unfold patchUpload, PatchUpload. intros [e|]; [done|]. cbn [on_try bind call].
  apply safe_bind_bind. eapply safe_seq; [apply Hm| |done..]. intros r s' [-> Hr]. cbn.
  intros [e|]; [done|]. cbn. intros [e|]; [done|]. cbn. intros u. rewrite Hr, Hp. by destruct u.
Qed.

(** The tries of a poll. *)
Lemma retry_limit_patch c cnt req p msg s :
  may_end cnt s p = true →
  safe (retry_limit cnt) (patchUploadByStatusWithRetry c Private req p msg)
    (λ o s', match o with Returned _ => gu_maximum s' = gu_maximum s ∧ recorded_or_tried p s' | _ => False end) s.
Proof.
  intros Hp. unfold patchUploadByStatusWithRetry. apply safe_bind. intros n. cbn.
  eapply safe_mono.
  - apply (safe_poll_count _ _ (λ n _ s', gu_left s' = n ∧ gu_maximum s' = gu_maximum s) (λ o s', match o with
      | Returned _ => gu_maximum s' = gu_maximum s ∧ recorded_or_tried p s' | _ => False end)); [done|].
    intros m st s' [Hl Hm]. apply safe_bind.
    assert (Hp' : may_end cnt s' p = true) by (revert Hp; unfold may_end; by rewrite Hm).
    eapply (safe_mono _ _ (after_try p s')).
    + destruct p; try done; (apply retry_limit_try; [exact Hp'|apply sets_mutateDone || apply sets_mutateRetry]).
    + intros [[req' [u|e]]|w|w] s''; cbn; [|intros ->|done|done].
      * intros ->. split; [exact Hm|by left].
      * cbn. rewrite Hl. split; [by split|]. intros ->. split; [exact Hm|by right].
  - by intros [[req' r]|w|w] s'.
Qed.

(** What deletes the local snapshot. *)
Definition deletes {X} (e : Cmd X) : bool :=
  match e with
  | MarshalJSON _ _ | CreateMergePatch _ _ _ | PatchObj _ _ _ _ _ _ => false
  | GetObj _ KConfigMap _ _ => false | _ => true
  end.

Lemma retry_limit_delete cnt peID s :
  int32 (gu_maximum s) ≤ cnt →
  safe (retry_limit cnt) (DeleteLocalSnapshot peID)
    (λ o s', match o with Hung _ => False | _ => gu_maximum s' = gu_maximum s end) s.
Proof.
  intros Hle. eapply (safe_mono _ _ (λ o s', gu_maximum s' = gu_maximum s ∧ match o with Hung _ => False | _ => True end));
    [|by intros [a|w|w] s' [Hs Ho]].
  apply (safe_calls_keep (@deletes) _ (λ s', gu_maximum s' = gu_maximum s)); [|done|].
  - intros s' X e x Hs He. destruct e; try done; cbn; [|by rewrite Hs, (proj2 (Z.leb_le _ _) Hle)].
    by destruct k.
  - unfold DeleteLocalSnapshot, deleteSnapshotFromRepo. calls_all.
Qed.

(** How it ends: below the maximum with an error, another try being recorded or every try to
    record it failed; from the maximum on with the end of the upload recorded, or every try
    failed. *)
Definition retried_or_ended (cnt : Z) (o : outcome (option error)) (s : giving_up) : Prop :=
  match o with
  | Returned r =>
      if cnt <? int32 (gu_maximum s) then is_Some r ∧ recorded_or_tried UploadPhaseUploadError s
      else recorded_or_tried UploadPhaseUploadFailedAfterRetry s ∨ recorded_or_tried UploadPhaseCleanupFailed s
  | Panicked _ => int32 (gu_maximum s) ≤ cnt
  | Hung _ => False
  end.


(** ** The retries of a patch *)

(** The state says whether a patch was sent: every later one must be computed
    from an object that already has the phase it is to set. *)
Definition resend : monitor Cmd bool := λ sent X e,
  match e in Cmd X return X → verdict bool with
  | PatchObj _ k _ _ old new =>
      match k return obj k → obj k → result (obj k) → verdict bool with
      | KUpload => λ old new _,
          if sent && negb (bool_decide (u_Phase old = u_Phase new)) then Violation
          else Next true
      | _ => λ _ _ _, Next sent
      end old new
  | _ => λ _, Next sent
  end.

#[export] Instance resend_quiet : Quiet resend.
Proof. solve_quiet. Qed.

Lemma resend_patchUpload c at_ req mutate p (sent : bool) :
  (sent = true → u_Phase req = p) → sets_phase resend p req (mutate req) →
  safe resend (patchUpload c at_ req mutate) (λ o s', match o with
    | Returned (req', r) => s' = true → u_Phase req' = p
    | _ => False
    end) sent.
Proof.
  intros Hsent Hmut. unfold patchUpload, PatchUpload. cbn. intros [e|]; cbn; [done|].
  eapply (safe_seq _ _ _ _ (λ o s', match o with
    | Returned r' => s' = sent ∧ u_Phase r' = p | _ => False end)); [| |done|done].
  - apply safe_bind. eapply safe_mono; [apply Hmut|].
    intros [r'|w|w] s'; [|done..]. intros (-> & _ & Hph & _). destruct at_; cbn; auto.
  - intros r' s' [-> Hph]. cbn. intros [e|]; cbn; [done|]. intros [e|]; cbn; [done|].
    intros r. rewrite Hph. destruct sent; cbn.
    + rewrite (Hsent eq_refl), bool_decide_true by done. destruct r; cbn; auto.
    + destruct r; cbn; auto.
Qed.

(** Every retry of the patch of a status is computed from an object
    that already has the new phase, because the previous try has changed it in
    place: the merge patch of a retry does not carry the phase. *)
Theorem retried_patch_omits_phase c at_ req p msg :
  safe resend (patchUploadByStatusWithRetry c at_ req p msg) (λ o _, match o with
    | Returned _ => True | _ => False end) false.
Proof.
  unfold patchUploadByStatusWithRetry. apply safe_bind. eapply safe_mono.
  - apply (safe_PollImmediate resend _ (λ st s, s = true → u_Phase st = p)
      (λ o _, match o with Returned _ => True | _ => False end)); [done|].
    intros st s HI. unfold patchUploadByStatus. apply safe_bind.
    assert (Hgo : ∀ mutate, sets_phase resend p st (mutate st) →
      safe resend (patchUpload c at_ st mutate) (λ o s', match o with
        | Returned (req', r) => s' = true → u_Phase req' = p | _ => False end) s).
    { intros mutate. by apply resend_patchUpload. }
    destruct p; try (split; [exact HI|exact I]); (eapply safe_mono;
      [apply Hgo; first [apply (sets_phase_mutateDone resend)
         |apply (sets_phase_mutateRetry resend)|apply (sets_phase_mutateInProgress resend)]
      |intros [[req' [u|e]]|w|w] s'; cbn; auto]).
  - by intros [[req' r]|w|w] s'; cbn.
Qed.

(** ** Cancellation *)

(** The map of uploads, and whether the server has recorded [Canceling]. *)
Definition trigger_monitor : monitor Cmd (cancel_state * bool) := λ s X e,
  match e in Cmd X return X → verdict (cancel_state * bool) with
  | MapLoad id => λ v, if bool_decide (v = cn_map s.1 id) then Next s else Impossible
  | MapDelete id => λ _, Next (set_map s.1 id None, s.2)
  | Cancel f => λ _,
      if s.2 then Next ({| cn_map := cn_map s.1; cn_cancelled := f :: cn_cancelled s.1 |}, s.2)
      else Violation
  | PatchObj _ k _ _ old new =>
      match k return obj k → obj k → result (obj k) → verdict (cancel_state * bool) with
      | KUpload => λ _ new r,
          if bool_decide (u_Phase new = UploadPhaseCanceling)
          then Next (s.1, match r with Ok _ => true | Err _ => s.2 end) else Violation
      | _ => λ _ _ _, Violation
      end old new
  | ListerWrite _ _ => λ _, Next s
  | e => λ _, if quiet e then Next s else Violation
  end.

#[export] Instance trigger_monitor_quiet : Quiet trigger_monitor.
Proof. solve_quiet. Qed.

Definition cancel_triggered (id : PEID) (s : cancel_state) (o : outcome (option error))
    (s' : cancel_state * bool) : Prop :=
  match cn_map s id, o with
  | None, _ => o = Returned None ∧ s' = (s, false)
  | Some f, Returned None =>
      s'.2 = true ∧ cn_cancelled s'.1 = f :: cn_cancelled s ∧ cn_map s'.1 id = None ∧
      ∀ j, j ≠ id → cn_map s'.1 j = cn_map s j
  | Some _, Returned (Some _) => s' = (s, false)
  | Some _, _ => False
  end.

End retry.
