(* ===== verification/PatchServer.v ===== *)
(** * Retried patches against a server

    What [patchUploadByStatusWithRetry] leaves on an API server that applies
    merge patches, some of which fail. *)

From S2P Require Export UploadController.
Open Scope Z_scope.

(** A field of a merge patch: absent when the two objects agree on it, so that
    the server keeps its own value [cur]. *)
Definition merge_field {A} `{EqDecision A} (old new cur : A) : A :=
  if bool_decide (old = new) then cur else new.

Lemma merge_field_cases {A} `{EqDecision A} (P : A → Prop) old new cur :
  (new = old ∨ P new) → P cur → P (merge_field old new cur).
Proof. intros Hn Hc. unfold merge_field. case_bool_decide; [done|]. naive_solver. Qed.

(** The merge patch from [old] to [new], applied to [cur].  The controllers
    never change metadata. *)
Definition merge_patch (old new cur : Upload) : Upload :=
  let f {A} `{EqDecision A} (get : UploadStatus → A) :=
    merge_field (get (u_Status old)) (get (u_Status new)) (get (u_Status cur)) in
  let g {A} `{EqDecision A} (get : UploadSpec → A) :=
    merge_field (get (u_Spec old)) (get (u_Spec new)) (get (u_Spec cur)) in
  {| u_Meta := u_Meta cur;
     u_Spec := {| us_SnapshotID := g us_SnapshotID; us_BackupTimestamp := g us_BackupTimestamp;
                  us_UploadCancel := g us_UploadCancel;
                  us_BackupRepositoryName := g us_BackupRepositoryName;
                  us_SnapshotReference := g us_SnapshotReference |};
     u_Status := {| us_Phase := f us_Phase; us_Message := f us_Message;
                    us_StartTimestamp := f us_StartTimestamp;
                    us_CompletionTimestamp := f us_CompletionTimestamp;
                    us_Progress := f us_Progress; us_ProcessingNode := f us_ProcessingNode;
                    us_RetryCount := f us_RetryCount;
                    us_NextRetryTimestamp := f us_NextRetryTimestamp;
                    us_CurrentBackOff := f us_CurrentBackOff |} |}.

Section server.
Context `{Deps} (now : time).

(** A server that holds one Upload; its first patches fail, as many as the
    counter says.  The clock stands still. *)
Definition patch_server : handler Cmd (nat * Upload) := λ X e s,
  match e in Cmd X return X * (nat * Upload) with
  | PatchObj _ k _ _ old new =>
      match k return obj k → obj k → result (obj k) * (nat * Upload) with
      | KUpload => λ old new,
          match s.1 with
          | O => let u := merge_patch old new s.2 in (Ok u, (O, u))
          | S n => (Err unavailable, (n, s.2))
          end
      | _ => λ _ _, (Err unavailable, s)
      end old new
  | Now => (now, s)
  | e => (default_answer e, s)
  end.

(** The phases a status patch can write. *)
Definition patches (p : UploadPhase) : Prop :=
  match p with
  | UploadPhaseUnset | UploadPhaseNew | UploadPhaseOther _ => False
  | _ => True
  end.

(** One try: the object the caller is left with has the new phase. *)
Lemma run_patchUploadByStatus c req p msg n u :
  patches p →
  ∃ req', u_Phase req' = p ∧
    run patch_server (patchUploadByStatus c Private req p msg) (n, u) =
    (Returned (req', match n with O => Ok (merge_patch req req' u)
                             | S _ => Err (Wrap unavailable "Failed to patch Upload") end),
     match n with O => (O, merge_patch req req' u) | S m => (m, u) end).
Proof.
  intros Hp. unfold patchUploadByStatus, patchUpload, PatchUpload.
  destruct p; try done;
    unfold mutateDone, mutateRetry, mutateInProgress; cbn;
    try destruct (bool_decide (u_Phase req = UploadPhaseNew)); cbn;
    destruct n; cbn; (eexists; split; [|reflexivity]); reflexivity.
Qed.

(** The tries of a patch that fails [n] more times, from an object that already
    has the phase [p]: in the end the server's phase is what it was. *)
Lemma run_resend c p msg n ticks req u :
  patches p → u_Phase req = p → (n ≤ ticks)%nat →
  ∃ req' u', run patch_server (poll_loop ticks
      (λ req, let! (req, r) := patchUploadByStatus c Private req p msg in
              match r with Err _ => Ret (req, PollAgain) | Ok u => Ret (req, PollDone u) end) req)
      (n, u) = (Returned (req', Ok u'), (O, u')) ∧ u_Phase u' = u_Phase u.
Proof.
  intros Hp. revert n req. induction ticks as [|ticks IH]; intros n req Hreq Hn.
  - replace n with O by lia.
    destruct (run_patchUploadByStatus c req p msg O u Hp) as (req' & Hph & Hrun).
    cbn. rewrite !run_bind, Hrun. cbn. eexists _, _. split; [done|].
    cbn. unfold merge_field. by rewrite Hreq, Hph, bool_decide_true.
  - destruct (run_patchUploadByStatus c req p msg n u Hp) as (req' & Hph & Hrun).
    cbn [poll_loop]. rewrite !run_bind, Hrun. destruct n as [|n]; cbn.
    + eexists _, _. split; [done|].
      cbn. unfold merge_field. by rewrite Hreq, Hph, bool_decide_true.
    + apply IH; [done|lia].
Qed.

(** C40.  On a server that accepts the first patch,
    [patchUploadByStatusWithRetry] leaves the record in the phase it was given.
    When one to five patches fail before one is accepted, it reports success
    all the same, but the server's record still has its old phase. *)
Theorem retried_patch_loses_phase c req p msg n :
  patches p → (1 ≤ n ≤ 5)%nat →
  (∃ u, run patch_server (patchUploadByStatusWithRetry c Private req p msg) (O, req) =
        (Returned (Ok u), (O, u)) ∧ u_Phase u = p) ∧
  (∃ u, run patch_server (patchUploadByStatusWithRetry c Private req p msg) (n, req) =
        (Returned (Ok u), (O, u)) ∧ u_Phase u = u_Phase req).
Proof.
  intros Hp Hn. unfold patchUploadByStatusWithRetry, PollImmediate. rewrite !run_bind.
  cbn [run patch_server default_answer]. split.
  - destruct (run_patchUploadByStatus c req p msg O req Hp) as (req' & Hph & Hrun).
    cbn [poll_loop]. rewrite !run_bind, Hrun. cbn. eexists. split; [done|].
    cbn. unfold merge_field. case_bool_decide as He; [by rewrite He|done].
  - destruct n as [|n]; [lia|].
    destruct (run_patchUploadByStatus c req p msg (S n) req Hp) as (req' & Hph & Hrun).
    cbn [poll_loop]. rewrite !run_bind, Hrun. cbn.
    destruct (run_resend c p msg n 4 req' req Hp Hph) as (req'' & u & Hrun' & Hu); [lia|].
    cbn in Hrun' |- *. rewrite Hrun'. cbn. eauto.
Qed.
End server.
