(* ===== verification/Threads.v ===== *)
(** * Goroutines over a shared state

    Any number of goroutines, interleaved call by call over one shared state, and
    schedules of them.  [UploadSystem], [SnapshotSystem], [DownloadSystem] and [RestoreSystem]
    are its instances. *)

From S2P Require Export GenericController.
Open Scope Z_scope.

Abbreviation thread := (io (option error)).

(** A shared state: the answers it allows to a call with the state they leave, the
    goroutines that may start in it, and what happens to it from outside. *)
Class System `{Deps} (W : Type) := {
  sys_effect : W → ∀ X, Cmd X → X → W → Prop;
  sys_starts : W → thread → Prop;
  sys_moves : relation W;
}.

Section system.
Context `{System W}.

(** A goroutine starts; the outside acts; a goroutine makes its next call. A
    goroutine that makes no further call has crashed. *)
Inductive sys_step : W * list thread → W * list thread → Prop :=
| sys_start p w ts :
    sys_starts w p → sys_step (w, ts) (w, ts ++ [p])
| sys_move w w' ts :
    sys_moves w w' → sys_step (w, ts) (w', ts)
| sys_call i X (e : Cmd X) k x w w' ts :
    ts !! i = Some (Do e k) → sys_effect w X e x w' →
    sys_step (w, ts) (w', <[i := k x]> ts).

(** A discipline of the system: an invariant [ok] of the shared state, a preorder
    [le] along which it moves, and what is known of a goroutine in it, [thr], which
    others cannot destroy and every call of the goroutine renews. *)
Class Discipline (ok : W → Prop) (le : relation W) (thr : W → thread → Prop) := {
  le_preorder :: PreOrder le;
  thr_le w w' p : le w w' → thr w p → thr w' p;
  thr_start w p : sys_starts w p → thr w p;
  ok_move w w' : sys_moves w w' → ok w → ok w' ∧ le w w';
  thr_call w X (e : Cmd X) k x w' :
    ok w → thr w (Do e k) → sys_effect w X e x w' → ok w' ∧ thr w' (k x) ∧ le w w';
}.

Section discipline.
Context {ok : W → Prop} {le : relation W} {thr : W → thread → Prop}.
Context `{!Discipline ok le thr}.

Definition sys_ok (s : W * list thread) : Prop := ok s.1 ∧ Forall (thr s.1) s.2.

Lemma sys_step_ok s s' : sys_step s s' → sys_ok s → sys_ok s' ∧ le s.1 s'.1.
Proof.
  unfold sys_ok. destruct 1 as [p w ts Hp|w w' ts Hm|i X e k x w w' ts Hi He]; cbn; intros [Hw Hts].
  - split; [|done]. split; [done|]. apply Forall_app. split; [done|]. apply Forall_singleton.
    by apply thr_start.
  - destruct (ok_move w w' Hm Hw) as [Hw' Hg]. split; [|done]. split; [done|].
    eapply Forall_impl; [exact Hts|]. intros p. by apply thr_le.
  - destruct (thr_call w X e k x w' Hw) as (Hw' & Hk & Hg); [|done|].
    { by apply (Forall_lookup_1 _ _ _ _ Hts Hi). }
    split; [|done]. split; [done|]. apply Forall_insert; [|done].
    eapply Forall_impl; [exact Hts|]. intros p. by apply thr_le.
Qed.

Lemma sys_steps_ok s s' : rtc sys_step s s' → sys_ok s → sys_ok s' ∧ le s.1 s'.1.
Proof.
  induction 1 as [s|s1 s2 s3 Hs _ IH]; [done|]. intros Hok.
  destruct (sys_step_ok s1 s2 Hs Hok) as [Hok2 Hg]. destruct (IH Hok2) as [Hok3 Hg'].
  split; [done|]. by transitivity s2.1.
Qed.

(** What holds initially holds in every reachable state. *)
Lemma reachable_ok w0 w ts :
  ok w0 → rtc sys_step (w0, []) (w, ts) → ok w ∧ Forall (thr w) ts ∧ le w0 w.
Proof.
  intros Hu Hr. destruct (sys_steps_ok _ _ Hr) as [[Hw Hts] Hg]; [|by split_and!]. by split; [|constructor].
Qed.

(** What is known of one goroutine, when the others cannot destroy it and its own calls
    renew it, is known as long as the system runs. *)
Lemma thread_followed (P : W → thread → Prop) i s s' :
  (∀ w w' p, le w w' → P w p → P w' p) →
  (∀ w X (e : Cmd X) k x w', ok w → P w (Do e k) → sys_effect w X e x w' → P w' (k x)) →
  rtc sys_step s s' → sys_ok s →
  (∃ p, s.2 !! i = Some p ∧ P s.1 p) → ∃ p, s'.2 !! i = Some p ∧ P s'.1 p.
Proof.
  intros Hle Hcall. induction 1 as [s|s1 s2 s3 Hs _ IH]; [done|]. intros Hok Hp.
  destruct (sys_step_ok s1 s2 Hs Hok) as [Hok2 Hg]. apply IH; [done|]. clear IH Hok2.
  destruct Hp as (p & Hi & Hp). destruct Hok as [Hw _].
  destruct Hs as [q w ts _|w w' ts _|j X e k x w w' ts Hj He]; cbn in *.
  - exists p. split; [by apply lookup_app_l_Some|done].
  - exists p. split; [done|]. by eapply Hle.
  - destruct (decide (i = j)) as [-> |Hne].
    + exists (k x). split; [apply list_lookup_insert_eq; by eapply lookup_lt_Some|].
      simplify_eq. by eapply Hcall.
    + exists p. rewrite list_lookup_insert_ne by done. split; [done|]. by eapply Hle.
Qed.
End discipline.

(** ** Schedules *)

(** A handler whose every answer the shared state allows. *)
Definition consistent (h : handler Cmd W) : Prop :=
  ∀ w X (e : Cmd X), sys_effect w X e (h X e w).1 (h X e w).2.

(** At most [n] calls of a goroutine. *)
Fixpoint drive {A} (h : handler Cmd W) (n : nat) (p : io A) (w : W) : io A * W :=
  match n, p with
  | S n, Do e k => let '(x, w') := h _ e w in drive h n (k x) w'
  | _, _ => (p, w)
  end.

Inductive action :=
| Start (p : W → thread)
| Outside (f : W → W)
| Advance (i n : nat) (h : handler Cmd W).

Definition perform (a : action) (s : W * list thread) : W * list thread :=
  match a with
  | Start p => (s.1, s.2 ++ [p s.1])
  | Outside f => (f s.1, s.2)
  | Advance i n h =>
      match s.2 !! i with
      | Some p => let '(p', w') := drive h n p s.1 in (w', <[i := p']> s.2)
      | None => s
      end
  end.

Definition allowed (a : action) : Prop :=
  match a with
  | Start p => ∀ w, sys_starts w (p w)
  | Outside f => ∀ w, sys_moves w (f w)
  | Advance _ _ h => consistent h
  end.

Definition play (l : list action) (s : W * list thread) : W * list thread :=
  foldl (λ s a, perform a s) s l.

Lemma drive_reachable h n i p w ts :
  consistent h → ts !! i = Some p →
  rtc sys_step (w, ts) ((drive h n p w).2, <[i := (drive h n p w).1]> ts).
Proof.
  intros Hh. revert p w ts. induction n as [|n IH]; intros p w ts Hi.
  { cbn. by rewrite list_insert_id. }
  destruct p as [a|y|y|X e k]; cbn; try by rewrite list_insert_id.
  specialize (Hh w X e). destruct (h X e w) as [x w'] eqn:Hx. cbn in Hh.
  eapply rtc_l; [by apply (sys_call i X e k x w w' ts)|].
  rewrite <-(list_insert_insert_eq ts i (drive h n (k x) w').1 (k x)). apply IH.
  apply list_lookup_insert_eq. by eapply lookup_lt_Some.
Qed.

(** What a schedule reaches is reachable. *)
Lemma play_reachable l s : Forall allowed l → rtc sys_step s (play l s).
Proof.
  intros Hl. revert s. induction Hl as [|a l Ha _ IH]; intros s; [done|].
  transitivity (perform a s); [|apply IH]. destruct s as [w ts]. destruct a as [p|f|i n h]; cbn.
  - apply rtc_once, sys_start, Ha.
  - apply rtc_once, sys_move, Ha.
  - destruct (ts !! i) as [p|] eqn:Hi; [|done].
    pose proof (drive_reachable h n i p w ts Ha Hi) as Hr. by destruct (drive h n p w).
Qed.
End system.

(** What a goroutine that ended answered. *)
Definition result_of `{Deps} (p : thread) : option (option error) :=
  match p with Ret r => Some r | _ => None end.

Lemma ended_at `{Deps} (ts : list thread) l i r :
  result_of <$> ts = l → l !! i = Some (Some r) → ts !! i = Some (Ret r).
Proof.
  intros <-. rewrite list_lookup_fmap. destruct (ts !! i) as [p|]; [|done]. destruct p; cbn; by intros [= <-].
Qed.

Definition ends {A} (o : outcome A) : Prop := match o with Hung _ => False | _ => True end.
