(* ===== verification/UploadSystem.v ===== *)
(** * Uploads in a cluster

    One Upload on its API server, and any number of goroutines on any number of
    nodes that process or cancel it, interleaved call by call: nodes that lost
    the lease go on, crash anywhere, retry; requests fail with or without an
    effect.  The invariant of every reachable state. *)

From S2P Require Export Threads UploadProtocol PatchServer.
Open Scope Z_scope.

(** ** The shared state *)

Section system.
Context `{Deps}.

(** The server's record, the entry of its entity in the map of uploads, and
    what happened so far: the data reached the repository, the local snapshot
    was deleted or found gone, and [CleanupFailed] was sent while the data had not
    reached the repository. *)
Record world := World {
  w_record : Upload;
  w_ongoing : option CancelFunc;
  w_copied : bool;
  w_gone : bool;
  w_unsaved : bool;
}.

Definition w_phase (w : world) : UploadPhase := u_Phase (w_record w).

(** The entity whose snapshot is uploaded. *)
Definition entity (w : world) : result PEID :=
  NewProtectedEntityIDFromString (us_SnapshotID (u_Spec (w_record w))).

Definition initially (u : Upload) : world := World u None false false false.

(** A request that names the record. *)
Definition asks_for (w : world) (ns name : string) : bool :=
  bool_decide (ns = u_Namespace (w_record w) ∧ name = u_Name (w_record w)).

Definition set_ongoing (w : world) (id : PEID) (f : option CancelFunc) : world :=
  match entity w with
  | Ok peID => if bool_decide (peID = id)
               then World (w_record w) f (w_copied w) (w_gone w) (w_unsaved w) else w
  | Err _ => w
  end.

Definition w_on_copied (w : world) : world :=
  World (w_record w) (w_ongoing w) true (w_gone w) (w_unsaved w).
Definition w_on_gone (w : world) : world :=
  World (w_record w) (w_ongoing w) (w_copied w) true (w_unsaved w).

(** A merge patch the server applies. *)
Definition w_on_patch (old new : Upload) (w : world) : world :=
  World (merge_patch old new (w_record w)) (w_ongoing w) (w_copied w) (w_gone w)
    (w_unsaved w || (bool_decide (u_Phase new = UploadPhaseCleanupFailed) && negb (w_copied w))).

(** The answers the shared state allows, with the state they leave.  A patch
    that fails may have been applied all the same; a read may fail. *)
Definition effect (w : world) {X} (e : Cmd X) : X → world → Prop :=
  match e in Cmd X return X → world → Prop with
  | GetObj _ k ns name =>
      match k return result (obj k) → world → Prop with
      | KUpload => λ r w', w' = w ∧ match r with
          | Ok u => asks_for w ns name = true ∧ u = w_record w
          | Err _ => True
          end
      | _ => λ _ w', w' = w
      end
  | PatchObj _ k ns name old new =>
      match k return obj k → obj k → result (obj k) → world → Prop with
      | KUpload => λ old new r w', match r with
          | Ok u => asks_for w ns name = true ∧ w' = w_on_patch old new w ∧ u = w_record w'
          | Err _ => w' = w ∨ (asks_for w ns name = true ∧ w' = w_on_patch old new w)
          end
      | _ => λ _ _ _ w', w' = w
      end old new
  | PetmCopy _ _ _ _ => λ r w', w' = match r with Ok _ => w_on_copied w | Err _ => w end
  | PeListSnapshots _ => λ r w', w' = match r with Ok [] => w_on_gone w | _ => w end
  | PeDeleteSnapshot _ _ _ => λ r w', match r with
      | Ok _ => w' = w_on_gone w
      | Err _ => w' = w
      end
  | MapLoad id => λ v w', w' = w ∧ (entity w = Ok id → v = w_ongoing w)
  | MapStore id f => λ _ w', w' = set_ongoing w id (Some f)
  | MapDelete id => λ _ w', w' = set_ongoing w id None
  | _ => λ _ w', w' = w
  end.

(** ** The system *)

(** The world after the request to cancel the Upload. *)
Definition cancel_requested (w : world) : world :=
  World ((w_record w) <| u_Spec; us_UploadCancel := true |>) (w_ongoing w) (w_copied w)
    (w_gone w) (w_unsaved w).

(** A goroutine starts to process the Upload, or to cancel it. *)
Inductive upload_starts (w : world) : thread → Prop :=
| start_process c req :
    u_Namespace req = u_Namespace (w_record w) → u_Name req = u_Name (w_record w) →
    upload_starts w (processUpload c req)
| start_trigger c req :
    u_Meta req = u_Meta (w_record w) →
    us_SnapshotID (u_Spec req) = us_SnapshotID (u_Spec (w_record w)) →
    upload_starts w (triggerUploadCancellation c req).

(** Another part of the plugin may ask for the cancellation. *)
#[export] Instance upload_system : System world := {|
  sys_effect := @effect;
  sys_starts := upload_starts;
  sys_moves w w' := w' = cancel_requested w;
|}.

(** ** The invariant *)

(** The local snapshot is gone, or the ID has none. *)
Definition gone (w : world) : Prop :=
  w_gone w = true ∨ ∃ id, entity w = Ok id ∧ HasSnapshot id = false.

(** The data is in the repository, or was given up. *)
Definition saved_or_given_up (w : world) : Prop := w_copied w || w_unsaved w = true.

Definition world_ok (w : world) : Prop :=
  match w_phase w with
  | UploadPhaseCompleted => gone w ∧ saved_or_given_up w
  | UploadPhaseUploadFailedAfterRetry => gone w
  | UploadPhaseCleanupFailed => saved_or_given_up w
  | UploadPhaseOther _ => False
  | _ => True
  end.

(** What cannot be undone. *)
Definition grows (w w' : world) : Prop :=
  (w_copied w = true → w_copied w' = true) ∧ (w_gone w = true → w_gone w' = true) ∧
  (saved_or_given_up w → saved_or_given_up w') ∧ u_Meta (w_record w') = u_Meta (w_record w) ∧
  us_SnapshotID (u_Spec (w_record w')) = us_SnapshotID (u_Spec (w_record w)).

(** What a goroutine that processes the Upload knows is true of the shared
    state, whatever the others have done since. *)
Definition knows (w : world) (s : upload_run) : Prop :=
  (ur_copied s = true → w_copied w = true) ∧ (ur_cleaned s = true → w_gone w = true) ∧
  ∀ u, ur_record s = Some u →
    us_SnapshotID (u_Spec u) = us_SnapshotID (u_Spec (w_record w)) ∧
    (u_Phase u = UploadPhaseCleanupFailed → saved_or_given_up w).

#[export] Instance grows_preorder : PreOrder grows.
Proof.
  split.
  - intros w. by split_and!.
  - intros w1 w2 w3 (? & ? & ? & ? & ?) (? & ? & ? & ? & ?). split_and!; auto; congruence.
Qed.

Lemma grows_entity w w' : grows w w' → entity w' = entity w.
Proof. intros (_ & _ & _ & _ & He). unfold entity. by rewrite He. Qed.

Lemma grows_gone w w' : grows w w' → gone w → gone w'.
Proof.
  intros Hg [Hw|Hw]; [left; by apply Hg|right]. by rewrite (grows_entity _ _ Hg).
Qed.

Lemma grows_knows w w' s : grows w w' → knows w s → knows w' s.
Proof.
  intros (Hc & Hgo & Hs & _ & He) (Hkc & Hkg & Hku). split_and!; [auto..|].
  intros u Hu. destruct (Hku u Hu) as [Hid Hph]. split; [congruence|auto].
Qed.

Lemma grows_knows_record w w' s s' :
  grows w w' → knows w s → ur_record s' = ur_record s →
  (ur_copied s' = true → w_copied w' = true) → (ur_cleaned s' = true → w_gone w' = true) →
  knows w' s'.
Proof.
  intros Hg Hk Hr Hc Hgo. apply (grows_knows _ _ _ Hg) in Hk as (_ & _ & Hu).
  split_and!; [done..|]. by rewrite Hr.
Qed.

(** A change that leaves the phase alone keeps the invariant. *)
Lemma world_ok_grows w w' : grows w w' → w_phase w' = w_phase w → world_ok w → world_ok w'.
Proof.
  intros Hg Hph. unfold world_ok. rewrite Hph. pose proof (grows_gone _ _ Hg). destruct Hg as (_ & _ & Hs & _).
  destruct (w_phase w); naive_solver.
Qed.

Lemma grows_set_ongoing w id f : grows w (set_ongoing w id f) ∧ w_phase (set_ongoing w id f) = w_phase w.
Proof. unfold set_ongoing. by repeat case_match. Qed.

Lemma grows_copied w : grows w (w_on_copied w).
Proof. by split_and!. Qed.

Lemma grows_on_gone w : grows w (w_on_gone w).
Proof. by split_and!. Qed.

(** *** One call of a goroutine that processes the Upload *)

Lemma merge_patch_spec old new cur :
  same_but_status old new →
  u_Meta (merge_patch old new cur) = u_Meta cur ∧ u_Spec (merge_patch old new cur) = u_Spec cur.
Proof.
  intros [Hs _]. split; [done|]. cbn. unfold merge_field. rewrite Hs.
  rewrite !bool_decide_true by done. by destruct (u_Spec cur).
Qed.

Lemma grows_on_patch old new w : same_but_status old new → grows w (w_on_patch old new w).
Proof.
  intros Hsame. destruct (merge_patch_spec old new (w_record w) Hsame) as [Hm Hs].
  unfold grows, saved_or_given_up, w_on_patch. cbn -[merge_patch]. rewrite Hs, Hm.
  split_and!; try done. by destruct (w_copied w), (w_unsaved w).
Qed.

(** The record of a goroutine names the entity of the record. *)
Lemma knows_clean w s : knows w s → clean s = true → gone w.
Proof.
  intros (_ & Hg & Hr) [Hc|Hc]%orb_prop; [left; auto|right].
  destruct (ur_record s) as [u|] eqn:Hu; [|done]. destruct (Hr u eq_refl) as [Hid _].
  unfold entity. rewrite <-Hid. destruct (NewProtectedEntityIDFromString _) as [id|]; [|done].
  exists id. by apply negb_true_iff in Hc.
Qed.

Lemma knows_cleaning w s : knows w s → cleaning s = true → saved_or_given_up w.
Proof.
  intros (_ & _ & Hr) Hc. unfold cleaning in Hc. destruct (ur_record s) as [u|] eqn:Hu; [|done].
  apply bool_decide_eq_true in Hc. by apply (Hr u eq_refl).
Qed.

(** A patch to a phase that the protocol allows. *)
Lemma world_ok_on_patch old new w s :
  world_ok w → knows w s → may_write s (u_Phase new) = true → same_but_status old new →
  world_ok (w_on_patch old new w).
Proof.
  intros Hw Hk Hmay Hsame. pose proof (grows_on_patch old new w Hsame) as Hg.
  destruct (decide (u_Phase old = u_Phase new)) as [He|He].
  - apply (world_ok_grows w); [done| |done].
    unfold w_phase, w_on_patch. cbn. unfold merge_field. by rewrite bool_decide_true.
  - assert (Hph : w_phase (w_on_patch old new w) = u_Phase new).
    { unfold w_phase, w_on_patch. cbn. unfold merge_field. by rewrite bool_decide_false. }
    unfold world_ok. rewrite Hph. destruct (u_Phase new) eqn:Hn; try done; cbn in Hmay.
    + apply andb_prop in Hmay as [Hs Hc]. split.
      * apply (grows_gone _ _ Hg). by eapply knows_clean.
      * apply Hg. apply orb_prop in Hs as [Hs|Hs]; [|by eapply knows_cleaning].
        unfold saved_or_given_up. destruct Hk as [Hk _]. by rewrite Hk.
    + unfold saved_or_given_up, w_on_patch. cbn. rewrite Hn. cbn. by destruct (w_copied w), (w_unsaved w).
    + apply (grows_gone _ _ Hg). apply andb_prop in Hmay as [_ Hc]. by eapply knows_clean.
Qed.

Lemma knows_patched old new w s :
  world_ok w → knows w s → may_write s (u_Phase new) = true → same_but_status old new →
  world_ok (w_on_patch old new w) ∧ knows (w_on_patch old new w) s ∧
  grows w (w_on_patch old new w).
Proof.
  intros Hw Hk Hmay Hsame. pose proof (grows_on_patch old new w Hsame) as Hg. split_and!.
  - by eapply world_ok_on_patch.
  - by apply (grows_knows w).
  - done.
Qed.

Lemma knows_on_patch p r w s :
  knows w s → (∀ u, r = Ok u → u = w_record w) → world_ok w → knows w (on_patch p r s).
Proof.
  intros (Hc & Hg & Hr) Hu Hw. split_and!; [done..|]. cbn. destruct r as [u|e]; [|done].
  rewrite (Hu u eq_refl). intros ? [= <-]. split; [done|]. intros Hph.
  unfold world_ok, w_phase in Hw. by rewrite Hph in Hw.
Qed.

(** Whatever the others did before, an answer that the shared state allows keeps
    the invariant and what the goroutine knows. *)
Lemma upload_call w s X (e : Cmd X) x w' :
  world_ok w → knows w s → effect w e x w' →
  match upload_protocol s X e x with
  | Next s' => world_ok w' ∧ knows w' s' ∧ grows w w'
  | Violation => True
  | Impossible => False
  end.
Proof.
  intros Hw Hk He.
  assert (Hset : ∀ id f, world_ok (set_ongoing w id f) ∧ knows (set_ongoing w id f) s ∧
                         grows w (set_ongoing w id f)).
  { intros id f. destruct (grows_set_ongoing w id f) as [Hg Hph].
    split_and!; [by apply (world_ok_grows w)|by apply (grows_knows w)|done]. }
  assert (Hcheck : ∀ b s', (b = true → world_ok w' ∧ knows w' s' ∧ grows w w') →
    match check_ b s' with
    | Next s' => world_ok w' ∧ knows w' s' ∧ grows w w' | Violation => True | Impossible => False end).
  { intros [|] s' Hb; cbn; auto. }
  destruct e; cbn in He |- *; subst; try done; try by split_and!.
  all: try (apply Hcheck; intros _; first [split_and!; done | apply Hset]).
  - (* GetObj *)
    destruct k; cbn in He |- *; subst; try done; try by split_and!.
    destruct He as [-> Hr]. destruct (ur_first s); [done|]. destruct x as [u|e]; [|by split_and!].
    destruct Hr as [_ ->]. split_and!; [done| |done]. destruct Hk as (Hc & Hg & _).
    split_and!; [done..|]. intros u [= <-]. split; [done|]. intros Hph.
    unfold world_ok, w_phase in Hw. by rewrite Hph in Hw.
  - (* PatchObj *)
    destruct k; cbn in He |- *; try done. apply Hcheck.
    intros [[_ Hmay]%andb_prop (Hs & Hm & _)%bool_decide_eq_true]%andb_prop.
    destruct (knows_patched old new w s Hw Hk Hmay) as (Hw' & Hk' & Hg); [done|].
    destruct x as [u|e].
    + destruct He as (_ & -> & ->). split_and!; [done| |done]. apply knows_on_patch; [done| |done].
      by intros u [= <-].
    + destruct He as [-> |[_ ->]]; (split_and!; [done| |done]); by apply knows_on_patch.
  - (* MapLoad *) apply Hcheck. intros _. destruct He as [-> _]. by split_and!.
  - (* PetmCopy *)
    apply Hcheck. intros _. destruct x; [|by split_and!]. pose proof (grows_copied w).
    split_and!; [by apply (world_ok_grows w)| |done].
    apply (grows_knows_record w _ s); [done..|apply Hk].
  - (* PeListSnapshots *)
    apply Hcheck. intros _. destruct x as [[|]|]; try by split_and!. pose proof (grows_on_gone w).
    split_and!; [by apply (world_ok_grows w)| |done].
    apply (grows_knows_record w _ s); [done..|apply Hk|done].
  - (* PeDeleteSnapshot *)
    apply Hcheck. intros _. destruct x; subst; [|by split_and!]. pose proof (grows_on_gone w).
    split_and!; [by apply (world_ok_grows w)| |done].
    apply (grows_knows_record w _ s); [done..|apply Hk|done].
Qed.

(** *** A goroutine that cancels the Upload *)

(** It writes no phase but [Canceling], and copies and deletes nothing. *)
Definition cancel_protocol : monitor Cmd unit := λ s X e,
  match e in Cmd X return X → verdict unit with
  | PatchObj _ k _ _ old new =>
      match k return obj k → obj k → result (obj k) → verdict unit with
      | KUpload => λ old new _,
          if bool_decide (u_Phase new = UploadPhaseCanceling
                          ∧ u_Spec new = u_Spec old ∧ u_Meta new = u_Meta old)
          then Next s else Violation
      | _ => λ _ _ _, Violation
      end old new
  | MapLoad _ | MapDelete _ | Cancel _ | ListerWrite _ _ => λ _, Next s
  | e => λ _, if quiet e then Next s else Violation
  end.

#[export] Instance cancel_protocol_quiet : Quiet cancel_protocol.
Proof. solve_quiet. Qed.

Lemma triggerUploadCancellation_follows c req :
  safe cancel_protocol (triggerUploadCancellation c req) (λ o _, ends o) tt.
Proof.
  unfold triggerUploadCancellation. destruct (NewProtectedEntityIDFromString _) as [id|e]; [|done].
  unfold IsUploading. cbn. intros [f|]; cbn; [|done]. eapply safe_seq.
  - apply (safe_patchUploadByStatusWithRetry cancel_protocol c (λ _, True) (λ _ _, True)); [done| |done].
    intros [] old new _ ([Hs Hm] & [Hs' Hm'] & Hph & _) r. exists tt. split; [|by destruct r]. cbn.
    rewrite bool_decide_true by (split_and!; congruence). done.
  - intros [u|e] []; cbn; [|done]. intros _ [f'|]; cbn; [|done]. done.
  - by intros w [].
  - by intros w [].
Qed.

Lemma cancel_call w X (e : Cmd X) x w' :
  world_ok w → effect w e x w' → cancel_protocol tt X e x ≠ Violation →
  cancel_protocol tt X e x = Next tt ∧ world_ok w' ∧ grows w w'.
Proof.
  intros Hw He Hv.
  assert (Hset : ∀ id f, world_ok (set_ongoing w id f) ∧ grows w (set_ongoing w id f)).
  { intros id f. destruct (grows_set_ongoing w id f) as [Hg Hph]. split; [by apply (world_ok_grows w)|done]. }
  destruct e; cbn in He, Hv |- *; subst; try done.
  all: try (split; [done|]; apply Hset).
  - destruct k; try done. cbn in He, Hv |- *. case_bool_decide as Hn; [|done].
    destruct Hn as (Hph & Hs & Hm). pose proof (grows_on_patch old new w ltac:(by split)) as Hg.
    assert (Hok : world_ok (w_on_patch old new w)).
    { destruct (decide (u_Phase old = u_Phase new)) as [Ho|Ho].
      - apply (world_ok_grows w); [done| |done]. unfold w_phase, w_on_patch. cbn.
        unfold merge_field. by rewrite bool_decide_true.
      - unfold world_ok, w_phase, w_on_patch. cbn. unfold merge_field.
        by rewrite bool_decide_false, Hph by done. }
    split; [done|]. destruct x; [by destruct He as (_ & -> & _)|]. by destruct He as [-> |[_ ->]].
  - split; [done|]. by destruct He as [-> _].
Qed.

(** *** Every goroutine *)

Definition thread_ok (w : world) (p : thread) : Prop :=
  (∃ s, safe upload_protocol p upload_done s ∧ knows w s) ∨
  safe cancel_protocol p (λ o _, ends o) tt.

Lemma thread_ok_grows w w' p : grows w w' → thread_ok w p → thread_ok w' p.
Proof.
  intros Hg [(s & Hs & Hk)|Hc]; [left|by right]. exists s. split; [done|by apply (grows_knows w)].
Qed.

Lemma thread_call w X (e : Cmd X) k x w' :
  world_ok w → thread_ok w (Do e k) → effect w e x w' →
  world_ok w' ∧ thread_ok w' (k x) ∧ grows w w'.
Proof.
  intros Hw [(s & Hs & Hk)|Hc] He.
  - pose proof (upload_call w s X e x w' Hw Hk He) as Hcall. specialize (Hs x).
    destruct (upload_protocol s X e x) as [s'| |]; [|done..]. destruct Hcall as (Hw' & Hk' & Hg).
    split_and!; [done|left; by exists s'|done].
  - specialize (Hc x). destruct (cancel_call w X e x w' Hw He) as (Hn & Hw' & Hg).
    { intros Hv. by rewrite Hv in Hc. }
    rewrite Hn in Hc. split_and!; [done|by right|done].
Qed.

#[export] Instance upload_discipline : Discipline world_ok grows thread_ok.
Proof.
  split.
  - apply _.
  - intros w w' p. apply thread_ok_grows.
  - intros w p [c req _ _|c req _ _].
    + left. exists upload_start. split; [apply processUpload_follows|]. by split_and!.
    + right. apply triggerUploadCancellation_follows.
  - intros w _ -> Hw. assert (Hg : grows w (cancel_requested w)) by done.
    split; [by apply (world_ok_grows w)|done].
  - intros w X e k x w'. apply thread_call.
Qed.

(** C2.  From a new Upload, however many goroutines process and
    cancel it on however many nodes, whichever requests fail with or without an
    effect, and in whatever order their calls interleave: when the server's record is
    [Completed], the local snapshot is gone (or the ID has none), and the data
    was copied or else [CleanupFailed] had been sent before any copy; when it is
    [UploadFailedAfterRetry] the local snapshot is gone; the phase is one of
    those the controller knows; the record keeps its metadata and its snapshot
    ID; and no goroutine waits for ever. *)
Theorem upload_system_invariant u w ts :
  u_Phase u = UploadPhaseUnset ∨ u_Phase u = UploadPhaseNew →
  rtc sys_step (initially u, []) (w, ts) →
  (w_phase w = UploadPhaseCompleted → gone w ∧ (w_copied w = true ∨ w_unsaved w = true)) ∧
  (w_phase w = UploadPhaseUploadFailedAfterRetry → gone w) ∧
  (∀ p, w_phase w ≠ UploadPhaseOther p) ∧
  u_Meta (w_record w) = u_Meta u ∧ us_SnapshotID (u_Spec (w_record w)) = us_SnapshotID (u_Spec u) ∧
  (∀ why, Hang why ∉ ts).
Proof.
  intros Hu Hr. destruct (reachable_ok (ok := world_ok) (initially u) w ts) as (Hw & Hts & (_ & _ & _ & Hm & Hid)).
  { unfold world_ok, w_phase. cbn. by destruct Hu as [-> | ->]. }
  { exact Hr. }
  unfold world_ok in Hw. split_and!; [..|done|done|].
  - intros Hph. rewrite Hph in Hw. destruct Hw as [Hg Hs]. split; [done|]. by apply orb_prop.
  - intros Hph. by rewrite Hph in Hw.
  - intros p Hph. by rewrite Hph in Hw.
  - intros why Hin. rewrite Forall_forall in Hts. by destruct (Hts _ Hin) as [(s & [] & _)|[]].
Qed.
End system.
