(* ===== verification/DownloadController.v ===== *)
(** * The download controller (pkg/controller/download_controller.go) *)

From S2P Require Export GenericController.
Open Scope Z_scope.

Section DownloadController.
Context `{Deps}.

Record downloadController := {
  dc_downloadClient : client;
  dc_nodeName : string;
  dc_dataMover : DataMover;
}.

Context (c : downloadController).

(** ** Patching the status *)

(** [mutate] changes the object [req] points to: the first component is that
    object after the call, on every path. *)
Definition patchDownload (req : Download) (mutate : Download → io Download)
    : io (Download * result Download) :=
  check! call (MarshalJSON KDownload req) else e => Ret (req, Err e) in
  let! req' := mutate req in
  check! call (MarshalJSON KDownload req') else e => Ret (req', Err e) in
  check! call (CreateMergePatch KDownload req req') else e => Ret (req', Err e) in
  let? r := call (PatchObj (dc_downloadClient c) KDownload (d_Namespace req') (d_Name req') req req')
    else e => Ret (req', Err e) in
  Ret (req', Ok r).

(** [msg] is the ID of the new volume. *)
Definition mutateDownloadCompleted (msg : string) (r : Download) : io Download :=
  let! now := call Now in
  Ret (r <| d_Status; ds_Phase := DownloadPhaseCompleted |>
         <| d_Status; ds_CompletionTimestamp := Some now |>
         <| d_Status; ds_Message := "Download completed" |>
         <| d_Status; ds_VolumeID := msg |>).

Definition mutateDownloadFailed (msg : string) (r : Download) : io Download :=
  let! now := call Now in
  Ret (r <| d_Status; ds_Phase := DownloadPhaseFailed |>
         <| d_Status; ds_CompletionTimestamp := Some now |>
         <| d_Status; ds_Message := msg |>).

Definition mutateDownloadRetry (msg : string) (r : Download) : io Download :=
  let! now := call Now in
  Ret (r <| d_Status; ds_Phase := DownLoadPhaseRetry |>
         <| d_Status; ds_NextRetryTimestamp := Some (now + DOWNLOAD_BACKOFF * Minute) |>
         <| d_Status; ds_RetryCount := int32 (ds_RetryCount (d_Status r) + 1) |>
         <| d_Status; ds_Message := msg |>).

Definition mutateDownloadInProgress (r : Download) : io Download :=
  let! r :=
    (if bool_decide (d_Phase r = DownloadPhaseNew) then
       let! now := call Now in
       Ret (r <| d_Status; ds_StartTimestamp := Some now |>
              <| d_Status; ds_RetryCount := MIN_RETRY |>)
     else Ret r) in
  Ret (r <| d_Status; ds_Phase := DownloadPhaseInProgress |>
         <| d_Status; ds_ProcessingNode := dc_nodeName c |>).

Definition patchDownloadByStatus (req : Download) (newPhase : DownloadPhase) (msg : string)
    : io (Download * result Download) :=
  match newPhase with
  | DownloadPhaseCompleted => patchDownload req (mutateDownloadCompleted msg)
  | DownLoadPhaseRetry =>
      if DOWNLOAD_MAX_RETRY <? ds_RetryCount (d_Status req)
      then patchDownload req (mutateDownloadFailed msg)
      else patchDownload req (mutateDownloadRetry msg)
  | DownloadPhaseInProgress => patchDownload req mutateDownloadInProgress
  | _ => Ret (req, Err (ErrorString "Unexpected download phase"))
  end.

(** Every try patches the object the previous one left behind. *)
Definition patchDownloadByStatusWithRetry (req : Download) (newPhase : DownloadPhase)
    (msg : string) : io (result Download) :=
  let! (_, r) := PollImmediate (RetryInterval * Second) (RetryInterval * RetryMaximum * Second)
    (λ req, let! (req, r) := patchDownloadByStatus req newPhase msg in
            match r with
            | Err _ => Ret (req, PollAgain)
            | Ok d => Ret (req, PollDone d)
            end) req in
  Ret r.

(** ** Informer events *)

Definition enqueueDownloadItem (req : Download) : io unit :=
  match d_Phase req with
  | DownloadPhaseUnset | DownloadPhaseNew | DownloadPhaseInProgress | DownLoadPhaseRetry =>
      let! now := call Now in
      match ds_NextRetryTimestamp (d_Status req) with
      | None => Panic "nil pointer: Status.NextRetryTimestamp"
      | Some next =>
          if Unix now <? Unix next then Ret tt else enqueue "download" (d_Meta req)
      end
  | DownloadPhaseCompleted =>
      let! now := call Now in
      match ds_CompletionTimestamp (d_Status req) with
      | None => Panic "nil pointer: Status.CompletionTimestamp"
      | Some done =>
          if After now (done + DefaultCRCleanUpWindow * Hour) then
            call (DeleteObj (dc_downloadClient c) KDownload (d_Namespace req) (d_Name req)) ;;;
            Ret tt
          else Ret tt
      end
  | _ => Ret tt
  end.

(** ** Processing *)

Definition downloadPatchError (errMsg : string) (r : result Download) : error :=
  ErrorString (match r with
               | Err e => errMsg +:+ ". " +:+ Error e
               | Ok _ => errMsg
               end).

(** The copy from the repository the Download names. *)
Definition copyDownload (req : Download) (peID targetPEID : PEID) (options : CopyCreateOptions)
    : io (result (result PEID)) :=
  let br := ds_BackupRepositoryName (d_Spec req) in
  if bool_decide (br ≠ "") && bool_decide (br ≠ WithoutBackupRepository) then
    let? backupRepositoryCR := GetBackupRepositoryFromBackupRepositoryName br else e => Ret (Err e) in
    let! r := CopyFromRepoWithBackupRepository (dc_dataMover c) peID targetPEID
                backupRepositoryCR options in
    Ret (Ok r)
  else
    let! r := CopyFromRepo (dc_dataMover c) peID targetPEID options in
    Ret (Ok r).

(** Whether a volume is created or overwritten, and which. *)
Definition downloadTarget (req : Download) : result (CopyCreateOptions * PEID) :=
  let target := ds_ProtectedEntityID (d_Spec req) in
  if bool_decide (target ≠ "") then
    match NewProtectedEntityIDFromString target with
    | Ok targetPEID => Ok (UpdateExistingObject, targetPEID)
    | Err e => Err (ErrorString ("failed to create target PEID from string "
        +:+ target +:+ ": " +:+ Error e))
    end
  else Ok (AllocateNewObject, PEID_zero).

(** The steps once the record is in progress. *)
Definition doDownload (req : Download) : io (option error) :=
  match NewProtectedEntityIDFromString (ds_SnapshotID (d_Spec req)) with
  | Err e =>
      let errMsg := "Failed to get PEID from SnapshotID, " +:+ ds_SnapshotID (d_Spec req)
                      +:+ ". " +:+ Error e in
      let! r := patchDownloadByStatusWithRetry req DownLoadPhaseRetry errMsg in
      Ret (Some (downloadPatchError errMsg r))
  | Ok peID =>
      match downloadTarget req with
      | Err e => Ret (Some e)
      | Ok (options, targetPEID) =>
          let? r := copyDownload req peID targetPEID options else e => Ret (Some e) in
          match r with
          | Err e =>
              let errMsg := "Failed to download snapshot, " +:+ PEIDString peID
                              +:+ ", from durable object storage. " +:+ Error e in
              let! r := patchDownloadByStatusWithRetry req DownLoadPhaseRetry errMsg in
              Ret (Some (downloadPatchError errMsg r))
          | Ok returnPeId =>
              let? _ := patchDownloadByStatusWithRetry req DownloadPhaseCompleted
                  (PEIDString returnPeId) else e => Ret (Some (WithStack e)) in
              Ret None
          end
      end
  end.

(** Only [Completed] is skipped. *)
Definition processDownload (req : Download) : io (option error) :=
  let? req := call (GetObj (dc_downloadClient c) KDownload (d_Namespace req) (d_Name req)) else e =>
    Ret (Some (WithStack e)) in
  if bool_decide (d_Phase req = DownloadPhaseCompleted) then Ret None
  else
    let? req :=
      (if bool_decide (d_Phase req ≠ DownloadPhaseInProgress)
       then patchDownloadByStatusWithRetry req DownloadPhaseInProgress ""
       else Ret (Ok req)) else e => Ret (Some (WithStack e)) in
    doDownload req.

(** As for uploads, a lease lost during the work leaves [processErr] nil. *)
Definition processDownloadItem (key : string) : io (option error) :=
  match SplitMetaNamespaceKey key with
  | Err _ => Ret None
  | Ok (ns, name) =>
      let! r := call (ListerGet KDownload ns name) in
      match r with
      | Err e => if IsNotFound e then Ret None else Ret (Some (Wrap e "Failed to get Download"))
      | Ok req =>
          match d_Phase req with
          | DownloadPhaseUnset | DownloadPhaseNew | DownloadPhaseInProgress
          | DownLoadPhaseRetry =>
              let! l := call (RunOrDie ("download-lease." +:+ name) ns (dc_nodeName c)) in
              match l with
              | LeaseHeldByOther => Ret None
              | LeaseHeld => processDownload req
              | LeaseLost => processDownload req ;;; Ret None
              end
          | _ => Ret None
          end
      end
  end.

Definition reEnqueueHandler (key : string) : io (option error) :=
  call (QueueAddAfter "download" key (DOWNLOAD_BACKOFF * Minute)) ;;; Ret None.

Definition NewDownloadController : genericController := {|
  gc_queue := "download";
  gc_syncHandler := processDownloadItem;
  gc_retryHandler := reEnqueueHandler;
|}.
End DownloadController.

(** ** Patching, for any monitor *)

Definition same_but_download_status (r r' : Download) : Prop :=
  d_Spec r' = d_Spec r ∧ d_Meta r' = d_Meta r.

(** What a patch of the status may write over [r] when [newPhase] is asked for. *)
Inductive download_write (newPhase : DownloadPhase) (msg : string) (r r' : Download) : Prop :=
| write_completed :
    newPhase = DownloadPhaseCompleted → d_Phase r' = DownloadPhaseCompleted →
    ds_VolumeID (d_Status r') = msg → is_Some (ds_CompletionTimestamp (d_Status r')) →
    download_write newPhase msg r r'
| write_retry :
    newPhase = DownLoadPhaseRetry → d_Phase r' = DownLoadPhaseRetry →
    ds_RetryCount (d_Status r) ≤ DOWNLOAD_MAX_RETRY →
    ds_RetryCount (d_Status r') = int32 (ds_RetryCount (d_Status r) + 1) →
    ds_Message (d_Status r') = msg →
    download_write newPhase msg r r'
| write_failed :
    newPhase = DownLoadPhaseRetry → d_Phase r' = DownloadPhaseFailed →
    DOWNLOAD_MAX_RETRY < ds_RetryCount (d_Status r) →
    ds_Message (d_Status r') = msg → is_Some (ds_CompletionTimestamp (d_Status r')) →
    download_write newPhase msg r r'
| write_in_progress :
    newPhase = DownloadPhaseInProgress → d_Phase r' = DownloadPhaseInProgress →
    (d_Phase r = DownloadPhaseNew → ds_RetryCount (d_Status r') = MIN_RETRY) →
    download_write newPhase msg r r'.

(** The fields that later code relies on: the volume and the times are kept, or set to proper
    values. *)
Definition keeps_download (p : DownloadPhase) (msg : string) (r r' : Download) : Prop :=
  let st := d_Status r in let st' := d_Status r' in
  (ds_VolumeID st' = ds_VolumeID st ∨ p = DownloadPhaseCompleted ∧ ds_VolumeID st' = msg) ∧
  (ds_CompletionTimestamp st' = ds_CompletionTimestamp st ∨ is_Some (ds_CompletionTimestamp st')) ∧
  (ds_NextRetryTimestamp st' = ds_NextRetryTimestamp st ∨ is_Some (ds_NextRetryTimestamp st')).

(** The object of the first try, or one that a failed try left behind. *)
Definition tried_from (p : DownloadPhase) (req old : Download) : Prop :=
  old = req ∨ (p = DownloadPhaseCompleted → d_Phase old = DownloadPhaseCompleted).

(** A monitor that goes on accepts. *)
Lemma accepts_next {S} (s : S) (v : verdict S) (P : S → Prop) :
  v = Next s → P s →
  match v with Next s' => P s' | Impossible => True | Violation => False end.
Proof. by intros ->. Qed.

Section patch.
Context `{Deps} {S : Type} (mon : monitor Cmd S) `{!Quiet mon} (c : downloadController).
Context (I : S → Prop) (R : Download → S → Prop).

(** The monitor accepts the patches of [req] that ask for [p]. *)
Definition accepts_download_patch (req : Download) (p : DownloadPhase) (msg : string) : Prop :=
  ∀ s old new, I s → same_but_download_status req old → same_but_download_status req new →
  download_write p msg old new → tried_from p req old ∧ keeps_download p msg old new →
  ∀ r, match mon s (result Download)
               (PatchObj (dc_downloadClient c) KDownload (d_Namespace req) (d_Name req) old new) r with
       | Next s' => match r with Ok u => R u s' | Err _ => I s' end
       | Impossible => True
       | Violation => False
       end.

Definition patched_download (p : DownloadPhase) (req : Download)
    (o : outcome (Download * result Download)) (s : S) : Prop :=
  match o with
  | Returned (req', r) =>
      same_but_download_status req req' ∧ tried_from p req req' ∧
      match r with Ok u => R u s | Err _ => I s end
  | _ => False
  end.

Lemma safe_patchDownload req0 req p msg mutate s :
  I s → accepts_download_patch req0 p msg → same_but_download_status req0 req → tried_from p req0 req →
  (∀ s, safe mon (mutate req) (λ o s', match o with
    | Returned r' => s' = s ∧ same_but_download_status req r' ∧ download_write p msg req r' ∧
        keeps_download p msg req r'
    | _ => False
    end) s) →
  safe mon (patchDownload c req mutate) (patched_download p req0) s.
Proof.
  intros HI Hp [Hs Hm] Ht Hmut. unfold patchDownload. cbn.
  intros [e|]; quiet_step; cbn; [done|].
  eapply safe_seq; [apply Hmut| |done|done].
  intros r' s' (-> & [Hs' Hm'] & Hw & Hk). cbn.
  assert (Ht' : same_but_download_status req0 r' ∧ tried_from p req0 r').
  { split; [split; congruence|]. right. intros ->. by destruct Hw. }
  intros [e|]; quiet_step; cbn; [naive_solver|].
  intros [e|]; quiet_step; cbn; [naive_solver|].
  intros r. rewrite Hm', Hm.
  specialize (Hp s req r' HI ltac:(split; congruence) ltac:(split; congruence) Hw ltac:(done) r).
  destruct (mon s _ _ r); [|done..]. destruct r; cbn; naive_solver.
Qed.

Lemma safe_patchDownloadByStatus req0 req p msg s :
  I s → accepts_download_patch req0 p msg → same_but_download_status req0 req → tried_from p req0 req →
  safe mon (patchDownloadByStatus c req p msg) (patched_download p req0) s.
Proof.
  intros HI Hp Hsame Ht. unfold patchDownloadByStatus.
  destruct p; try (by split_and!).
  - (eapply safe_patchDownload; [done..|]). intros s'.
    unfold mutateDownloadInProgress. destruct (bool_decide_reflect (d_Phase req = DownloadPhaseNew)); cbn.
    + intros now. quiet_step. split; [done|]. split; [done|]. split; [by apply write_in_progress|].
      split_and!; by left.
    + split; [done|]. split; [done|]. split; [by apply write_in_progress|]. split_and!; by left.
  - (eapply safe_patchDownload; [done..|]). intros s'. unfold mutateDownloadCompleted. cbn.
    intros now. quiet_step. split; [done|]. split; [done|]. split; [apply write_completed; cbn; eauto|].
    split_and!; cbn; eauto.
  - destruct (Z.ltb_spec DOWNLOAD_MAX_RETRY (ds_RetryCount (d_Status req)));
      (eapply safe_patchDownload; [done..|]); intros s'.
    + unfold mutateDownloadFailed. cbn. intros now. quiet_step.
      split; [done|]. split; [done|]. split; [apply write_failed; cbn; eauto|]. split_and!; cbn; eauto.
    + unfold mutateDownloadRetry. cbn. intros now. quiet_step.
      split; [done|]. split; [done|]. split; [apply write_retry; cbn; eauto|]. split_and!; cbn; eauto.
Qed.

(** The rule for the patch with retries. *)
Lemma safe_patchDownloadByStatusWithRetry req p msg s :
  I s → accepts_download_patch req p msg →
  safe mon (patchDownloadByStatusWithRetry c req p msg) (λ o s', match o with
    | Returned (Ok u) => R u s'
    | Returned (Err _) => I s'
    | _ => False
    end) s.
Proof.
  intros HI Hp. unfold patchDownloadByStatusWithRetry. apply safe_bind.
  eapply safe_mono.
  - apply (safe_PollImmediate mon _ (λ st s, I s ∧ same_but_download_status req st ∧ tried_from p req st)
      (λ o s', match o with
        | Returned (_, Ok u) => R u s' | Returned (_, Err _) => I s' | _ => False end)).
    + split; [done|]. split; [done|by left].
    + intros st s' (HI' & Hst & Ht). apply safe_bind. eapply safe_mono.
      { by apply (safe_patchDownloadByStatus req st p msg). }
      intros [[req' [u|e]]|w|w] s''; cbn; tauto.
  - intros [[req' [u|e]]|w|w] s'' H'; cbn; auto.
Qed.
End patch.
