(* ===== verification/DownloadProtocol.v ===== *)
(** * What the download controller promises *)

From S2P Require Export DownloadController.
Open Scope Z_scope.

Section protocol.
Context `{Deps}.

(** One run: the record as last answered, the phase it was first read in,
    whether the server holds it as in progress, the volume that the copy produced, and whether its completion is recorded. *)
Record download_run := {
  dr_record : option Download;
  dr_first : option DownloadPhase;
  dr_started : bool;
  dr_volume : option PEID;
  dr_done : bool;
}.

Definition download_start : download_run :=
  {| dr_record := None; dr_first := None; dr_started := false; dr_volume := None;
     dr_done := false |}.

Definition on_download_read (d : Download) (s : download_run) : download_run :=
  {| dr_record := Some d; dr_first := Some (d_Phase d);
     dr_started := bool_decide (d_Phase d = DownloadPhaseInProgress); dr_volume := dr_volume s;
     dr_done := dr_done s |}.
Definition on_volume (v : PEID) (s : download_run) : download_run :=
  {| dr_record := dr_record s; dr_first := dr_first s; dr_started := dr_started s;
     dr_volume := Some v; dr_done := dr_done s |}.
Definition on_download_patch (new : Download) (r : result Download) (s : download_run)
    : download_run :=
  match r with
  | Ok d => {| dr_record := Some d; dr_first := dr_first s;
               dr_started := dr_started s || bool_decide (d_Phase new = DownloadPhaseInProgress);
               dr_volume := dr_volume s;
               dr_done := dr_done s || bool_decide (d_Phase new = DownloadPhaseCompleted) |}
  | Err _ => s
  end.

(** The record was read and is not completed. *)
Definition downloading (s : download_run) : bool :=
  match dr_first s with
  | Some p => negb (bool_decide (p = DownloadPhaseCompleted))
  | None => false
  end.

(** The record names a volume to overwrite. *)
Definition overwrites (s : download_run) : bool :=
  match dr_record s with
  | Some d => bool_decide (ds_ProtectedEntityID (d_Spec d) ≠ "")
  | None => false
  end.

(** The entity to copy from, or the volume to overwrite. *)
Definition involves (s : download_run) (id : PEID) : bool :=
  match dr_record s with
  | Some d =>
      let named (text : string) := match NewProtectedEntityIDFromString text with
                                   | Ok peID => bool_decide (peID = id)
                                   | Err _ => false
                                   end in
      named (ds_SnapshotID (d_Spec d)) || overwrites s && named (ds_ProtectedEntityID (d_Spec d))
  | None => false
  end.

Definition may_record (s : download_run) (old new : Download) : bool :=
  match d_Phase new with
  | DownloadPhaseInProgress => bool_decide (dr_volume s = None)
  | DownloadPhaseCompleted =>
      match dr_volume s with
      | Some v => bool_decide (ds_VolumeID (d_Status new) = PEIDString v)
      | None => false
      end
  | DownLoadPhaseRetry =>
      bool_decide (dr_volume s = None) && (ds_RetryCount (d_Status old) <=? DOWNLOAD_MAX_RETRY)
  | DownloadPhaseFailed =>
      bool_decide (dr_volume s = None) && (DOWNLOAD_MAX_RETRY <? ds_RetryCount (d_Status old))
  | _ => false
  end.

Definition require (b : bool) (s : download_run) : verdict download_run :=
  if b then Next s else Violation.

Definition download_protocol : monitor Cmd download_run := λ s X e,
  match e in Cmd X return X → verdict download_run with
  | GetObj _ k _ _ =>
      match k return result (obj k) → verdict download_run with
      | KDownload => λ r,
          match dr_first s, r with
          | None, Ok d => Next (on_download_read d s)
          | None, Err _ => Next s
          | Some _, _ => Violation
          end
      | _ => λ _, Next s
      end
  | PatchObj _ k ns name old new =>
      match k return obj k → obj k → result (obj k) → verdict download_run with
      | KDownload => λ old new r,
          require (downloading s && may_record s old new
                   && bool_decide (d_Spec new = d_Spec old ∧ d_Meta new = d_Meta old
                                   ∧ ns = d_Namespace old ∧ name = d_Name old))
            (on_download_patch new r s)
      | _ => λ _ _ _, Violation
      end old new
  | PetmCopy _ _ _ o => λ r,
      require (downloading s && dr_started s && negb (overwrites s) && bool_decide (o = AllocateNewObject))
        (match r with Ok pe => on_volume (PE_GetID pe) s | Err _ => s end)
  | PeOverwrite target _ => λ r,
      require (downloading s && dr_started s && overwrites s)
        (match r with None => on_volume (PE_GetID target) s | Some _ => s end)
  | Lock | Unlock => λ _, require (downloading s) s
  | PetmGetProtectedEntity _ id => λ _, require (downloading s && involves s id) s
  | e => λ _, require (reads e) s
  end.

#[export] Instance download_protocol_quiet : Quiet download_protocol.
Proof. solve_quiet. Qed.

Lemma require_true b s : b = true → require b s = Next s.
Proof. by intros ->. Qed.

Lemma download_reads {A} (p : io A) s :
  calls_only (@reads _) p →
  safe download_protocol p (λ o s', match o with Hung _ => False | _ => s' = s end) s.
Proof.
  apply safe_calls_only. clear. intros s X e x.
  destruct e; cbn; try congruence; try (intros ->); try done;
    destruct k; cbn; congruence.
Qed.

Definition after_download {A} (s : download_run) (v : A → option PEID)
    (o : outcome (result A)) (s' : download_run) : Prop :=
  match o with
  | Returned (Ok a) => match v a with Some id => s' = on_volume id s | None => s' = s end
  | Returned (Err _) => s' = s
  | Panicked _ => downloading s' = true
  | Hung _ => False
  end.

(** The run may copy from [peID] (over [target], if it overwrites). *)
Definition may_copy_from (s : download_run) (peID target : PEID) : Prop :=
  downloading s = true ∧ dr_started s = true ∧ involves s peID = true ∧
  (overwrites s = true → involves s target = true).

Lemma download_copyFromRepo d peID target m s :
  may_copy_from s peID target →
  safe download_protocol
    (copyFromRepo d peID target m
       (if overwrites s then UpdateExistingObject else AllocateNewObject))
    (after_download s Some) s.
Proof.
  intros (Hw & Hs & Hi & Hit). unfold copyFromRepo. cbn.
  intros [pe|e]; rewrite require_true by (by rewrite Hw, Hi); cbn; [|done].
  destruct (overwrites s) eqn:Ho.
  - rewrite bool_decide_true by done. cbn. specialize (Hit eq_refl).
    intros [tpe|e]; rewrite require_true by (by rewrite Hw, Hit); cbn; [|done].
    rewrite Hw, Hs, Ho. by intros [e|].
  - rewrite bool_decide_false by done. cbn. rewrite Hw, Hs, Ho. by intros [pe'|e].
Qed.

Lemma download_withLock (find : io (result S3PETM)) d peID target s :
  may_copy_from s peID target → calls_only (@reads _) find →
  safe download_protocol
    (withReloadConfigLock (let? m := find else e => Ret (Err e) in
       copyFromRepo d peID target m
         (if overwrites s then UpdateExistingObject else AllocateNewObject)))
    (after_download s Some) s.
Proof.
  intros Hcp Hf. pose proof Hcp as (Hw & _). unfold withReloadConfigLock. cbn. intros []. rewrite require_true by done.
  apply safe_defer. eapply (safe_mono _ _ (after_download s Some)).
  - eapply safe_seq; [by apply (download_reads find)|..].
    + intros [m|e] s' ->; [by apply download_copyFromRepo|done].
    + by intros w s' ->.
    + done.
  - intros [[id|e]|w|w] s'; cbn; [intros ->|intros ->|intros Hs'|done];
      intros []; by rewrite require_true.
Qed.

Lemma download_copyDownload c req peID target s :
  may_copy_from s peID target →
  safe download_protocol
    (copyDownload c req peID target
       (if overwrites s then UpdateExistingObject else AllocateNewObject))
    (after_download s (λ r, match r with Ok id => Some id | Err _ => None end)) s.
Proof.
  intros Hcp. unfold copyDownload.
  assert (Hgo : ∀ p : io (result PEID), safe download_protocol p (after_download s Some) s →
    safe download_protocol (let! r := p in Ret (Ok r))
      (after_download s (λ r, match r with Ok id => Some id | Err _ => None end)) s).
  { intros p Hp. eapply safe_seq; [exact Hp|..]; [by intros [] s' ?|done|done]. }
  destruct (_ && _).
  - eapply safe_seq; [apply download_reads; auto with calls|..]; [|intros w s' ->; apply Hcp|done].
    intros [br|e] s' ->; [|done]. apply Hgo, download_withLock; auto with calls.
  - apply Hgo, download_withLock; auto with calls.
Qed.

(** A patch that asks for a phase the run has earned. *)
Lemma download_patch c req p msg s :
  downloading s = true →
  match p with
  | DownloadPhaseInProgress | DownLoadPhaseRetry => dr_volume s = None
  | DownloadPhaseCompleted => ∃ v, dr_volume s = Some v ∧ msg = PEIDString v
  | _ => False
  end →
  safe download_protocol (patchDownloadByStatusWithRetry c req p msg) (λ o s', match o with
    | Returned (Ok d) => dr_first s' = dr_first s ∧ dr_volume s' = dr_volume s ∧
        dr_record s' = Some d ∧ (p = DownloadPhaseInProgress → dr_started s' = true) ∧
        (p = DownloadPhaseCompleted → dr_done s' = true)
    | Returned (Err _) => s' = s
    | _ => False
    end) s.
Proof.
  intros Hw Hp. apply (safe_patchDownloadByStatusWithRetry download_protocol c
    (λ s', s' = s)); [done|].
  intros s' old new -> [Hspec Hmeta] [Hspec' Hmeta'] Hwr _ r.
  apply (accepts_next (on_download_patch new r s)).
  - cbn. rewrite Hmeta, Hmeta', Hspec, Hspec', Hw, (bool_decide_true (_ ∧ _)) by done.
    rewrite require_true; [done|]. rewrite andb_true_r. unfold may_record.
    destruct Hwr as [-> -> Hv _ | -> -> Hc _ _ | -> -> Hc _ _ | -> -> _]; cbn in Hp.
    + destruct Hp as (v & -> & ->). by rewrite bool_decide_true.
    + rewrite Hp, bool_decide_true by done. by apply Z.leb_le.
    + rewrite Hp, bool_decide_true by done. by apply Z.ltb_lt.
    + by rewrite Hp, bool_decide_true.
  - destruct r as [d|e]; [|done]. cbn.
    split_and!; [done..| |]; intros ->; destruct Hwr; try done; by rewrite bool_decide_true, orb_true_r.
Qed.

Definition download_finished (o : outcome (option error)) (s : download_run) : Prop :=
  match o with
  | Returned None => dr_first s = Some DownloadPhaseCompleted ∨ dr_done s = true
  | Returned (Some _) | Panicked _ => True
  | Hung _ => False
  end.

Ltac patch_step :=
  eapply safe_seq; [apply download_patch; [done|]|..]; [| |done|done].

Lemma download_doDownload c req s :
  downloading s = true → dr_record s = Some req → dr_volume s = None → dr_started s = true →
  safe download_protocol (doDownload c req) download_finished s.
Proof.
  intros Hw Hr Hv Hst. unfold doDownload.
  destruct (NewProtectedEntityIDFromString (ds_SnapshotID _)) as [peID|e] eqn:Hid; [|by patch_step].
  destruct (downloadTarget req) as [[options target]|e] eqn:Ht; [|done].
  assert (Ho : options = if overwrites s then UpdateExistingObject else AllocateNewObject).
  { unfold downloadTarget in Ht. unfold overwrites. rewrite Hr.
    destruct (bool_decide _); [|by injection Ht as <- <-].
    destruct (NewProtectedEntityIDFromString (ds_ProtectedEntityID _)); [by injection Ht as <- <-|done]. }
  assert (Hcp : may_copy_from s peID target).
  { unfold may_copy_from, involves, overwrites. rewrite Hr, Hid, bool_decide_true by done.
    split_and!; [done..|]. intros Hov. unfold downloadTarget in Ht. rewrite Hov in *.
    destruct (NewProtectedEntityIDFromString (ds_ProtectedEntityID _)); [|done].
    cbn in Ht. injection Ht as <- <-. apply orb_true_iff. right. by apply bool_decide_eq_true. }
  rewrite Ho. eapply safe_seq; [by apply download_copyDownload|..]; [|done|done].
  intros [[id|e]|e] s'; cbn; [intros ->|intros ->|done].
  - patch_step; [by eauto|]. intros [d|e] s'; cbn; [|done]. intros (_ & _ & _ & _ & Hd). right. auto.
  - by patch_step.
Qed.
End protocol.

