(* ===== verification/DownloadSystem.v ===== *)
(** * Downloads in a cluster

    One Download on its API server, and any number of goroutines on any number of nodes
    that process it, interleaved call by call: nodes that lost the lease go on, crash
    anywhere, retry; requests fail with or without an effect.  The invariant of every
    reachable state, and two schedules. *)

From S2P Require Export Threads DownloadController PatchServer.
Open Scope Z_scope.

(** ** The shared state *)

(** The merge patch from [old] to [new], applied to [cur]. *)
Definition merge_download (old new cur : Download) : Download :=
  let f {A} `{EqDecision A} (get : DownloadStatus → A) :=
    merge_field (get (d_Status old)) (get (d_Status new)) (get (d_Status cur)) in
  let g {A} `{EqDecision A} (get : DownloadSpec → A) :=
    merge_field (get (d_Spec old)) (get (d_Spec new)) (get (d_Spec cur)) in
  {| d_Meta := d_Meta cur;
     d_Spec := {| ds_SnapshotID := g ds_SnapshotID; ds_RestoreTimestamp := g ds_RestoreTimestamp;
                  ds_ProtectedEntityID := g ds_ProtectedEntityID;
                  ds_BackupRepositoryName := g ds_BackupRepositoryName;
                  ds_CloneFromSnapshotReference := g ds_CloneFromSnapshotReference |};
     d_Status := {| ds_VolumeID := f ds_VolumeID; ds_Phase := f ds_Phase; ds_Message := f ds_Message;
                    ds_StartTimestamp := f ds_StartTimestamp;
                    ds_CompletionTimestamp := f ds_CompletionTimestamp;
                    ds_Progress := f ds_Progress; ds_ProcessingNode := f ds_ProcessingNode;
                    ds_RetryCount := f ds_RetryCount;
                    ds_NextRetryTimestamp := f ds_NextRetryTimestamp |} |}.

Section system.
Context `{Deps}.

(** The server's record, and the volumes that were made or overwritten with success. *)
Record download_world := DownloadWorld { dw_record : Download; dw_made : list PEID }.

Definition download_key (d : Download) : string * string := (d_Namespace d, d_Name d).

Definition initial_download (d : Download) : download_world := DownloadWorld d [].

(** A request that names the record. *)
Definition asks_download (w : download_world) (ns name : string) : bool :=
  bool_decide (ns = d_Namespace (dw_record w) ∧ name = d_Name (dw_record w)).

Definition dw_on_made (pe : PE) (w : download_world) : download_world :=
  DownloadWorld (dw_record w) (dw_made w ++ [PE_GetID pe]).

Definition dw_on_patch (old new : Download) (w : download_world) : download_world :=
  DownloadWorld (merge_download old new (dw_record w)) (dw_made w).

(** The answers the shared state allows, with the state they leave.  A patch
    that fails may have been applied all the same; a read may fail. *)
Definition download_effect (w : download_world) {X} (e : Cmd X) : X → download_world → Prop :=
  match e in Cmd X return X → download_world → Prop with
  | GetObj _ k ns name =>
      match k return result (obj k) → download_world → Prop with
      | KDownload => λ r w', w' = w ∧ match r with
          | Ok d => asks_download w ns name = true ∧ d = dw_record w
          | Err _ => True
          end
      | _ => λ _ w', w' = w
      end
  | PatchObj _ k ns name old new =>
      match k return obj k → obj k → result (obj k) → download_world → Prop with
      | KDownload => λ old new r w', match r with
          | Ok d => asks_download w ns name = true ∧ w' = dw_on_patch old new w ∧ d = dw_record w'
          | Err _ => w' = w ∨ (asks_download w ns name = true ∧ w' = dw_on_patch old new w)
          end
      | _ => λ _ _ _ w', w' = w
      end old new
  | PetmCopy _ _ _ _ => λ r w', w' = match r with Ok pe => dw_on_made pe w | Err _ => w end
  | PeOverwrite target _ => λ r w', w' = match r with None => dw_on_made target w | Some _ => w end
  | _ => λ _ w', w' = w
  end.

Inductive download_starts (w : download_world) : thread → Prop :=
| start_download c req :
    d_Namespace req = d_Namespace (dw_record w) → d_Name req = d_Name (dw_record w) →
    download_starts w (processDownload c req).

#[export] Instance download_system : System download_world := {|
  sys_effect := @download_effect;
  sys_starts := download_starts;
  sys_moves _ _ := False;
|}.

(** ** What a goroutine sends *)

(** The record the server answered last, and the volumes that were made or overwritten. *)
Record sending := { sd_last : option Download; sd_volumes : list PEID }.

Definition known_phase (p : DownloadPhase) : Prop :=
  match p with DownloadPhaseOther _ => False | _ => True end.

#[export] Instance known_phase_dec p : Decision (known_phase p).
Proof. unfold known_phase. destruct p; apply _. Defined.

(** The ID of a volume of the list. *)
Definition volume_in (ids : list PEID) (volume : string) : Prop := volume ∈ PEIDString <$> ids.

Definition stays_or {A} (P : A → Prop) (old new : A) : Prop := new = old ∨ P new.

(** A patch of the status: a known phase, a volume that is there, times that are not taken back.
    One that sets [Completed] sends the volume and the time with it, unless the record answered
    last had the same. *)
Definition proper_patch (s : sending) (old new : Download) : Prop :=
  let st := d_Status old in let st' := d_Status new in
  d_Spec new = d_Spec old ∧ d_Meta new = d_Meta old ∧ stays_or known_phase (ds_Phase st) (ds_Phase st') ∧
  (ds_Phase st' = DownloadPhaseCompleted → ds_Phase st ≠ DownloadPhaseCompleted →
     sd_last s = Some old ∧ volume_in (sd_volumes s) (ds_VolumeID st') ∧ is_Some (ds_CompletionTimestamp st')) ∧
  stays_or (volume_in (sd_volumes s)) (ds_VolumeID st) (ds_VolumeID st') ∧
  stays_or is_Some (ds_CompletionTimestamp st) (ds_CompletionTimestamp st') ∧
  stays_or is_Some (ds_NextRetryTimestamp st) (ds_NextRetryTimestamp st').

#[export] Instance proper_patch_dec s old new : Decision (proper_patch s old new).
Proof. unfold proper_patch, stays_or, volume_in. apply _. Defined.

Definition download_answered (r : result Download) (s : sending) : sending :=
  match r with Ok d => {| sd_last := Some d; sd_volumes := sd_volumes s |} | Err _ => s end.

Definition sd_on_made (pe : PE) (s : sending) : sending :=
  {| sd_last := sd_last s; sd_volumes := sd_volumes s ++ [PE_GetID pe] |}.

Section keyed.
(** The namespace and the name of the Download, which the server answers under them. *)
Context (key : string * string).

Definition answered_verdict (r : result Download) (s : sending) : verdict sending :=
  match r with
  | Ok d => if bool_decide (download_key d = key) then Next (download_answered r s) else Impossible
  | Err _ => Next s
  end.

(** All requests name the one Download. *)
Definition sending_protocol : monitor Cmd sending := λ s X e,
  match e in Cmd X return X → verdict sending with
  | GetObj _ k ns name =>
      match k return result (obj k) → verdict sending with
      | KDownload => λ r,
          if bool_decide ((ns, name) = key) then answered_verdict r s else Violation
      | _ => λ _, Next s
      end
  | PatchObj _ k ns name old new =>
      match k return obj k → obj k → result (obj k) → verdict sending with
      | KDownload => λ old new r,
          if bool_decide ((ns, name) = key ∧ proper_patch s old new)
          then answered_verdict r s else Violation
      | _ => λ _ _ _, Violation
      end old new
  | PetmCopy _ _ _ _ => λ r, Next (match r with Ok pe => sd_on_made pe s | Err _ => s end)
  | PeOverwrite target _ => λ r, Next (match r with None => sd_on_made target s | Some _ => s end)
  | CreateObj _ _ _ _ | UpdateObj _ _ _ _ | UpdateStatusObj _ _ _ _ | DeleteObj _ _ _ _ => λ _, Violation
  | _ => λ _, Next s
  end.

#[export] Instance sending_protocol_quiet : Quiet sending_protocol.
Proof. solve_quiet. Qed.

(** Calls that the protocol does not look at. *)
Definition unseen {X} (e : Cmd X) : bool :=
  match e with
  | GetObj _ KDownload _ _ | PatchObj _ _ _ _ _ _ | PetmCopy _ _ _ _ | PeOverwrite _ _
  | CreateObj _ _ _ _ | UpdateObj _ _ _ _ | UpdateStatusObj _ _ _ _ | DeleteObj _ _ _ _ => false
  | _ => true
  end.

Lemma unseen_next s X (e : Cmd X) x : unseen e = true → sending_protocol s X e x = Next s.
Proof. destruct e; try done; by destruct k. Qed.

Lemma safe_unseen {A} (p : io A) s :
  calls_only (@unseen) p →
  safe sending_protocol p (λ o s', match o with Hung _ => False | _ => s' = s end) s.
Proof. apply safe_calls_only, unseen_next. Qed.

Lemma unseen_reads {A} (p : io A) : calls_only (@reads _) p → calls_only (@unseen) p.
Proof. apply calls_only_mono. intros X e. destruct e; try done; by destruct k. Qed.
Hint Resolve unseen_reads : calls.

(** What an answered request leaves: the record under its key. *)
Definition answered_ok (s : sending) (o : outcome (result Download)) (s' : sending) : Prop :=
  match o with
  | Returned (Ok d) => s' = download_answered (Ok d) s ∧ download_key d = key
  | Returned (Err _) => s' = s
  | _ => False
  end.

(** The patches: [Completed] only of the record answered last, with a volume. *)
Lemma sends_patch c req p msg s :
  download_key req = key →
  (p = DownloadPhaseCompleted → sd_last s = Some req ∧ volume_in (sd_volumes s) msg) →
  safe sending_protocol (patchDownloadByStatusWithRetry c req p msg) (answered_ok s) s.
Proof.
  intros Hkey Hp. eapply safe_mono.
  - apply (safe_patchDownloadByStatusWithRetry sending_protocol c (λ s', s' = s)
      (λ u s', s' = download_answered (Ok u) s ∧ download_key u = key)); [done|].
    intros s' old new -> [Hs Hm] [Hs' Hm'] Hw (Ht & Hv & Hc & Hn) r. cbn.
    rewrite bool_decide_true.
    { unfold answered_verdict. destruct r as [u|e]; [|done]. by case_bool_decide. }
    split; [done|]. assert (Hkp : known_phase (d_Phase new)) by (by destruct Hw as [_ ->|_ ->|_ ->|_ ->]).
    unfold proper_patch. split_and!; [congruence|congruence|by right| | |done|done].
    + intros Hph Hne. destruct Hw as [-> _ -> Hd|? Ho|? Ho|? Ho]; [|unfold d_Phase in *; congruence..].
      destruct (Hp eq_refl) as [Hl Hin]. destruct Ht as [-> |Ho]; [done|]. by specialize (Ho eq_refl).
    + destruct Hv as [|[-> ->]]; [by left|right]. by apply Hp.
  - intros [[u|e]|y|y] s'; cbn; auto.
Qed.

Abbreviation sends p s := (safe sending_protocol p (λ o _, ends o) s).

Lemma sends_seq {A B} (p : io A) (f : A → io B) s :
  calls_only (@unseen) p → (∀ a, sends (f a) s) → sends (bind p f) s.
Proof.
  intros Hp Hf. eapply safe_seq; [by apply safe_unseen|..]; [|done|done].
  intros a s' ->. apply Hf.
Qed.

Lemma sends_then_patch {B} c req p msg s (f : result Download → io B) :
  download_key req = key →
  (p = DownloadPhaseCompleted → sd_last s = Some req ∧ volume_in (sd_volumes s) msg) →
  (∀ d, download_key d = key → sends (f (Ok d)) (download_answered (Ok d) s)) →
  (∀ e, sends (f (Err e)) s) →
  sends (bind (patchDownloadByStatusWithRetry c req p msg) f) s.
Proof.
  intros Hk Hp Hf He. eapply safe_seq; [by apply sends_patch|..]; [|done|done].
  intros [d|e] s'; [intros [-> Hd]; by apply Hf|]. intros ->. apply He.
Qed.

(** What a copy leaves: the volume it answers. *)
Definition volume_made {A} (v : A → option PEID) (s : sending) (o : outcome (result A)) (s' : sending)
    : Prop :=
  sd_last s' = sd_last s ∧
  match o with
  | Returned (Ok a) => match v a with
                       | Some id => volume_in (sd_volumes s') (PEIDString id)
                       | None => True
                       end
  | Hung _ => False
  | _ => True
  end.

Lemma volume_in_last ids id : volume_in (ids ++ [id]) (PEIDString id).
Proof. unfold volume_in. rewrite fmap_app. set_solver. Qed.

Lemma sends_copyFromRepo d peID target m o s :
  safe sending_protocol (copyFromRepo d peID target m o) (volume_made Some s) s.
Proof.
  unfold copyFromRepo. cbn. intros [pe|e]; cbn; [|done]. case_bool_decide; cbn.
  - intros [tpe|e]; cbn; [|done]. intros [e|]; cbn; [done|]. split; [done|]. apply volume_in_last.
  - intros [pe'|e]; cbn; [|done]. split; [done|]. apply volume_in_last.
Qed.

Lemma sends_withLock (find : io (result S3PETM)) d peID target o s :
  calls_only (@unseen) find →
  safe sending_protocol (withReloadConfigLock (let? m := find else e => Ret (Err e) in
       copyFromRepo d peID target m o)) (volume_made Some s) s.
Proof.
  intros Hf. unfold withReloadConfigLock. cbn. intros []. apply safe_defer.
  eapply (safe_mono _ _ (volume_made Some s)).
  - eapply safe_seq; [by apply safe_unseen|..]; [|by intros ? ? ->|done].
    intros [m|e] s' ->; [apply sends_copyFromRepo|done].
  - intros [[id|e]|w|w] s' [Hl Hv]; cbn; by try intros [].
Qed.

Lemma sends_copyDownload c req peID target o s :
  safe sending_protocol (copyDownload c req peID target o)
    (volume_made (λ r, match r with Ok id => Some id | Err _ => None end) s) s.
Proof.
  unfold copyDownload.
  assert (Hgo : ∀ p : io (result PEID), safe sending_protocol p (volume_made Some s) s →
    safe sending_protocol (let! r := p in Ret (Ok r))
      (volume_made (λ r, match r with Ok id => Some id | Err _ => None end) s) s).
  { intros p Hp. eapply safe_seq; [exact Hp|..]; [by intros [] s'|done|by intros ? ? [_ []]]. }
  destruct (_ && _).
  - eapply safe_seq; [apply safe_unseen; auto with calls|..]; [|by intros ? ? ->|done].
    intros [br|e] s' ->; [|done]. apply Hgo, sends_withLock; auto with calls.
  - apply Hgo, sends_withLock; auto with calls.
Qed.

Lemma sends_doDownload c req s :
  download_key req = key → sd_last s = Some req → sends (doDownload c req) s.
Proof.
  intros Hk Hl. unfold doDownload.
  destruct (NewProtectedEntityIDFromString _) as [peID|e].
  2: { by apply sends_then_patch. }
  destruct (downloadTarget req) as [[o target]|e]; [|done].
  eapply safe_seq; [apply sends_copyDownload|..]; [|done|by intros ? ? [_ []]].
  intros [[id|e]|e] s' [Hl' Hv]; [..|done]; (apply sends_then_patch; [done| |done..]); [|done].
  intros _. split; [congruence|done].
Qed.

Lemma sends_processDownload c req s : download_key req = key → sends (processDownload c req) s.
Proof.
  intros Hk. unfold processDownload. cbn. intros r. change (d_Namespace req, d_Name req) with (download_key req).
  rewrite bool_decide_true by done. destruct r as [d|e]; cbn; [|done]. case_bool_decide as Hd; [|done].
  cbn. case_bool_decide; [done|]. case_bool_decide; [|by apply sends_doDownload].
  apply sends_then_patch; [done|done| |done]. intros d' Hd'. by apply sends_doDownload.
Qed.
End keyed.

(** A goroutine that processes the Download of the key. *)
Abbreviation sender key p s := (safe (sending_protocol key) p (λ o _, ends o) s).

(** ** The invariant *)

(** The volume that the record names was made. *)
Definition names_made (w : download_world) : Prop :=
  volume_in (dw_made w) (ds_VolumeID (d_Status (dw_record w))).

Definition dw_status (w : download_world) : DownloadStatus := d_Status (dw_record w).

Section initially.
Context (volume : string).

(** The ID the record was created with, which no server checks, is [volume]. *)
Definition download_ok (w : download_world) : Prop :=
  known_phase (ds_Phase (dw_status w)) ∧ is_Some (ds_NextRetryTimestamp (dw_status w)) ∧
  (ds_VolumeID (dw_status w) = volume ∨ names_made w) ∧
  (ds_Phase (dw_status w) = DownloadPhaseCompleted →
     names_made w ∧ is_Some (ds_CompletionTimestamp (dw_status w))).

(** What cannot be undone. *)
Definition download_grows (w w' : download_world) : Prop :=
  dw_made w ⊆ dw_made w' ∧
  (is_Some (ds_CompletionTimestamp (dw_status w)) → is_Some (ds_CompletionTimestamp (dw_status w'))) ∧
  (names_made w → names_made w') ∧
  d_Meta (dw_record w') = d_Meta (dw_record w) ∧ d_Spec (dw_record w') = d_Spec (dw_record w).

(** What a goroutine knows, whatever the others have done since. *)
Definition sender_knows (w : download_world) (s : sending) : Prop :=
  sd_volumes s ⊆ dw_made w ∧
  ∀ d, sd_last s = Some d →
    (is_Some (ds_CompletionTimestamp (d_Status d)) → is_Some (ds_CompletionTimestamp (dw_status w))) ∧
    (ds_VolumeID (d_Status d) = volume ∨ names_made w).

Definition sender_ok (w : download_world) (p : thread) : Prop :=
  ∃ s, sender (download_key (dw_record w)) p s ∧ sender_knows w s.

Lemma volume_in_mono ids ids' v : ids ⊆ ids' → volume_in ids v → volume_in ids' v.
Proof. unfold volume_in. intros Hi (id & -> & Hin)%list_elem_of_fmap. apply list_elem_of_fmap. eauto. Qed.

#[export] Instance download_grows_preorder : PreOrder download_grows.
Proof.
  split.
  - intros w. by split_and!.
  - intros w1 w2 w3 (? & ? & ? & ? & ?) (? & ? & ? & ? & ?). split_and!; try congruence; auto. set_solver.
Qed.

Lemma grows_sender_knows w w' s : download_grows w w' → sender_knows w s → sender_knows w' s.
Proof.
  intros (Hv & Hc & Hn & _) [Hks Hkd]. split; [set_solver|]. intros d Hd. destruct (Hkd d Hd). naive_solver.
Qed.

(** A patch that the protocol allows. *)
Lemma download_on_patch old new w s :
  proper_patch s old new → download_ok w → sender_knows w s →
  download_ok (dw_on_patch old new w) ∧ download_grows w (dw_on_patch old new w).
Proof.
  intros (Hsp & Hm & Hph & Hco & Hv & Hc & Hn) (Hwp & Hwn & Hwv & Hwc) [Hks Hkd].
  assert (Hin : ∀ v, volume_in (sd_volumes s) v → volume_in (dw_made w) v).
  { intros v. by apply volume_in_mono. }
  assert (Hgn : names_made w → names_made (dw_on_patch old new w)).
  { apply (merge_field_cases (volume_in (dw_made w))). destruct Hv; [by left|right; auto]. }
  assert (Hgc : is_Some (ds_CompletionTimestamp (dw_status w)) →
    is_Some (ds_CompletionTimestamp (dw_status (dw_on_patch old new w)))).
  { by apply (merge_field_cases is_Some). }
  split.
  - split; [by apply (merge_field_cases known_phase)|]. split; [by apply (merge_field_cases is_Some)|].
    split.
    + destruct Hwv as [Hwv|Hwv]; [|by right; auto]. cbn.
      apply (merge_field_cases (λ v, v = volume ∨ volume_in (dw_made w) v)); [|by left].
      destruct Hv; [by left|right; right; auto].
    + intros Hcomp. destruct (decide (ds_Phase (d_Status old) = ds_Phase (d_Status new))) as [He|He].
      { cbn in Hcomp. unfold merge_field in Hcomp. rewrite bool_decide_true in Hcomp by done.
        destruct (Hwc Hcomp). auto. }
      cbn in Hcomp. unfold merge_field in Hcomp. rewrite bool_decide_false in Hcomp by done.
      destruct (Hco Hcomp) as (Hl & Hvol & Htime); [congruence|]. destruct (Hkd old Hl) as [Hkt Hkv].
      split.
      * unfold names_made. cbn. unfold merge_field. case_bool_decide as Hsame; [|auto].
        destruct Hkv as [Hkv|]; [|done]. destruct Hwv as [Hwv|]; [|done].
        unfold dw_status in Hwv. rewrite Hwv, <-Hkv, Hsame. auto.
      * cbn. unfold merge_field. case_bool_decide as Hsame; [|done]. apply Hkt. by rewrite Hsame.
  - split_and!; [done|done|done|done|]. cbn. unfold merge_field. rewrite Hsp.
    rewrite !bool_decide_true by done. by destruct (d_Spec (dw_record w)).
Qed.

Lemma unseen_effect w X (e : Cmd X) x w' : unseen e = true → download_effect w e x w' → w' = w.
Proof. destruct e; cbn; intros Hu He; try done; by destruct k. Qed.

(** Volumes that others make. *)
Lemma download_more_made d ids ids' :
  ids ⊆ ids' → download_ok (DownloadWorld d ids) →
  download_ok (DownloadWorld d ids') ∧ download_grows (DownloadWorld d ids) (DownloadWorld d ids').
Proof.
  intros Hi (Hwp & Hwn & Hwv & Hwc).
  assert (Hg : names_made (DownloadWorld d ids) → names_made (DownloadWorld d ids')) by (by apply volume_in_mono).
  split; [|by split_and!]. split_and!; [done|done|naive_solver|]. intros Hc. destruct (Hwc Hc). auto.
Qed.

Lemma download_on_made pe w : download_ok w → download_ok (dw_on_made pe w) ∧ download_grows w (dw_on_made pe w).
Proof. destruct w. apply download_more_made. set_solver. Qed.

Lemma sender_on_made pe w s : sender_knows w s → sender_knows (dw_on_made pe w) (sd_on_made pe s).
Proof.
  intros [Hks Hkd]. split; cbn; [set_solver|]. intros d Hd. destruct (Hkd d Hd) as [Ht Hv].
  split; [done|]. destruct Hv as [|Hv]; [by left|right]. eapply volume_in_mono; [|exact Hv]. cbn. set_solver.
Qed.

(** The goroutine knows the record that the server answers. *)
Lemma knows_answer w s d :
  download_ok w → sender_knows w s → d = dw_record w → sender_knows w (download_answered (Ok d) s).
Proof. intros (_ & _ & Hv & _) [Hks _] ->. split; [done|]. by intros d [= <-]. Qed.

(** One call: whatever the others did before. *)
Lemma sender_call w s X (e : Cmd X) x w' :
  download_ok w → sender_knows w s → download_effect w e x w' →
  match sending_protocol (download_key (dw_record w)) s X e x with
  | Next s' => download_ok w' ∧ sender_knows w' s' ∧ download_grows w w'
  | Violation => True
  | Impossible => False
  end.
Proof.
  intros Hw Hk He. destruct (unseen e) eqn:Hu.
  { rewrite unseen_next by done. by rewrite (unseen_effect w X e x w' Hu He). }
  destruct e; try done; try (destruct k; try done); cbn in He |- *.
  - destruct He as [-> Hr]. case_bool_decide; [|done]. destruct x as [d|e]; cbn; [|done].
    destruct Hr as [_ ->]. rewrite bool_decide_true by done. by split; [|split; [by apply knows_answer|]].
  - case_bool_decide as Hp; [|done]. destruct Hp as [_ Hp].
    destruct (download_on_patch old new w s Hp Hw Hk) as [Hw' Hg].
    pose proof (grows_sender_knows _ _ _ Hg Hk) as Hk'. destruct x as [d|e]; cbn.
    + destruct He as (_ & -> & ->). rewrite bool_decide_true by done.
      split_and!; [done| |done]. by apply knows_answer.
    + by destruct He as [-> |[_ ->]].
  - destruct x as [pe'|e]; subst; [|done]. destruct (download_on_made pe' w Hw).
    split_and!; [done|by apply sender_on_made|done].
  - destruct x as [e|]; subst; [done|]. destruct (download_on_made target w Hw).
    split_and!; [done|by apply sender_on_made|done].
Qed.

Lemma grows_key w w' : download_grows w w' → download_key (dw_record w') = download_key (dw_record w).
Proof. intros (_ & _ & _ & Hm & _). unfold download_key. by rewrite Hm. Qed.

Lemma sender_grows w w' p : download_grows w w' → sender_ok w p → sender_ok w' p.
Proof.
  intros Hg (s & Hs & Hk). exists s. rewrite (grows_key _ _ Hg). split; [done|]. by eapply grows_sender_knows.
Qed.

Lemma sender_ok_call w X (e : Cmd X) k x w' :
  download_ok w → sender_ok w (Do e k) → download_effect w e x w' →
  download_ok w' ∧ sender_ok w' (k x) ∧ download_grows w w'.
Proof.
  intros Hw (s & Hs & Hk) He. pose proof (sender_call w s X e x w' Hw Hk He) as Hcall.
  specialize (Hs x). destruct (sending_protocol _ s X e x) as [s'| |]; [|done..].
  destruct Hcall as (Hw' & Hk' & Hg). split_and!; [done| |done]. exists s'. by rewrite (grows_key _ _ Hg).
Qed.

(** A goroutine starts with what the informer gave it. *)
Lemma sender_start c req w :
  download_key req = download_key (dw_record w) → sender_ok w (processDownload c req).
Proof.
  intros Hk. exists {| sd_last := None; sd_volumes := [] |}.
  split; [by apply sends_processDownload|]. split; cbn; [set_solver|done].
Qed.

#[export] Instance download_discipline : Discipline download_ok download_grows sender_ok.
Proof.
  split; [apply _|exact sender_grows| |done|exact sender_ok_call].
  intros w p [c req Hns Hn]. apply sender_start. unfold download_key. by rewrite Hns, Hn.
Qed.
End initially.

(** The informer's handler finds the timestamps that it dereferences. *)
Lemma enqueue_returns c (d : Download) {W} (h : handler Cmd W) s :
  is_Some (ds_NextRetryTimestamp (d_Status d)) →
  (d_Phase d = DownloadPhaseCompleted → is_Some (ds_CompletionTimestamp (d_Status d))) →
  (run h (enqueueDownloadItem c d) s).1 = Returned tt.
Proof.
  intros [next Hn] Hc. unfold enqueueDownloadItem, enqueue. rewrite Hn.
  assert (Hq : ∀ s', (run h match MetaNamespaceKeyFunc (d_Meta d) with
      | Ok key => call (QueueAdd "download" key) | Err _ => Ret tt end s').1 = Returned tt).
  { intros s'. destruct (MetaNamespaceKeyFunc _) as [key|e]; [|done]. cbn. by destruct (h _ _ s') as [[] ?]. }
  destruct (d_Phase d); cbn; try done.
  1-3,5: destruct (h _ _ s) as [now s']; destruct (_ <? _); [done|apply Hq].
  destruct (Hc eq_refl) as [t ->]. destruct (h _ _ s) as [now s']. cbn.
  destruct (After _ _); cbn; [by destruct (h _ _ s')|done].
Qed.

(** C6.  From a new Download with the time of its first try, however many goroutines process it on
    however many nodes, whichever requests fail with or without an effect, and in
    whatever order their calls interleave: when the server's record is [Completed],
    the volume that it names was made or overwritten, and it has the time of its completion; the
    phase is one of those the controller knows; the record keeps its identity and its
    specification; the informer's handler, given that record, finds the
    timestamps that it dereferences; no goroutine waits for ever. *)
Theorem download_system_invariant d w ts :
  d_Phase d = DownloadPhaseUnset ∨ d_Phase d = DownloadPhaseNew →
  is_Some (ds_NextRetryTimestamp (d_Status d)) →
  rtc sys_step (initial_download d, []) (w, ts) →
  (d_Phase (dw_record w) = DownloadPhaseCompleted → names_made w) ∧
  (∀ p, d_Phase (dw_record w) ≠ DownloadPhaseOther p) ∧
  d_Meta (dw_record w) = d_Meta d ∧ d_Spec (dw_record w) = d_Spec d ∧
  (∀ c W (h : handler Cmd W) s, (run h (enqueueDownloadItem c (dw_record w)) s).1 = Returned tt) ∧
  ∀ why, Hang why ∉ ts.
Proof.
  intros Hd Hn Hr.
  destruct (reachable_ok (ok := download_ok (ds_VolumeID (d_Status d))) (initial_download d) w ts)
    as ((Hph & Hnext & _ & Hc) & Hts & (_ & _ & _ & Hm & Hs)).
  { assert (Hk : known_phase (d_Phase d)) by (by destruct Hd as [-> | ->]).
    split_and!; [done|done|by left|]. intros Hc. exfalso. change (d_Phase d = DownloadPhaseCompleted) in Hc.
    destruct Hd; congruence. }
  { exact Hr. }
  change (known_phase (d_Phase (dw_record w))) in Hph.
  change (d_Phase (dw_record w) = DownloadPhaseCompleted → names_made w ∧
          is_Some (ds_CompletionTimestamp (d_Status (dw_record w)))) in Hc.
  split; [by intros Hcomp; apply Hc|]. split_and!; [|done|done| |].
  - intros p Hp. by rewrite Hp in Hph.
  - intros c W h s. apply enqueue_returns; [done|apply Hc].
  - intros why Hin. rewrite Forall_forall in Hts. by destruct (Hts _ Hin) as (s & [] & _).
Qed.
End system.
