(* ===== verification/BackupDriver.v ===== *)
(** * The backup driver (pkg/backupdriver)

    Snapshots, restores and deletions of volumes as custom resources: the
    operations on them, the status updates, the informers' handlers and the
    workers. *)

From S2P Require Export GenericController.
Open Scope Z_scope.

Definition SnapshotBackupLabel : string := "velero.io/backup-name".

(** The [map[string]interface{}] of status fields, by its keys. *)
Record snapshotStatusFields := {
  sf_Message : option string;
  sf_TotalBytes : option Z;
  sf_BytesDone : option Z;
  sf_SnapshotID : option string;
  sf_SvcSnapshotName : option string;
  sf_Metadata : option string;
}.

Definition no_fields : snapshotStatusFields :=
  {| sf_Message := None; sf_TotalBytes := None; sf_BytesDone := None; sf_SnapshotID := None;
     sf_SvcSnapshotName := None; sf_Metadata := None |}.

Definition with_message (msg : string) (f : snapshotStatusFields) : snapshotStatusFields :=
  {| sf_Message := Some msg; sf_TotalBytes := sf_TotalBytes f; sf_BytesDone := sf_BytesDone f;
     sf_SnapshotID := sf_SnapshotID f; sf_SvcSnapshotName := sf_SvcSnapshotName f;
     sf_Metadata := sf_Metadata f |}.

Definition with_metadata (md : string) (f : snapshotStatusFields) : snapshotStatusFields :=
  {| sf_Message := sf_Message f; sf_TotalBytes := sf_TotalBytes f; sf_BytesDone := sf_BytesDone f;
     sf_SnapshotID := sf_SnapshotID f; sf_SvcSnapshotName := sf_SvcSnapshotName f;
     sf_Metadata := Some md |}.

(** The new status of a snapshot, at the time [now]. *)
Definition setSnapshotStatus (newPhase : SnapshotPhase) (f : snapshotStatusFields) (now : time)
    (s : Snapshot) : Snapshot :=
  let st := s_Status s in
  s <| s_Status := {|
    ss_Phase := newPhase;
    ss_Message := default (ss_Message st) (sf_Message f);
    ss_Progress := {|
      pr_TotalBytes := default (pr_TotalBytes (ss_Progress st)) (sf_TotalBytes f);
      pr_BytesDone := default (pr_BytesDone (ss_Progress st)) (sf_BytesDone f) |};
    ss_SnapshotID := default (ss_SnapshotID st) (sf_SnapshotID f);
    ss_SvcSnapshotName := default (ss_SvcSnapshotName st) (sf_SvcSnapshotName f);
    ss_Metadata := default (ss_Metadata st) (sf_Metadata f);
    ss_CompletionTimestamp :=
      if bool_decide (newPhase = SnapshotPhaseUploaded) then Some now
      else ss_CompletionTimestamp st |} |>.

(** The phase of the snapshot for the phase of its upload. *)
Definition snapshotPhaseOfUpload (p : UploadPhase) : option SnapshotPhase :=
  match p with
  | UploadPhaseInProgress => Some SnapshotPhaseUploading
  | UploadPhaseCompleted => Some SnapshotPhaseUploaded
  | UploadPhaseCanceled => Some SnapshotPhaseCanceled
  | UploadPhaseCanceling => Some SnapshotPhaseCanceling
  | UploadPhaseUploadError => Some SnapshotPhaseUploadFailed
  | UploadPhaseCleanupFailed => Some SnapshotPhaseCleanupFailed
  | UploadPhaseUploadFailedAfterRetry => Some SnapshotPhaseUploadFailedAfterRetry
  | _ => None
  end.

(** The phases of a supervisor snapshot that its guest snapshot takes over. *)
Definition snapshotPhaseOfSvc (p : SnapshotPhase) : option SnapshotPhase :=
  match p with
  | SnapshotPhaseUploading | SnapshotPhaseUploaded | SnapshotPhaseCanceled
  | SnapshotPhaseCanceling | SnapshotPhaseCleanupFailed | SnapshotPhaseUploadFailed
  | SnapshotPhaseSnapshotFailed => Some p
  | _ => None
  end.

Section BackupDriver.
Context `{Deps}.

Record backupDriverController := {
  bd_backupdriverClient : option client;   (* may be nil *)
  bd_datamoverClient : client;
  bd_svcBackupdriverClient : client;
  bd_svcKubeConfig : option RestConfig;    (* set in guest clusters *)
  bd_svcNamespace : string;
  bd_snapManager : option SnapshotManager; (* may be nil *)
}.

Context (ctrl : backupDriverController).

(** [ctrl.backupdriverClient.X()]: a request over a nil client panics. *)
Definition withClient {A} (f : client → io A) : io A :=
  match bd_backupdriverClient ctrl with
  | Some c => f c
  | None => Panic "nil pointer: ctrl.backupdriverClient"
  end.

(** ** Status updates *)

Definition updateSnapshotStatusPhase (ns name : string) (newPhase : SnapshotPhase)
    (f : snapshotStatusFields) : io (result Snapshot) :=
  withClient (λ c,
    let? snapshot := call (GetObj c KSnapshot ns name) else e => Ret (Err e) in
    if bool_decide (s_Phase snapshot = newPhase) then Ret (Ok snapshot)
    else
      let! now := (if bool_decide (newPhase = SnapshotPhaseUploaded) then call Now else Ret 0) in
      let? updated := call (UpdateStatusObj c KSnapshot (s_Namespace snapshot)
          (setSnapshotStatus newPhase f now snapshot)) else e => Ret (Err e) in
      Ret (Ok updated)).

Definition updateDeleteSnapshotStatusPhase (ns name : string) (newPhase : DeleteSnapshotPhase)
    (msg : option string) : io (result DeleteSnapshot) :=
  withClient (λ c,
    let? d := call (GetObj c KDeleteSnapshot ns name) else e => Ret (Err e) in
    if bool_decide (del_Phase d = newPhase) then Ret (Ok d)
    else
      let d' := d <| del_Status; dels_Phase := newPhase |> in
      let d' := match msg with
                | Some m => d' <| del_Status; dels_Message := m |>
                | None => d'
                end in
      let! d' :=
        (if bool_decide (newPhase = DeleteSnapshotPhaseCompleted) then
           let! now := call Now in
           Ret (d' <| del_Status; dels_CompletionTimestamp := Some now |>)
         else Ret d') in
      let? updated := call (UpdateStatusObj c KDeleteSnapshot (del_Namespace d') d') else e =>
        Ret (Err e) in
      Ret (Ok updated)).

Definition updateCloneFromSnapshotStatusPhase (ns name : string) (newPhase : ClonePhase)
    (msg : option string) : io (result CloneFromSnapshot) :=
  withClient (λ c,
    let? cl := call (GetObj c KCloneFromSnapshot ns name) else e => Ret (Err e) in
    if bool_decide (c_Phase cl = newPhase) then Ret (Ok cl)
    else
      let cl' := cl <| c_Status; cs_Phase := newPhase |> in
      let cl' := match msg with
                 | Some m => cl' <| c_Status; cs_Message := m |>
                 | None => cl'
                 end in
      let! cl' :=
        (if bool_decide (newPhase = ClonePhaseCompleted) then
           let! now := call Now in
           Ret (cl' <| c_Status; cs_CompletionTimestamp := Some now |>)
         else Ret cl') in
      let? updated := call (UpdateStatusObj c KCloneFromSnapshot (c_Namespace cl') cl') else e =>
        Ret (Err e) in
      Ret (Ok updated)).

(** ** Creating a snapshot *)

(** Records a failure, whether or not that can be written, and returns [e]. *)
Definition failSnapshot (snapshot : Snapshot) (f : snapshotStatusFields) (errMsg : string)
    (e : error) : io (option error) :=
  updateSnapshotStatusPhase (s_Namespace snapshot) (s_Name snapshot)
    SnapshotPhaseSnapshotFailed (with_message errMsg f) ;;;
  Ret (Some e).

(** [what PreXxx: backupdriverClient is not initialized] and its like. *)
Definition uninitialized (what : string) : string :=
  (match bd_backupdriverClient ctrl with
   | None => what +:+ ": backupdriverClient is not initialized
"
   | Some _ => ""
   end) +:+
  (match bd_snapManager ctrl with
   | None => what +:+ ": snapManager is not initialized."
   | Some _ => ""
   end).

(** The name of the repository the snapshot manager is given: in a guest
    cluster that of the supervisor's. *)
Definition repositoryName (c : client) (brName : string) : io (result string) :=
  match bd_svcKubeConfig ctrl with
  | Some _ =>
      if bool_decide (brName ≠ "") then
        let? br := call (GetObj c KBackupRepository "" brName) else e => Ret (Err e) in
        Ret (Ok (br_SvcBackupRepositoryName br))
      else Ret (Ok brName)
  | None => Ret (Ok brName)
  end.

(** The fields recorded with the ID of a new snapshot. *)
Definition snapshotted_fields (snapshotID svcSnapshotName : string) : snapshotStatusFields :=
  {| sf_Message := None; sf_TotalBytes := Some 0; sf_BytesDone := Some 0;
     sf_SnapshotID := Some snapshotID;
     sf_SvcSnapshotName := if bool_decide (svcSnapshotName ≠ "") then Some svcSnapshotName else None;
     sf_Metadata := None |}.

(** What follows the snapshot [peID]: its metadata, and the phase. *)
Definition recordSnapshot (snapshot : Snapshot) (peID : PEID) (svcSnapshotName : string)
    : io (option error) :=
  let f := snapshotted_fields (PEIDString peID) svcSnapshotName in
  let? pe := call (PemGetProtectedEntity peID) else e =>
    failSnapshot snapshot f
      ("createSnapshot PostSnapshot: Failed to get the ProtectedEntity from peID "
        +:+ PEIDString peID +:+ ", err: " +:+ Error e) e in
  let? metadataReader := call (PeGetMetadataReader pe) else e =>
    failSnapshot snapshot f
      ("createSnapshot PostSnapshot: Error happened when calling PE GetMetadataReader: "
        +:+ Error e) e in
  let? mdBuf := call (ReadAll metadataReader) else e =>
    failSnapshot snapshot f
      ("createSnapshot PostSnapshot: Error happened when reading metadata: " +:+ Error e) e in
  let? _ := updateSnapshotStatusPhase (s_Namespace snapshot) (s_Name snapshot)
      SnapshotPhaseSnapshotted (with_metadata mdBuf f) else e => Ret (Some e) in
  Ret None.

(** [backupDriverController.createSnapshot] *)
Definition createSnapshotCR (snapshot : Snapshot) : io (option error) :=
  let objName := ref_Name (ss_ResourceHandle (s_Spec snapshot)) in
  let objKind := ref_Kind (ss_ResourceHandle (s_Spec snapshot)) in
  if bool_decide (objKind ≠ "PersistentVolumeClaim") then
    let errMsg := "createSnapshot PreSnapshot: resourceHandle Kind " +:+ objKind
      +:+ " is not supported. Only PersistentVolumeClaim Kind is supported" in
    failSnapshot snapshot no_fields errMsg (ErrorString errMsg)
  else
    let peID := NewProtectedEntityIDWithNamespace objKind objName (s_Namespace snapshot) in
    match bd_backupdriverClient ctrl, bd_snapManager ctrl with
    | Some c, Some snapManager =>
        let brName := ss_BackupRepository (s_Spec snapshot) in
        let? brName := repositoryName c brName else e =>
          failSnapshot snapshot no_fields
            ("createSnapshot PreSnapshot: Failed to get snapshot Backup Repository " +:+ brName) e in
        let! (peID, svcSnapshotName, err) := CreateSnapshotWithBackupRepository snapManager peID
          brName (s_Namespace snapshot +:+ "/" +:+ s_Name snapshot)
          (map_get (om_Labels (s_Meta snapshot)) SnapshotBackupLabel) in
        match err with
        | Some e =>
            failSnapshot snapshot no_fields
              ("createSnapshot: Failed at calling SnapshotManager CreateSnapshot from peID "
                +:+ PEIDString peID +:+ " , Error: " +:+ Error e) e
        | None => recordSnapshot snapshot peID svcSnapshotName
        end
    | _, _ =>
        let errMsg := uninitialized "createSnapshot PreSnapshot" in
        failSnapshot snapshot no_fields errMsg (ErrorString errMsg)
    end.

(** ** Deleting a snapshot *)

Definition failDeleteSnapshot (d : DeleteSnapshot) (errMsg : string) (e : error)
    : io (option error) :=
  updateDeleteSnapshotStatusPhase (del_Namespace d) (del_Name d) DeleteSnapshotPhaseFailed
    (Some errMsg) ;;;
  Ret (Some e).

(** [backupDriverController.deleteSnapshot] *)
Definition deleteSnapshotCR (d : DeleteSnapshot) : io (option error) :=
  let snapshotID := dels_SnapshotID (del_Spec d) in
  match NewProtectedEntityIDFromString snapshotID with
  | Err e =>
      failDeleteSnapshot d
        ("deleteSnapshot PreDeleteSnapshot: Fail to construct new Protected Entity ID from string "
          +:+ snapshotID) e
  | Ok peID =>
      match bd_backupdriverClient ctrl, bd_snapManager ctrl with
      | Some c, Some snapManager =>
          let brName := dels_BackupRepository (del_Spec d) in
          let? brName := repositoryName c brName else _ => (
            let errMsg := "deleteSnapshot PreDeleteSnapshot: Failed to get delete snapshot Backup Repository "
                            +:+ brName in
            failDeleteSnapshot d errMsg (ErrorString errMsg)) in
          check! DeleteSnapshotWithBackupRepository peID brName (del_Name d) else e =>
            failDeleteSnapshot d
              ("deleteSnapshot : Failed at calling SnapshotManager DeleteSnapshot for peID "
                +:+ PEIDString peID +:+ ", error: " +:+ Error e) e in
          let? _ := updateDeleteSnapshotStatusPhase (del_Namespace d) (del_Name d)
              DeleteSnapshotPhaseCompleted (Some "DeleteSnapshot Successfully processed.")
            else e => Ret (Some e) in
          Ret None
      | _, _ =>
          let errMsg := uninitialized "deleteSnapshot PreDeleteSnapshot" in
          failDeleteSnapshot d errMsg (ErrorString errMsg)
      end
  end.

(** ** Cloning from a snapshot *)

Definition failClone (cl : CloneFromSnapshot) (errMsg : string) (e : error) : io (option error) :=
  updateCloneFromSnapshotStatusPhase (c_Namespace cl) (c_Name cl) ClonePhaseFailed
    (Some errMsg) ;;;
  Ret (Some e).

(** The phase of success is written elsewhere, when the download completes. *)
Definition cloneFromSnapshot (cl : CloneFromSnapshot) : io (option error) :=
  let md := cs_Metadata (c_Spec cl) in
  if bool_decide (md = "") then
    let errMsg := "cloneFromSnapshot PreCloneFromSnapshot: no metadata in CloneFromSnapshot CR "
                    +:+ c_Namespace cl +:+ "/" +:+ c_Name cl in
    failClone cl errMsg (ErrorString errMsg)
  else
    match UnmarshalPVC md with
    | Err e =>
        failClone cl ("cloneFromSnapshot PreCloneFromSnapshot: Error extracting metadata into PVC: "
                        +:+ Error e) e
    | Ok pvc =>
        if bool_decide (default "" (pvc_StorageClassName pvc) = "") then
          let errMsg := "cloneFromSnapshot PreCloneFromSnapshot: Failed for PVC "
            +:+ pvc_Namespace pvc +:+ "/" +:+ pvc_Name pvc
            +:+ " because StorageClassName is not set" in
          failClone cl errMsg (ErrorString errMsg)
        else
          let peId := NewProtectedEntityIDWithNamespace (cs_Kind (c_Spec cl)) (pvc_Name pvc)
                        (pvc_Namespace pvc) in
          match bd_snapManager ctrl with
          | None => Panic "nil pointer: ctrl.snapManager"
          | Some snapManager =>
              let? _ := CreateVolumeFromSnapshotWithMetadata snapManager peId md
                  (cs_SnapshotID (c_Spec cl)) (cs_BackupRepository (c_Spec cl))
                  (c_Namespace cl) (c_Name cl) else e =>
                failClone cl
                  ("cloneFromSnapshot: Failed at calling SnapshotManager CreateVolumeFromSnapshotWithMetadata with peId "
                    +:+ PEIDString peId +:+ ", err: " +:+ Error e) e in
              Ret None
          end
    end.
End BackupDriver.
