(* ===== verification/BackupDriverSync.v ===== *)
(** * The backup driver's queues (pkg/backupdriver/backup_driver_controller_base.go)

    The informers' handlers, the workers, and what a worker does with a key. *)

From S2P Require Export BackupDriver.
Open Scope Z_scope.

(** What an informer hands to a handler: an object, or the tombstone of an
    object whose deletion was missed, with its key and perhaps its last known
    state. *)
Inductive delta (A : Type) :=
| Object (a : A)
| DeletedFinalStateUnknown (key : string) (last : option A).
Arguments Object {A} a.
Arguments DeletedFinalStateUnknown {A} key last.

(** [if unknown, ok := obj.(cache.DeletedFinalStateUnknown); ok && unknown.Obj != nil]
    and the type assertion after it. *)
Definition unwrap {A} (d : delta A) : option A :=
  match d with
  | Object a => Some a
  | DeletedFinalStateUnknown _ last => last
  end.

Section BackupDriverSync.
Context `{Deps}.

(** cache.DeletionHandlingMetaNamespaceKeyFunc *)
Definition DeletionHandlingKey {A} (m : A → ObjectMeta) (d : delta A) : result string :=
  match d with
  | Object a => MetaNamespaceKeyFunc (m a)
  | DeletedFinalStateUnknown key _ => Ok key
  end.

Definition getKey {A} (m : A → ObjectMeta) (d : delta A) : result string :=
  match unwrap d with
  | Some a => DeletionHandlingKey m (Object a)
  | None => DeletionHandlingKey m d
  end.

Context (ctrl : backupDriverController).

(** The body that all workers of the driver share: a key that fails comes back
    with rate limiting. *)
Definition worker (queue : string) (sync : string → io (option error)) : io unit :=
  let! (key, quit) := call (QueueGet queue) in
  if (quit : bool) then Ret tt
  else
    defer (call (QueueDone queue key)) (
      let! err := sync key in
      match err with
      | Some _ => call (QueueAddRateLimited queue key)
      | None => call (QueueForget queue key)
      end).

(** The body that the handlers of additions and updates share. *)
Definition enqueueObject {A} (queue : string) (m : A → ObjectMeta) (d : delta A) : io unit :=
  match unwrap d with
  | Some a => enqueue queue (m a)
  | None => Ret tt
  end.

(** The prologue of the [sync...ByKey]: the up-to-date object of the key, if
    it still exists. *)
Definition withObject (oc : option client) (k : kind) (key : string)
    (body : client → obj k → io (option error)) : io (option error) :=
  match SplitMetaNamespaceKey key with
  | Err e => Ret (Some e)
  | Ok (namespace, name) =>
      match oc with
      | None => Panic "nil pointer: ctrl.backupdriverClient"
      | Some c =>
          let! r := call (GetObj c k namespace name) in
          match r with
          | Ok o => body c o
          | Err e => if IsNotFound e then Ret None else Ret (Some e)
          end
      end
  end.

(** Deletes a finished object once the clean-up window is over; an error is
    only logged. *)
Definition cleanUp (c : client) (k : kind) (ns name : string) (completion : option time)
    : io (option error) :=
  let! now := call Now in
  match completion with
  | None => Panic "nil pointer: Status.CompletionTimestamp"
  | Some t =>
      if After now (t + DefaultCRCleanUpWindow * Hour) then
        call (DeleteObj c k ns name) ;;; Ret None
      else Ret None
  end.

(** ** The vCenter secret *)

Definition syncSecretByKey (key : string) : io (option error) :=
  match SplitMetaNamespaceKey key with
  | Err e => Ret (Some e)
  | Ok _ =>
      let? ps := RetrieveVcConfigSecret ∅ None else e => Ret (Some e) in
      match bd_snapManager ctrl with
      | None => Panic "nil pointer: ctrl.snapManager"
      | Some _ => ReloadSnapshotManagerIvdPetmConfig ps
      end
  end.

Definition enqueueSecret (d : delta Secret) : io unit :=
  enqueueObject "backup-driver-secret-queue" sec_Meta d.

Definition secretWorker : io unit := worker "backup-driver-secret-queue" syncSecretByKey.

(** ** Snapshots *)

(** In a guest cluster: the supervisor snapshot's name stands for
    [<namespace>:<name>] of the guest's. *)
Definition mapSvcSnapshot (snapshot : Snapshot) : io unit :=
  let svc := ss_SvcSnapshotName (s_Status snapshot) in
  if bool_decide (is_Some (bd_svcKubeConfig ctrl)) && bool_decide (svc ≠ "") then
    let! old := call (SvcMapLoad svc) in
    match old with
    | None => call (SvcMapStore svc (s_Namespace snapshot +:+ ":" +:+ s_Name snapshot))
    | Some _ => Ret tt
    end
  else Ret tt.

Definition syncSnapshotByKey (key : string) : io (option error) :=
  withObject (bd_backupdriverClient ctrl) KSnapshot key (λ c (snapshot : Snapshot),
    mapSvcSnapshot snapshot ;;;
    if bool_decide (s_Phase snapshot ≠ SnapshotPhaseNew) then
      if bool_decide (s_Phase snapshot = SnapshotPhaseUploaded) then
        cleanUp c KSnapshot (s_Namespace snapshot) (s_Name snapshot)
          (ss_CompletionTimestamp (s_Status snapshot))
      else Ret None
    else if ss_SnapshotCancel (s_Spec snapshot) then Ret None
    else createSnapshotCR ctrl snapshot).

Definition enqueueSnapshot (d : delta Snapshot) : io unit :=
  enqueueObject "backup-driver-snapshot-queue" s_Meta d.

Definition delSnapshot (d : delta Snapshot) : io unit :=
  match bd_svcKubeConfig ctrl, unwrap d with
  | Some _, Some snapshot =>
      let svc := ss_SvcSnapshotName (s_Status snapshot) in
      if bool_decide (svc ≠ "") then
        let! old := call (SvcMapLoad svc) in
        match old with
        | Some _ => call (SvcMapDelete svc)
        | None => Ret tt
        end
      else Ret tt
  | _, _ => Ret tt
  end.

Definition snapshotWorker : io unit := worker "backup-driver-snapshot-queue" syncSnapshotByKey.

(** ** Clones *)

(** Go's [switch] does not fall through: the empty cases of [InProgress],
    [Failed] and [Canceling] leave it, and the clone is made. *)
Definition syncClone (c : client) (cl : CloneFromSnapshot) : io (option error) :=
  let clone :=
    if cs_CloneCancel (c_Spec cl) then Ret None
    else check! cloneFromSnapshot ctrl cl else e => Ret (Some e) in Ret None in
  match c_Phase cl with
  | ClonePhaseInProgress => clone
  | ClonePhaseFailed => clone
  | ClonePhaseCanceling => clone
  | ClonePhaseCanceled => Ret None
  | ClonePhaseCompleted =>
      cleanUp c KCloneFromSnapshot (c_Namespace cl) (c_Name cl)
        (cs_CompletionTimestamp (c_Status cl))
  | _ => clone
  end.

Definition syncCloneFromSnapshotByKey (key : string) : io (option error) :=
  withObject (bd_backupdriverClient ctrl) KCloneFromSnapshot key syncClone.

Definition enqueueCloneFromSnapshot (d : delta CloneFromSnapshot) : io unit :=
  enqueueObject "backup-driver-clone-queue" c_Meta d.

Definition cloneFromSnapshotWorker : io unit :=
  worker "backup-driver-clone-queue" syncCloneFromSnapshotByKey.

(** ** Repository claims *)

Definition syncBackupRepositoryClaimByKey (key : string) : io (option error) :=
  match SplitMetaNamespaceKey key with
  | Err e => Ret (Some e)
  | Ok (namespace, name) =>
      let! r := call (ListerGet KBackupRepositoryClaim namespace name) in
      match r with
      | Err e => if IsNotFound e then Ret None else Ret (Some e)
      | Ok brc =>
          match om_DeletionTimestamp (brc_Meta brc) with
          | Some _ => Ret None
          | None =>
              let? svcBackupRepositoryName :=
                (match bd_svcKubeConfig ctrl with
                 | Some cfg => ClaimSvcBackupRepository brc cfg (bd_svcNamespace ctrl)
                 | None => Ret (Ok "")
                 end) else e => Ret (Some e) in
              withClient ctrl (λ c,
                let? br := CreateBackupRepository brc svcBackupRepositoryName c else e =>
                  Ret (Some e) in
                check! PatchBackupRepositoryClaim brc (br_Name br) (brc_Namespace brc) c else e =>
                  Ret (Some e) in
                Ret None)
          end
      end
  end.

Definition enqueueBackupRepositoryClaim (d : delta BackupRepositoryClaim) : io unit :=
  enqueueObject "backup-driver-brc-queue" brc_Meta d.

(** A tombstone is not unwrapped: its repository stays. *)
Definition dequeBackupRepositoryClaim (d : delta BackupRepositoryClaim) : io unit :=
  match DeletionHandlingKey brc_Meta d, d with
  | Ok key, Object brc =>
      let done := call (QueueForget "backup-driver-brc-queue" key) ;;;
                  call (QueueDone "backup-driver-brc-queue" key) in
      if bool_decide (brc_BackupRepository brc ≠ "") then
        withClient ctrl (λ c,
          let! err := call (DeleteObj c KBackupRepository "" (brc_BackupRepository brc)) in
          match err with
          | Some e => if IsNotFound e then done else Ret tt
          | None => done
          end)
      else done
  | _, _ => Ret tt
  end.

Definition backupRepositoryClaimWorker : io unit :=
  worker "backup-driver-brc-queue" syncBackupRepositoryClaimByKey.

(** ** Deletions *)

Definition syncDeleteSnapshotByKey (key : string) : io (option error) :=
  withObject (bd_backupdriverClient ctrl) KDeleteSnapshot key (λ c (d : DeleteSnapshot),
    let? d :=
      (if bool_decide (del_Phase d = DeleteSnapshotPhaseUnset) then
         updateDeleteSnapshotStatusPhase ctrl (del_Namespace d) (del_Name d)
           DeleteSnapshotPhaseNew (Some "Explicit update to New Phase")
       else Ret (Ok d)) else e => Ret (Some e) in
    if bool_decide (del_Phase d ≠ DeleteSnapshotPhaseNew) then
      if bool_decide (del_Phase d = DeleteSnapshotPhaseCompleted) then
        cleanUp c KDeleteSnapshot (del_Namespace d) (del_Name d)
          (dels_CompletionTimestamp (del_Status d))
      else Ret None
    else
      match om_DeletionTimestamp (del_Meta d) with
      | None => deleteSnapshotCR ctrl d
      | Some _ => Ret None
      end).

Definition enqueueDeleteSnapshot (d : delta DeleteSnapshot) : io unit :=
  enqueueObject "backup-driver-delete-snapshot-queue" del_Meta d.

Definition dequeDeleteSnapshot (d : delta DeleteSnapshot) : io unit :=
  match DeletionHandlingKey del_Meta d, d with
  | Ok key, Object delSnap =>
      withClient ctrl (λ c,
        let! err := call (DeleteObj c KDeleteSnapshot (del_Namespace delSnap) (del_Name delSnap)) in
        let done := call (QueueForget "backup-driver-delete-snapshot-queue" key) ;;;
                    call (QueueDone "backup-driver-delete-snapshot-queue" key) in
        match err with
        | Some e => if IsNotFound e then done else Ret tt
        | None => done
        end)
  | _, _ => Ret tt
  end.

Definition deleteSnapshotWorker : io unit :=
  worker "backup-driver-delete-snapshot-queue" syncDeleteSnapshotByKey.

(** ** Uploads and supervisor snapshots *)

(** Writes the phase to a snapshot that is not being deleted. *)
Definition followPhase (ns name : string) (newPhase : option SnapshotPhase)
    : io (option error) :=
  withClient ctrl (λ c,
    let? snapshot := call (GetObj c KSnapshot ns name) else _ => Ret None in
    match om_DeletionTimestamp (s_Meta snapshot), newPhase with
    | None, Some p =>
        let! r := updateSnapshotStatusPhase ctrl (s_Namespace snapshot) (s_Name snapshot) p
                    no_fields in
        Ret (err_of r)
    | _, _ => Ret None
    end).

Definition syncUploadByKey (key : string) : io (option error) :=
  withObject (Some (bd_datamoverClient ctrl)) KUpload key (λ _ (upload : Upload),
    let ref := us_SnapshotReference (u_Spec upload) in
    if bool_decide (ref = "") then Ret None
    else
      match Split ref "/" with
      | [ns; name] => followPhase ns name (snapshotPhaseOfUpload (u_Phase upload))
      | _ => Ret None
      end).

Definition updateUpload (newObj : delta Upload) : io unit :=
  enqueueObject "backup-driver-upload-queue" u_Meta newObj.

Definition uploadWorker : io unit := worker "backup-driver-upload-queue" syncUploadByKey.

Definition syncSvcSnapshotByKey (key : string) : io (option error) :=
  withObject (Some (bd_svcBackupdriverClient ctrl)) KSnapshot key (λ _ (svcSnapshot : Snapshot),
    let! v := call (SvcMapLoad (s_Name svcSnapshot)) in
    match v with
    | None => Ret None
    | Some v =>
        match Split v ":" with
        | ns :: name :: _ => followPhase ns name (snapshotPhaseOfSvc (s_Phase svcSnapshot))
        | _ => Panic "index out of range: snapshotParts[1]"
        end
    end).

Definition updateSvcSnapshot (newObj : delta Snapshot) : io unit :=
  match unwrap newObj with
  | None => Ret tt
  | Some svcSnapshotNew =>
      let! v := call (SvcMapLoad (s_Name svcSnapshotNew)) in
      match v with
      | None => Ret tt
      | Some _ => enqueue "backup-driver-svc-snapshot-queue" (s_Meta svcSnapshotNew)
      end
  end.

Definition svcSnapshotWorker : io unit :=
  worker "backup-driver-svc-snapshot-queue" syncSvcSnapshotByKey.
End BackupDriverSync.
