(* ===== verification/VcConfigController.v ===== *)
(** * The vCenter configuration controller (pkg/controller/vc_config_controller.go)

    When the vCenter secret changes, the data mover and the snapshot manager
    are given its new contents. *)

From S2P Require Export BackupDriverSync.
Open Scope Z_scope.

Section VcConfigController.
Context `{Deps}.

Record vcConfigController := {
  vc_dataMover : option DataMover;
  vc_snapMgr : option SnapshotManager;
}.

Context (v : vcConfigController).

Definition enqueueVcConfigSecret (d : delta Secret) : io unit :=
  match unwrap d with
  | Some secretItem =>
      match MetaNamespaceKeyFunc (sec_Meta secretItem) with
      | Err _ => Ret tt
      | Ok _ => enqueue "vc-config" (sec_Meta secretItem)
      end
  | None => Ret tt
  end.

Definition processVcConfigSecretItem (key : string) : io (option error) :=
  match SplitMetaNamespaceKey key with
  | Err _ => Ret None
  | Ok _ =>
      let? ivdParams := RetrieveVcConfigSecret ∅ None else e => Ret (Some e) in
      check! (match vc_dataMover v with
              | Some dataMover => ReloadDataMoverIvdPetmConfig dataMover ivdParams
              | None => Ret None
              end) else e => Ret (Some e) in
      check! (match vc_snapMgr v with
              | Some _ => ReloadSnapshotManagerIvdPetmConfig ivdParams
              | None => Ret None
              end) else e => Ret (Some e) in
      Ret None
  end.

Definition vcConfigBackoffHandler (key : string) : io (option error) :=
  call (QueueAddAfter "vc-config" key Minute) ;;; Ret None.

Definition NewVcConfigController : genericController := {|
  gc_queue := "vc-config";
  gc_syncHandler := processVcConfigSecretItem;
  gc_retryHandler := vcConfigBackoffHandler;
|}.

(** The handlers of the informer: of the secrets that pass the filter. *)
Definition onVcConfigSecret (filter : Secret → bool) (secret : Secret) : io unit :=
  if filter secret then enqueueVcConfigSecret (Object secret) else Ret tt.

(** ** What a reload does *)

(** What the configuration of a secret says: of several virtual centers, the last. *)
Definition described (conf : VcConfig) : params :=
  match last (vc_VirtualCenter conf) with
  | Some (ip, (user, password, port)) =>
      <["VirtualCenter" := IString ip]> (<["user" := IString user]> (<["password" := IString password]>
      (<["port" := IString (if bool_decide (port = "") then DefaultVCenterPort else port)]>
        {["cluster-id" := IString (vc_ClusterID conf)]})))
  | None => {["cluster-id" := IString (vc_ClusterID conf)]}
  end.

(** The parameters are those of the secret: of its first value, which parses. *)
Definition params_of (secret : Secret) : option params :=
  match sec_Data secret with
  | (_, value) :: _ => match ReadStringInto value with Ok conf => Some (described conf) | Err _ => None end
  | [] => None
  end.

Lemma ParseConfig_described secret ps :
  sec_Data secret ≠ [] → ParseConfig secret ∅ = Ok ps → params_of secret = Some ps.
Proof.
  unfold ParseConfig, params_of, described. destruct (sec_Data secret) as [|[key value] data]; [done|]. intros _.
  destruct (ReadStringInto value) as [conf|e] eqn:Hc; [|done]. intros [= <-]. cbn. f_equal. symmetry.
  induction (vc_VirtualCenter conf) as [|[ip [[user password] port]] vcs IH] using rev_ind; [done|].
  rewrite foldl_app, last_snoc. cbn [foldl]. rewrite IH. clear.
  destruct (last vcs) as [[? [[? ?] ?]]|]; apply map_eq; intros k; rewrite !lookup_insert; repeat case_decide; congruence.
Qed.

(** The secret that was read last, the reloads that were asked for, the last one first, with
    their parameters and answers, and the manager that was looked up. *)
Record reloads := {
  rl_secret : option Secret;
  rl_calls : list (PETM * params * option error);
  rl_manager : option PETM;
}.

Definition reload_start : reloads := {| rl_secret := None; rl_calls := []; rl_manager := None |}.

Definition with_secret (r : result Secret) (s : reloads) : reloads :=
  match r with
  | Ok secret => {| rl_secret := Some secret; rl_calls := rl_calls s; rl_manager := rl_manager s |}
  | Err _ => s
  end.

(** A reload has the parameters of the secret, and comes only if those before were
    accepted; beyond that only reads, the mutex and the lookup of the manager.  No secret is
    read after a reload. *)
Definition reload_monitor : monitor Cmd reloads := λ s X e,
  match e in Cmd X return X → verdict reloads with
  | GetObj _ k _ _ =>
      match k return result (obj k) → verdict reloads with
      | KSecret => λ r, if bool_decide (rl_calls s = []) then Next (with_secret r s) else Violation
      | k => λ _, if work_record k then Violation else Next s
      end
  | ReloadIvdConfig m ps => λ r,
      if bool_decide (rl_secret s ≫= params_of = Some ps) && forallb (λ '(_, _, r'), bool_decide (r' = None)) (rl_calls s)
      then Next {| rl_secret := rl_secret s; rl_calls := (m, ps, r) :: rl_calls s; rl_manager := rl_manager s |}
      else Violation
  | PemGetTypeManager _ => λ m, Next {| rl_secret := rl_secret s; rl_calls := rl_calls s; rl_manager := m |}
  | Lock | Unlock => λ _, Next s
  | e => λ _, if reads e then Next s else Violation
  end.

(** Reads of something else than a secret. *)
Definition other_reads {X} (e : Cmd X) : bool :=
  match e with GetObj _ KSecret _ _ => false | _ => reads e end.

Lemma reload_reads {A} (p : io A) s :
  calls_only (@other_reads) p →
  safe reload_monitor p (λ o s', match o with Hung _ => False | _ => s' = s end) s.
Proof.
  apply safe_calls_only. intros s' X e x Hr. destruct e; cbn in Hr |- *; try done; try (by rewrite Hr).
  destruct k; try done; cbn in Hr |- *; congruence.
Qed.

Lemma other_reads_location config : calls_only (@other_reads) (vcSecretLocation config).
Proof.
  unfold vcSecretLocation, secretLocation, GetSecretNamespaceAndName, IsFeatureEnabled, GetCSIInstalledVersion,
    retrieveClusterFlavor, GetClusterTypeFromConfig, GetCSIClusterType, GetKubeClientConfig, GetKubeClientSet,
    veleroNamespaceOrDefault, GetVeleroNamespace.
  calls_tac.
Qed.

Lemma reload_firstSecret c ns names last s :
  rl_calls s = [] →
  safe reload_monitor (firstSecret c ns names last) (λ o s', match o with
    | Returned (Some secret, None) => rl_secret s' = Some secret ∧ rl_calls s' = []
    | Returned _ | Panicked _ => True
    | Hung _ => False
    end) s.
Proof.
  intros Hs. revert last s Hs. induction names as [|n names IH]; intros last s Hs; cbn; [done|].
  rewrite bool_decide_true by done. intros [secret|e]; [done|]. by apply IH.
Qed.

Lemma reload_secret :
  safe reload_monitor (RetrieveVcConfigSecret ∅ None) (λ o s', match o with
    | Returned (Ok ps) => rl_secret s' ≫= params_of = Some ps ∧ rl_calls s' = []
    | Returned (Err _) | Panicked _ => True
    | Hung _ => False
    end) reload_start.
Proof.
  unfold RetrieveVcConfigSecret. eapply safe_seq; [apply reload_reads, other_reads_location| |done..].
  intros [[clientset [ns names]]|e] s ->; [|done].
  eapply safe_seq; [by apply reload_firstSecret| |done..].
  intros [[secret|] [e|]] s Hs; try done. destruct Hs as [Hs Hc]. case_bool_decide as Hd; [done|].
  cbn. destruct (ParseConfig secret ∅) as [ps|e] eqn:Hp; [|done]. rewrite Hs. split; [|done].
  by apply ParseConfig_described.
Qed.

(** The parameters [ps] are those of the secret, and all reloads so far had them and were accepted. *)
Definition accepted (ps : params) (s : reloads) : Prop :=
  rl_secret s ≫= params_of = Some ps ∧ ∀ c, c ∈ rl_calls s → ∃ m, c = (m, ps, None).

Lemma accepted_check ps s :
  accepted ps s →
  bool_decide (rl_secret s ≫= params_of = Some ps) &&
  forallb (λ '(_, _, r'), bool_decide (r' = None)) (rl_calls s) = true.
Proof.
  intros [Hp Ha]. rewrite bool_decide_true by done. apply forallb_forall. intros [[m ps'] r] Hin%list_elem_of_In.
  destruct (Ha _ Hin) as [m' [= -> -> ->]]. by rewrite !bool_decide_true.
Qed.

(** An operation that reloads and answers nil leaves all reloads accepted. *)
Definition reloads_from (ps : params) (s : reloads) (P : reloads → Prop)
    (o : outcome (option error)) (s' : reloads) : Prop :=
  match o with
  | Returned None => accepted ps s' ∧ (∀ c, c ∈ rl_calls s → c ∈ rl_calls s') ∧ P s'
  | Returned (Some _) => True
  | _ => False
  end.

Definition on_reload (m : PETM) (ps : params) (s : reloads) : reloads :=
  {| rl_secret := rl_secret s; rl_calls := (m, ps, None) :: rl_calls s; rl_manager := rl_manager s |}.

Lemma accepted_on_reload m ps s : accepted ps s → accepted ps (on_reload m ps s).
Proof. intros [Hp Ha]. split; [exact Hp|]. intros c [-> |Hc]%elem_of_cons; [eauto|by apply Ha]. Qed.

#[local] Arguments forallb : simpl never.

Lemma reload_dataMover dm ps s :
  accepted ps s →
  safe reload_monitor (ReloadDataMoverIvdPetmConfig dm ps)
    (reloads_from ps s (λ s', (dm_ivdPETM dm, ps, None) ∈ rl_calls s')) s.
Proof.
  intros Ha. unfold ReloadDataMoverIvdPetmConfig, withReloadConfigLock. cbn. intros [].
  destruct (negb _); cbn; [done|].
  intros [e|]; rewrite accepted_check by done; cbn; [done|]. intros [].
  split_and!; [by apply (accepted_on_reload _ _ s)| |by left]. intros c Hc. by right.
Qed.

Definition manager_reloaded (ps : params) (s : reloads) : Prop :=
  ∃ m base, rl_manager s = Some m ∧ PETM_AsDataManager m = Some base ∧
    (PETM_IsIVD base = true → (base, ps, None) ∈ rl_calls s).

Lemma reload_snapMgr ps s :
  accepted ps s →
  safe reload_monitor (ReloadSnapshotManagerIvdPetmConfig ps)
    (reloads_from ps s (manager_reloaded ps)) s.
Proof.
  intros Ha. unfold ReloadSnapshotManagerIvdPetmConfig, ReloadDmIvdPetm. cbn. intros [m|]; [|done].
  destruct (PETM_AsDataManager m) as [base|] eqn:Hm; [|done].
  destruct (PETM_IsIVD base) eqn:Hivd; cbn.
  - intros [e|]; rewrite (accepted_check ps s) by done; cbn; [done|].
    split_and!; [by apply (accepted_on_reload _ _ s)|intros c Hc; by right|].
    exists m, base. split_and!; [done..|by left].
  - split_and!; [done..|]. exists m, base. split_and!; [done..|congruence].
Qed.

Definition reloaded (key : string) (o : outcome (option error)) (s : reloads) : Prop :=
  match o with
  | Returned None =>
      (∃ e, SplitMetaNamespaceKey key = Err e ∧ s = reload_start) ∨
      ∃ ps, accepted ps s ∧
        (∀ dm, vc_dataMover v = Some dm → (dm_ivdPETM dm, ps, None) ∈ rl_calls s) ∧
        (is_Some (vc_snapMgr v) → manager_reloaded ps s)
  | Returned (Some _) | Panicked _ => True
  | Hung _ => False
  end.

End VcConfigController.
