(* ===== verification/BackupDriverProtocol.v ===== *)
(** * What the backup driver promises

    Which status a Snapshot gets and when, which objects the queues work on, how
    phases travel from uploads and supervisor snapshots to snapshots. *)

From S2P Require Export BackupDriverSync.
Open Scope Z_scope.

Section create.
Context `{Deps} (ctrl : backupDriverController) (snapshot : Snapshot).

(** ** Creating a snapshot *)

(** One run of [createSnapshotCR]: the entity with its new local snapshot, its
    metadata. *)
Record create_run := { cr_snapshot : option PEID; cr_metadata : option string }.

Definition create_start : create_run := {| cr_snapshot := None; cr_metadata := None |}.

(** The claim the Snapshot names. *)
Definition claim_id : PEID :=
  NewProtectedEntityIDWithNamespace (ref_Kind (ss_ResourceHandle (s_Spec snapshot)))
    (ref_Name (ss_ResourceHandle (s_Spec snapshot))) (s_Namespace snapshot).

(** The statuses that may be written. *)
Definition may_set (s : create_run) (o : Snapshot) : bool :=
  match s_Phase o with
  | SnapshotPhaseSnapshotted =>
      match cr_snapshot s, cr_metadata s with
      | Some id, Some md =>
          bool_decide (ss_SnapshotID (s_Status o) = PEIDString id)
          && bool_decide (ss_Metadata (s_Status o) = md)
      | _, _ => false
      end
  | SnapshotPhaseSnapshotFailed => bool_decide (cr_metadata s = None)
  | _ => false
  end.

Definition create_protocol : monitor Cmd create_run := λ s X e,
  let require (b : bool) (s : create_run) := if b then Next s else Violation in
  match e in Cmd X return X → verdict create_run with
  | PeSnapshot _ _ _ => λ r,
      require (bool_decide (cr_snapshot s = None)
               && bool_decide (ref_Kind (ss_ResourceHandle (s_Spec snapshot)) = "PersistentVolumeClaim"))
        (match r.2 with
         | Ok id => {| cr_snapshot := Some (IDWithSnapshot claim_id id); cr_metadata := cr_metadata s |}
         | Err _ => s
         end)
  | ReadAll _ => λ r,
      require (bool_decide (is_Some (cr_snapshot s)))
        (match r with
         | Ok md => {| cr_snapshot := cr_snapshot s; cr_metadata := Some md |}
         | Err _ => s
         end)
  | CreateObj _ k _ _ => λ _,
      require (bool_decide (is_Some (cr_snapshot s))
               && match k with KUpload => true | _ => false end) s
  | GetObj _ k ns name => λ _,
      require (match k with
               | KSnapshot => bool_decide (ns = s_Namespace snapshot ∧ name = s_Name snapshot)
               | _ => negb (work_record k)
               end) s
  | UpdateStatusObj _ k ns o =>
      match k return obj k → result (obj k) → verdict create_run with
      | KSnapshot => λ o _, require (may_set s o) s
      | _ => λ _ _, Violation
      end o
  | PemGetProtectedEntity _ => λ _, Next s
  | PeGetMetadataReader _ => λ _, Next s
  | PeGetComponents _ => λ _, Next s
  | e => λ _, require (reads e) s
  end.

#[export] Instance create_protocol_quiet : Quiet create_protocol.
Proof. solve_quiet. Qed.

Lemma create_reads {A} (p : io A) s :
  calls_only (@reads _) p →
  safe create_protocol p (λ o s', match o with Hung _ => False | _ => s' = s end) s.
Proof.
  apply safe_calls_only. clear s. intros s X e x He.
  destruct e; try discriminate He; try done; destruct k; try discriminate He; done.
Qed.

(** The status update, for a status that may be written over any snapshot. *)
Lemma create_update phase f s :
  (∀ now o, may_set s (setSnapshotStatus phase f now o) = true) →
  safe create_protocol
    (updateSnapshotStatusPhase ctrl (s_Namespace snapshot) (s_Name snapshot) phase f)
    (λ o s', match o with Hung _ => False | _ => s' = s end) s.
Proof.
  intros Hset. unfold updateSnapshotStatusPhase, withClient.
  destruct (bd_backupdriverClient ctrl) as [c|]; cbn; [|done].
  rewrite bool_decide_true by done. intros [o|e]; cbn; [|done].
  destruct (bool_decide (s_Phase o = phase)); cbn; [done|].
  destruct (bool_decide (phase = SnapshotPhaseUploaded)); cbn.
  - intros now. rewrite Hset. by intros [u|e].
  - rewrite Hset. by intros [u|e].
Qed.

(** A nil result comes with a snapshot and its metadata. *)
Definition created (o : outcome (option error)) (s : create_run) : Prop :=
  match o with
  | Returned None => is_Some (cr_snapshot s) ∧ is_Some (cr_metadata s)
  | Hung _ => False
  | _ => True
  end.

Lemma create_fail f msg e s :
  cr_metadata s = None →
  safe create_protocol (failSnapshot ctrl snapshot f msg e) created s.
Proof.
  intros Hm. unfold failSnapshot. eapply safe_seq.
  - apply create_update. intros now o. cbn. by rewrite Hm.
  - done.
  - done.
  - done.
Qed.

(** [snapshot taken]: the driver has its entity; or not. *)
Definition snapshot_taken (o : outcome (PEID * string * option error)) (s : create_run) : Prop :=
  match o with
  | Returned (id, _, None) => cr_snapshot s = Some id ∧ cr_metadata s = None
  | Returned (_, _, Some _) => cr_metadata s = None
  | Hung _ => False
  | _ => True
  end.

Lemma create_snapshotWithRetry pe typ ps :
  ref_Kind (ss_ResourceHandle (s_Spec snapshot)) = "PersistentVolumeClaim" →
  safe create_protocol (snapshotWithRetry pe typ ps) (λ o s, match o with
    | Returned (_, Ok id) =>
        s = {| cr_snapshot := Some (IDWithSnapshot claim_id id); cr_metadata := None |}
    | Returned (_, Err _) => s = create_start
    | _ => False
    end) create_start.
Proof.
  intros Hk. apply (safe_PollImmediate create_protocol _ (λ _ s, s = create_start)); [done|].
  intros ps' s ->. cbn. rewrite (bool_decide_true (ref_Kind _ = _)) by done. cbn.
  intros [ps'' [id|e]]; cbn; [done|]. by destruct (Contains _ _).
Qed.

Lemma create_UploadSnapshot pe br ref s :
  is_Some (cr_snapshot s) →
  safe create_protocol (UploadSnapshot pe br ref)
    (λ o s', match o with Hung _ => False | _ => s' = s end) s.
Proof.
  intros Hs. unfold UploadSnapshot. eapply safe_seq;
    [apply create_reads; auto with calls|..]; [|done|done].
  intros [c|e] s' ->; [|done]. cbn. intros [ns|]; cbn; [|done].
  eapply (safe_seq _ _ _ _ (λ o s', s' = s ∧ match o with Returned _ => True | _ => False end)).
  - destruct (bool_decide _); cbn; [|done]. by intros [[|c1 [|]]|e].
  - intros r s' [-> _]. destruct r as [id|e]; [|done].
    destruct (uploadCRNameForSnapshotPEID id) as [name|e]; [|done].
    cbn. intros now1 now2. apply safe_bind.
    apply (safe_PollImmediate create_protocol _ (λ _ s', s' = s)); [done|].
    intros _ s' ->. cbn. rewrite bool_decide_true by done. by intros [u|e].
  - by intros w s' [_ []].
  - by intros w s' [_ []].
Qed.

Lemma create_inferLocalMode c br s :
  safe create_protocol (inferLocalMode c br)
    (λ o s', match o with Hung _ => False | _ => s' = s end) s.
Proof. apply create_reads. unfold inferLocalMode. calls_tac. Qed.

Lemma create_createSnapshot m br ref backup :
  ref_Kind (ss_ResourceHandle (s_Spec snapshot)) = "PersistentVolumeClaim" →
  safe create_protocol (createSnapshot m claim_id br ref backup) snapshot_taken create_start.
Proof.
  intros Hk. unfold createSnapshot. cbn. intros [pe|e]; cbn; [|done].
  eapply safe_seq; [apply create_reads; auto with calls|..]; [|done|done].
  intros [c|e] s ->; [|done].
  eapply safe_seq; [by apply create_snapshotWithRetry|..]; [|done|done].
  intros [ps [id|e]] s ->; [|done].
  destruct (bool_decide _); [done|].
  eapply safe_seq; [apply create_inferLocalMode|..]; [|done|done].
  intros [|] s ->; [done|]. cbn. intros [pe'|e]; cbn; [|done].
  eapply safe_seq; [by apply create_UploadSnapshot|..]; [|done|done].
  by intros [u|e] s ->.
Qed.

Lemma create_recordSnapshot id svc s :
  cr_snapshot s = Some id → cr_metadata s = None →
  safe create_protocol (recordSnapshot ctrl snapshot id svc) created s.
Proof.
  intros Hs Hm. unfold recordSnapshot. cbn.
  intros [pe|e]; cbn; [|by apply create_fail].
  intros [r|e]; cbn; [|by apply create_fail].
  rewrite Hs. cbn. intros [md|e]; cbn; [|by apply create_fail].
  eapply safe_seq.
  - apply create_update. intros now o. cbn. by rewrite !bool_decide_true.
  - intros [u|e] s' ->; cbn; eauto.
  - done.
  - done.
Qed.

End create.

(** ** Which snapshots the queue works on *)

Section sync.
Context `{Deps} (ctrl : backupDriverController).

(** The state is the Snapshot that was read for the key; the clock shows
    [now]. *)
Definition sync_monitor (now : time) : monitor Cmd (option Snapshot) := λ s X e,
  let require (b : Snapshot → bool) :=
    match s with Some sn => if b sn then Next s else Violation | None => Violation end in
  let to_do sn := bool_decide (s_Phase sn = SnapshotPhaseNew) && negb (ss_SnapshotCancel (s_Spec sn)) in
  match e in Cmd X return X → verdict (option Snapshot) with
  | Now => λ t, if bool_decide (t = now) then Next s else Impossible
  | GetObj _ k _ _ =>
      match k return result (obj k) → verdict (option Snapshot) with
      | KSnapshot => λ r, match s, r with None, Ok sn => Next (Some sn) | _, _ => Next s end
      | _ => λ _, Next s
      end
  | PeSnapshot _ _ _ => λ _, require to_do
  | CreateObj _ _ _ _ => λ _, require to_do
  | UpdateStatusObj _ _ _ _ => λ _, require to_do
  | DeleteObj _ k ns name => λ _, require (λ sn,
      match k with KSnapshot => true | _ => false end
      && bool_decide (s_Phase sn = SnapshotPhaseUploaded ∧ ns = s_Namespace sn ∧ name = s_Name sn)
      && match ss_CompletionTimestamp (s_Status sn) with
         | Some t => bool_decide (t + DefaultCRCleanUpWindow * Hour < now)
         | None => false
         end)
  | PatchObj _ _ _ _ _ _ | UpdateObj _ _ _ _ | PeDeleteSnapshot _ _ _ => λ _, Violation
  | _ => λ _, Next s
  end.

(** The calls of [createSnapshotCR]. *)
Definition create_call {X} (e : Cmd X) : bool :=
  match e with
  | DeleteObj _ _ _ _ | PatchObj _ _ _ _ _ _ | UpdateObj _ _ _ _ | PeDeleteSnapshot _ _ _ => false
  | _ => true
  end.

Lemma create_call_reads {A} (p : io A) :
  calls_only (@reads _) p → calls_only (@create_call) p.
Proof. apply calls_only_mono. by intros X []. Qed.
Hint Resolve create_call_reads : calls.

Lemma create_call_UploadSnapshot pe br ref : calls_only (@create_call) (UploadSnapshot pe br ref).
Proof. unfold UploadSnapshot. calls_all. Qed.
Hint Resolve create_call_UploadSnapshot : calls.

Lemma create_call_update ns name p f :
  calls_only (@create_call) (updateSnapshotStatusPhase ctrl ns name p f).
Proof. unfold updateSnapshotStatusPhase, withClient. calls_tac. Qed.
Hint Resolve create_call_update : calls.

Lemma create_call_createSnapshotCR sn : calls_only (@create_call) (createSnapshotCR ctrl sn).
Proof.
  unfold createSnapshotCR, repositoryName, recordSnapshot, failSnapshot,
    CreateSnapshotWithBackupRepository, createSnapshot, snapshotWithRetry, inferLocalMode.
  calls_all.
Qed.

#[local] Arguments createSnapshotCR : simpl never.

(** For a key of the snapshot queue the driver takes a local
    snapshot, creates an Upload or writes a status only when the Snapshot it
    read is new and not to be cancelled; it deletes only that Snapshot, when
    it was uploaded more than the clean-up window ago; it never waits for
    ever. *)
Theorem syncSnapshotByKey_spec now key :
  safe (sync_monitor now) (syncSnapshotByKey ctrl key)
    (λ o _, match o with Hung _ => False | _ => True end) None.
Proof.
  unfold syncSnapshotByKey, withObject.
  destruct (SplitMetaNamespaceKey key) as [[ns name]|e]; [|done].
  destruct (bd_backupdriverClient ctrl) as [c|]; [|done]. cbn.
  intros [sn|e]; cbn; [|by destruct (IsNotFound e)].
  eapply (safe_seq _ _ _ _ (λ o s, o = Returned tt ∧ s = Some sn)); [| |done|by intros w s [[=] _]].
  { unfold mapSvcSnapshot. destruct (_ && _); cbn; [|done].
    intros [v|]; cbn; [done|]. by intros []. }
  intros [] s [_ ->]. destruct (bool_decide_reflect (s_Phase sn ≠ SnapshotPhaseNew)) as [Hn|Hn].
  - destruct (bool_decide_reflect (s_Phase sn = SnapshotPhaseUploaded)) as [Hu|Hu]; [|done].
    unfold cleanUp. cbn. intros t.
    destruct (bool_decide_reflect (t = now)) as [->|]; [|done].
    destruct (ss_CompletionTimestamp _) as [t|] eqn:Hct; cbn; [|done].
    unfold After. destruct (bool_decide _) eqn:He; cbn; [|done].
    intros r. by rewrite Hct, He, bool_decide_true.
  - apply dec_stable in Hn.
    destruct (ss_SnapshotCancel (s_Spec sn)) eqn:Hc; [done|].
    eapply safe_mono.
    + apply (safe_calls_only' (@create_call)); [|apply create_call_createSnapshotCR].
      intros X e x He. destruct e; try discriminate He; cbn;
        rewrite ?Hn, ?Hc, ?bool_decide_true by done; auto.
      * destruct k; cbn; auto.
      * by destruct (bool_decide (x = now)); auto.
    + by intros [].
Qed.

(** ** Phases of uploads *)

Definition refers (u : Upload) (ns name : string) : bool :=
  bool_decide (Split (us_SnapshotReference (u_Spec u)) "/" = [ns; name]).

(** The Upload that was read for the key.  An API server answers a read with
    the object of the name that was asked for. *)
Definition upload_monitor : monitor Cmd (option Upload) := λ s X e,
  let require (b : Upload → bool) :=
    match s with Some u => if b u then Next s else Violation | None => Violation end in
  match e in Cmd X return X → verdict (option Upload) with
  | GetObj _ k ns name =>
      match k return result (obj k) → verdict (option Upload) with
      | KUpload => λ r, match s, r with
          | None, Ok u => Next (Some u) | None, Err _ => Next s | _, _ => Violation end
      | KSnapshot => λ r,
          match r with
          | Ok sn =>
              if bool_decide (s_Namespace sn = ns ∧ s_Name sn = name)
              then require (λ u, refers u ns name) else Impossible
          | Err _ => require (λ u, refers u ns name)
          end
      | _ => λ _, Violation
      end
  | UpdateStatusObj _ k ns o =>
      match k return obj k → result (obj k) → verdict (option Upload) with
      | KSnapshot => λ o _, require (λ u,
          bool_decide (snapshotPhaseOfUpload (u_Phase u) = Some (s_Phase o) ∧
            (s_Phase o = SnapshotPhaseUploaded → is_Some (ss_CompletionTimestamp (s_Status o)))))
      | _ => λ _ _, Violation
      end o
  | e => λ _, if quiet e then Next s else Violation
  end.

(** For a key of the upload queue the driver reads the Upload,
    and then only the Snapshot that the Upload refers to; the one status it
    writes is the image of the Upload's phase, with a time when it is [Uploaded].  Without a reference of the
    form [namespace/name] it does nothing more; it always ends. *)
Theorem syncUploadByKey_spec key :
  safe upload_monitor (syncUploadByKey ctrl key)
    (λ o _, match o with
     | Returned _ => True
     | Panicked _ => bd_backupdriverClient ctrl = None
     | Hung _ => False
     end) None.
Proof.
  unfold syncUploadByKey, withObject.
  destruct (SplitMetaNamespaceKey key) as [[ns name]|e]; [|done]. cbn.
  intros [u|e]; cbn; [|by destruct (IsNotFound e)].
  destruct (bool_decide _); [done|].
  destruct (Split (us_SnapshotReference (u_Spec u)) "/") as [|sns [|sname [|]]] eqn:Hs; try done.
  unfold followPhase, withClient. destruct (bd_backupdriverClient ctrl) as [c|] eqn:Hc; [|done].
  assert (Href : refers u sns sname = true) by (unfold refers; by apply bool_decide_eq_true).
  cbn. intros [sn|e]; cbn; rewrite Href; [|done].
  destruct (bool_decide_reflect (s_Namespace sn = sns ∧ s_Name sn = sname)) as [[-> ->]|]; [|done].
  destruct (om_DeletionTimestamp _); [done|].
  destruct (snapshotPhaseOfUpload (u_Phase u)) as [p|] eqn:Hp; [|done].
  unfold updateSnapshotStatusPhase, withClient. rewrite Hc. cbn.
  intros [sn'|e]; cbn; rewrite Href; [|done].
  destruct (bool_decide _); [|done].
  destruct (bool_decide (s_Phase sn' = p)); cbn; [done|].
  destruct (bool_decide_reflect (p = SnapshotPhaseUploaded)) as [Hu|Hu]; cbn; [intros now|];
    (rewrite Hp, bool_decide_true; [by intros [|]|]); cbn; by try case_bool_decide.
Qed.

(** ** Supervisor snapshots *)

(** The map from supervisor snapshots to guest snapshots. *)
Definition guest_entry (m : gmap string string) : Prop :=
  ∀ svc v, m !! svc = Some v →
  ∃ ns name, v = ns +:+ ":" +:+ name ∧ has_byte ":" ns = false ∧ has_byte ":" name = false.

Definition svc_map_monitor : monitor Cmd (gmap string string) := λ m X e,
  match e in Cmd X return X → verdict (gmap string string) with
  | SvcMapLoad k => λ v, if bool_decide (v = m !! k) then Next m else Impossible
  | SvcMapStore k v => λ _, Next (<[k := v]> m)
  | SvcMapDelete k => λ _, Next (delete k m)
  | _ => λ _, Next m
  end.

#[export] Instance svc_map_quiet : Quiet svc_map_monitor.
Proof. solve_quiet. Qed.

(** An object name holds no colon. *)
Definition plain_names (sn : Snapshot) : Prop :=
  has_byte ":" (s_Namespace sn) = false ∧ has_byte ":" (s_Name sn) = false.

(** The map of supervisor snapshots: recording a snapshot keeps
    every entry a pair [namespace:name] and never replaces one; deleting a
    snapshot takes out its entry and no other; and as long as the entries are
    such pairs, the update of a supervisor snapshot splits its entry without
    a panic (with a client to write over), and leaves the map alone. *)
Theorem svc_map_invariant sn d key m :
  plain_names sn → guest_entry m →
  safe svc_map_monitor (mapSvcSnapshot ctrl sn) (λ o m', o = Returned tt ∧ guest_entry m' ∧ m ⊆ m') m ∧
  safe svc_map_monitor (delSnapshot ctrl d) (λ o m', o = Returned tt ∧ guest_entry m' ∧ m' ⊆ m) m ∧
  safe svc_map_monitor (syncSvcSnapshotByKey ctrl key) (λ o m', m' = m ∧ match o with
    | Returned _ => True
    | Panicked _ => bd_backupdriverClient ctrl = None
    | Hung _ => False end) m.
Proof.
  intros [Hns Hname] Hm. split_and!.
  - unfold mapSvcSnapshot. destruct (_ && _); cbn; [|done]. intros v.
    destruct (bool_decide_reflect (v = m !! ss_SvcSnapshotName (s_Status sn))) as [->|]; [|done].
    destruct (m !! ss_SvcSnapshotName (s_Status sn)) eqn:Hk; cbn; [done|]. intros [].
    split_and!; [done| |by apply insert_subseteq].
    intros svc v [[<- <-]|[_ Hv]]%lookup_insert_Some; [by eauto|by eapply Hm].
  - unfold delSnapshot. destruct (bd_svcKubeConfig ctrl), (unwrap d) as [sn'|]; try done.
    destruct (bool_decide _); cbn; [|done]. intros v.
    destruct (bool_decide _); [|done]. destruct v; cbn; [|done]. intros [].
    split_and!; [done| |apply delete_subseteq].
    intros svc v [_ Hv]%lookup_delete_Some. by eapply Hm.
  - unfold syncSvcSnapshotByKey, withObject.
    destruct (SplitMetaNamespaceKey key) as [[ns name]|e]; [|done]. cbn.
    intros [svc|e]; cbn; [|by destruct (IsNotFound e)]. intros v.
    destruct (bool_decide_reflect (v = m !! s_Name svc)) as [->|]; [|done].
    destruct (m !! s_Name svc) as [v|] eqn:Hv; [|done].
    destruct (Hm _ _ Hv) as (gns & gname & -> & Hgns & Hgname).
    change (":" +:+ gname) with (String ":" gname). rewrite Split_two by done.
    unfold followPhase, withClient. destruct (bd_backupdriverClient ctrl) as [c|] eqn:Hc; [|done].
    cbn. intros [g|e]; cbn; [|done]. destruct (om_DeletionTimestamp _); [done|].
    destruct (snapshotPhaseOfSvc (s_Phase svc)) as [p|]; [|done].
    unfold updateSnapshotStatusPhase, withClient. rewrite Hc. cbn.
    intros [g'|e]; cbn; [|done]. destruct (bool_decide (s_Phase g' = p)); cbn; [done|].
    destruct (bool_decide (p = SnapshotPhaseUploaded)); cbn; try intros _; by intros [|].
Qed.

(** ** Clones *)

(**  A CloneFromSnapshot in progress, failed or being
    cancelled is processed exactly as a new one: the empty cases of the
    [switch] do not skip it. *)
Theorem clone_repeats c cl :
  c_Phase cl ∈ [ClonePhaseInProgress; ClonePhaseFailed; ClonePhaseCanceling] →
  syncClone ctrl c cl = syncClone ctrl c (cl <| c_Status; cs_Phase := ClonePhaseNew |>).
Proof.
  intros Hp. destruct cl as [m sp [p msg rh ct]]. cbn in Hp.
  rewrite !elem_of_cons, elem_of_nil in Hp. by destruct Hp as [-> |[-> |[-> |[]]]].
Qed.
End sync.
