(* ===== verification/UploadQueue.v ===== *)
(** * Which uploads a node takes on

    The informer's handler, the lease, and the work queue of the upload
    controller. *)

From S2P Require Export UploadController.
Open Scope Z_scope.

Section queue.
Context `{Deps}.

(** ** The work queue *)

(** Calls of the handlers that touch neither the queue nor the lease. *)
Definition plain_call {X} (e : Cmd X) : bool :=
  match e with
  | QueueGet _ | QueueDone _ _ | QueueForget _ _ | QueueAdd _ _ | QueueAddAfter _ _ _
  | QueueAddRateLimited _ _ | RunOrDie _ _ _ => false
  | _ => true
  end.

(** Calls that leave the queue alone. *)
Definition off_queue {X} (e : Cmd X) : bool :=
  match e with RunOrDie _ _ _ => true | _ => plain_call e end.

Lemma plain_reads {A} (p : io A) :
  calls_only (@reads _) p → calls_only (@plain_call) p.
Proof. apply calls_only_mono. by intros X []. Qed.

Lemma off_queue_plain {A} (p : io A) :
  calls_only (@plain_call) p → calls_only (@off_queue) p.
Proof. apply calls_only_mono. by intros X []. Qed.
End queue.

#[export] Hint Resolve plain_reads off_queue_plain : calls.

Section upload_queue.
Context `{Deps} (c : uploadController).

Abbreviation plain := (calls_only (@plain_call _)).

Lemma plain_patch at_ req p msg : plain (patchUploadByStatusWithRetry c at_ req p msg).
Proof.
  unfold patchUploadByStatusWithRetry. apply calls_only_bind; [|by intros []].
  calls_poll. unfold patchUploadByStatus, patchUpload, PatchUpload, mutateDone, mutateRetry,
    mutateInProgress. calls_tac.
Qed.
Hint Resolve plain_patch : calls.

Lemma plain_DeleteLocalSnapshot id : plain (DeleteLocalSnapshot id).
Proof. unfold DeleteLocalSnapshot, deleteSnapshotFromRepo. calls_all. Qed.
Hint Resolve plain_DeleteLocalSnapshot : calls.

Lemma plain_cleanupFailed req id e : plain (cleanupFailed c req id e).
Proof. unfold cleanupFailed. calls_tac. Qed.
Hint Resolve plain_cleanupFailed : calls.

Lemma plain_copyUpload req id : plain (copyUpload c req id).
Proof.
  unfold copyUpload, CopyToRepo, CopyToRepoWithBackupRepository, withReloadConfigLock,
    copyToRepo, RegisterOngoingUpload. calls_tac.
Qed.
Hint Resolve plain_copyUpload : calls.

Lemma plain_processUpload req : plain (processUpload c req).
Proof.
  unfold processUpload, doUpload, retryCleanup, uploadFailed, uploadCopied,
    UnregisterOngoingUpload. calls_tac.
Qed.
Hint Resolve plain_processUpload : calls.

Lemma plain_trigger req : plain (triggerUploadCancellation c req).
Proof. unfold triggerUploadCancellation, IsUploading, CancelUpload. calls_tac. Qed.
Hint Resolve plain_trigger : calls.

(** *** The worker *)

(** The handler's calls leave the queue alone, and a key that it cannot parse is no error. *)
Lemma processUploadItem_traced key tr o :
  traced (processUploadItem c key) tr o →
  Forall (λ ev, match ev with Ev e _ => off_queue e = true end) tr ∧ match o with
    | Returned (Some _) => ∃ ns name, SplitMetaNamespaceKey key = Ok (ns, name)
    | Hung _ => False
    | _ => True
    end.
Proof.
  intros Ht. assert (Hc : calls_only (@off_queue _) (processUploadItem c key)) by (unfold processUploadItem; calls_tac).
  destruct (traced_calls _ _ _ _ Hc Ht) as [Hall Ho]. split; [exact Hall|].
  destruct o as [[e|]|w|w]; [|done..]. revert Ht. unfold processUploadItem.
  destruct (SplitMetaNamespaceKey key) as [[ns name]|e']; [eauto|]. by intros [_ [=]].
Qed.

(** The back-off handler with a key that it can parse. *)
Definition backed_off (key ns name : string) (tr : list (event Cmd)) : Prop :=
  (∃ req, tr = [Ev (ListerGet KUpload ns name) (Ok req);
                Ev (QueueAddAfter "upload" key (us_CurrentBackOff (u_Status req) * Minute)) tt]) ∨
  (∃ e, IsNotFound e = true ∧
        tr = [Ev (ListerGet KUpload ns name) (Err e); Ev (QueueForget "upload" key) tt]) ∨
  (∃ e, IsNotFound e = false ∧ tr = [Ev (ListerGet KUpload ns name) (Err e)]).

Lemma exponentialBackoffHandler_traced key ns name tr o :
  SplitMetaNamespaceKey key = Ok (ns, name) →
  traced (exponentialBackoffHandler key) tr o → (∃ r, o = Returned r) ∧ backed_off key ns name tr.
Proof.
  intros Hk. unfold exponentialBackoffHandler, backed_off. rewrite Hk. cbn. intros ([req|e] & tr' & -> & Ht); cbn in Ht.
  - destruct Ht as ([] & tr2 & -> & -> & ->). eauto 10.
  - destruct (IsNotFound e) eqn:He; cbn in Ht.
    + destruct Ht as ([] & tr2 & -> & -> & ->). split; eauto 10.
    + destruct Ht as [-> ->]. split; eauto 10.
Qed.

(** A run of the worker: the queue is closed; or it takes a key, handles it, and then, unless
    the handler panicked, forgets it or has it backed off, and in any case marks it done. *)
Definition worked (tr : list (event Cmd)) (o : outcome bool) : Prop :=
  (∃ key, tr = [Ev (QueueGet "upload") (key, true)] ∧ o = Returned false) ∨
  ∃ key handled after,
    tr = Ev (QueueGet "upload") (key, false) :: handled ++ after ++ [Ev (QueueDone "upload" key) tt] ∧
    Forall (λ ev, match ev with Ev e _ => off_queue e = true end) handled ∧
    ((∃ w, traced (processUploadItem c key) handled (Panicked w) ∧ after = [] ∧ o = Panicked w) ∨
     (traced (processUploadItem c key) handled (Returned None) ∧
        after = [Ev (QueueForget "upload" key) tt] ∧ o = Returned true) ∨
     (∃ e ns name, traced (processUploadItem c key) handled (Returned (Some e)) ∧
        SplitMetaNamespaceKey key = Ok (ns, name) ∧ backed_off key ns name after ∧ o = Returned true)).

#[local] Arguments processUploadItem : simpl never.
#[local] Arguments exponentialBackoffHandler : simpl never.


(** ** The lease *)

(** Whether the lease of the Upload [ns/name] is (or was) held.  Only then is
    the record processed. *)
Definition lease_monitor (ns name : string) : monitor Cmd bool := λ held X e,
  match e in Cmd X return X → verdict bool with
  | RunOrDie l lns id => λ r,
      if negb held && bool_decide (l = "upload-lease." +:+ name ∧ lns = ns ∧ id = uc_nodeName c)
      then Next (match r with LeaseHeldByOther => false | _ => true end) else Violation
  | GetObj _ KUpload _ _ => λ _, if held then Next held else Violation
  | PetmCopy _ _ _ _ => λ _, if held then Next held else Violation
  | PeDeleteSnapshot _ _ _ => λ _, if held then Next held else Violation
  | Lock => λ _, if held then Next held else Violation
  | _ => λ _, Next held
  end.

Lemma lease_monitor_held ns name s X (e : Cmd X) x :
  s = true → plain_call e = true → lease_monitor ns name s X e x = Next s.
Proof. intros ->. destruct e; cbn; try congruence. by destruct k. Qed.

Lemma lease_processUpload ns name req (k : option error → io (option error)) :
  (∀ e, ∃ r, k e = Ret r) →
  safe (lease_monitor ns name) (bind (processUpload c req) k)
    (λ o _, match o with Hung _ => False | _ => True end) true.
Proof.
  intros Hk. eapply safe_seq.
  - apply (safe_calls_only' (@plain_call _)); [|apply plain_processUpload].
    intros X e x He. left. by apply lease_monitor_held.
  - intros e s' _. by destruct (Hk e) as [r ->].
  - done.
  - done.
Qed.

(** What a node may do without the lease. *)
Definition lease_free {X} (e : Cmd X) : bool :=
  match e with
  | RunOrDie _ _ _ | PetmCopy _ _ _ _ | PeDeleteSnapshot _ _ _ | Lock
  | GetObj _ KUpload _ _ => false
  | _ => true
  end.

Lemma lease_monitor_free ns name s X (e : Cmd X) x :
  lease_free e = true → lease_monitor ns name s X e x = Next s.
Proof. destruct e; cbn; try congruence. destruct k; cbn; congruence. Qed.

Lemma lease_free_trigger req : calls_only (@lease_free) (triggerUploadCancellation c req).
Proof.
  unfold triggerUploadCancellation, IsUploading, CancelUpload, patchUploadByStatusWithRetry.
  calls_tac. calls_poll. unfold patchUploadByStatus, patchUpload, PatchUpload, mutateDone,
    mutateRetry, mutateInProgress. calls_tac.
Qed.

#[local] Arguments processUpload : simpl never.

(** A node processes an Upload (reads it again, copies its data,
    deletes its local snapshot) only after it got the lease
    [upload-lease.<name>] of that Upload under its own name, and it asks for
    that lease at most once. *)
Theorem processUploadItem_lease key :
  match SplitMetaNamespaceKey key with
  | Ok (ns, name) =>
      safe (lease_monitor ns name) (processUploadItem c key)
        (λ o _, match o with Hung _ => False | _ => True end) false
  | Err _ => processUploadItem c key = Ret None
  end.
Proof.
  unfold processUploadItem. destruct (SplitMetaNamespaceKey key) as [[ns name]|e]; [|done].
  cbn. intros [req|e]; cbn; [|by destruct (IsNotFound e)].
  destruct (u_Phase req); try done; (destruct (us_UploadCancel (u_Spec req));
    [eapply safe_seq; [apply (safe_calls_only' (@lease_free));
         [intros X e x He; left; by apply lease_monitor_free|apply lease_free_trigger]|done..]
    |cbn; intros l; rewrite bool_decide_true by done; destruct l; cbn; [done| |]]).
  all: first [apply lease_processUpload; intros; eexists; reflexivity
    |apply (safe_mono _ _ (λ o s, match o with Hung _ => False | _ => s = true end));
       [apply (safe_calls_only' (@plain_call _)); [|apply plain_processUpload];
        intros; left; by apply lease_monitor_held
       |by intros []]].
Qed.

(** ** Informer events *)

Definition active (p : UploadPhase) : bool :=
  match p with
  | UploadPhaseUnset | UploadPhaseNew | UploadPhaseInProgress | UploadPhaseUploadError
  | UploadPhaseCleanupFailed | UploadPhaseCanceling => true
  | _ => false
  end.

(** The record waits for its next try at the time [now]. *)
Definition due (req : Upload) (now : time) : bool :=
  match us_NextRetryTimestamp (u_Status req) with
  | Some next => Unix next <=? Unix now
  | None => false
  end.

(** The record was completed more than the clean-up window before [now]. *)
Definition expired (req : Upload) (now : time) : bool :=
  match us_CompletionTimestamp (u_Status req) with
  | Some done => bool_decide (done + DefaultCRCleanUpWindow * Hour < now)
  | None => false
  end.

(** The clock shows [now]. *)
Definition event_monitor (req : Upload) (now : time) : monitor Cmd unit := λ s X e,
  let require (b : bool) := if b then Next tt else Violation in
  match e in Cmd X return X → verdict unit with
  | Now => λ t, if bool_decide (t = now) then Next s else Impossible
  | QueueAdd q key => λ _,
      require (active (u_Phase req) && negb (us_UploadCancel (u_Spec req)) && due req now
               && bool_decide (q = "upload"))
  | DeleteObj _ KUpload ns name => λ _,
      require (bool_decide (u_Phase req = UploadPhaseCompleted) && expired req now
               && bool_decide (ns = u_Namespace req ∧ name = u_Name req))
  | PatchObj _ KUpload _ _ _ _ | ListerWrite KUpload _ | MapLoad _ | MapDelete _ | Cancel _ =>
      λ _, require (active (u_Phase req) && us_UploadCancel (u_Spec req))
  | GetObj _ _ _ _ | ListObj _ _ _ | ListSelected _ _ _ _ => λ _, Next s
  | e => λ _, require (quiet e)
  end.

Lemma event_monitor_quiet req now s X (e : Cmd X) x :
  quiet e = true →
  event_monitor req now s X e x = Next s ∨ event_monitor req now s X e x = Impossible.
Proof. destruct e; try done; intros _; destruct s; cbn; auto. by case_match; auto. Qed.

#[local] Instance event_quiet req now : Quiet (event_monitor req now).
Proof. intros s X e x. apply event_monitor_quiet. Qed.

(** A cancellation never panics. *)
Lemma event_trigger req now :
  active (u_Phase req) = true → us_UploadCancel (u_Spec req) = true →
  safe (event_monitor req now) (triggerUploadCancellation c req)
    (λ o _, match o with Returned _ => True | _ => False end) tt.
Proof.
  intros Ha Hc. unfold triggerUploadCancellation, IsUploading, CancelUpload.
  destruct (NewProtectedEntityIDFromString _) as [id|e]; [|done].
  cbn. rewrite Ha, Hc. intros [f|]; cbn; [|done].
  eapply safe_seq; [|instantiate (1 := λ o _, match o with Returned _ => True | _ => False end)
    |done|done].
  - eapply safe_mono; [apply (safe_patchUploadByStatusWithRetry _ c (λ _, True) (λ _ _, True))|];
      [done| | |by intros [[]| |] s'].
    + intros [] old new _ _ r. exists tt. cbn. rewrite Ha, Hc. by destruct r.
    + intros _ [] new x _. cbn. by rewrite Ha, Hc.
  - intros [u|e] [] _; cbn; [|done]. rewrite Ha, Hc.
    intros [g|]; cbn; [|done]. rewrite Ha, Hc. intros []. intros []. done.
Qed.

Lemma event_reads req now {A} (p : io A) :
  calls_only (λ X e, reads e && negb (match e with
    ListerGet _ _ _ | CreateTemp | FileWrite _ _ | FileClose _ | FileRemove _
    | SharedCredentials _ _ | NewSession _ | NewS3Repository _ _ _ => true | _ => false end)) p →
  safe (event_monitor req now) p (λ o s', match o with Hung _ => False | _ => s' = tt end) tt.
Proof.
  apply safe_calls_only'. intros X e x He.
  destruct (quiet e) eqn:Hq; [by apply event_monitor_quiet|].
  left. destruct e; try done; cbn; by destruct k.
Qed.

Lemma event_RetrievePodNodes req now id :
  safe (event_monitor req now) (RetrievePodNodesByVolumeId id)
    (λ o s', match o with Hung _ => False | _ => s' = tt end) tt.
Proof.
  apply event_reads.
  unfold RetrievePodNodesByVolumeId, GetKubeClientConfig. calls_tac.
Qed.

Lemma event_enqueue req now :
  active (u_Phase req) = true → us_UploadCancel (u_Spec req) = false → due req now = true →
  safe (event_monitor req now) (enqueue "upload" (u_Meta req))
    (λ o _, match o with Returned _ => True | _ => False end) tt.
Proof.
  intros Ha Hc Hd. unfold enqueue. destruct (MetaNamespaceKeyFunc _); cbn; [|done].
  intros []. by rewrite Ha, Hc, Hd.
Qed.

#[local] Arguments triggerUploadCancellation : simpl never.
#[local] Arguments RetrievePodNodesByVolumeId : simpl never.
#[local] Arguments enqueue : simpl never.

(** A missing timestamp that the handler dereferences. *)
Definition missing_timestamp (req : Upload) : Prop :=
  (us_NextRetryTimestamp (u_Status req) = None ∧ active (u_Phase req) = true
     ∧ us_UploadCancel (u_Spec req) = false)
  ∨ (us_CompletionTimestamp (u_Status req) = None ∧ u_Phase req = UploadPhaseCompleted).

Definition event_handled (req : Upload) (o : outcome unit) : Prop :=
  match o with
  | Returned _ => True
  | Panicked _ => uc_externalDataMgr c = true → missing_timestamp req
  | Hung _ => False
  end.

Lemma event_active req now :
  active (u_Phase req) = true →
  safe (event_monitor req now) (enqueueActive c req) (λ o _, event_handled req o) tt.
Proof.
  unfold enqueueActive, event_handled. intros Ha. destruct (us_UploadCancel (u_Spec req)) eqn:Hc.
  { eapply safe_seq; [by apply event_trigger|done..]. }
  cbn. intros t. destruct (bool_decide_reflect (t = now)) as [->|]; [|done].
  destruct (us_NextRetryTimestamp (u_Status req)) as [next|] eqn:Hn; cbn; [|by left].
  destruct (Z.ltb_spec (Unix now) (Unix next)) as [Hlt|Hle]; cbn; [done|].
  assert (Hd : due req now = true) by (unfold due; rewrite Hn; by apply Z.leb_le).
  assert (Hq := event_enqueue req now Ha Hc Hd).
  assert (Hq' : safe (event_monitor req now) (enqueue "upload" (u_Meta req))
    (λ o _, match o with Returned _ => True
      | Panicked _ => uc_externalDataMgr c = true → missing_timestamp req
      | Hung _ => False end) tt)
    by (eapply safe_mono; [exact Hq|]; by intros []).
  destruct (uc_externalDataMgr c); cbn; [exact Hq'|].
  destruct (NewProtectedEntityIDFromString _) as [peID|]; cbn; [|done].
  unfold uploadNode. apply safe_bind. eapply safe_seq;
    [apply event_RetrievePodNodes|..]; [|done|done].
  intros r [] _. destruct r as [node|[]]; cbn; try done; by destruct (bool_decide _).
Qed.

(**  The informer's handler queues an Upload only when it is active,
    its cancellation is not asked for, and its next try is due; it deletes an
    Upload only when it was completed more than the clean-up window ago; it
    writes to an Upload only for an active one whose cancellation is asked
    for; it makes no other change, never blocks, and with a data manager
    outside the cluster panics only on a timestamp that is missing. *)
Theorem enqueueUploadItem_spec req now :
  safe (event_monitor req now) (enqueueUploadItem c req) (λ o _, event_handled req o) tt.
Proof.
  unfold enqueueUploadItem. destruct (u_Phase req) eqn:Hph; try done;
    try (apply event_active; by rewrite Hph).
  cbn. intros t. destruct (bool_decide_reflect (t = now)) as [->|]; [|done].
  destruct (us_CompletionTimestamp _) as [done_|] eqn:Hct; cbn; [|by right].
  unfold After. destruct (bool_decide _) eqn:He; cbn; [|done].
  intros r. rewrite Hph. unfold expired. rewrite Hct, He. by rewrite !bool_decide_true.
Qed.
End upload_queue.
