(* ===== verification/SnapshotDecode.v ===== *)
(** * Nested snapshot IDs

    Decoding terminates and finds the innermost entity, and the name of the
    Upload that a deletion looks for is the one its creation used. *)

From S2P Require Export SnapshotManager.
Open Scope Z_scope.

(** An ID is written as [type:id:snapshot]: the snapshot is a proper part of
    the text. *)
Class SnapshotIDShorter `{Deps} : Prop := snapshot_id_shorter s p :
  NewProtectedEntityIDFromString s = Ok p → HasSnapshot p = true →
  (String.length (SnapIDString (GetSnapshotID p)) < String.length s)%nat.

Section decode.
Context `{Deps}.

Lemma decodePeIdFrom_mono n m s r :
  decodePeIdFrom n s = Some r → (n ≤ m)%nat → decodePeIdFrom m s = Some r.
Proof.
  revert m s. induction n as [|n IH]; intros [|m] s; cbn; try done; [lia|].
  destruct (DecodeString _) as [b|]; [|done].
  destruct (NewProtectedEntityIDFromString b) as [p|e]; [|done].
  destruct (_ && _); [|done]. intros Hr Hle. apply IH; [done|lia].
Qed.

Lemma decodeSnapshotIDFrom_mono n m s r :
  decodeSnapshotIDFrom n s = Some r → (n ≤ m)%nat → decodeSnapshotIDFrom m s = Some r.
Proof.
  revert m s. induction n as [|n IH]; intros [|m] s; cbn; try done; [lia|].
  destruct (DecodeString _) as [b|]; [|done].
  destruct (NewProtectedEntityIDFromString b) as [p|e]; [|done].
  destruct (_ && _); [|done]. intros Hr Hle. apply IH; [done|lia].
Qed.

(** The two recursions go the same way. *)
Lemma decode_agree n s :
  match decodePeIdFrom n s with
  | Some (Ok p) => decodeSnapshotIDFrom n s = Some (Ok (SnapIDString (GetSnapshotID p)))
  | Some (Err _) => ∃ e, decodeSnapshotIDFrom n s = Some (Err e)
  | None => decodeSnapshotIDFrom n s = None
  end.
Proof.
  revert s. induction n as [|n IH]; intros s; cbn; [done|].
  destruct (DecodeString _) as [b|]; [|by eauto].
  destruct (NewProtectedEntityIDFromString b) as [p|e]; [|by eauto].
  destruct (_ && _); [apply IH|done].
Qed.

Lemma decodePeIdFrom_enough `{!SnapshotIDShorter} n s :
  (String.length (SnapIDString s) < n)%nat → is_Some (decodePeIdFrom n s).
Proof.
  revert s. induction n as [|n IH]; intros s Hn; [lia|]. cbn.
  destruct (DecodeString _) as [b|] eqn:Hb; [|done].
  destruct (NewProtectedEntityIDFromString b) as [p|e] eqn:Hp; [|done].
  destruct (HasSnapshot p) eqn:Hs; cbn; [|done].
  destruct (negb _); [|done]. apply IH.
  pose proof (snapshot_id_shorter _ _ Hp Hs). pose proof (DecodeString_length _ _ Hb). lia.
Qed.

(** C38.  When the snapshot part of an ID is shorter than its text,
    decoding a snapshot ID always ends: the entity and the innermost ID are
    found, or both functions report an error; and the two agree. *)
Theorem decodeSnapshotID_total (Hshort : SnapshotIDShorter) (s : SnapID) :
  (∃ p, decodePeIdFromSnapshotID s = Some (Ok p) ∧
        decodeSnapshotID s = Some (Ok (SnapIDString (GetSnapshotID p)))) ∨
  (∃ e e', decodePeIdFromSnapshotID s = Some (Err e) ∧ decodeSnapshotID s = Some (Err e')).
Proof.
  unfold decodePeIdFromSnapshotID, decodeSnapshotID.
  destruct (decodePeIdFrom_enough (decode_fuel s) s) as [r Hr]; [unfold decode_fuel; lia|].
  pose proof (decode_agree (decode_fuel s) s) as Ha. rewrite Hr in Ha.
  rewrite Hr. destruct r as [p|e]; [by left; eauto|].
  destruct Ha as [e' He']. right. eauto.
Qed.

(** [q], written as an ID that reads back, and encoded. *)
Definition encoded (s : SnapID) (q : PEID) : Prop :=
  SnapIDString s = EncodeToString (PEIDString q) ∧
  NewProtectedEntityIDFromString (PEIDString q) = Ok q.

(** [encodes s p]: [s] is the entity [p] encoded, once or inside the snapshot
    IDs of entities of other types. *)
Inductive encodes : SnapID → PEID → Prop :=
| encodes_base s p :
    encoded s p →
    HasSnapshot p && negb (bool_decide (GetPeType p = IvdPEType)) = false →
    encodes s p
| encodes_nested s q p :
    encoded s q →
    HasSnapshot q && negb (bool_decide (GetPeType q = IvdPEType)) = true →
    encodes (GetSnapshotID q) p →
    encodes s p.

Lemma encodes_decode s p :
  encodes s p → ∃ n, decodePeIdFrom n s = Some (Ok p).
Proof.
  induction 1 as [s p [Hs Hr] Hp|s q p [Hs Hr] Hq _ [n IH]].
  - exists 1%nat. cbn. by rewrite Hs, DecodeString_EncodeToString, Hr, Hp.
  - exists (S n). cbn. by rewrite Hs, DecodeString_EncodeToString, Hr, Hq.
Qed.

Lemma encodes_innermost s p :
  encodes s p →
  NewProtectedEntityIDFromString (PEIDString p) = Ok p ∧
  HasSnapshot p && negb (bool_decide (GetPeType p = IvdPEType)) = false.
Proof. by induction 1 as [s p [_ Hr] Hp|]. Qed.

Lemma encodes_decodePeId `{!SnapshotIDShorter} s p :
  encodes s p → decodePeIdFromSnapshotID s = Some (Ok p).
Proof.
  intros Hs. destruct (encodes_decode s p Hs) as [n Hn]. unfold decodePeIdFromSnapshotID.
  destruct (decodePeIdFrom_enough (decode_fuel s) s) as [r Hr]; [unfold decode_fuel; lia|].
  rewrite Hr. apply (decodePeIdFrom_mono _ (n + decode_fuel s)) in Hr; [|lia].
  apply (decodePeIdFrom_mono _ (n + decode_fuel s)) in Hn; [|lia]. congruence.
Qed.

(** C36.  Decoding undoes the encoding at any depth: from the
    snapshot ID in which the entity [p] is wrapped it finds [p] and the ID of
    its snapshot. *)
Theorem decode_encoded (Hshort : SnapshotIDShorter)
    (s : SnapID) (p : PEID) (Hs : encodes s p) :
  decodePeIdFromSnapshotID s = Some (Ok p) ∧
  decodeSnapshotID s = Some (Ok (SnapIDString (GetSnapshotID p))).
Proof.
  pose proof (encodes_decodePeId s p Hs) as Hp. split; [done|].
  pose proof (decode_agree (decode_fuel s) s) as Ha.
  unfold decodePeIdFromSnapshotID in Hp. by rewrite Hp in Ha.
Qed.

(** The Upload that the deletion of a snapshot looks for is the
    one its creation made: creating it for the entity [p] names it
    [uploadCRNameForSnapshotPEID p], and deleting the backup that wraps [p]
    finds that name, and [p] as the entity whose snapshot goes. *)
Theorem upload_name_found_again (Hshort : SnapshotIDShorter)
    (backup p : PEID) (Hb : GetPeType backup ≠ IvdPEType)
    (Hs : encodes (GetSnapshotID backup) p) (Hp : HasSnapshot p = true) :
  uploadNameToCancel backup = Some (uploadCRNameForSnapshotPEID p) ∧
  peToDelete backup = Some (Ok p).
Proof.
  destruct (decode_encoded _ _ _ Hs) as [H1 H2].
  unfold uploadNameToCancel, peToDelete, uploadCRNameForSnapshotPEID.
  by rewrite bool_decide_false, H1, H2, Hp by done.
Qed.
End decode.
