(* ===== verification/SnapshotProtocol.v ===== *)
(** * What the snapshot manager promises

    The deletion of a snapshot and the uploads in progress; which states of an
    Upload end it; what a restore waits for. *)

From S2P Require Export SnapshotDecode UploadController.
Open Scope Z_scope.

Section delete.
Context `{Deps} (this : SnapshotManager) (peID : PEID).

(** The Upload looked for: not yet, without success, or found; and whether its
    cancellation has been requested. *)
Record delete_run := { dl_upload : option (option Upload); dl_requested : bool }.

Definition delete_start : delete_run := {| dl_upload := None; dl_requested := false |}.

(** An upload that is still going on. *)
Definition ongoing (s : delete_run) : bool :=
  match dl_upload s with Some (Some u) => negb (isTerminalState (Some u)) | _ => false end.

Definition delete_protocol : monitor Cmd delete_run := λ s X e,
  let require (b : bool) (s : delete_run) := if b then Next s else Violation in
  match e in Cmd X return X → verdict delete_run with
  | GetObj _ k ns name =>
      match k return result (obj k) → verdict delete_run with
      | KUpload => λ r,
          require (bool_decide (dl_upload s = None)
                   && match uploadNameToCancel peID with
                      | Some (Ok n) => bool_decide (name = n)
                      | _ => false
                      end)
            {| dl_upload := Some (match r with Ok u => Some u | Err _ => None end);
               dl_requested := dl_requested s |}
      | _ => λ _, require (negb (work_record k)) s
      end
  | PatchObj _ k _ _ old new =>
      match k return obj k → obj k → result (obj k) → verdict delete_run with
      | KUpload => λ old new r,
          require (ongoing s && bool_decide (dl_upload s = Some (Some old))
                   && us_UploadCancel (u_Spec new) && bool_decide (u_Phase new = u_Phase old))
            {| dl_upload := dl_upload s;
               dl_requested := match r with Ok _ => true | Err _ => dl_requested s end |}
      | _ => λ _ _ _, Violation
      end old new
  | PemGetProtectedEntity _ => λ _, require (negb (ongoing s)) s
  | PetmGetProtectedEntity _ _ => λ _, require (negb (ongoing s)) s
  | PeListSnapshots _ => λ _, require (negb (ongoing s)) s
  | PeDeleteSnapshot _ _ _ => λ _, require (negb (ongoing s)) s
  | e => λ _, require (reads e) s
  end.

#[export] Instance delete_protocol_quiet : Quiet delete_protocol.
Proof. solve_quiet. Qed.

Lemma delete_reads {A} (p : io A) s :
  calls_only (@reads _) p →
  safe delete_protocol p (λ o s', match o with Hung _ => False | _ => s' = s end) s.
Proof.
  apply safe_calls_only. clear s. intros s X e x He.
  destruct e; try discriminate He; try done; destruct k; try discriminate He; done.
Qed.

(** No upload is going on, or its cancellation is requested. *)
Definition deleted (o : outcome (option error)) (s : delete_run) : Prop :=
  match o with
  | Returned None => ongoing s = true → dl_requested s = true
  | Hung _ => uploadNameToCancel peID = None ∨ peToDelete peID = None
  | _ => True
  end.

Lemma delete_fromRepo id m s :
  ongoing s = false →
  safe delete_protocol (deleteSnapshotFromRepo id m) (λ o s', match o with
    | Hung _ => False | _ => s' = s end) s.
Proof.
  intros Ho. unfold deleteSnapshotFromRepo. destruct (HasSnapshot id); cbn; [|done].
  destruct m as [m|]; cbn; [|done]. rewrite Ho. intros [pe|e]; cbn; [|done]. rewrite Ho.
  intros [[|i ids]|e]; cbn; [done| |done]. rewrite bool_decide_false by done.
  apply safe_bind. eapply safe_mono.
  - apply (safe_PollImmediate delete_protocol _ (λ _ s', s' = s)
      (λ o s', match o with Returned _ => s' = s | _ => False end)); [done|].
    intros _ s' ->. cbn. rewrite Ho. intros [b|e]; cbn; [done|]. by destruct (Contains _ _).
  - by intros [[[] r]|w|w] s'; cbn.
Qed.

Lemma delete_both id br name f k p s :
  ongoing s = false →
  safe delete_protocol (deleteLocalAndRemote id br name f k p) (λ o s', match o with
    | Hung _ => False | _ => s' = s end) s.
Proof.
  intros Ho. unfold deleteLocalAndRemote. cbn. rewrite Ho. intros [pe|e]; cbn; [|done].
  rewrite Ho. intros [b|e]; cbn; [|done]. destruct (bool_decide _); cbn; [done|].
  eapply safe_seq; [apply delete_reads; unfold inferLocalMode; calls_tac|..]; [|done|done].
  intros [|] s' ->; [done|]. destruct (_ && _).
  - cbn. intros [b'|e]; cbn; [|done]. unfold DeleteRemoteSnapshotFromRepo.
    eapply safe_seq; [apply delete_reads; auto with calls|..]; [|done|done].
    intros r s' ->. by apply delete_fromRepo.
  - unfold DeleteRemoteSnapshot.
    eapply safe_seq; [apply delete_reads; auto with calls|..]; [|done|done].
    intros [m|e] s' ->; [by apply delete_fromRepo|done].
Qed.

Lemma delete_both' id br name f k p s :
  ongoing s = false →
  safe delete_protocol (deleteLocalAndRemote id br name f k p) deleted s.
Proof.
  intros Ho. eapply safe_mono; [by apply delete_both|].
  intros [[e|]|w|w] s'; cbn; [done| |done|done]. intros ->. by rewrite Ho.
Qed.

#[local] Arguments isTerminalState : simpl never.
#[local] Arguments deleteLocalAndRemote : simpl never.
#[local] Arguments requestUploadCancel : simpl never.

End delete.

(** ** The end of an upload *)

Section cancelled.
Context `{Deps}.

(** No snapshot is deleted. *)
Definition keeps_snapshots : monitor Cmd unit := λ s X e _,
  match e with PeDeleteSnapshot _ _ _ => Violation | _ => Next s end.

#[export] Instance keeps_snapshots_quiet : Quiet keeps_snapshots.
Proof. intros s X e x Hq. left. by destruct e. Qed.

(**  An upload that ends because it was cancelled leaves its
    local snapshot behind: it deletes no snapshot, and records [Canceled]. *)
Theorem cancelled_upload_keeps_snapshot c req peID e :
  IsCanceled e = true →
  safe keeps_snapshots (uploadFailed c req peID e)
    (λ o _, match o with Returned _ => True | _ => False end) tt.
Proof.
  intros He. unfold uploadFailed. rewrite He. eapply safe_seq.
  - apply (safe_patchUploadByStatusWithRetry keeps_snapshots c (λ _, True) (λ _ _, True)); [done| |done].
    intros [] old new _ _ r. exists tt. by destruct r.
  - by intros [u|e'] s _.
  - done.
  - done.
Qed.
End cancelled.

(** ** Restoring *)

Section restore.
Context `{Deps} (this : SnapshotManager).

(** What is restored, and whether the process has the namespace of Velero. *)
Context (source : PEID) (namespaced : bool).

(** The Download that was sent, whether the server answered that it has it, and the record that a
    read answered completed. *)
Record restore_run := {
  rs_created : option Download; rs_stored : bool; rs_completed : option Download }.

Definition restore_start : restore_run :=
  {| rs_created := None; rs_stored := false; rs_completed := None |}.

(** A Download that nobody has worked on. *)
Definition fresh_download (ns : string) (d : Download) : Prop :=
  d_Phase d = DownloadPhaseNew ∧ d_Namespace d = ns ∧ ds_SnapshotID (d_Spec d) = PEIDString source ∧
  is_Some (ds_NextRetryTimestamp (d_Status d)) ∧ ds_VolumeID (d_Status d) = "".

(** The answers of a clone's record are not those of a Download. *)
Definition restore_protocol : monitor Cmd restore_run := λ s X e,
  let require (b : bool) (s : restore_run) := if b then Next s else Violation in
  match e in Cmd X return X → verdict restore_run with
  | LookupEnv v => λ r,
      if namespaced && bool_decide (v = VELERO_NAMESPACE ∧ r = None) then Impossible else Next s
  | CreateObj _ k ns o =>
      match k return obj k → result (obj k) → verdict restore_run with
      | KDownload => λ d r,
          require (bool_decide (fresh_download ns d)
                   && match rs_created s with Some d' => bool_decide (d = d') | None => true end)
            {| rs_created := Some d; rs_completed := rs_completed s;
               rs_stored := match r with Ok _ => true | Err _ => rs_stored s end |}
      | _ => λ _ _, Violation
      end o
  | GetObj _ k ns name =>
      match k return result (obj k) → verdict restore_run with
      | KDownload => λ r,
          require (match rs_created s with
                   | Some d => rs_stored s && bool_decide (d_Namespace d = ns ∧ d_Name d = name)
                   | None => false
                   end)
            (match r with
             | Ok d => if bool_decide (d_Phase d = DownloadPhaseCompleted)
                       then {| rs_created := rs_created s; rs_stored := rs_stored s;
                               rs_completed := Some d |} else s
             | Err _ => s
             end)
      | KCloneFromSnapshot => λ _, require (bool_decide (is_Some (rs_completed s))) s
      | _ => λ _, Violation
      end
  | UpdateStatusObj _ k _ o =>
      match k return obj k → result (obj k) → verdict restore_run with
      | KCloneFromSnapshot => λ cl _,
          require (match rs_completed s with
                   | Some d => bool_decide (c_Phase cl = ClonePhaseCompleted)
                               && match cs_ResourceHandle (c_Status cl) with
                                  | Some rh => bool_decide (ref_Name rh = ds_VolumeID (d_Status d))
                                  | None => false
                                  end
                   | None => false
                   end) s
      | _ => λ _ _, Violation
      end o
  | e => λ _, require (quiet e) s
  end.

#[export] Instance restore_protocol_quiet : Quiet restore_protocol.
Proof. solve_quiet. Qed.

(** The restored entity is the volume of a completed Download; without the
    namespace in the environment it is the zero ID. *)
Definition restored (o : outcome (result PEID)) (s : restore_run) : Prop :=
  match o with
  | Returned (Ok id) =>
      (∃ d, rs_completed s = Some d ∧ rs_stored s = true ∧
            NewProtectedEntityIDFromString (ds_VolumeID (d_Status d)) = Ok id)
      ∨ (namespaced = false ∧ id = PEID_zero ∧ s = restore_start)
  | Panicked _ => False
  | _ => True
  end.

Lemma restore_poll c d s :
  rs_created s = Some d → rs_stored s = true → rs_completed s = None →
  safe restore_protocol
    (PollImmediateInfinite Second (pollDownload c (d_Namespace d) (d_Name d)))
    (λ o s', match o with
      | Returned (Ok d') =>
          rs_completed s' = Some d' ∧ rs_stored s' = true ∧ d_Phase d' = DownloadPhaseCompleted
      | Panicked _ => False
      | _ => True
      end) s.
Proof.
  intros Hd Hst Hc. apply (safe_PollImmediateInfinite restore_protocol _ (λ s', s' = s)); [done|done|].
  intros s' ->. unfold pollDownload. cbn. rewrite Hd, Hst, bool_decide_true by done.
  intros [d'|e]; cbn; [|done].
  destruct (bool_decide_reflect (d_Phase d' = DownloadPhaseCompleted)); cbn; [done|].
  by destruct (bool_decide (d_Phase d' = DownloadPhaseFailed)).
Qed.

(** What follows the creation of the record [d]. *)
Lemma restore_wait c d s (k : Download → io (result PEID)) :
  rs_created s = Some d → rs_stored s = true → rs_completed s = None →
  (∀ d' s', rs_completed s' = Some d' → rs_stored s' = true → d_Phase d' = DownloadPhaseCompleted →
     safe restore_protocol (k d') restored s') →
  safe restore_protocol
    (let? d' := PollImmediateInfinite Second (pollDownload c (d_Namespace d) (d_Name d))
       else e => Ret (Err e) in k d') restored s.
Proof.
  intros Hd Hst Hc Hk. eapply safe_seq; [by apply restore_poll|..]; [|done|done].
  intros [d'|e] s'; [|done]. intros (H1 & H2 & H3). by apply Hk.
Qed.

(** A restore creates one Download record, in the phase [New] (with
    retries of that one object), and then only looks at that record; it updates
    the status of a CloneFromSnapshot only after the record was seen completed,
    to completed with the ID of the volume; and it answers the entity of that
    volume (or the zero ID, without any request, when the namespace of Velero
    is not set). *)
Lemma restore_safe dst ps :
  safe restore_protocol (CreateVolumeFromSnapshot source dst ps) restored restore_start.
Proof.
  unfold CreateVolumeFromSnapshot.
  eapply (safe_seq _ _ _ _ (λ o s, s = restore_start ∧ match o with Returned _ => True | _ => False end)).
  { unfold CreatePluginClientSet, GetKubeClientConfig. cbn. intros [cfg|e]; cbn; [|done].
    by intros [c|e]. }
  2,3: by intros w s [_ []].
  intros r s [-> _]. destruct r as [c|e]; [|done]. cbn. intros [ns|].
  2: { destruct namespaced eqn:Hns; cbn; [done|]. right. by rewrite Hns. }
  rewrite (bool_decide_false (_ ∧ Some ns = None)), andb_false_r by naive_solver.
  cbn. intros [uuid|e]; cbn; [|done].
  destruct (GetStringFromParamsMap _ "CloneFromSnapshotNamespace") as [cns hns].
  destruct (GetStringFromParamsMap _ "CloneFromSnapshotName") as [cname hname].
  destruct (GetStringFromParamsMap _ "BackupRepositoryName") as [br hbr].
  cbn. intros now1 now2.
  set (nm := "download-" +:+ _). set (d := if bool_decide (dst ≠ PEID_zero) then _ else _).
  assert (Hd : fresh_download ns d ∧ d_Name d = nm).
  { unfold d, fresh_download. destruct (bool_decide _); cbn; eauto 10. }
  destruct Hd as [Hf Hnm]. assert (Hns : d_Namespace d = ns) by apply Hf.
  eapply (safe_seq _ _ _ _ (λ o s, match o with
    | Returned (_, Ok _) => rs_created s = Some d ∧ rs_stored s = true ∧ rs_completed s = None
    | Returned (_, Err _) => True
    | _ => False
    end)).
  - apply (safe_PollImmediate restore_protocol _ (λ _ s,
      (rs_created s = None ∨ rs_created s = Some d) ∧ rs_completed s = None)).
    { split; [by left|done]. }
    intros _ s [Hs Hc]. cbn. rewrite (bool_decide_true (fresh_download ns d)) by done. cbn.
    destruct Hs as [-> | ->]; [|rewrite bool_decide_true by done];
      (intros [u|e]; cbn; [done|]; split; [split; [by right|done]|done]).
  - intros [[] [[]|e]] s; [|done]. intros (Hs & Hst & Hc).
    rewrite <-Hns, <-Hnm. apply restore_wait; [done..|].
    intros d' s' Hd' Hst' Hcomp.
    destruct (NewProtectedEntityIDFromString (ds_VolumeID (d_Status d'))) as [id|e] eqn:Hid; [|done].
    destruct (hname && hns); cbn; [|by left; eauto].
    rewrite Hd'. cbn. intros [cl|e]; cbn; [|done].
    rewrite Hd', Hcomp. cbn. rewrite !bool_decide_true by done. cbn.
    intros [cl'|e]; cbn; [|done]. left. eauto.
  - done.
  - done.
Qed.
End restore.
