(* ===== verification/RestoreSystem.v ===== *)
(** * Restores and their Downloads

    The API server's Downloads and CloneFromSnapshots, any number of restores that create
    Downloads and wait for them, and any number of nodes that process the Downloads,
    interleaved call by call: what the success of a restore says about its data. *)

From S2P Require Export DownloadSystem SnapshotProtocol.
Open Scope Z_scope.

Section system.
Context `{Deps}.

Abbreviation key := (string * string)%type.

(** The records, by namespace and name, and the volumes that were made or overwritten with
    success. *)
Record restore_world := RestoreWorld {
  rw_downloads : gmap key Download;
  rw_clones : gmap key CloneFromSnapshot;
  rw_made : list PEID;
}.

Definition with_record (k : key) (d : Download) (w : restore_world) : restore_world :=
  RestoreWorld (<[k := d]> (rw_downloads w)) (rw_clones w) (rw_made w).

Definition with_clone (k : key) (cl : CloneFromSnapshot) (w : restore_world) : restore_world :=
  RestoreWorld (rw_downloads w) (<[k := cl]> (rw_clones w)) (rw_made w).

Definition with_volume (pe : PE) (w : restore_world) : restore_world :=
  RestoreWorld (rw_downloads w) (rw_clones w) (rw_made w ++ [PE_GetID pe]).

(** The server takes over the status alone. *)
Definition take_status (o cur : CloneFromSnapshot) : CloneFromSnapshot :=
  {| c_Meta := c_Meta cur; c_Spec := c_Spec cur; c_Status := c_Status o |}.

(** A request that may change the state from [w] to [w'] and answers [o]: one that fails may have
    been carried out all the same. *)
Definition carried_out {A} (o : A) (w wn : restore_world) (r : result A) (w' : restore_world) : Prop :=
  match r with
  | Ok o' => o' = o ∧ w' = wn
  | Err _ => w' = w ∨ w' = wn
  end.

(** A request that the server refuses. *)
Definition refused {A} (w : restore_world) (r : result A) (w' : restore_world) : Prop :=
  w' = w ∧ ∃ e, r = Err e.

(** A read may fail. *)
Definition looked_up {A} (m : gmap key A) (k : key) (w : restore_world) (r : result A) (w' : restore_world)
    : Prop :=
  w' = w ∧ match r with Ok o => m !! k = Some o | Err _ => True end.

(** The answers the shared state allows, with the state they leave.  The processes have the
    namespace of Velero in their environment. *)
Definition restore_effect (w : restore_world) {X} (e : Cmd X) : X → restore_world → Prop :=
  match e in Cmd X return X → restore_world → Prop with
  | GetObj _ k ns name =>
      match k return result (obj k) → restore_world → Prop with
      | KDownload => looked_up (rw_downloads w) (ns, name) w
      | KCloneFromSnapshot => looked_up (rw_clones w) (ns, name) w
      | _ => λ _ w', w' = w
      end
  | CreateObj _ k ns o =>
      match k return obj k → result (obj k) → restore_world → Prop with
      | KDownload => λ d,
          match rw_downloads w !! (ns, d_Name d) with
          | Some _ => refused w
          | None => carried_out d w (with_record (ns, d_Name d) d w)
          end
      | _ => λ _ _ w', w' = w
      end o
  | PatchObj _ k ns name old new =>
      match k return obj k → obj k → result (obj k) → restore_world → Prop with
      | KDownload => λ old new,
          match rw_downloads w !! (ns, name) with
          | Some d => let d' := merge_download old new d in
                      carried_out d' w (with_record (ns, name) d' w)
          | None => refused w
          end
      | _ => λ _ _ _ w', w' = w
      end old new
  | UpdateStatusObj _ k ns o =>
      match k return obj k → result (obj k) → restore_world → Prop with
      | KCloneFromSnapshot => λ o,
          match rw_clones w !! (ns, c_Name o) with
          | Some cl => let cl' := take_status o cl in
                       carried_out cl' w (with_clone (ns, c_Name o) cl' w)
          | None => refused w
          end
      | _ => λ _ _ w', w' = w
      end o
  | PetmCopy _ _ _ _ => λ r w', w' = match r with Ok pe => with_volume pe w | Err _ => w end
  | PeOverwrite target _ => λ r w', w' = match r with None => with_volume target w | Some _ => w end
  | LookupEnv v => λ r w', w' = w ∧ (v = VELERO_NAMESPACE → is_Some r)
  | _ => λ _ w', w' = w
  end.

(** A node processes a Download that is there, from the informer's copy; a restore. *)
Inductive restore_starts (w : restore_world) : thread → Prop :=
| start_node c req d :
    rw_downloads w !! download_key req = Some d → download_key d = download_key req →
    restore_starts w (processDownload c req)
| start_restore target source ps : restore_starts w (Overwrite target source ps).

(** Others create CloneFromSnapshots and write their phases, but for that of success, which only
    restores write. *)
Inductive restore_moves (w : restore_world) : restore_world → Prop :=
| move_clone k cl : c_Phase cl ≠ ClonePhaseCompleted → restore_moves w (with_clone k cl w).

#[export] Instance restore_system : System restore_world := {|
  sys_effect := @restore_effect;
  sys_starts := restore_starts;
  sys_moves := restore_moves;
|}.

(** ** The invariant *)

(** One of the Downloads, as [DownloadSystem] sees it. *)
Definition view (w : restore_world) (d : Download) : download_world := DownloadWorld d (rw_made w).

(** A clone that is [Completed] names a volume. *)
Definition clone_ok (made : list PEID) (cl : CloneFromSnapshot) : Prop :=
  c_Phase cl = ClonePhaseCompleted →
  ∃ rh, cs_ResourceHandle (c_Status cl) = Some rh ∧ volume_in made (ref_Name rh).

Definition record_ok (w : restore_world) (k : key) (d : Download) : Prop :=
  download_key d = k ∧ download_ok "" (view w d).

Definition restore_ok (w : restore_world) : Prop :=
  map_Forall (record_ok w) (rw_downloads w) ∧ map_Forall (λ _, clone_ok (rw_made w)) (rw_clones w).

Definition restore_grows (w w' : restore_world) : Prop :=
  rw_made w ⊆ rw_made w' ∧
  ∀ k d, rw_downloads w !! k = Some d →
    ∃ d', rw_downloads w' !! k = Some d' ∧ download_grows (view w d) (view w' d').

(** A node works on one of the Downloads. *)
Definition node_ok (w : restore_world) (p : thread) : Prop :=
  ∃ k d, rw_downloads w !! k = Some d ∧ sender_ok "" (view w d) p.

(** What a restore knows, whatever the others have done since. *)
Record restorer_knows (source : PEID) (w : restore_world) (s : restore_run) : Prop := {
  knows_created : ∀ d, rs_created s = Some d → ds_SnapshotID (d_Spec d) = PEIDString source;
  knows_stored : rs_stored s = true → ∃ d d', rs_created s = Some d ∧
    rw_downloads w !! download_key d = Some d' ∧ d_Spec d' = d_Spec d ∧
    (is_Some (rs_completed s) → names_made (view w d'));
  knows_completed : ∀ d, rs_completed s = Some d →
    rs_stored s = true ∧ volume_in (rw_made w) (ds_VolumeID (d_Status d));
}.

(** A restore that answers nil saw its Download completed. *)
Definition overwritten (o : outcome (option error)) (s : restore_run) : Prop :=
  match o with
  | Returned None => is_Some (rs_completed s) ∧ rs_stored s = true
  | Panicked _ => False
  | _ => True
  end.

Definition restorer_ok (source : PEID) (w : restore_world) (p : thread) : Prop :=
  ∃ s, safe (restore_protocol source true) p overwritten s ∧ restorer_knows source w s.

Definition restore_thread_ok (w : restore_world) (p : thread) : Prop :=
  node_ok w p ∨ ∃ source, restorer_ok source w p.

#[export] Instance restore_grows_preorder : PreOrder restore_grows.
Proof.
  split.
  - intros w. split; [done|]. intros k d Hd. by exists d.
  - intros w1 w2 w3 [Hm1 Hd1] [Hm2 Hd2]. split; [set_solver|]. intros k d Hd.
    destruct (Hd1 k d Hd) as (d2 & Hd2' & Hg1). destruct (Hd2 k d2 Hd2') as (d3 & Hd3 & Hg2).
    exists d3. split; [done|]. by transitivity (view w2 d2).
Qed.

Lemma clone_ok_mono ids ids' cl : ids ⊆ ids' → clone_ok ids cl → clone_ok ids' cl.
Proof. intros Hi Hc Hp. destruct (Hc Hp) as (rh & Hrh & Hv). exists rh. split; [done|]. by eapply volume_in_mono. Qed.

(** The Download of a key as [DownloadSystem] leaves it, put back. *)
Definition put (k : key) (w2 : download_world) (w : restore_world) : restore_world :=
  RestoreWorld (<[k := dw_record w2]> (rw_downloads w)) (rw_clones w) (dw_made w2).

Lemma lookup_put k w2 w k' d' :
  rw_downloads (put k w2 w) !! k' = Some d' ↔
  k = k' ∧ dw_record w2 = d' ∨ k ≠ k' ∧ rw_downloads w !! k' = Some d'.
Proof. apply lookup_insert_Some. Qed.

Lemma put_view k d w : rw_downloads w !! k = Some d → put k (view w d) w = w.
Proof. intros Hd. destruct w. unfold put. cbn in *. by rewrite insert_id. Qed.

Lemma put_ok k d w w2 :
  restore_ok w → rw_downloads w !! k = Some d → download_ok "" w2 → download_grows (view w d) w2 →
  restore_ok (put k w2 w) ∧ restore_grows w (put k w2 w).
Proof.
  intros [Hds Hcs] Hd Hok Hg. pose proof Hg as (Hm & _).
  assert (Hother : ∀ k' d', rw_downloads w !! k' = Some d' →
    download_ok "" (view (put k w2 w) d') ∧ download_grows (view w d') (view (put k w2 w) d')).
  { intros k' d' Hd'. destruct (Hds k' d' Hd') as [_ Hok']. by apply download_more_made. }
  destruct (Hds k d Hd) as [Hk _]. split.
  - split; [|by eapply map_Forall_impl; [exact Hcs|]; intros k' cl; apply clone_ok_mono].
    intros k' d' [[<- <-]|[Hne Hd']]%lookup_put.
    + split; [|by destruct w2]. rewrite <-Hk. apply (grows_key _ _ Hg).
    + split; [by apply (Hds k' d')|by eapply Hother].
  - split; [done|]. intros k' d' Hd'. destruct (decide (k = k')) as [<-|Hne].
    + exists (dw_record w2). simplify_eq. split; [by apply lookup_put; left|by destruct w2].
    + exists d'. split; [by apply lookup_put; right|by eapply Hother].
Qed.

Lemma node_grows w w' p : restore_grows w w' → node_ok w p → node_ok w' p.
Proof.
  intros [_ Hg] (k & d & Hd & Hp). destruct (Hg k d Hd) as (d' & Hd' & Hgd). exists k, d'.
  split; [done|]. by eapply sender_grows.
Qed.

Lemma restorer_grows source w w' p : restore_grows w w' → restorer_ok source w p → restorer_ok source w' p.
Proof.
  intros [Hm Hg] (s & Hs & [Hc Hst Hv]). exists s. split; [done|]. split; [done| |].
  - intros Hstored. destruct (Hst Hstored) as (d & d1 & Hd & Hd1 & Hspec & Hn).
    destruct (Hg _ _ Hd1) as (d2 & Hd2 & (_ & _ & Hn2 & _ & Hspec2)). exists d, d2.
    split_and!; [done|done| |auto]. rewrite <-Hspec. exact Hspec2.
  - intros d Hd. destruct (Hv d Hd). split; [done|]. by eapply volume_in_mono.
Qed.

(** *** One call *)

Lemma asks_key w ns name : (ns, name) = download_key (dw_record w) → asks_download w ns name = true.
Proof. intros [= -> ->]. by apply bool_decide_eq_true. Qed.

(** On the Download of a node, its call does what [DownloadSystem] says. *)
Lemma node_effect w k d s X (e : Cmd X) x w' :
  rw_downloads w !! k = Some d → sending_protocol k s X e x ≠ Violation → restore_effect w e x w' →
  download_key d = k →
  ∃ w2, download_effect (view w d) e x w2 ∧ w' = put k w2 w.
Proof.
  intros Hd Hs He Hk. destruct (unseen e) eqn:Hu.
  { assert (Hstay : download_effect (view w d) e x (view w d) ∧ w' = w).
    { destruct e; try discriminate Hu; cbn in He |- *; try (by destruct He); try done;
        destruct k0; try discriminate Hu; try done; by destruct He. }
    destruct Hstay as [H1 ->]. exists (view w d). split; [done|]. by rewrite put_view. }
  destruct e; try discriminate Hu; try (by destruct Hs); cbn in Hs, He.
  - (* GetObj *)
    destruct k0; try discriminate Hu. case_bool_decide as Hkey; [|done]. destruct He as [-> Hr].
    exists (view w d). rewrite put_view by done. split; [|done]. cbn. split; [done|].
    destruct x as [d'|e]; [|done]. rewrite Hkey in Hr. simplify_eq. split; [|done].
    by apply asks_key.
  - (* PatchObj *)
    destruct k0; try done. case_bool_decide as Hp; [|done]. destruct Hp as [Hkey _].
    rewrite Hkey, Hd in He. assert (Ha : asks_download (view w d) ns name = true).
    { apply asks_key. cbn. congruence. }
    destruct x as [d'|e]; cbn in He |- *.
    + destruct He as [-> ->]. by exists (dw_on_patch old new (view w d)).
    + destruct He as [-> | ->]; [exists (view w d); rewrite put_view by done; auto|].
      exists (dw_on_patch old new (view w d)). auto.
  - (* PetmCopy *)
    subst w'. destruct x as [pe'|e]; [exists (dw_on_made pe' (view w d))|exists (view w d)];
      (split; [done|]); unfold put; cbn; by rewrite insert_id; destruct w.
  - (* PeOverwrite *)
    subst w'. destruct x as [e|]; [exists (view w d)|exists (dw_on_made target (view w d))];
      (split; [done|]); unfold put; cbn; by rewrite insert_id; destruct w.
Qed.

Lemma node_call w X (e : Cmd X) k x w' :
  restore_ok w → node_ok w (Do e k) → restore_effect w e x w' →
  restore_ok w' ∧ node_ok w' (k x) ∧ restore_grows w w'.
Proof.
  intros Hw (key & d & Hd & Ht) He. destruct (proj1 Hw key d Hd) as [Hk Hok].
  assert (Hs : ∃ s, sending_protocol key s X e x ≠ Violation).
  { destruct Ht as (s & Hs & _). exists s. specialize (Hs x). cbn in Hs. rewrite Hk in Hs.
    intros Hv. by rewrite Hv in Hs. }
  destruct Hs as [s Hs]. destruct (node_effect w key d s X e x w' Hd Hs He Hk) as (w2 & H2 & ->).
  destruct (sender_ok_call "" (view w d) X e k x w2 Hok Ht H2) as (Hok2 & Ht2 & Hg2).
  destruct (put_ok key d w w2 Hw Hd Hok2 Hg2). split_and!; [done| |done].
  exists key, (dw_record w2). split; [by apply lookup_put; left|by destruct w2].
Qed.

(** A record that nobody has worked on may come in. *)
Lemma with_record_ok source ns d w :
  restore_ok w → fresh_download source ns d → rw_downloads w !! (ns, d_Name d) = None →
  restore_ok (with_record (ns, d_Name d) d w) ∧ restore_grows w (with_record (ns, d_Name d) d w).
Proof.
  intros [Hds Hcs] (Hp & Hns & _ & Hnext & Hv) Hno. split.
  - split; [|done]. apply map_Forall_insert_2; [|done]. split; [by unfold download_key; rewrite Hns|].
    assert (Hk : known_phase (d_Phase d)) by by rewrite Hp.
    split_and!; [exact Hk|exact Hnext|by left|]. intros Hc. change (d_Phase d = DownloadPhaseCompleted) in Hc.
    congruence.
  - split; [done|]. intros k d' Hd'. exists d'. split; [|done]. apply lookup_insert_Some. right.
    split; [|done]. intros <-. congruence.
Qed.

(** So may the status of a clone that names a volume. *)
Lemma with_clone_ok k cl w :
  restore_ok w → clone_ok (rw_made w) cl → restore_ok (with_clone k cl w) ∧ restore_grows w (with_clone k cl w).
Proof.
  intros [Hds Hcs] Hcl. split.
  - split; [exact Hds|]. by apply map_Forall_insert_2.
  - split; [done|]. intros k' d Hd. by exists d.
Qed.

(** A restore sends the Download. *)
Lemma knows_sent source ns d w s r w' :
  restore_ok w → restorer_knows source w s → fresh_download source ns d →
  match rs_created s with Some d' => d = d' | None => True end →
  match rw_downloads w !! (ns, d_Name d) with
  | Some _ => refused w
  | None => carried_out d w (with_record (ns, d_Name d) d w)
  end r w' →
  restore_ok w' ∧ restore_grows w w' ∧
  restorer_knows source w' {| rs_created := Some d; rs_completed := rs_completed s;
    rs_stored := match r with Ok _ => true | Err _ => rs_stored s end |}.
Proof.
  intros Hw [Hc Hst Hv] Hf Hsame He. assert (Hkey : download_key d = (ns, d_Name d)).
  { unfold download_key. by rewrite (proj1 (proj2 Hf)). }
  assert (Hid : ds_SnapshotID (d_Spec d) = PEIDString source) by apply Hf.
  assert (Hstored : rs_stored s = true → ∃ d', rs_created s = Some d ∧
    rw_downloads w !! (ns, d_Name d) = Some d' ∧ d_Spec d' = d_Spec d ∧
    (is_Some (rs_completed s) → names_made (view w d'))).
  { intros Hs. destruct (Hst Hs) as (d0 & d' & Hd0 & Hd' & Hrest). rewrite Hd0 in Hsame. subst d0.
    rewrite Hkey in Hd'. by exists d'. }
  assert (Hknows : restorer_knows source w {| rs_created := Some d; rs_completed := rs_completed s;
    rs_stored := rs_stored s |}).
  { split; cbn; [by intros ? [= <-]| |exact Hv]. intros Hs. destruct (Hstored Hs) as (d' & _ & Hd' & Hrest).
    exists d, d'. by rewrite Hkey. }
  destruct (rw_downloads w !! (ns, d_Name d)) as [d'|] eqn:Hd.
  { destruct He as [-> [e ->]]. by split_and!. }
  destruct (with_record_ok source ns d w Hw Hf Hd) as [Hok Hg].
  assert (Hno : rs_stored s = false).
  { destruct (rs_stored s); [|done]. by destruct Hstored as (d' & _ & Hd' & _). }
  assert (Hnone : ∀ d', rs_completed s ≠ Some d').
  { intros d' Hd'. destruct (Hv d' Hd'). congruence. }
  destruct r as [d'|e]; cbn in He.
  - destruct He as [-> ->]. split_and!; [done|done|]. split; cbn; [by intros ? [= <-]| |].
    + intros _. exists d, d. split_and!; [done|by rewrite Hkey; apply lookup_insert_eq|done|].
      intros [d' Hd']. by destruct (Hnone d').
    + intros d' Hd'. by destruct (Hnone d').
  - destruct He as [-> | ->]; [by split_and!|]. split_and!; [done|done|].
    split; cbn; [by intros ? [= <-]|congruence|]. intros d' Hd'. by destruct (Hnone d').
Qed.

(** A restore reads its Download. *)
Lemma knows_read source ns name w s r d0 :
  restore_ok w → restorer_knows source w s → rs_created s = Some d0 → rs_stored s = true →
  download_key d0 = (ns, name) → looked_up (rw_downloads w) (ns, name) w r w →
  restorer_knows source w match r with
    | Ok d => if bool_decide (d_Phase d = DownloadPhaseCompleted)
              then {| rs_created := rs_created s; rs_stored := rs_stored s; rs_completed := Some d |} else s
    | Err _ => s
    end.
Proof.
  intros [Hds _] Hk Hd0 Hstored Hkey [_ Hr]. destruct r as [d|e]; [|done].
  case_bool_decide as Hp; [|done]. destruct (Hds _ _ Hr) as [_ (_ & _ & _ & Hc)].
  destruct (Hc Hp) as [Hn _]. destruct Hk as [Hcr Hst Hv]. split; cbn; [done| |by intros ? [= <-]].
  intros _. destruct (Hst Hstored) as (d1 & d' & Hd1 & Hd' & Hs & _). exists d1, d'. split_and!; [done..|].
  intros _. simplify_eq. rewrite Hkey in Hd'. by simplify_eq.
Qed.

(** It writes a clone only after that. *)
Lemma clone_named source w s cl cur :
  restorer_knows source w s →
  match rs_completed s with
  | Some d => bool_decide (c_Phase cl = ClonePhaseCompleted)
              && match cs_ResourceHandle (c_Status cl) with
                 | Some rh => bool_decide (ref_Name rh = ds_VolumeID (d_Status d))
                 | None => false
                 end
  | None => false
  end = true →
  clone_ok (rw_made w) (take_status cl cur).
Proof.
  intros [_ _ Hv] Hd _. cbn. destruct (rs_completed s) as [d|]; [|done]. apply andb_prop in Hd as [_ Hd].
  destruct (cs_ResourceHandle (c_Status cl)) as [rh|]; [|done]. apply bool_decide_eq_true in Hd.
  exists rh. split; [done|]. rewrite Hd. by apply Hv.
Qed.

Lemma restorer_step source w s X (e : Cmd X) x w' :
  restore_ok w → restorer_knows source w s → restore_effect w e x w' →
  match restore_protocol source true s X e x with
  | Next s' => restore_ok w' ∧ restorer_knows source w' s' ∧ restore_grows w w'
  | Violation => True
  | Impossible => False
  end.
Proof.
  intros Hw Hk He. destruct e; try done; cbn in He; try (by subst w').
  - (* GetObj *)
    destruct k; try done; cbn.
    + destruct (rs_created s) as [d0|] eqn:Hd0; [|done]. destruct (rs_stored s) eqn:Hst; [|done].
      cbn. case_bool_decide as Hkey; [|done]. pose proof He as [-> _].
      split_and!; [done| |done]. pose proof (knows_read source ns name w s x d0) as Hr.
      rewrite Hd0, Hst in Hr. apply Hr; try done. destruct Hkey as [<- <-]. done.
    + destruct He as [-> _]. by case_bool_decide.
  - (* CreateObj *)
    destruct k; try done; cbn. destruct (bool_decide_reflect (fresh_download source ns o)) as [Hf|]; [|done].
    cbn. pose proof (λ Hs, knows_sent source ns o w s x w' Hw Hk Hf Hs He) as Hsent.
    destruct (rs_created s) as [d'|]; [case_bool_decide; [|done]|]; cbn; by destruct Hsent as (? & ? & ?).
  - (* UpdateStatusObj *)
    destruct k; try done; cbn. destruct (match rs_completed s with Some _ => _ | None => _ end) eqn:Hd; [|done].
    destruct (rw_clones w !! (ns, c_Name o)) as [cur|]; [|by destruct He as [-> _]].
    destruct (with_clone_ok (ns, c_Name o) (take_status o cur) w Hw) as [Hw' Hg].
    { by eapply clone_named. }
    assert (Hres : w' = w ∨ w' = with_clone (ns, c_Name o) (take_status o cur) w).
    { destruct x; [right; apply He|exact He]. }
    destruct Hres as [-> | ->]; [done|]. split_and!; [done| |done]. destruct Hk. by split.
  - (* LookupEnv *)
    destruct He as [-> Hns]. cbn. case_bool_decide as Hb; [|done]. destruct Hb as [Hv ->].
    by destruct (Hns Hv).
Qed.

Lemma restorer_call source w X (e : Cmd X) k x w' :
  restore_ok w → restorer_ok source w (Do e k) → restore_effect w e x w' →
  restore_ok w' ∧ restorer_ok source w' (k x) ∧ restore_grows w w'.
Proof.
  intros Hw (s & Hs & Hk) He. pose proof (restorer_step source w s X e x w' Hw Hk He) as Hstep.
  specialize (Hs x). destruct (restore_protocol source true s X e x) as [s'| |]; [|done..].
  destruct Hstep as (? & ? & ?). split_and!; [done|by exists s'|done].
Qed.

Lemma restorer_start target source ps w : restorer_ok (PE_GetID source) w (Overwrite target source ps).
Proof.
  exists restore_start. split; [|by split].
  eapply safe_seq; [apply restore_safe|..]; [|done|done].
  intros [id|e] s; [|done]. intros [(d & Hd & Hst & _)|[? _]]; [|done]. by split; [exists d|].
Qed.

#[export] Instance restore_discipline : Discipline restore_ok restore_grows restore_thread_ok.
Proof.
  split.
  - apply _.
  - intros w w' p Hg [Hn|[source Hr]]; [left; by eapply node_grows|right; exists source].
    by eapply restorer_grows.
  - intros w p [c req d Hd Hk|target source ps]; [|right; exists (PE_GetID source); apply restorer_start].
    left. exists (download_key req), d. split; [done|]. by apply sender_start.
  - intros w w' [k cl Hcl] Hw. apply with_clone_ok; [done|]. by intros Hc.
  - intros w X e k x w' Hw [Hn|[source Hr]] He.
    + destruct (node_call w X e k x w' Hw Hn He) as (? & ? & ?). split_and!; [done|by left|done].
    + destruct (restorer_call source w X e k x w' Hw Hr He) as (? & ? & ?).
      split_and!; [done|right; by exists source|done].
Qed.

(** No restore has begun, and none was done before. *)
Definition no_restore_yet (w : restore_world) : Prop :=
  rw_downloads w = ∅ ∧ map_Forall (λ _ cl, c_Phase cl ≠ ClonePhaseCompleted) (rw_clones w).

Lemma no_restore_yet_ok w : no_restore_yet w → restore_ok w.
Proof.
  intros [Hd Hc]. split; [rewrite Hd; apply map_Forall_empty|].
  eapply map_Forall_impl; [exact Hc|]. by intros k cl Hcl Hp.
Qed.

(** C7.  What the success of a restore says.  From a server without Downloads, with
    CloneFromSnapshots that are not completed, however many restores run and however many
    goroutines process the Downloads that they create, whichever requests fail
    with or without an effect, and in whatever order their calls interleave: a
    CloneFromSnapshot that is [Completed] names a volume that was made or overwritten, and so does a
    completed Download; when a restore, started at any time, has answered nil, the server has a Download for the
    very snapshot that was to be restored, which names such a volume; and no restore panics. *)
Theorem restore_system_invariant w0 w1 ts1 target source ps w ts :
  no_restore_yet w0 → rtc sys_step (w0, []) (w1, ts1) →
  rtc sys_step (w1, ts1 ++ [Overwrite target source ps]) (w, ts) →
  (∀ k cl, rw_clones w !! k = Some cl → c_Phase cl = ClonePhaseCompleted →
     ∃ rh, cs_ResourceHandle (c_Status cl) = Some rh ∧ volume_in (rw_made w) (ref_Name rh)) ∧
  (∀ k d, rw_downloads w !! k = Some d → d_Phase d = DownloadPhaseCompleted →
     volume_in (rw_made w) (ds_VolumeID (d_Status d))) ∧
  (ts !! length ts1 = Some (Ret None) →
     ∃ k d, rw_downloads w !! k = Some d ∧ ds_SnapshotID (d_Spec d) = PEIDString (PE_GetID source) ∧
            volume_in (rw_made w) (ds_VolumeID (d_Status d))) ∧
  ∀ why, ts !! length ts1 ≠ Some (Panic why).
Proof.
  intros H0%no_restore_yet_ok H1 H2.
  destruct (reachable_ok (ok := restore_ok) w0 w1 ts1 H0 H1) as (Hw1 & Hts1 & _).
  assert (Hok1 : sys_ok (ok := restore_ok) (thr := restore_thread_ok) (w1, ts1 ++ [Overwrite target source ps])).
  { split; [done|]. apply Forall_app. split; [done|]. apply Forall_singleton.
    right. exists (PE_GetID source). apply restorer_start. }
  assert (Hp : ∃ p, ts !! length ts1 = Some p ∧ restorer_ok (PE_GetID source) w p).
  { apply (thread_followed (restorer_ok (PE_GetID source)) (length ts1)
      (w1, ts1 ++ [Overwrite target source ps]) (w, ts)); [apply restorer_grows| |done..|].
    - intros w2 X e k x w' Hw Hp He. by eapply restorer_call.
    - exists (Overwrite target source ps). cbn. split; [|apply restorer_start].
      by rewrite lookup_app_r, Nat.sub_diag. }
  destruct Hp as (p & Hp & s & Hs & Hk).
  destruct (sys_steps_ok _ _ H2 Hok1) as [[Hw _] _].
  cbn in Hw. split_and!.
  - intros k cl Hcl. by apply (proj2 Hw k cl).
  - intros k d Hd Hc. destruct (proj1 Hw k d Hd) as [_ (_ & _ & _ & Hn)]. by apply Hn.
  - intros Hnil. simplify_eq. destruct Hs as [Hc Hst]. destruct (knows_stored _ _ _ Hk Hst) as (d & d' & Hd & Hd' & Hspec & Hn).
    exists (download_key d), d'. split; [done|]. split; [|by apply Hn].
    rewrite Hspec. by apply (knows_created _ _ _ Hk).
  - intros why Hpanic. by simplify_eq.
Qed.
End system.
