(* ===== verification/UploadTypes.v ===== *)
(** * The status of an Upload stays well-formed

    The handlers of pkg/controller dereference the timestamps of a record's
    status.  Every record that the snapshot manager creates and that the
    controllers' patches make of it, in whatever order they arrive, has the
    timestamps that are dereferenced and numbers in their ranges. *)

From S2P Require Export UploadSystem UploadQueue.
Open Scope Z_scope.

Section types.
Context `{Deps}.

Definition well_formed (u : Upload) : Prop :=
  let st := u_Status u in
  is_Some (us_NextRetryTimestamp st) ∧
  (us_Phase st = UploadPhaseCompleted → is_Some (us_CompletionTimestamp st)) ∧
  - 2^31 ≤ us_RetryCount st < 2^31 ∧ 0 ≤ us_CurrentBackOff st ≤ UPLOAD_MAX_BACKOFF.

(** ** What a goroutine sends *)

(** A patch that keeps records well-formed.  [last] is the record the server
    answered last: a patch that sets [Completed] sends the time with it, unless
    that record already had the same one. *)
Definition keeps_types (last : option Upload) (old new : Upload) : Prop :=
  let st := u_Status old in let st' := u_Status new in
  u_Spec new = u_Spec old ∧
  (us_Phase st' = UploadPhaseCompleted → us_Phase st ≠ UploadPhaseCompleted →
     is_Some (us_CompletionTimestamp st') ∧ last = Some old) ∧
  (us_CompletionTimestamp st' = us_CompletionTimestamp st ∨ is_Some (us_CompletionTimestamp st')) ∧
  (us_NextRetryTimestamp st' = us_NextRetryTimestamp st ∨ is_Some (us_NextRetryTimestamp st')) ∧
  (us_RetryCount st' = us_RetryCount st ∨ - 2^31 ≤ us_RetryCount st' < 2^31) ∧
  (us_CurrentBackOff st' = us_CurrentBackOff st ∨ 0 ≤ us_CurrentBackOff st' ≤ UPLOAD_MAX_BACKOFF).

#[export] Instance keeps_types_dec last old new : Decision (keeps_types last old new).
Proof. unfold keeps_types. apply _. Defined.

Definition answered {A} (r : result A) (last : option A) : option A :=
  match r with Ok a => Some a | Err _ => last end.

Definition type_protocol : monitor Cmd (option Upload) := λ last X e,
  match e in Cmd X return X → verdict (option Upload) with
  | GetObj _ k _ _ =>
      match k return result (obj k) → verdict (option Upload) with
      | KUpload => λ r, Next (answered r last)
      | _ => λ _, Next last
      end
  | PatchObj _ k _ _ old new =>
      match k return obj k → obj k → result (obj k) → verdict (option Upload) with
      | KUpload => λ old new r,
          if bool_decide (keeps_types last old new) then Next (answered r last) else Violation
      | _ => λ _ _ _, Next last
      end old new
  | _ => λ _, Next last
  end.

#[export] Instance type_protocol_quiet : Quiet type_protocol.
Proof. solve_quiet. Qed.

(** Calls that the protocol does not look at. *)
Definition typeless {X} (e : Cmd X) : bool :=
  match e with GetObj _ KUpload _ _ | PatchObj _ KUpload _ _ _ _ => false | _ => true end.

Lemma typeless_next last X (e : Cmd X) x : typeless e = true → type_protocol last X e x = Next last.
Proof. destruct e; try done; by destruct k. Qed.

Lemma typeless_reads {A} (p : io A) : calls_only (@reads _) p → calls_only (@typeless) p.
Proof. apply calls_only_mono. intros X e. destruct e; try done; by destruct k. Qed.
Hint Resolve typeless_reads : calls.

Lemma safe_typeless {A} (p : io A) last :
  calls_only (@typeless) p →
  safe type_protocol p (λ o s, match o with Hung _ => False | _ => s = last end) last.
Proof. apply safe_calls_only, typeless_next. Qed.

(** A patch of the record that was answered last, or of any record when the
    phase is not [Completed]. *)
Lemma type_patch c at_ req p msg last :
  p ≠ UploadPhaseCompleted ∨ last = Some req →
  safe type_protocol (patchUploadByStatusWithRetry c at_ req p msg) (λ o s, match o with
    | Returned r => s = answered r last
    | _ => False
    end) last.
Proof.
  intros Hp. eapply safe_mono.
  - apply (safe_patchUploadByStatusWithRetry type_protocol c (λ s, s = last) (λ u s, s = Some u));
      [done| |by intros _ ? ? ? ->].
    intros s old new -> ([Hs Hm] & [Hs' Hm'] & Hph & Hor & (Hc & Hn & Hr & Hb)) r.
    exists (answered r last). split; [|by destruct r]. cbn. rewrite bool_decide_true; [done|].
    unfold keeps_types. split_and!; [congruence| | |done..].
    + unfold u_Phase in *. intros He Hne. rewrite Hph in He.
      destruct Hor as [-> |Ho]; [|congruence]. destruct Hp as [|Hlast]; [done|].
      split; [|done]. destruct Hc as [[Hi _]|]; [congruence|done].
    + destruct Hc as [[_ Hc]|]; auto.
  - intros [[u|e]|y|y] s; cbn; auto.
Qed.

Abbreviation plays p last := (safe type_protocol p (λ o _, ends o) last).

Lemma plays_seq {A B} (p : io A) (f : A → io B) last :
  calls_only (@typeless) p → (∀ a, plays (f a) last) → plays (bind p f) last.
Proof.
  intros Hp Hf. eapply safe_seq; [by apply safe_typeless|..]; [|done|done].
  intros a s ->. apply Hf.
Qed.

Lemma plays_patch {B} c at_ req p msg last (f : result Upload → io B) :
  p ≠ UploadPhaseCompleted ∨ last = Some req →
  (∀ r, plays (f r) (answered r last)) →
  plays (bind (patchUploadByStatusWithRetry c at_ req p msg) f) last.
Proof.
  intros Hp Hf. eapply safe_seq; [by apply type_patch|..]; [|done|done].
  intros r s ->. apply Hf.
Qed.

Lemma typeless_DeleteLocalSnapshot id : calls_only (@typeless) (DeleteLocalSnapshot id).
Proof. unfold DeleteLocalSnapshot, deleteSnapshotFromRepo. calls_all. Qed.

Lemma typeless_copyUpload c req id : calls_only (@typeless) (copyUpload c req id).
Proof.
  unfold copyUpload, CopyToRepo, CopyToRepoWithBackupRepository, withReloadConfigLock,
    copyToRepo, RegisterOngoingUpload. calls_tac.
Qed.
Hint Resolve typeless_DeleteLocalSnapshot typeless_copyUpload : calls.

Ltac plays_step := match goal with
  | |- safe _ (bind (patchUploadByStatusWithRetry _ _ _ _ _) _) _ _ =>
      apply plays_patch; [by (left + right)|intros [?|?]; cbn [answered]]
  | |- safe _ (bind (bind _ _) _) _ _ => apply (proj1 (safe_bind_bind _ _ _ _ _ _))
  | |- safe _ (bind _ _) _ _ => apply plays_seq; [solve [calls_tac]|intros ?]
  | |- safe _ (match ?x with _ => _ end) _ _ => destruct x eqn:?
  | |- safe _ (let _ := _ in _) _ _ => cbv zeta
  | |- safe _ (Ret _) _ _ => exact I
  end.
Ltac plays_tac := repeat plays_step.

Lemma plays_uploadFailed c req id e : plays (uploadFailed c req id e) (Some req).
Proof. unfold uploadFailed, cleanupFailed. plays_tac. Qed.

Lemma plays_uploadCopied c req id : plays (uploadCopied c req id) (Some req).
Proof. unfold uploadCopied, UnregisterOngoingUpload. plays_tac. Qed.

Lemma plays_retryCleanup c req id : plays (retryCleanup c req id) (Some req).
Proof. unfold retryCleanup, cleanupFailed. plays_tac. Qed.

Lemma plays_doUpload c req : plays (doUpload c req) (Some req).
Proof.
  unfold doUpload. destruct (NewProtectedEntityIDFromString _) as [id|e]; [|plays_tac].
  case_match; [apply plays_retryCleanup|]. apply plays_seq; [calls_tac|].
  intros [[a|e]|e]; [apply plays_uploadCopied|apply plays_uploadFailed|exact I].
Qed.

Lemma plays_processUpload c req : plays (processUpload c req) None.
Proof.
  unfold processUpload. intros [u|e]; [|exact I]. cbn [bind answered type_protocol].
  repeat (case_match; [exact I|]). case_match; [|apply plays_doUpload].
  apply plays_patch; [by left|]. intros [u'|e]; cbn [answered]; [apply plays_doUpload|exact I].
Qed.

Lemma plays_trigger c req : plays (triggerUploadCancellation c req) None.
Proof. unfold triggerUploadCancellation, IsUploading, CancelUpload. plays_tac. Qed.

(** ** The system *)

(** Times, once recorded, stay. *)
Definition times_grow (w w' : world) : Prop :=
  is_Some (us_CompletionTimestamp (u_Status (w_record w))) →
  is_Some (us_CompletionTimestamp (u_Status (w_record w'))).

Definition thread_typed (w : world) (p : thread) : Prop :=
  ∃ last, plays p last ∧ ∀ u, last = Some u →
    is_Some (us_CompletionTimestamp (u_Status u)) →
    is_Some (us_CompletionTimestamp (u_Status (w_record w))).

Lemma typed_on_patch old new last w :
  keeps_types last old new → well_formed (w_record w) →
  (∀ u, last = Some u → is_Some (us_CompletionTimestamp (u_Status u)) →
     is_Some (us_CompletionTimestamp (u_Status (w_record w)))) →
  well_formed (w_record (w_on_patch old new w)) ∧ times_grow w (w_on_patch old new w).
Proof.
  intros (_ & Hco & Hc & Hn & Hr & Hb) (Hwn & Hwc & Hwr & Hwb) Hlast.
  assert (Hg : times_grow w (w_on_patch old new w)) by (intros Hw; by apply (merge_field_cases is_Some)).
  split; [|done]. split; [by apply (merge_field_cases is_Some)|]. split; [|split].
  - intros Hph. destruct (decide (us_Phase (u_Status new) = us_Phase (u_Status old))) as [He|He].
    + apply Hg, Hwc. rewrite <-Hph. cbn. unfold merge_field. by rewrite bool_decide_true.
    + cbn in Hph |- *. unfold merge_field in Hph |- *. rewrite bool_decide_false in Hph by congruence.
      destruct (Hco Hph) as [Hs Hl]; [congruence|]. case_bool_decide as Hsame; [|done].
      apply (Hlast old Hl). by rewrite Hsame.
  - by apply (merge_field_cases (λ z, - 2^31 ≤ z < 2^31)).
  - by apply (merge_field_cases (λ z, 0 ≤ z ≤ UPLOAD_MAX_BACKOFF)).
Qed.

Lemma effect_typeless w X (e : Cmd X) x w' :
  typeless e = true → effect w e x w' → w_record w' = w_record w.
Proof.
  destruct e; cbn; intros Ht He; try (by subst).
  - destruct k; try done; by subst.
  - destruct k; try done; by subst.
  - by destruct He as [-> _].
  - subst. unfold set_ongoing. by repeat case_match.
  - subst. unfold set_ongoing. by repeat case_match.
  - by destruct x; subst.
  - by destruct x as [[|]|]; subst.
  - by destruct x; subst.
Qed.

Lemma thread_typed_call w X (e : Cmd X) k x w' :
  well_formed (w_record w) → thread_typed w (Do e k) → effect w e x w' →
  well_formed (w_record w') ∧ thread_typed w' (k x) ∧ times_grow w w'.
Proof.
  intros Hw (last & Hs & Hk) He. specialize (Hs x).
  assert (Hstay : type_protocol last X e x = Next last → w_record w' = w_record w →
    well_formed (w_record w') ∧ thread_typed w' (k x) ∧ times_grow w w').
  { intros Hn Hr. rewrite Hn in Hs. split_and!; [by rewrite Hr| |by intros ?; rewrite Hr].
    exists last. split; [done|]. by rewrite Hr. }
  destruct (typeless e) eqn:Ht.
  { apply Hstay; [by apply typeless_next|by apply (effect_typeless w X e x)]. }
  destruct e; try done; destruct k0; try done; cbn in He, Hs.
  - destruct He as [-> Hr]. split; [done|]. split; [|by intros ?]. exists (answered x last). split; [done|].
    destruct x as [u|e]; cbn; [|done]. destruct Hr as [_ ->]. by intros u [= <-].
  - case_bool_decide as Hkeep; [|done].
    destruct (typed_on_patch old new last w Hkeep Hw Hk) as [Hw' Hg].
    destruct x as [u|e]; cbn [answered] in Hs.
    + destruct He as (_ & -> & ->). split; [done|]. split; [|done]. exists (Some (w_record (w_on_patch old new w))).
      split; [done|]. by intros u [= <-].
    + assert (Hw2 : well_formed (w_record w') ∧ times_grow w w').
      { destruct He as [-> |[_ ->]]; (split; [done|]); [by intros ?|done]. }
      destruct Hw2 as [Hw2 Hg2]. split; [done|]. split; [|done]. exists last. split; [done|].
      intros u Hu Hsome. by apply Hg2, (Hk u).
Qed.

#[export] Instance type_discipline : Discipline (λ w, well_formed (w_record w)) times_grow thread_typed.
Proof.
  split.
  - split; [by intros w ?|]. intros w1 w2 w3 H12 H23 H1. by apply H23, H12.
  - intros w w' p Hg (last & Hp & Hl). exists last. split; [done|]. intros u Hu Hs. by apply Hg, (Hl u).
  - intros w p [c req _ _|c req _ _]; exists None;
      (split; [apply plays_processUpload || apply plays_trigger|done]).
  - intros w _ -> Hw. split; [done|by intros ?].
  - intros w X e k x w'. apply thread_typed_call.
Qed.

(** C39.  From a well-formed Upload, whatever goroutines process and
    cancel it, whichever requests fail with or without an effect, and in
    whatever order their calls interleave: the server's record stays well-formed. It has the
    time of its next try, a completed record has the time of its completion,
    the count of the retries is a 32-bit integer and the back-off at most an hour; the
    informer's handler, given that record, finds the timestamps it dereferences. *)
Theorem upload_type_invariant u w ts :
  well_formed u → rtc sys_step (initially u, []) (w, ts) →
  well_formed (w_record w) ∧ ¬ missing_timestamp (w_record w).
Proof.
  intros Hu Hr. destruct (reachable_ok (ok := λ w, well_formed (w_record w)) (initially u) w ts Hu Hr) as [Hw _].
  split; [done|]. destruct Hw as (Hn & Hc & _).
  intros [(Hnone & _)|(Hnone & Hph)]; [by rewrite Hnone in Hn|]. specialize (Hc Hph).
  by rewrite Hnone in Hc.
Qed.

(** *** The records the snapshot manager creates *)

#[export] Instance well_formed_dec u : Decision (well_formed u).
Proof. unfold well_formed. apply _. Defined.

Definition created_typed : monitor Cmd unit := λ s X e,
  match e in Cmd X return X → verdict unit with
  | CreateObj _ k _ o =>
      match k return obj k → result (obj k) → verdict unit with
      | KUpload => λ o _,
          if bool_decide (well_formed o ∧ u_Phase o = UploadPhaseNew) then Next s else Violation
      | _ => λ _ _, Next s
      end o
  | _ => λ _, Next s
  end.

#[export] Instance created_typed_quiet : Quiet created_typed.
Proof. intros s X e x Hq. left. by destruct e. Qed.

(** The Uploads that the snapshot manager creates are new and well-formed. *)
Lemma UploadSnapshot_typed pe br ref :
  safe created_typed (UploadSnapshot pe br ref) (λ o _, ends o) tt.
Proof.
  assert (Hreads : ∀ A (p : io A), calls_only (@reads _) p → safe created_typed p (λ o _, ends o) tt).
  { intros A p Hp. eapply safe_mono; [apply (safe_calls_only (@reads _) created_typed p tt); [|done]|].
    - intros [] X e x He. destruct e; try done.
    - by intros []. }
  unfold UploadSnapshot. eapply safe_seq; [apply Hreads; auto with calls|..]; [|done|done].
  intros [cl|e] [] _; [|exact I]. cbn. intros [ns|]; cbn; [|exact I].
  eapply (safe_seq _ _ _ _ (λ o _, ends o)); [|intros [id|e] [] _; [|exact I]|done|done].
  { case_match; [|exact I]. cbn. intros [comps|e]; cbn; [|exact I]. by repeat case_match. }
  destruct (uploadCRNameForSnapshotPEID id) as [name|e]; [|exact I]. cbn. intros now1 now2.
  eapply (safe_seq _ _ _ _ (λ o _, ends o)); [|by intros [? [?|?]] [] _|done|done].
  apply (safe_PollImmediate _ _ (λ _ s, s = tt)); [done|]. intros [] s ->. cbn.
  rewrite bool_decide_true; [by intros [u|e]|]. unfold well_formed.
  case_bool_decide; cbn; split_and!; by try lia.
Qed.
End types.
