(* ===== verification/Paravirt.v ===== *)
(** * Guest clusters (pkg/paravirt)

    In a guest cluster a volume stands for a claim of the supervisor cluster: a
    snapshot of it is a Snapshot created in the supervisor cluster, and a
    restore is a CloneFromSnapshot there, followed by a volume and a claim in
    the guest that are bound to the restored claim. *)

From S2P Require Export SnapshotUtils SnapshotDecode.
Open Scope Z_scope.

Definition ParaVirtPETypePrefix : string := "paravirt".
Definition ParaVirtPETypeSep : string := "-".

Inductive ParaVirtEntityType :=
| ParaVirtEntityTypePersistentVolume
| ParaVirtEntityTypeVirtualMachine
| ParaVirtEntityTypePersistentService.

#[export] Instance ParaVirtEntityType_eq_dec : EqDecision ParaVirtEntityType.
Proof. solve_decision. Defined.

Definition entity_type_name (t : ParaVirtEntityType) : string :=
  match t with
  | ParaVirtEntityTypePersistentVolume => "pv"
  | ParaVirtEntityTypeVirtualMachine => "vm"
  | ParaVirtEntityTypePersistentService => "ps"
  end.

(** The first [n] bytes of a Go string, if it has as many. *)
Fixpoint slice_to (n : nat) (s : string) : option string :=
  match n, s with
  | O, _ => Some ""
  | S n, String a s => String a <$> slice_to n s
  | S _, EmptyString => None
  end.

(** [x.( string)] on a map entry. *)
Definition as_string (x : option iface) : option string :=
  match x with Some (IString s) => Some s | _ => None end.

(** What client-go answers along with an error. *)
Definition empty_PersistentVolume : PersistentVolume := {|
  pv_Meta := meta "" "" ∅; pv_CSI := None; pv_VsphereVolume := false; pv_ClaimRef := None;
  pv_AccessModes := []; pv_Capacity := ∅ |}.

Section Paravirt.
Context `{Deps}.

Record ParaVirtProtectedEntityTypeManager := {
  pvm_entityType : ParaVirtEntityType;
  pvm_gcKubeClientSet : client;
  pvm_gcBackupDriverClient : client;
  pvm_svcKubeClientSet : client;
  pvm_svcBackupDriverClient : client;
  pvm_svcNamespace : string;
  pvm_s3Config : S3Config;
}.

(** An entity without its data transports. *)
Record ParaVirtProtectedEntity := {
  pve_pvpetm : ParaVirtProtectedEntityTypeManager;
  pve_id : PEID;
}.

(** ** Entities *)

Section entity.
Context (this : ParaVirtProtectedEntity).

Definition getVolumeHandleFromPV : io (result string) :=
  let name := GetID (pve_id this) in
  let? pv := call (GetObj (pvm_gcKubeClientSet (pve_pvpetm this)) KPersistentVolume "" name)
    else e => Ret (Err (Wrap e ("Could not retrieve pv with name " +:+ name))) in
  match pv_CSI pv with
  | Some csi =>
      if bool_decide (csi_Driver csi ≠ VSphereCSIProvisioner)
      then Ret (Err (ErrorString ("Unexpected pv " +:+ name +:+ " retrieved")))
      else Ret (Ok (csi_VolumeHandle csi))
  | None => Ret (Err (ErrorString ("Unexpected pv " +:+ name +:+ " retrieved")))
  end.

(** The name of the information; the rest of it is the ID and the transports. *)
Definition GetInfo : io (result string) :=
  if bool_decide (pvm_entityType (pve_pvpetm this) = ParaVirtEntityTypePersistentVolume) then
    let? name := getVolumeHandleFromPV else e => Ret (Err (WithStack e)) in
    Ret (Ok name)
  else Ret (Ok "").

(** The name of the supervisor snapshot is stored into the caller's map. *)
Definition ParaVirtSnapshot (params_ : gmap string params)
    : io (gmap string params * result SnapID) :=
  let? name := GetInfo else e => Ret (params_, Err (WithStack e)) in
  let objectToSnapshot := {| ref_APIGroup := Some ""; ref_Kind := "PersistentVolumeClaim";
                             ref_Name := name |} in
  let ps := default ∅ (params_ !! PvcPEType) in
  let backupRepositoryName :=
    default "INVALID_BR_NAME" (as_string (ps !! SnapshotParamBackupRepository)) in
  match as_string (ps !! SnapshotParamBackupName) with
  | None => Panic "interface conversion: BackupName is not a string"
  | Some backupName =>
      let labels := {[SnapshotBackupLabel := backupName]} in
      let? snapshot := SnapshotRef (pvm_svcBackupDriverClient (pve_pvpetm this)) objectToSnapshot
          (pvm_svcNamespace (pve_pvpetm this)) backupRepositoryName labels
          [SnapshotPhaseSnapshotted; SnapshotPhaseSnapshotFailed] else e =>
        Ret (params_, Err e) in
      if bool_decide (s_Phase snapshot = SnapshotPhaseSnapshotFailed) then
        Ret (params_, Err (ErrorString ("ParaVirtProtectedEntity: Failed to create Snapshot for "
          +:+ name +:+ " State: SnapshotFailed")))
      else
        let params_ :=
          <[PvcPEType := <[SnapshotParamSvcSnapshotName := IString (s_Name snapshot)]> ps]> params_ in
        match NewProtectedEntityIDFromString (ss_SnapshotID (s_Status snapshot)) with
        | Err e => Ret (params_, Err e)
        | Ok peIdFromSnap => Ret (params_, Ok (GetSnapshotID peIdFromSnap))
        end
  end.

Definition ParaVirtListSnapshots : io (result (list SnapID)) := Ret (Ok []).

(** A DeleteSnapshot that ends in the phase [Failed] counts as deleted. *)
Definition ParaVirtDeleteSnapshot (snapshotToDelete : SnapID) (params_ : gmap string params)
    : io (result bool) :=
  let ps := default ∅ (params_ !! PvcPEType) in
  let backupRepositoryName :=
    default "INVALID_BR_NAME" (as_string (ps !! "BackupRepositoryName")) in
  let peID := NewProtectedEntityIDWithNamespaceAndSnapshot PvcPEType (GetID (pve_id this))
                (pvm_svcNamespace (pve_pvpetm this)) (SnapIDString snapshotToDelete) in
  let? _ := DeleteSnapshotRef (pvm_svcBackupDriverClient (pve_pvpetm this)) (PEIDString peID)
      (pvm_svcNamespace (pve_pvpetm this)) backupRepositoryName
      [DeleteSnapshotPhaseCompleted; DeleteSnapshotPhaseFailed] else e => Ret (Err e) in
  Ret (Ok true).

Definition ParaVirtGetComponents : io (result (list ParaVirtProtectedEntity)) := Ret (Ok []).

(** The information of the entity alone. *)
Definition GetCombinedInfo : io (result (list string)) :=
  let? paravirtIPE := GetInfo else e => Ret (Err e) in
  Ret (Ok [paravirtIPE]).

Definition ParaVirtGetID : PEID := pve_id this.

(** What a guest's entity does not offer. *)
Definition GetInfoForSnapshot (snapshotID : SnapID) : io (result string) := Panic "implement me".
Definition ParaVirtGetDataReader : io (result reader) := Panic "implement me".
Definition ParaVirtGetMetadataReader : io (result reader) := Panic "implement me".
Definition ParaVirtOverwrite (sourcePE : PE) (params_ : gmap string params) (overwriteComponents : bool)
    : io (option error) := Panic "implement me".
End entity.

(** ** The type manager *)

(** The recursion of this package's decodeSnapshotID, which answers the encoding
    of the innermost entity. *)
Fixpoint encodedInnermostFrom (fuel : nat) (snapshotID : SnapID) : option (result string) :=
  match fuel with
  | O => None
  | S fuel =>
      let snapshotID64Str := SnapIDString snapshotID in
      match DecodeString snapshotID64Str with
      | None => Some (Err (Wrap CorruptInputError
          ("Could not decode snapshot ID encoded string " +:+ snapshotID64Str)))
      | Some bytes =>
          match NewProtectedEntityIDFromString bytes with
          | Err e => Some (Err (Wrap e
              ("Could not translate decoded snapshotID " +:+ bytes +:+ " into pe-id")))
          | Ok decodedPEID =>
              if HasSnapshot decodedPEID && negb (bool_decide (GetPeType decodedPEID = IvdPEType))
              then encodedInnermostFrom fuel (GetSnapshotID decodedPEID)
              else Some (Ok (EncodeToString (PEIDString decodedPEID)))
          end
      end
  end.

Definition encodedInnermost (snapshotID : SnapID) : option (result string) :=
  encodedInnermostFrom (decode_fuel snapshotID) snapshotID.

Definition convertSnapshotID (sourceSnapshotID : PEID) (svcPVCNamespace svcPVCName : string)
    : option (result string) :=
  match encodedInnermost (GetSnapshotID sourceSnapshotID) with
  | Some (Ok snapIDDecoded) =>
      Some (Ok ("pvc:" +:+ svcPVCNamespace +:+ "/" +:+ svcPVCName +:+ ":" +:+ snapIDDecoded))
  | Some (Err e) => Some (Err (Wrap e "failed to retrieve decoded snapshot id"))
  | None => None
  end.

Section manager.
Context (this : ParaVirtProtectedEntityTypeManager).

Definition GetTypeName : string :=
  ParaVirtPETypePrefix +:+ ParaVirtPETypeSep +:+ entity_type_name (pvm_entityType this).

Definition getDataTransports (id : PEID) : option error :=
  match NewS3MDTransportForPEID id (pvm_s3Config this) with
  | Some e => Some (Wrap e "Could not create S3 md transport")
  | None =>
      match NewS3CombinedTransportForPEID id (pvm_s3Config this) with
      | Some e => Some (Wrap e "Could not create S3 combined transport")
      | None => None
      end
  end.

Definition newParaVirtProtectedEntity (id : PEID) : result ParaVirtProtectedEntity :=
  match getDataTransports id with
  | Some e => Err e
  | None => Ok {| pve_pvpetm := this; pve_id := id |}
  end.

Definition ParaVirtGetProtectedEntity (id : PEID) : io (result ParaVirtProtectedEntity) :=
  let? retPE := Ret (newParaVirtProtectedEntity id) else e => Ret (Err e) in
  Ret (Ok retPE).

(** What a guest's type manager does not offer. *)
Definition ParaVirtCopy (pe : PE) (params_ : gmap string params) (options : CopyCreateOptions)
    : io (result PE) := Panic "implement me".
Definition ParaVirtCopyFromInfo (info : string) (params_ : gmap string params) (options : CopyCreateOptions)
    : io (result PE) := Panic "implement me".

Definition GetProtectedEntities : io (result (list PEID)) :=
  if bool_decide (pvm_entityType this ≠ ParaVirtEntityTypePersistentVolume) then
    Ret (Err (ErrorString ("The PE type, " +:+ entity_type_name (pvm_entityType this)
      +:+ ", is not supported")))
  else
    let? pvList := call (ListObj (pvm_gcKubeClientSet this) KPersistentVolume "") else e =>
      Ret (Err (Wrap e "Could not list PVs")) in
    Ret (Ok (flat_map (λ pv,
      match pv_CSI pv with
      | Some csi => if bool_decide (csi_Driver csi ≠ VSphereCSIProvisioner) then []
                    else [NewProtectedEntityID GetTypeName (om_Name (pv_Meta pv))]
      | None => []
      end) pvList)).

(** The claim in the supervisor cluster: a name of its own, and no labels. *)
Definition supervisorClaim (pvc : PersistentVolumeClaim) (prefix pvcUUID : string)
    : PersistentVolumeClaim := {|
  pvc_Meta := (pvc_Meta pvc) <| om_Labels := ∅ |>
                <| om_Name := prefix +:+ "-" +:+ pvcUUID |>
                <| om_Namespace := pvm_svcNamespace this |>;
  pvc_Kind := pvc_Kind pvc; pvc_StorageClassName := pvc_StorageClassName pvc;
  pvc_VolumeName := pvc_VolumeName pvc; pvc_AccessModes := pvc_AccessModes pvc;
  pvc_Resources := pvc_Resources pvc; pvc_VolumeMode := pvc_VolumeMode pvc;
  pvc_Phase := pvc_Phase pvc; pvc_Capacity := pvc_Capacity pvc |}.

(** The supervisor's claim with the guest's namespace, name and labels;
    [Ok None] is the nil claim with a nil error that a claim without a storage
    class gives: [errors.Wrapf] of a nil error is nil. *)
Definition getSuperPVCandGuestPVCName (metadata : string)
    : io (result (option (PersistentVolumeClaim * string * string * gmap string string))) :=
  match UnmarshalPVC metadata with
  | Err e => Ret (Err (Wrap e "failed to unmarshal metadata to get PVC"))
  | Ok pvc =>
      let? pvcUUID := call NewUUID else e =>
        Ret (Err (Wrap e ("could not generate PVC name in the Supervisor Cluster for Guest Cluster PVC "
          +:+ pvc_Name pvc +:+ "/" +:+ pvc_Namespace pvc))) in
      match slice_to 4 (pvc_Name pvc) with
      | None => Panic "slice bounds out of range"
      | Some prefix =>
          match pvc_StorageClassName pvc with
          | Some _ => Ret (Ok (Some (supervisorClaim pvc prefix pvcUUID, pvc_Namespace pvc,
                               pvc_Name pvc, om_Labels (pvc_Meta pvc))))
          | None => Ret (Ok None)
          end
      end
  end.

(** An error of the creation is dropped; the volume is then the empty one that
    client-go answers with it. *)
Definition createGuestPV (gcPVCNamespace gcPVCName : string) (svcPVC : PersistentVolumeClaim)
    (CSIDriverName : string) : io (result PersistentVolume) :=
  let? pvUUID := call NewUUID else e =>
    Ret (Err (Wrap e ("could not generate PV name in the Guest Cluster for Supervisor Cluster PVC "
      +:+ pvc_Namespace svcPVC +:+ "/" +:+ pvc_Name svcPVC))) in
  let gcPV := {|
    pv_Meta := meta "" ("pvc-" +:+ pvUUID) ∅;
    pv_CSI := Some {| csi_Driver := CSIDriverName; csi_VolumeHandle := pvc_Name svcPVC |};
    pv_VsphereVolume := false;
    pv_ClaimRef := Some (gcPVCNamespace, gcPVCName);
    pv_AccessModes := pvc_AccessModes svcPVC;
    pv_Capacity := pvc_Capacity svcPVC |} in
  let! r := call (CreateObj (pvm_gcKubeClientSet this) KPersistentVolume "" gcPV) in
  Ret (Ok (match r with Ok gcPV => gcPV | Err _ => empty_PersistentVolume end)).

(** The result of the creation is shadowed and dropped. *)
Definition createGuestPVC (gcPVCNamespace gcPVCName : string) (gcPVCLabels : gmap string string)
    (gcPVName : string) (svcPVC : PersistentVolumeClaim) : io (result PersistentVolumeClaim) :=
  let gcPVC := {|
    pvc_Meta := meta gcPVCNamespace gcPVCName gcPVCLabels;
    pvc_Kind := ""; pvc_StorageClassName := None; pvc_VolumeName := gcPVName;
    pvc_AccessModes := pvc_AccessModes svcPVC; pvc_Resources := pvc_Resources svcPVC;
    pvc_VolumeMode := pvc_VolumeMode svcPVC; pvc_Phase := ""; pvc_Capacity := ∅ |} in
  call (CreateObj (pvm_gcKubeClientSet this) KPersistentVolumeClaim gcPVCNamespace gcPVC) ;;;
  check! call (WaitForPersistentVolumeClaimPhase (pvm_gcKubeClientSet this) "Bound"
      gcPVCNamespace gcPVCName) else e =>
    Ret (Err (ErrorString ("pvc " +:+ gcPVCNamespace +:+ "/" +:+ gcPVCName
      +:+ " did not become Bound: " +:+ Error e))) in
  Ret (Ok gcPVC).

Definition updateGuestCloneFromSnapshotStatusWithSupervisor
    (cloneFromSnapshotNamespace cloneFromSnapshotName : string) (svcClone : CloneFromSnapshot)
    : io (option error) :=
  let? clone := call (GetObj (pvm_gcBackupDriverClient this) KCloneFromSnapshot
      cloneFromSnapshotNamespace cloneFromSnapshotName) else e =>
    Ret (Some (Wrap e "failed to get cloneFromSnapshot record in Guest Cluster")) in
  let clone := clone <| c_Status; cs_Phase := cs_Phase (c_Status svcClone) |>
                     <| c_Status; cs_Message := cs_Message (c_Status svcClone) |>
                     <| c_Status; cs_ResourceHandle := cs_ResourceHandle (c_Status svcClone) |> in
  let? _ := call (UpdateStatusObj (pvm_gcBackupDriverClient this) KCloneFromSnapshot
      cloneFromSnapshotNamespace clone) else e => Ret (Some e) in
  Ret None.

(** The repository of the supervisor cluster that stands for the guest's. *)
Definition supervisorRepository (backupRepositoryName : string) : io (result string) :=
  if bool_decide (backupRepositoryName ≠ "")
     && bool_decide (backupRepositoryName ≠ WithoutBackupRepository) then
    let? backupRepositoryCR := GetBackupRepositoryFromBackupRepositoryName backupRepositoryName
      else e => Ret (Err (Wrap e "failed to retrieve backupRepository")) in
    let svc := br_SvcBackupRepositoryName backupRepositoryCR in
    Ret (Ok (if bool_decide (svc ≠ "") && bool_decide (svc ≠ WithoutBackupRepository)
             then svc else backupRepositoryName))
  else Ret (Ok backupRepositoryName).

(** The guest's side of a clone that the supervisor cluster has completed. *)
Definition bindGuestVolume (svcPVCName gcPVCNamespace gcPVCName : string)
    (gcPVCLabels : gmap string string) (cloneFromSnapshotNamespace cloneFromSnapshotName : string)
    (svcClone : CloneFromSnapshot) : io (result ParaVirtProtectedEntity) :=
  let? svcPVC := call (GetObj (pvm_svcKubeClientSet this) KPersistentVolumeClaim
      (pvm_svcNamespace this) svcPVCName) else e =>
    Ret (Err (Wrap e "Failed to get PVC from Supervisor Cluster")) in
  let? gcPV := createGuestPV gcPVCNamespace gcPVCName svcPVC VSphereCSIProvisioner else e =>
    Ret (Err e) in
  let? gcPVC := createGuestPVC gcPVCNamespace gcPVCName gcPVCLabels (om_Name (pv_Meta gcPV)) svcPVC
    else e => Ret (Err e) in
  check! updateGuestCloneFromSnapshotStatusWithSupervisor cloneFromSnapshotNamespace
      cloneFromSnapshotName svcClone else e => Ret (Err e) in
  Ret (newParaVirtProtectedEntity
    (NewProtectedEntityIDFromPVCName (pvc_Namespace gcPVC) (pvc_Name gcPVC))).

Definition ParaVirtCreateFromMetadata (metadata : string) (sourceSnapshotID : PEID)
    (cloneFromSnapshotNamespace cloneFromSnapshotName backupRepositoryName : string)
    : io (result ParaVirtProtectedEntity) :=
  let? backupRepo := supervisorRepository backupRepositoryName else e => Ret (Err e) in
  let? claim := getSuperPVCandGuestPVCName metadata else e => Ret (Err e) in
  match claim with
  | None => Panic "nil pointer: svcPVC"
  | Some (svcPVC, gcPVCNamespace, gcPVCName, gcPVCLabels) =>
      match MarshalPVC svcPVC with
      | Err e => Ret (Err (Wrap e ("Could not marshal SVC PVC data for " +:+ pvc_Name svcPVC
          +:+ "/" +:+ pvc_Namespace svcPVC)))
      | Ok svcPVCData =>
          match convertSnapshotID sourceSnapshotID (pvc_Namespace svcPVC) (pvc_Name svcPVC) with
          | None => Hang "decodeSnapshotID"
          | Some (Err e) => Ret (Err e)
          | Some (Ok newSnapshotID) =>
              let? svcClone := CloneFromSnapshopRef (pvm_svcBackupDriverClient this) newSnapshotID
                  svcPVCData (Some "") "PersistentVolumeClaim" (pvm_svcNamespace this) backupRepo
                  [ClonePhaseCompleted; ClonePhaseFailed; ClonePhaseCanceled] else e =>
                Ret (Err e) in
              if bool_decide (c_Phase svcClone = ClonePhaseFailed) then
                Ret (Err (ErrorString ("CloneFromSnapshot failed in the Supervisor Cluster: "
                  +:+ c_Namespace svcClone +:+ "/" +:+ c_Name svcClone)))
              else if bool_decide (c_Phase svcClone = ClonePhaseCanceled) then
                Ret (Err (ErrorString ("CloneFromSnapshot is canceled: " +:+ c_Namespace svcClone
                  +:+ "/" +:+ c_Name svcClone +:+ " in the Supervisor Cluster")))
              else
                bindGuestVolume (pvc_Name svcPVC) gcPVCNamespace gcPVCName gcPVCLabels
                  cloneFromSnapshotNamespace cloneFromSnapshotName svcClone
          end
      end
  end.
End manager.

(** ** Snapshot IDs *)

Lemma encodedInnermost_agree n s p :
  decodePeIdFrom n s = Some (Ok p) →
  encodedInnermostFrom n s = Some (Ok (EncodeToString (PEIDString p))).
Proof.
  revert s. induction n as [|n IH]; intros s; cbn; [done|].
  destruct (DecodeString _) as [b|]; [|done].
  destruct (NewProtectedEntityIDFromString b) as [q|e]; [|done].
  destruct (_ && _); [apply IH|congruence].
Qed.

(** The snapshot of a guest volume is handed to the supervisor cluster under
    an ID from which the supervisor decodes the same innermost entity:
    when the guest's ID wraps the entity [p] at any depth, the ID that is
    constructed wraps [p] directly. *)
Theorem convertSnapshotID_decodes (Hshort : SnapshotIDShorter) src p ns name q :
  encodes (GetSnapshotID src) p →
  NewProtectedEntityIDFromString
    ("pvc:" +:+ ns +:+ "/" +:+ name +:+ ":" +:+ EncodeToString (PEIDString p)) = Ok q →
  SnapIDString (GetSnapshotID q) = EncodeToString (PEIDString p) →
  ∃ id, convertSnapshotID src ns name = Some (Ok id) ∧
    NewProtectedEntityIDFromString id = Ok q ∧
    decodePeIdFromSnapshotID (GetSnapshotID q) = Some (Ok p).
Proof.
  intros Hs Hq Hsnap. destruct (encodes_innermost _ _ Hs) as [Hp Hbase]. unfold convertSnapshotID, encodedInnermost.
  pose proof (encodes_decodePeId _ _ Hs) as Hd. unfold decodePeIdFromSnapshotID in Hd.
  rewrite (encodedInnermost_agree _ _ _ Hd). eexists. split; [done|]. split; [exact Hq|].
  apply encodes_decodePeId, encodes_base; [by split|done].
Qed.
End Paravirt.
