(* ===== verification/ParavirtProtocol.v ===== *)
(** * Restores in a guest cluster

    The stages of [ParaVirtCreateFromMetadata]: the clone in the supervisor
    cluster, and then the guest's volume, claim and record. *)

From S2P Require Export Paravirt.
Open Scope Z_scope.

Section restore.
Context `{Deps} (this : ParaVirtProtectedEntityTypeManager).
Context (metadata : string) (src : PEID) (cloneNs cloneName : string).

(** Where a restore is.  [u] is the supervisor's clone as the last update of
    its status answered it, [claim] the name of the supervisor's claim, [v] the
    name of the guest's volume. *)
Inductive stage :=
| Preparing (uuids : list string)
| Created (claim : string) (a : CloneFromSnapshot)
| Watching (claim : string) (w : CloneFromSnapshot)
    (seen : option (list (watch_event CloneFromSnapshot) * option error))
| Cloned (claim : string) (u : CloneFromSnapshot)
| ClaimRead (u : CloneFromSnapshot) (p : PersistentVolumeClaim)
| VolumeMade (u : CloneFromSnapshot) (v : string)
| ClaimMade (u : CloneFromSnapshot) (v : string)
| ClaimBound (u : CloneFromSnapshot) (v : string)
| GuestRead (u g : CloneFromSnapshot) (v : string)
| Reported (u : CloneFromSnapshot) (v : string)
| Over.

(** The guest's claim, and the supervisor's. *)
Definition guest_claim : option PersistentVolumeClaim :=
  match UnmarshalPVC metadata with Ok p => Some p | Err _ => None end.

Definition guest_name : option (string * string) :=
  (λ p, (pvc_Namespace p, pvc_Name p)) <$> guest_claim.

Definition svc_claim (uuid : string) : option PersistentVolumeClaim :=
  p ← guest_claim; prefix ← slice_to 4 (pvc_Name p); Some (supervisorClaim this p prefix uuid).

Definition answers {A} (r : result A) (a : A) `{EqDecision A} : bool :=
  match r with Ok a' => bool_decide (a' = a) | Err _ => false end.

(** The clone asks for the snapshot under the converted ID and carries the
    supervisor's claim. *)
Definition asks_clone (svc : PersistentVolumeClaim) (o : CloneFromSnapshot) : bool :=
  answers (MarshalPVC svc) (cs_Metadata (c_Spec o)) &&
  match convertSnapshotID src (pvc_Namespace svc) (pvc_Name svc) with
  | Some r => answers r (cs_SnapshotID (c_Spec o))
  | None => false
  end.

Definition next_ok {A} (r : result A) (f : A → stage) : verdict stage :=
  Next (match r with Ok a => f a | Err _ => Over end).

Definition guard (b : bool) (v : verdict stage) : verdict stage := if b then v else Violation.

Definition on_create (s : stage) (c : client) (k : kind) (ns : string)
    : obj k → result (obj k) → verdict stage :=
  match k return obj k → result (obj k) → verdict stage with
  | KCloneFromSnapshot => λ o r,
      match s with
      | Preparing (uuid :: _) =>
          match svc_claim uuid with
          | Some svc =>
              guard (bool_decide (c = pvm_svcBackupDriverClient this ∧ ns = pvm_svcNamespace this)
                     && asks_clone svc o) (next_ok r (Created (pvc_Name svc)))
          | None => Violation
          end
      | _ => Violation
      end
  | KPersistentVolume => λ o r,
      match s with
      | ClaimRead u p =>
          guard (bool_decide (c = pvm_gcKubeClientSet this ∧
              csi_VolumeHandle <$> pv_CSI o = Some (pvc_Name p) ∧ pv_ClaimRef o = guest_name))
            (Next (VolumeMade u (match r with Ok v => om_Name (pv_Meta v) | Err _ => "" end)))
      | _ => Violation
      end
  | KPersistentVolumeClaim => λ o _,
      match s with
      | VolumeMade u v =>
          guard (bool_decide (c = pvm_gcKubeClientSet this ∧ pvc_VolumeName o = v ∧
              Some (pvc_Namespace o, pvc_Name o) = guest_name)) (Next (ClaimMade u v))
      | _ => Violation
      end
  | _ => λ _ _, Violation
  end.

Definition on_update_status (s : stage) (c : client) (k : kind)
    : obj k → result (obj k) → verdict stage :=
  match k return obj k → result (obj k) → verdict stage with
  | KCloneFromSnapshot => λ o r,
      match s with
      | Created claim a =>
          guard (bool_decide (c = pvm_svcBackupDriverClient this ∧ c_Phase o = ClonePhaseNew))
            (next_ok r (λ w, Watching claim w None))
      | Watching claim w (Some _) =>
          guard (bool_decide (c = pvm_svcBackupDriverClient this ∧ c_Name o = c_Name w ∧
              is_Some (cs_CompletionTimestamp (c_Status o)))) (next_ok r (Cloned claim))
      | GuestRead u g v =>
          guard (bool_decide (c = pvm_gcBackupDriverClient this ∧ c_Meta o = c_Meta g ∧
              c_Phase o = c_Phase u ∧
              cs_ResourceHandle (c_Status o) = cs_ResourceHandle (c_Status u) ∧
              cs_CompletionTimestamp (c_Status o) = cs_CompletionTimestamp (c_Status g)))
            (next_ok r (λ _, Reported u v))
      | _ => Violation
      end
  | _ => λ _ _, Violation
  end.

Definition on_get (s : stage) (c : client) (k : kind) (ns name : string)
    : result (obj k) → verdict stage :=
  match k return result (obj k) → verdict stage with
  | KPersistentVolumeClaim => λ r,
      match s with
      | Cloned claim u =>
          guard (bool_decide (c = pvm_svcKubeClientSet this ∧ ns = pvm_svcNamespace this ∧
              name = claim ∧ c_Phase u ≠ ClonePhaseFailed ∧ c_Phase u ≠ ClonePhaseCanceled))
            (next_ok r (ClaimRead u))
      | _ => Violation
      end
  | KCloneFromSnapshot => λ r,
      match s with
      | ClaimBound u v =>
          guard (bool_decide (c = pvm_gcBackupDriverClient this ∧ ns = cloneNs ∧ name = cloneName))
            (next_ok r (λ g, GuestRead u g v))
      | _ => Violation
      end
  | KBackupRepository => λ _, match s with Preparing _ => Next s | _ => Violation end
  | _ => λ _, Violation
  end.

Definition restore_protocol : monitor Cmd stage := λ s X e,
  match e in Cmd X return X → verdict stage with
  | LoadClientConfig | NewForConfig _ => λ _, Next s
  | Now => λ _, Next s
  | NewUUID => λ r,
      match s, r with
      | Preparing l, Ok u => Next (Preparing (l ++ [u]))
      | Preparing _, Err _ | ClaimRead _ _, _ => Next s
      | _, _ => Violation
      end
  | CreateObj c k ns o => on_create s c k ns o
  | UpdateStatusObj c k _ o => on_update_status s c k o
  | GetObj c k ns name => on_get s c k ns name
  | Watch c k _ =>
      match k return list (watch_event (obj k)) * option error → verdict stage with
      | KCloneFromSnapshot => λ seen,
          match s with
          | Watching claim w None =>
              guard (bool_decide (c = pvm_svcBackupDriverClient this))
                (Next (Watching claim w (Some seen)))
          | _ => Violation
          end
      | _ => λ _, Violation
      end
  | WaitForPersistentVolumeClaimPhase c phase ns name => λ r,
      match s with
      | ClaimMade u v =>
          guard (bool_decide (c = pvm_gcKubeClientSet this ∧ phase = "Bound" ∧
              Some (ns, name) = guest_name))
            (Next (match r with None => ClaimBound u v | Some _ => Over end))
      | _ => Violation
      end
  | _ => λ _, Violation
  end.

Definition restored (o : outcome (result ParaVirtProtectedEntity)) (s : stage) : Prop :=
  match o with
  | Returned (Ok pe) => ∃ u v ns name, s = Reported u v ∧ guest_name = Some (ns, name) ∧
      pve_pvpetm pe = this ∧ pve_id pe = NewProtectedEntityIDFromPVCName ns name
  | Returned (Err _) | Panicked _ => True
  | Hung _ =>
      (∃ claim w events, s = Watching claim w (Some (events, None)) ∧
         ∀ ev, ev ∈ events → ¬ deletes (λ c, c_Name c) (c_Name w) ev) ∨
      encodedInnermost (GetSnapshotID src) = None
  end.

Ltac accepted := cbn; unfold guard; rewrite ?bool_decide_true by (split_and!; first [done|congruence|by eauto]); cbn.

Lemma restore_bind claim gcns gcname labels u :
  guest_name = Some (gcns, gcname) →
  c_Phase u ≠ ClonePhaseFailed → c_Phase u ≠ ClonePhaseCanceled →
  safe restore_protocol (bindGuestVolume this claim gcns gcname labels cloneNs cloneName u)
    restored (Cloned claim u).
Proof.
  intros Hg Hf Hc. unfold bindGuestVolume. cbn. intros r. accepted.
  destruct r as [p|e]; cbn; [|done]. intros [uuid|e]; cbn; [|done].
  intros r. accepted. intros r'. unfold guard.
  rewrite bool_decide_true by (split_and!; [done|by destruct r|done]).
  intros [e|]; accepted; [done|]. intros [g|e]; accepted; [|done].
  intros [g'|e]; accepted; [|done].
  destruct (newParaVirtProtectedEntity _ _) as [pe|e] eqn:Hpe; [|done].
  unfold newParaVirtProtectedEntity in Hpe. destruct (getDataTransports _ _); [done|].
  injection Hpe as <-. cbn. eauto 10.
Qed.

(** The clone in the supervisor cluster, up to its last status. *)
Lemma restore_clone svc data id repo uuid :
  svc_claim uuid = Some svc → MarshalPVC svc = Ok data →
  convertSnapshotID src (pvc_Namespace svc) (pvc_Name svc) = Some (Ok id) →
  safe restore_protocol (CloneFromSnapshopRef (pvm_svcBackupDriverClient this) id data (Some "")
      "PersistentVolumeClaim" (pvm_svcNamespace this) repo
      [ClonePhaseCompleted; ClonePhaseFailed; ClonePhaseCanceled])
    (λ o s, match o with
      | Returned (Ok u) => s = Cloned (pvc_Name svc) u
      | Returned (Err _) | Panicked _ => True
      | Hung _ => ∃ w events, s = Watching (pvc_Name svc) w (Some (events, None)) ∧
          ∀ ev, ev ∈ events → ¬ deletes (λ c, c_Name c) (c_Name w) ev
      end) (Preparing [uuid]).
Proof.
  intros Hsvc Hdata Hid. unfold CloneFromSnapshopRef. cbn -[WaitForClonePhases].
  intros [uuid'|e]; cbn -[WaitForClonePhases]; [|done].
  rewrite Hsvc. unfold asks_clone. cbn -[WaitForClonePhases]. rewrite Hdata, Hid. cbn -[WaitForClonePhases].
  rewrite !bool_decide_true by done. intros [a|e]; cbn -[WaitForClonePhases]; [|done].
  unfold guard. rewrite bool_decide_true by done.
  intros [w|e]; cbn; [|done]. rewrite bool_decide_true by done. intros [events done]. cbn.
  destruct (firstResult_spec (λ c, c_Name c) (λ c, c_Phase c) (c_Name w)
    [ClonePhaseCompleted; ClonePhaseFailed; ClonePhaseCanceled]
    "CloneFromSnapshot deleted" events done) as (o & Ho & ->).
  destruct o as [[a'|e]|w'|w']; cbn; [|done..|].
  - destruct Ho as (before & ev & after & _ & (_ & Hn & _) & _).
    intros now. rewrite bool_decide_true by (split_and!; try done; by cbn).
    by intros [u|e].
  - destruct Ho as [-> Hev]. exists w, events. split; [done|]. intros ev Hin. by apply Hev.
Qed.

Lemma restore_claim :
  safe restore_protocol (getSuperPVCandGuestPVCName this metadata) (λ o s, match o with
    | Returned (Ok (Some (svc, ns, name, _))) =>
        ∃ uuid, s = Preparing [uuid] ∧ svc_claim uuid = Some svc ∧ guest_name = Some (ns, name)
    | Hung _ => False
    | _ => True
    end) (Preparing []).
Proof.
  unfold getSuperPVCandGuestPVCName. destruct (UnmarshalPVC metadata) as [pvc|e] eqn:Hu; [|done].
  assert (Hg : guest_claim = Some pvc) by (unfold guest_claim; by rewrite Hu).
  cbn -[slice_to pvc_Name pvc_Namespace]. intros [uuid|e]; [|done].
  destruct (slice_to 4 (pvc_Name pvc)) as [prefix|] eqn:Hp; [|exact I].
  destruct (pvc_StorageClassName pvc); [|exact I]. exists uuid. split; [done|].
  unfold svc_claim, guest_name. rewrite Hg. cbn -[slice_to pvc_Name]. by rewrite Hp.
Qed.

(** C34.  A restore in a guest cluster goes through its stages in order and skips
    none: one clone is created in the supervisor cluster, for the snapshot under
    its converted ID and a claim of the supervisor's; only after the
    supervisor answered a last status that is neither failed nor
    cancelled is that very claim read there, a volume of the guest created on
    it for the guest's claim, the guest's claim created on that volume and
    waited for, and at last the guest's record given the phase and the
    resource of the supervisor's, without a completion time.  A restore that
    succeeds has gone through all of them and answers the entity of the guest's
    claim.  When the volume cannot be created, the claim is created all the same,
    with no volume name. *)
Theorem ParaVirtCreateFromMetadata_protocol br :
  safe restore_protocol
    (ParaVirtCreateFromMetadata this metadata src cloneNs cloneName br) restored (Preparing []).
Proof.
  unfold ParaVirtCreateFromMetadata.
  eapply (safe_seq _ _ _ _ (λ o s, match o with Hung _ => False | _ => s = Preparing [] end)).
  { unfold supervisorRepository, GetBackupRepositoryFromBackupRepositoryName, GetKubeClientConfig.
    destruct (_ && _); [|done]. cbn. intros [cfg|e]; cbn; [|done]. intros [cl|e]; cbn; [|done].
    by intros [b|e]. }
  2,3: by intros w s.
  intros [repo|e] s ->; [|done].
  eapply safe_seq; [apply restore_claim|..]; [|done..].
  intros [[[[[svc ns] name] labels]|]|e] s; [|done..]. intros (uuid & -> & Hsvc & Hg).
  destruct (MarshalPVC svc) as [data|e] eqn:Hm; [|exact I].
  destruct (convertSnapshotID src _ _) as [[id|e]|] eqn:Hc; [|exact I|].
  - eapply safe_seq; [by apply (restore_clone svc data id repo uuid)|..].
    + intros [u|e] s; [intros ->|done]. case_bool_decide; [exact I|].
      case_bool_decide; [exact I|]. by apply restore_bind.
    + done.
    + intros w s (w' & events & -> & Hev). left. eauto.
  - right. unfold convertSnapshotID in Hc. by destruct (encodedInnermost _) as [[]|].
Qed.
End restore.
