(* ===== verification/Instance.v ===== *)
(** * A concrete environment

    An instance of the third-party types and functions on which witnesses are
    evaluated: IDs written as [type:id] or [type:id:snapshot]. *)

From S2P Require Export UploadProtocol UploadRetry UploadQueue SnapshotDecode SnapshotProtocol.
From S2P Require Export BackupDriverProtocol PatchServer ParavirtProtocol UtilsSpec.
Open Scope Z_scope.

Record peid := PeId { p_type : string; p_id : string; p_snap : option string }.

#[export] Instance peid_eq_dec : EqDecision peid.
Proof. solve_decision. Defined.

Definition peid_string (p : peid) : string :=
  match p_snap p with
  | Some s => p_type p +:+ ":" +:+ p_id p +:+ ":" +:+ s
  | None => p_type p +:+ ":" +:+ p_id p
  end.

Definition parse_peid (s : string) : result peid :=
  match Split s ":" with
  | [t; i] => Ok (PeId t i None)
  | [t; i; n] => Ok (PeId t i (Some n))
  | _ => Err (ErrorString "not a protected entity ID")
  end.

Inductive petm := TmIvd | TmPvc | TmParaVirt | TmS3 | TmDataManager (base : petm).

Definition split_key (key : string) : result (string * string) :=
  match Split key "/" with
  | [name] => Ok ("", name)
  | [ns; name] => Ok (ns, name)
  | _ => Err (ErrorString "unexpected key format")
  end.

Definition meta_key (m : ObjectMeta) : result string :=
  Ok (if bool_decide (om_Namespace m = "") then om_Name m
      else om_Namespace m +:+ "/" +:+ om_Name m).

(** [v1.2.3] or [1.2.3] *)
Definition parse_version (s : string) : option (Z * Z * Z) :=
  let s := match s with String "v" r => r | _ => s end in
  match Split s "." with
  | [a; b; c] =>
      match Atoi a, Atoi b, Atoi c with
      | Some a, Some b, Some c => Some (a, b, c)
      | _, _, _ => None
      end
  | _ => None
  end.

Definition compare_version (v w : Z * Z * Z) : Z :=
  let '(a, b, c) := v in let '(a', b', c') := w in
  if a =? a' then if b =? b' then Z.sgn (c - c') else Z.sgn (b - b') else Z.sgn (a - a').

(** A claim whose encoding is its name. *)
Definition a_claim (name : string) : PersistentVolumeClaim := {|
  pvc_Meta := meta "ns" name ∅; pvc_Kind := "PersistentVolumeClaim";
  pvc_StorageClassName := Some "sc"; pvc_VolumeName := "pv-1"; pvc_AccessModes := ["ReadWriteOnce"];
  pvc_Resources := ∅; pvc_VolumeMode := None; pvc_Phase := "Bound"; pvc_Capacity := ∅ |}.

(** A Snapshot whose encoding is its snapshot ID. *)
Definition saved_snapshot (id : string) : Snapshot :=
  (Snapshot.ForSnapshot "ns" "snap" ∅) <| s_Status; ss_SnapshotID := id |>.

Inductive item :=
| ItemPVC (p : PersistentVolumeClaim)
| ItemPod (p : Pod)
| ItemPV (p : PersistentVolume)
| ItemOther (apiVersion kind : string).

(** Over any type of entities that have an ID. *)
Definition concrete_deps (E : Type) (E_GetID : E → peid) : Deps := {|
  PEID := peid;
  PEID_zero := PeId "" "" None;
  SnapID := string;
  PE := E;
  PETM := petm;
  S3PETM := unit;
  PETM_of_S3 _ := TmS3;
  S3_nil := tt;
  GetPeType := p_type;
  GetID := p_id;
  HasSnapshot p := bool_decide (is_Some (p_snap p));
  GetSnapshotID p := default "" (p_snap p);
  IDWithSnapshot p s := PeId (p_type p) (p_id p) (Some s);
  PEIDString := peid_string;
  SnapIDString s := s;
  SnapIDGetID s := s;
  NewProtectedEntityIDFromString := parse_peid;
  NewProtectedEntityIDWithNamespace t name ns := PeId t (ns +:+ "/" +:+ name) None;
  NewProtectedEntityID t i := PeId t i None;
  NewProtectedEntityIDWithNamespaceAndSnapshot t name ns s := PeId t (ns +:+ "/" +:+ name) (Some s);
  NewProtectedEntityIDFromPVCName ns name := PeId "pvc" (ns +:+ "/" +:+ name) None;
  VSphereCSIProvisioner := "csi.vsphere.vmware.com";
  S3Config := unit;
  NewS3MDTransportForPEID _ _ := None;
  NewS3CombinedTransportForPEID _ _ := None;
  PE_GetID := E_GetID;
  PETM_IsPVC m := match m with TmPvc => true | _ => false end;
  PETM_IsParaVirt m := match m with TmParaVirt => true | _ => false end;
  PETM_AsDataManager m := match m with TmDataManager b => Some b | _ => None end;
  PETM_IsIVD m := match m with TmIvd => true | _ => false end;
  S3_not_ivd _ := eq_refl;
  SplitMetaNamespaceKey := split_key;
  MetaNamespaceKeyFunc := meta_key;
  Version := Z * Z * Z;
  NewVersion := parse_version;
  Compare := compare_version;
  ReadStringInto s := Ok {| vc_ClusterID := s; vc_VirtualCenter := [] |};
  UnmarshalPVC s := Ok (a_claim s);
  MarshalPVC p := Ok (pvc_Name p);
  MarshalSnapshot s := Ok (ss_SnapshotID (s_Status s));
  UnmarshalSnapshot s := Ok (saved_snapshot s);
  Unstructured := item;
  ItemAPIVersion i := Ok (match i with ItemOther v _ => v | _ => "v1" end);
  ItemKind i := Ok (match i with ItemPVC _ => "PersistentVolumeClaim" | ItemPod _ => "Pod"
                    | ItemPV _ => "PersistentVolume" | ItemOther _ k => k end);
  PVCFromUnstructured i := match i with ItemPVC p => Ok p | _ => Err (ErrorString "not a claim") end;
  PVCToUnstructured p := Ok (ItemPVC p);
  PodFromUnstructured i := match i with ItemPod p => Ok p | _ => Err (ErrorString "not a pod") end;
  PodToUnstructured p := Ok (ItemPod p);
  PVFromUnstructured i := match i with ItemPV p => Ok p | _ => Err (ErrorString "not a volume") end;
  PVToUnstructured p := Ok (ItemPV p);
  ParseGroup v := match Split v "/" with [g; _] => g | _ => "" end;
  GetVolumesByPod p all := if all then vol_Name <$> pod_Volumes p else [];
  ParseFeatures l := Join l ",";
  BuildVersion := "v1.5.0";
|}.

(** Entities that are nothing but their IDs. *)
#[export] Instance concrete : Deps := concrete_deps peid id.

(** Splitting loses only the separators. *)
Lemma split_aux_length sep s acc :
  ∀ p, p ∈ split_aux sep s acc → (String.length p ≤ String.length s + String.length acc)%nat.
Proof.
  assert (Hrev : ∀ s acc, String.length (str_rev s acc) = (String.length s + String.length acc)%nat).
  { induction s0 as [|a s0 IH]; intros acc0; cbn; [done|]. rewrite IH. cbn. lia. }
  revert acc. induction s as [|a s IH]; intros acc p; cbn.
  - intros Hp%list_elem_of_singleton. subst. rewrite Hrev. cbn. lia.
  - destruct (bool_decide (a = sep)).
    + intros [->|Hp]%elem_of_cons; [rewrite Hrev; cbn; lia|].
      apply IH in Hp. cbn in Hp. lia.
    + intros Hp%IH. cbn in Hp. lia.
Qed.

Lemma split_aux_tail sep s acc p l :
  split_aux sep s acc = p :: l → ∀ q, q ∈ l → (String.length q < String.length s)%nat.
Proof.
  revert acc p l. induction s as [|a s IH]; intros acc p l; cbn.
  - intros [= <- <-] q Hq. by apply elem_of_nil in Hq.
  - destruct (bool_decide (a = sep)).
    + intros [= <- <-] q Hq. apply split_aux_length in Hq. cbn in Hq. lia.
    + intros Hs q Hq. specialize (IH _ _ _ Hs q Hq). lia.
Qed.

Lemma concrete_shorter : SnapshotIDShorter.
Proof.
  intros s p Hp Hs. cbn in *. unfold parse_peid in Hp.
  destruct (Split s ":") as [|t [|i [|n [|x l]]]] eqn:Hsplit; try done.
  { injection Hp as <-. done. }
  injection Hp as <-. cbn. apply (split_aux_tail _ _ _ _ _ Hsplit).
  rewrite !elem_of_cons. auto.
Qed.

Example decodeSnapshotID_total_witness :
  (∃ p, decodePeIdFromSnapshotID (H := concrete) "aXZkOnY6cw" = Some (Ok p) ∧
          decodeSnapshotID "aXZkOnY6cw" = Some (Ok (SnapIDString (GetSnapshotID p)))) ∨
    (∃ e e', decodePeIdFromSnapshotID (H := concrete) "aXZkOnY6cw" = Some (Err e) ∧
       decodeSnapshotID (H := concrete) "aXZkOnY6cw" = Some (Err e')).
Proof. exact (decodeSnapshotID_total concrete_shorter "aXZkOnY6cw"). Defined.

(** An improved virtual disk with a snapshot, inside a claim's backup, inside a
    guest cluster's. *)
Definition ivd_pe : @PEID concrete := PeId "ivd" "vol-1" (Some "snap-1").
Definition pvc_pe : @PEID concrete := PeId "pvc" "ns/claim" (Some (EncodeToString (peid_string ivd_pe))).
Definition guest_pe : @PEID concrete := PeId "paravirt-pv" "g" (Some (EncodeToString (peid_string pvc_pe))).

Example decode_encoded_witness :
  encodes (GetSnapshotID guest_pe) ivd_pe ∧
  decodePeIdFromSnapshotID (GetSnapshotID guest_pe) = Some (Ok ivd_pe) ∧
  decodeSnapshotID (GetSnapshotID guest_pe) = Some (Ok (SnapIDString (GetSnapshotID ivd_pe))).
Proof.
  assert (Hs : encodes (GetSnapshotID guest_pe) ivd_pe).
  { apply (encodes_nested _ pvc_pe); [by split|done|]. by apply encodes_base. }
  split; [exact Hs|]. exact (decode_encoded concrete_shorter _ _ Hs).
Defined.

Example upload_name_found_again_witness :
  uploadNameToCancel guest_pe = Some (uploadCRNameForSnapshotPEID ivd_pe) ∧
  peToDelete guest_pe = Some (Ok ivd_pe).
Proof.
  apply (upload_name_found_again concrete_shorter guest_pe ivd_pe); [done| |done].
  apply (encodes_nested _ pvc_pe); [by split|done|]. by apply encodes_base.
Defined.

Definition canceled_error : error :=
  External {| ext_msg := "context canceled"; ext_not_found := false;
              ext_already_exists := false; ext_canceled := true |}.

Definition a_client : client := Client
  {| rc_Host := "api"; rc_CAData := ""; rc_BearerToken := ""; rc_handle := 0%N |}.

Definition a_controller : uploadController := {|
  uc_uploadClient := a_client; uc_nodeName := "node-1";
  uc_dataMover := {| dm_ivdPETM := TmIvd |};
  uc_snapMgr := {| sm_clusterFlavor := VSphere |}; uc_externalDataMgr := false |}.

Definition an_upload : Upload :=
  Upload.Retry 3 (Upload.Phase UploadPhaseInProgress
    (Upload.SnapshotID "ivd:vol-1:snap-1" (Upload.ForUpload "velero" "upload-snap-1"))).


(** The cache fails, and then has the record, whose key is put back. *)
Definition a_worker_run : list (event Cmd) :=
  [Ev (QueueGet "upload") ("velero/upload-snap-1", false);
   Ev (ListerGet KUpload "velero" "upload-snap-1") (Err unavailable);
   Ev (ListerGet KUpload "velero" "upload-snap-1") (Ok an_upload);
   Ev (QueueAddAfter "upload" "velero/upload-snap-1" (us_CurrentBackOff (u_Status an_upload) * Minute)) tt;
   Ev (QueueDone "upload" "velero/upload-snap-1") tt].


Example cancelled_upload_keeps_snapshot_witness :
  IsCanceled canceled_error = true ∧
  safe keeps_snapshots (uploadFailed a_controller an_upload ivd_pe canceled_error)
    (λ o _, match o with Returned _ => True | _ => False end) tt.
Proof.
  split; [reflexivity|].
  apply (cancelled_upload_keeps_snapshot a_controller an_upload ivd_pe canceled_error). reflexivity.
Defined.

Definition a_driver : backupDriverController := {|
  bd_backupdriverClient := Some a_client; bd_datamoverClient := a_client;
  bd_svcBackupdriverClient := a_client; bd_svcKubeConfig := None; bd_svcNamespace := "ns-1";
  bd_snapManager := Some {| sm_clusterFlavor := VSphere |} |}.

Definition a_snapshot : Snapshot := Snapshot.ForSnapshot "guest-ns" "snap-1" ∅.

Example svc_map_invariant_witness :
  plain_names a_snapshot ∧
  safe svc_map_monitor (mapSvcSnapshot a_driver a_snapshot)
    (λ o m', o = Returned tt ∧ guest_entry m' ∧ {["svc-1" := "guest-ns:snap-1"]} ⊆ m')
    {["svc-1" := "guest-ns:snap-1"]}.
Proof.
  split; [by split|].
  apply (svc_map_invariant a_driver a_snapshot (Object a_snapshot) "svc-ns/svc-1"); [by split|].
  intros svc v [<- <-]%lookup_singleton_Some. by exists "guest-ns", "snap-1".
Defined.

Definition a_clone : CloneFromSnapshot :=
  (CloneFromSnapshot.ForCloneFromSnapshot "guest-ns" "clone-1" ∅)
    <| c_Status; cs_Phase := ClonePhaseFailed |>.

Example clone_repeats_witness :
  c_Phase a_clone = ClonePhaseFailed ∧
  syncClone a_driver a_client a_clone =
  syncClone a_driver a_client (a_clone <| c_Status; cs_Phase := ClonePhaseNew |>).
Proof.
  split; [reflexivity|]. apply (clone_repeats a_driver a_client a_clone).
  vm_compute. right. left.
Defined.

Example retried_patch_loses_phase_witness :
  patches UploadPhaseCompleted ∧
  (∃ u, run (patch_server (0 : time)) (patchUploadByStatusWithRetry a_controller Private an_upload
          UploadPhaseCompleted "") (O, an_upload) = (Returned (Ok u), (O, u)) ∧
        u_Phase u = UploadPhaseCompleted) ∧
  (∃ u, run (patch_server (0 : time)) (patchUploadByStatusWithRetry a_controller Private an_upload
          UploadPhaseCompleted "") (1%nat, an_upload) = (Returned (Ok u), (O, u)) ∧
        u_Phase u = UploadPhaseInProgress).
Proof.
  split; [done|].
  apply (retried_patch_loses_phase (0 : time) a_controller an_upload UploadPhaseCompleted "" 1); [done|lia].
Defined.

(** The ID under which a supervisor cluster gets the snapshot of [guest_pe]. *)
Definition supervisor_pe : @PEID concrete :=
  PeId "pvc" "svc-ns/svc-claim" (Some (EncodeToString (peid_string ivd_pe))).

Example convertSnapshotID_decodes_witness :
  encodes (GetSnapshotID guest_pe) ivd_pe ∧
  ∃ id, convertSnapshotID guest_pe "svc-ns" "svc-claim" = Some (Ok id) ∧
    NewProtectedEntityIDFromString id = Ok supervisor_pe ∧
    decodePeIdFromSnapshotID (GetSnapshotID supervisor_pe) = Some (Ok ivd_pe).
Proof.
  assert (Hs : encodes (GetSnapshotID guest_pe) ivd_pe).
  { apply (encodes_nested _ pvc_pe); [by split|done|]. by apply encodes_base. }
  split; [exact Hs|].
  apply (convertSnapshotID_decodes concrete_shorter guest_pe ivd_pe "svc-ns" "svc-claim" supervisor_pe);
    [exact Hs|by vm_compute|done].
Defined.

(** The configuration map of a plugin on a supervisor cluster. *)
Definition a_config_map : ConfigMap :=
  {| cm_Meta := meta "velero" VeleroVSpherePluginConfig ∅;
     cm_Data := {[ConfigClusterFlavorKey := "SUPERVISOR"]} |}.

(** A supervisor cluster on which nothing but that map can be read. *)
Definition supervisor_cluster : handler Cmd unit := λ X e s,
  (match e in Cmd X return X with
   | LoadClientConfig => Ok {| rc_Host := "api"; rc_CAData := ""; rc_BearerToken := ""; rc_handle := 0%N |}
   | NewForConfig c => Ok (Client c)
   | GetObj _ KConfigMap _ _ => Ok a_config_map
   | e => default_answer e
   end, s).

Example vc_secret_watch_witness :
  ∃ f c, run supervisor_cluster GetVcConfigSecretFilterFunc tt = (Returned (Some f), tt) ∧
    run supervisor_cluster (vcSecretLocation None) tt =
      (Returned (Ok (c, (VCSecretNsSupervisor, [VCSecret; VCSecretTKG]))), tt) ∧
    ∀ s, f s = true ↔ om_Namespace (sec_Meta s) = VCSecretNsSupervisor ∧
                     head [VCSecret; VCSecretTKG] = Some (om_Name (sec_Meta s)).
Proof.
  eexists _, _. split; [vm_compute; reflexivity|]. split; [vm_compute; reflexivity|].
  eapply (vc_secret_watch supervisor_cluster); vm_compute; reflexivity.
Defined.
