(* ===== verification/SnapshotSystem.v ===== *)
(** * A Snapshot and its Upload

    The system of [UploadSystem] together with the Snapshot that the Upload refers to and
    the goroutines of the backup driver that carry the phase of the one over to the other:
    what the phase of a Snapshot says about its data. *)

From S2P Require Export UploadSystem BackupDriverProtocol.
Open Scope Z_scope.

Section system.
Context `{Deps}.

Record snapshot_world := SnapshotWorld { nw_upload : world; nw_snapshot : Snapshot }.

Definition initial_snapshot (u : Upload) (sn : Snapshot) : snapshot_world :=
  SnapshotWorld (initially u) sn.

(** A request that names the Snapshot. *)
Definition asks_snapshot (sn : Snapshot) (ns name : string) : bool :=
  bool_decide (ns = s_Namespace sn ∧ name = s_Name sn).

(** The server takes the status over; whether it takes the specification as well is left open. *)
Definition with_status (sn o sn' : Snapshot) : Prop :=
  s_Meta sn' = s_Meta sn ∧ s_Status sn' = s_Status o.

(** The calls on Snapshots, over the record [sn]; a request that fails may have been carried
    out all the same.  A Snapshot is answered under its name.  [None] for the other calls. *)
Definition snapshot_effect (sn : Snapshot) {X} (e : Cmd X) : option (X → Snapshot → Prop) :=
  match e in Cmd X return option (X → Snapshot → Prop) with
  | GetObj _ k ns name =>
      match k return option (result (obj k) → Snapshot → Prop) with
      | KSnapshot => Some (λ r sn', sn' = sn ∧ match r with
          | Ok o => s_Namespace o = ns ∧ s_Name o = name ∧ (asks_snapshot sn ns name = true → o = sn)
          | Err _ => True
          end)
      | _ => None
      end
  | UpdateStatusObj _ k ns o =>
      match k return obj k → option (result (obj k) → Snapshot → Prop) with
      | KSnapshot => λ o, Some (λ r sn',
          if asks_snapshot sn ns (s_Name o) then match r with
            | Ok o' => with_status sn o sn' ∧ o' = sn'
            | Err _ => sn' = sn ∨ with_status sn o sn'
            end
          else sn' = sn)
      | _ => λ _, None
      end o
  | _ => None
  end.

Definition snapshot_world_effect (w : snapshot_world) {X} (e : Cmd X) (x : X) (w' : snapshot_world) : Prop :=
  match snapshot_effect (nw_snapshot w) e with
  | Some f => f x (nw_snapshot w') ∧ nw_upload w' = nw_upload w
  | None => effect (nw_upload w) e x (nw_upload w') ∧ nw_snapshot w' = nw_snapshot w
  end.

(** Goroutines of the upload controller, and of the driver's queue of Uploads, for any key. *)
Inductive snapshot_starts (w : snapshot_world) : thread → Prop :=
| start_upload p : upload_starts (nw_upload w) p → snapshot_starts w p
| start_sync ctrl key : snapshot_starts w (syncUploadByKey ctrl key).

(** The phases that a Snapshot has before its Upload is there, and those of a failure. *)
Definition before_upload (p : SnapshotPhase) : bool :=
  match p with
  | SnapshotPhaseUnset | SnapshotPhaseNew | SnapshotPhaseSnapshotted | SnapshotPhaseSnapshotFailed => true
  | _ => false
  end.

(** The rest of the driver writes such phases, and somebody may ask for the cancellation. *)
Inductive snapshot_moves (w : snapshot_world) : snapshot_world → Prop :=
| move_cancel : snapshot_moves w (SnapshotWorld (cancel_requested (nw_upload w)) (nw_snapshot w))
| move_write sn : s_Meta sn = s_Meta (nw_snapshot w) → before_upload (s_Phase sn) = true →
    snapshot_moves w (SnapshotWorld (nw_upload w) sn).

#[export] Instance snapshot_system : System snapshot_world := {|
  sys_effect := @snapshot_world_effect;
  sys_starts := snapshot_starts;
  sys_moves := snapshot_moves;
|}.

(** ** The invariant *)

(** What a phase of the Upload says that cannot be undone. *)
Definition upload_facts (w : world) (p : UploadPhase) : Prop :=
  match p with
  | UploadPhaseCompleted => gone w ∧ saved_or_given_up w
  | UploadPhaseUploadFailedAfterRetry => gone w
  | UploadPhaseCleanupFailed => saved_or_given_up w
  | _ => True
  end.

(** What the phase of the Snapshot says. *)
Definition snapshot_facts (w : world) (sn : Snapshot) : Prop :=
  match s_Phase sn with
  | SnapshotPhaseUploaded =>
      gone w ∧ saved_or_given_up w ∧ is_Some (ss_CompletionTimestamp (s_Status sn))
  | SnapshotPhaseUploadFailedAfterRetry => gone w
  | SnapshotPhaseCleanupFailed => saved_or_given_up w
  | _ => True
  end.

Definition snapshot_world_ok (w : snapshot_world) : Prop :=
  world_ok (nw_upload w) ∧ snapshot_facts (nw_upload w) (nw_snapshot w).

Definition snapshot_grows (w w' : snapshot_world) : Prop :=
  grows (nw_upload w) (nw_upload w') ∧ s_Meta (nw_snapshot w') = s_Meta (nw_snapshot w).

(** A goroutine of the driver has read the Upload at some time. *)
Definition reader_ok (w : world) (p : thread) : Prop :=
  ∃ s, safe upload_monitor p (λ o _, ends o) s ∧ ∀ u, s = Some u → upload_facts w (u_Phase u).

Definition snapshot_thread_ok (w : snapshot_world) (p : thread) : Prop :=
  thread_ok (nw_upload w) p ∨ reader_ok (nw_upload w) p.

#[export] Instance snapshot_grows_preorder : PreOrder snapshot_grows.
Proof.
  split; [by split|]. intros w1 w2 w3 [H1 E1] [H2 E2]. split; [by transitivity (nw_upload w2)|congruence].
Qed.

Lemma upload_facts_grows w w' p : grows w w' → upload_facts w p → upload_facts w' p.
Proof.
  intros Hg. pose proof (grows_gone _ _ Hg). destruct Hg as (_ & _ & Hs & _). destruct p; cbn; naive_solver.
Qed.

Lemma snapshot_facts_grows w w' sn : grows w w' → snapshot_facts w sn → snapshot_facts w' sn.
Proof.
  intros Hg. unfold snapshot_facts. pose proof (grows_gone _ _ Hg). destruct Hg as (_ & _ & Hs & _).
  destruct (s_Phase sn); naive_solver.
Qed.

Lemma world_ok_facts w : world_ok w → upload_facts w (w_phase w).
Proof. unfold world_ok, upload_facts. by destruct (w_phase w). Qed.

(** The phase of the Upload carries over. *)
Lemma facts_carried w u sn :
  upload_facts w (u_Phase u) → snapshotPhaseOfUpload (u_Phase u) = Some (s_Phase sn) →
  (s_Phase sn = SnapshotPhaseUploaded → is_Some (ss_CompletionTimestamp (s_Status sn))) →
  snapshot_facts w sn.
Proof.
  unfold snapshot_facts. intros Hf Hp Ht. destruct (u_Phase u); try discriminate Hp;
    injection Hp as Hp; rewrite <-Hp in *; cbn in *; naive_solver.
Qed.

Lemma facts_status w sn sn' : s_Status sn' = s_Status sn → snapshot_facts w sn → snapshot_facts w sn'.
Proof. unfold snapshot_facts. by intros ->. Qed.

Lemma reader_grows w w' p : grows w w' → reader_ok w p → reader_ok w' p.
Proof.
  intros Hg (s & Hs & Hf). exists s. split; [done|]. intros u Hu. by eapply upload_facts_grows, Hf.
Qed.

(** A goroutine of the upload controller does not touch the Snapshot. *)
Lemma upload_writes_no_snapshot w X (e : Cmd X) k sn f :
  thread_ok w (Do e k) → snapshot_effect sn e = Some f → ∀ x sn', f x sn' → sn' = sn.
Proof.
  intros Ht Hf x sn' Hx. destruct e; try discriminate Hf; destruct k0; try discriminate Hf; cbn in Hf.
  - injection Hf as <-. by destruct Hx.
  - exfalso. destruct Ht as [(s & Hs & _)|Hs]; exact (Hs x).
Qed.

Lemma snapshot_effect_upload w X (e : Cmd X) sn f x : snapshot_effect sn e = Some f → effect w e x w.
Proof. intros Hf. destruct e; try discriminate Hf; by destruct k. Qed.

(** *** One call *)

Lemma upload_thread_call w X (e : Cmd X) k x w' :
  snapshot_world_ok w → thread_ok (nw_upload w) (Do e k) → snapshot_world_effect w e x w' →
  snapshot_world_ok w' ∧ thread_ok (nw_upload w') (k x) ∧ snapshot_grows w w'.
Proof.
  intros [Hw Hsn] Ht He. unfold snapshot_world_effect in He.
  assert (Hu : effect (nw_upload w) e x (nw_upload w') ∧ nw_snapshot w' = nw_snapshot w).
  { destruct (snapshot_effect (nw_snapshot w) e) as [f|] eqn:Hf; [|done]. destruct He as [Hx ->].
    split; [by eapply snapshot_effect_upload|]. by eapply (upload_writes_no_snapshot _ _ _ _ _ _ Ht Hf). }
  destruct Hu as [Hu Hs]. destruct (thread_call _ _ _ _ _ _ Hw Ht Hu) as (Hw' & Ht' & Hg).
  split_and!; [|done|split; [done|by rewrite Hs]]. split; [done|]. rewrite Hs. by eapply snapshot_facts_grows.
Qed.

(** The driver's goroutine reads the Upload, and writes the Snapshot. *)
Lemma reader_call w X (e : Cmd X) k x w' :
  snapshot_world_ok w → reader_ok (nw_upload w) (Do e k) → snapshot_world_effect w e x w' →
  snapshot_world_ok w' ∧ reader_ok (nw_upload w') (k x) ∧ snapshot_grows w w'.
Proof.
  intros [Hw Hsn] (s & Hs & Hk) He. specialize (Hs x). destruct w as [wu sn], w' as [wu' sn']; cbn in *.
  assert (Hstay : upload_monitor s X e x = Next s → wu' = wu → sn' = sn →
    snapshot_world_ok (SnapshotWorld wu' sn') ∧ reader_ok wu' (k x) ∧ snapshot_grows (SnapshotWorld wu sn) (SnapshotWorld wu' sn')).
  { intros Hn -> ->. rewrite Hn in Hs. split_and!; [done| |done]. by exists s. }
  destruct (quiet e) eqn:Hq.
  { destruct e; try discriminate Hq; cbn in He; destruct He as [-> ->]; by apply Hstay. }
  destruct e; try (by cbn in Hs); try discriminate Hq; cbn in Hs.
  - (* GetObj *)
    destruct k0; try done; cbn in He.
    + destruct He as [[-> Hr] ->]. destruct s; [done|]. destruct x as [u|e]; [|by apply Hstay].
      split_and!; [done| |done]. exists (Some u). split; [done|]. destruct Hr as [_ ->].
      intros u [= <-]. by apply world_ok_facts.
    + destruct He as [[-> Hr] ->]. destruct x as [o|e].
      2: { destruct s as [u|]; [|done]. destruct (refers u ns name) eqn:Href; [|done].
           apply Hstay; [|done..]. cbn. by rewrite Href. }
      destruct Hr as (Hn1 & Hn2 & _). rewrite bool_decide_true in Hs by done.
      destruct s as [u|]; [|done]. destruct (refers u _ _); [|done].
      split_and!; [done| |done]. by exists (Some u).
  - (* UpdateStatusObj *)
    destruct k0; try done; cbn in He. destruct He as [He ->]. destruct s as [u|]; [|done].
    case_bool_decide as Hc; [|done]. destruct Hc as [Hp Ht].
    assert (Hnew : ∀ sn1, with_status sn o sn1 →
      snapshot_facts wu sn1 ∧ s_Meta sn1 = s_Meta sn).
    { intros sn1 [Hm Hst]. split; [|done]. apply (facts_status _ o); [done|].
      apply (facts_carried _ u); [by apply Hk|done..]. }
    assert (Hres : snapshot_facts wu sn' ∧ s_Meta sn' = s_Meta sn).
    { destruct (asks_snapshot _ _ _); [|by subst]. destruct x as [o'|e]; [by apply Hnew, He|].
      destruct He as [-> |He]; [done|by apply Hnew]. }
    destruct Hres as [Hf Hm]. split_and!; [by split| |by split]. by exists (Some u).
Qed.

#[export] Instance snapshot_discipline : Discipline snapshot_world_ok snapshot_grows snapshot_thread_ok.
Proof.
  split.
  - apply _.
  - intros w w' p [Hg _] [Ht|Hr]; [left; by eapply thread_ok_grows|right; by eapply reader_grows].
  - intros w p [p' Hp|ctrl key]; [left; by apply (thr_start (Discipline := upload_discipline))|right].
    exists None. split; [|done]. eapply safe_mono; [apply syncUploadByKey_spec|]. by intros [].
  - intros w w' [|sn Hm Hb] [Hw Hsn].
    + assert (Hg : grows (nw_upload w) (cancel_requested (nw_upload w))) by done.
      split; [|by split]. split; [by apply (world_ok_grows (nw_upload w))|by eapply snapshot_facts_grows].
    + split; [|by split]. split; [done|]. cbn. unfold snapshot_facts. by destruct (s_Phase sn).
  - intros w X e k x w' Hw [Ht|Hr] He.
    + destruct (upload_thread_call w X e k x w' Hw Ht He) as (? & ? & ?). split_and!; [done|by left|done].
    + destruct (reader_call w X e k x w' Hw Hr He) as (? & ? & ?). split_and!; [done|by right|done].
Qed.

(** C3.  What a Snapshot says about its data.  From a new Upload and a Snapshot that is not
    yet uploaded, however many goroutines process and cancel the Upload and carry its phase over to the
    Snapshot, whatever phases of a beginning or a failure the rest of the driver writes,
    whichever requests fail with or without an effect, and in whatever order the calls
    interleave: when the Snapshot is [Uploaded], its local snapshot is gone, its data was
    copied or else [CleanupFailed] had been sent before any copy, and it has the time
    that its clean-up dereferences; when it is [UploadFailedAfterRetry] the local snapshot is gone; it
    keeps its identity; no goroutine waits for ever. *)
Theorem snapshot_system_invariant u sn w ts :
  u_Phase u = UploadPhaseUnset ∨ u_Phase u = UploadPhaseNew → before_upload (s_Phase sn) = true →
  rtc sys_step (initial_snapshot u sn, []) (w, ts) →
  (s_Phase (nw_snapshot w) = SnapshotPhaseUploaded →
     gone (nw_upload w) ∧ (w_copied (nw_upload w) = true ∨ w_unsaved (nw_upload w) = true) ∧
     is_Some (ss_CompletionTimestamp (s_Status (nw_snapshot w)))) ∧
  (s_Phase (nw_snapshot w) = SnapshotPhaseUploadFailedAfterRetry → gone (nw_upload w)) ∧
  s_Meta (nw_snapshot w) = s_Meta sn ∧ ∀ why, Hang why ∉ ts.
Proof.
  intros Hu Hsn Hr.
  destruct (reachable_ok (ok := snapshot_world_ok) (initial_snapshot u sn) w ts) as ([Hw Hf] & Hts & _ & Hm).
  { split; cbn.
    - unfold world_ok, w_phase. cbn. by destruct Hu as [-> | ->].
    - unfold snapshot_facts. by destruct (s_Phase sn). }
  { exact Hr. }
  unfold snapshot_facts in Hf. split_and!; [..|done|].
  - intros Hp. rewrite Hp in Hf. destruct Hf as (Hg & Hs & Ht). split_and!; [done| |done]. by apply orb_prop.
  - intros Hp. by rewrite Hp in Hf.
  - intros why Hin. rewrite Forall_forall in Hts.
    destruct (Hts _ Hin) as [[(s & [] & _)|[]]|(s & [] & _)].
Qed.
End system.
