(* ===== verification/UploadRuns.v ===== *)
(** * A schedule of the upload system

    An execution of the system of [UploadSystem], found by running the controller
    on a server whose copies and deletions succeed or fail as told. *)

From S2P Require Export UploadSystem UploadTypes Instance.
Open Scope Z_scope.

(** ** Schedules *)

Definition Process `{Deps} (c : uploadController) : action (W := world) :=
  Start (λ w, processUpload c (w_record w)).
Definition Trigger `{Deps} (c : uploadController) : action (W := world) :=
  Start (λ w, triggerUploadCancellation c (w_record w)).
Definition RequestCancel `{Deps} : action (W := world) := Outside cancel_requested.

Lemma allowed_Process `{Deps} c : allowed (Process c).
Proof. intros w. by apply start_process. Qed.
Lemma allowed_Trigger `{Deps} c : allowed (Trigger c).
Proof. intros w. by apply start_trigger. Qed.
Lemma allowed_RequestCancel `{Deps} : allowed RequestCancel.
Proof. by intros w. Qed.

(** ** A server *)

(** The server of one Upload: copies and deletions succeed or fail as told,
    everything else it can answer succeeds. *)
Definition serve (copies deletes : bool) : handler Cmd world := λ X e w,
  match e in Cmd X return X * world with
  | GetObj _ k ns name =>
      match k return result (obj k) * world with
      | KUpload => (if asks_for w ns name then Ok (w_record w) else Err unavailable, w)
      | KBackupStorageLocation => (Ok {|
          bsl_Meta := meta "velero" "default" ∅; bsl_Provider := "aws"; bsl_Config := {["region" := "us-1"]};
          bsl_Bucket := Some "bucket"; bsl_CACert := None |}, w)
      | _ => (Err unavailable, w)
      end
  | PatchObj _ k ns name old new =>
      match k return obj k → obj k → result (obj k) * world with
      | KUpload => λ old new,
          if asks_for w ns name
          then (Ok (w_record (w_on_patch old new w)), w_on_patch old new w)
          else (Err unavailable, w)
      | _ => λ _ _, (Err unavailable, w)
      end old new
  | LoadClientConfig => (Ok (cl_config a_client), w)
  | NewForConfig _ => (Ok a_client, w)
  | LookupEnv _ => (Some "velero", w)
  | NewSession _ => (None, w)
  | NewS3Repository _ _ _ => (Ok tt, w)
  | PemGetTypeManager _ => (Some TmIvd, w)
  | PetmGetProtectedEntity _ id => (Ok id, w)
  | PetmCopy _ _ pe _ => if copies then (Ok pe, w_on_copied w) else (Err unavailable, w)
  | PeListSnapshots pe => if w_gone w then (Ok [], w_on_gone w) else (Ok ["snap-1"], w)
  | PeDeleteSnapshot _ _ _ => if deletes then (Ok true, w_on_gone w) else (Err unavailable, w)
  | MapLoad id => (match entity w with
                   | Ok peID => if bool_decide (peID = id) then w_ongoing w else None
                   | Err _ => None
                   end, w)
  | MapStore id f => (tt, set_ongoing w id (Some f))
  | MapDelete id => (tt, set_ongoing w id None)
  | e => (default_answer e, w)
  end.

Lemma serve_consistent copies deletes : consistent (serve copies deletes).
Proof.
  intros w X e. destruct e; cbn; try done.
  - destruct k; cbn; try done. by destruct (asks_for w ns name) eqn:Ha.
  - destruct k; cbn; try done. destruct (asks_for w ns name) eqn:Ha; cbn; [done|by left].
  - split; [done|]. intros ->. by rewrite bool_decide_true.
  - by destruct copies.
  - by destruct (w_gone w) eqn:Hg.
  - by destruct deletes.
Qed.

Ltac schedule_tac :=
  repeat constructor;
  first [apply allowed_Process|apply allowed_Trigger|apply allowed_RequestCancel|apply serve_consistent].

Definition an_unsaved_upload : Upload :=
  Upload.Phase UploadPhaseNew (Upload.SnapshotID "ivd:vol-1:snap-1"
    (Upload.ForUpload "velero" "upload-snap-1")).

(** ** A completed upload that is recorded as being cancelled *)

(** The upload is cancelled while it runs: the goroutine that cancels it finds
    it in the map; the other one completes it; then the first goes on. *)
Definition late_cancellation : list (action (W := world)) :=
  [Process a_controller; Advance 0 17 (serve true true);
   RequestCancel; Trigger a_controller; Advance 1 1 (serve true true);
   Advance 0 100 (serve true true); Advance 1 100 (serve true true)].

(** A cancellation finds the upload in progress, the upload then
    completes, and the cancellation goes on: it writes [Canceling] over [Completed]. Both goroutines have
    ended, the data is in the repository and the local snapshot is gone, and no
    handler leaves the phase [Canceling] again: processing skips it and a cancellation
    finds nothing to cancel. *)
Theorem completed_upload_canceling :
  ∃ w ts, rtc sys_step (initially an_unsaved_upload, []) (w, ts) ∧
    Forall (λ p, result_of p ≠ None) ts ∧
    w_phase w = UploadPhaseCanceling ∧ w_copied w = true ∧ gone w ∧
    run (serve true true) (processUpload a_controller (w_record w)) w = (Returned None, w) ∧
    run (serve true true) (triggerUploadCancellation a_controller (w_record w)) w = (Returned None, w).
Proof.
  exists (play late_cancellation (initially an_unsaved_upload, [])).1,
    (play late_cancellation (initially an_unsaved_upload, [])).2.
  rewrite <-surjective_pairing. split; [apply play_reachable|split].
  - schedule_tac.
  - apply (Forall_fmap result_of (λ r, r ≠ None)). vm_compute. by repeat constructor.
  - vm_compute. auto 10.
Qed.

Example upload_system_invariant_witness :
  rtc sys_step (initially an_unsaved_upload, []) (play late_cancellation (initially an_unsaved_upload, [])) ∧
  u_Meta (w_record (play late_cancellation (initially an_unsaved_upload, [])).1) = u_Meta an_unsaved_upload.
Proof.
  assert (Hr : rtc sys_step (initially an_unsaved_upload, [])
                 (play late_cancellation (initially an_unsaved_upload, []))).
  { apply play_reachable. schedule_tac. }
  split; [exact Hr|]. destruct (play _ _) as [w ts].
  destruct (upload_system_invariant an_unsaved_upload w ts) as (_ & _ & _ & Hm & _);
    [by right|exact Hr|exact Hm].
Defined.

Example upload_type_invariant_witness :
  let u := Upload.NextRetryTimestamp 0 an_unsaved_upload in
  let s := play late_cancellation (initially u, []) in
  well_formed u ∧ rtc sys_step (initially u, []) s ∧
  well_formed (w_record s.1) ∧ ¬ missing_timestamp (w_record s.1).
Proof.
  set (u := Upload.NextRetryTimestamp 0 an_unsaved_upload).
  assert (Hu : well_formed u) by (apply (bool_decide_unpack _); vm_compute; exact I).
  assert (Hr : rtc sys_step (initially u, []) (play late_cancellation (initially u, []))).
  { apply play_reachable. schedule_tac. }
  split; [exact Hu|]. split; [exact Hr|]. destruct (play _ _) as [w ts].
  exact (upload_type_invariant u w ts Hu Hr).
Defined.
