(* ===== verification/SnapshotRuns.v ===== *)
(** * Schedules of a Snapshot and its Upload

    Executions of the system of [SnapshotSystem], on the server of [UploadRuns] that holds the
    Snapshot as well. *)

From S2P Require Export SnapshotSystem UploadRuns.
Open Scope Z_scope.

(** A goroutine starts to process the Upload, or to carry its phase over. *)
Definition ProcessUpload `{Deps} (c : uploadController) : action (W := snapshot_world) :=
  Start (λ w, processUpload c (w_record (nw_upload w))).
Definition SyncUpload `{Deps} (ctrl : backupDriverController) (key : string) : action (W := snapshot_world) :=
  Start (λ _, syncUploadByKey ctrl key).

Lemma allowed_ProcessUpload `{Deps} c : allowed (ProcessUpload c).
Proof. intros w. by apply start_upload, start_process. Qed.
Lemma allowed_SyncUpload `{Deps} ctrl key : allowed (SyncUpload ctrl key).
Proof. intros w. apply start_sync. Qed.

(** Copies and deletions succeed or fail as told. *)
Definition serve_snapshot (copies deletes : bool) : handler Cmd snapshot_world := λ X e w,
  match snapshot_effect (nw_snapshot w) e with
  | None => let '(x, u) := serve copies deletes X e (nw_upload w) in (x, SnapshotWorld u (nw_snapshot w))
  | Some _ =>
      match e in Cmd X return X * snapshot_world with
      | GetObj _ k ns name =>
          match k return result (obj k) * snapshot_world with
          | KSnapshot =>
              (if asks_snapshot (nw_snapshot w) ns name then Ok (nw_snapshot w) else Err unavailable, w)
          | _ => (Err unavailable, w)
          end
      | UpdateStatusObj _ k ns o =>
          match k return obj k → result (obj k) * snapshot_world with
          | KSnapshot => λ o,
              if asks_snapshot (nw_snapshot w) ns (s_Name o)
              then let sn := (nw_snapshot w) <| s_Status := s_Status o |> in
                   (Ok sn, SnapshotWorld (nw_upload w) sn)
              else (Err unavailable, w)
          | _ => λ _, (Err unavailable, w)
          end o
      | e => (default_answer e, w)
      end
  end.

Lemma serve_snapshot_consistent copies deletes : consistent (serve_snapshot copies deletes).
Proof.
  intros w X e. unfold sys_effect. cbn. unfold snapshot_world_effect, serve_snapshot.
  destruct (snapshot_effect (nw_snapshot w) e) as [f|] eqn:Hf.
  - destruct e; try discriminate Hf; destruct k; try discriminate Hf; cbn in Hf; injection Hf as <-; cbn.
    + destruct (asks_snapshot _ ns name) eqn:Ha; [|done]. apply bool_decide_eq_true in Ha as [-> ->]. done.
    + by destruct (asks_snapshot _ ns _) eqn:Ha.
  - pose proof (serve_consistent copies deletes (nw_upload w) X e) as Hc.
    destruct (serve copies deletes X e (nw_upload w)) as [x u]. by split.
Qed.

Ltac snapshot_schedule_tac :=
  repeat constructor;
  first [apply allowed_ProcessUpload|apply allowed_SyncUpload|apply serve_snapshot_consistent].

Definition a_referring_upload : Upload :=
  Upload.NextRetryTimestamp 0 (Upload.SnapshotReference "velero/snap-1" an_unsaved_upload).

Definition a_taken_snapshot : Snapshot :=
  (Snapshot.ForSnapshot "velero" "snap-1" ∅) <| s_Status; ss_Phase := SnapshotPhaseSnapshotted |>.

(** ** A Snapshot without data *)

(** Eleven times a node processes the Upload while copies and deletions fail; then one more
    time, when deletions succeed; then the driver looks at the Upload. *)
Definition losing_runs : list (action (W := snapshot_world)) :=
  concat ((λ i, [ProcessUpload a_controller; Advance i 100 (serve_snapshot false false)]) <$> seq 0 11)
  ++ [ProcessUpload a_controller; Advance 11 100 (serve_snapshot false true);
      SyncUpload a_driver "velero/upload-snap-1"; Advance 12 100 (serve_snapshot true true)].

(** When deletions of the local snapshot fail as well, an upload
    that reached its retry limit ends as [CleanupFailed]; the next run, which
    can delete the snapshot, records [Completed], and the driver then reports the Snapshot as [Uploaded]:
    a Snapshot is uploaded, its local snapshot is gone, its data never reached the repository,
    and the last goroutines of both have answered nil. *)
Theorem snapshot_uploaded_without_data :
  ∃ w ts, rtc sys_step (initial_snapshot a_referring_upload a_taken_snapshot, []) (w, ts) ∧
    s_Phase (nw_snapshot w) = SnapshotPhaseUploaded ∧ w_phase (nw_upload w) = UploadPhaseCompleted ∧
    w_copied (nw_upload w) = false ∧ gone (nw_upload w) ∧
    drop 11 (result_of <$> ts) = [Some None; Some None].
Proof.
  exists (play losing_runs (initial_snapshot a_referring_upload a_taken_snapshot, [])).1,
    (play losing_runs (initial_snapshot a_referring_upload a_taken_snapshot, [])).2.
  rewrite <-surjective_pairing. split; [apply play_reachable; snapshot_schedule_tac|].
  vm_compute. auto 10.
Qed.

(** ** A Snapshot with its data *)

(** The driver looks at the Upload before, while and after it is processed. *)
Definition saving_runs : list (action (W := snapshot_world)) :=
  [SyncUpload a_driver "velero/upload-snap-1"; ProcessUpload a_controller;
   Advance 1 17 (serve_snapshot true true); Advance 0 1 (serve_snapshot true true);
   Advance 1 100 (serve_snapshot true true); Advance 0 100 (serve_snapshot true true);
   SyncUpload a_driver "velero/upload-snap-1"; Advance 2 100 (serve_snapshot true true)].

Example snapshot_system_invariant_witness :
  let s := play saving_runs (initial_snapshot a_referring_upload a_taken_snapshot, []) in
  rtc sys_step (initial_snapshot a_referring_upload a_taken_snapshot, []) s ∧
  s_Phase (nw_snapshot s.1) = SnapshotPhaseUploaded ∧
  (w_copied (nw_upload s.1) = true ∨ w_unsaved (nw_upload s.1) = true).
Proof.
  set (s0 := (initial_snapshot a_referring_upload a_taken_snapshot, [])).
  assert (Hr : rtc sys_step s0 (play saving_runs s0)) by (apply play_reachable; snapshot_schedule_tac).
  assert (Hp : s_Phase (nw_snapshot (play saving_runs s0).1) = SnapshotPhaseUploaded) by (vm_compute; reflexivity).
  split; [exact Hr|]. split; [exact Hp|]. destruct (play saving_runs s0) as [w ts].
  destruct (snapshot_system_invariant a_referring_upload a_taken_snapshot w ts) as (Hu & _);
    [by right|reflexivity|exact Hr|]. apply Hu. exact Hp.
Defined.
