(* ===== verification/DownloadCompletion.v ===== *)
(** * Completions that get lost

    What the server's record says when a request to record the completion of a download is
    refused, on any server that applies merge patches. *)

From S2P Require Export DownloadSystem Healthy.
Open Scope Z_scope.

Section completion.
Context `{Deps} (c : downloadController).

(** The server's record and the volumes made, whether a request to record the completion was
    refused, and whether one was answered with success. *)
Record completion := {
  cm_world : download_world;
  cm_refused : bool;
  cm_answered : bool;
}.

Abbreviation cm_record s := (dw_record (cm_world s)).
Abbreviation cm_made s := (dw_made (cm_world s)).

Definition completion_start (d : Download) : completion :=
  {| cm_world := DownloadWorld d []; cm_refused := false; cm_answered := false |}.

Definition in_world (w : download_world) (s : completion) : completion :=
  {| cm_world := w; cm_refused := cm_refused s; cm_answered := cm_answered s |}.

(** The answer to a patch; a refused one changes nothing. *)
Definition on_request (old new : Download) (r : result Download) (s : completion) : completion :=
  let asks := bool_decide (d_Phase new = DownloadPhaseCompleted) in
  match r with
  | Ok _ => {| cm_world := dw_on_patch old new (cm_world s); cm_refused := cm_refused s;
               cm_answered := cm_answered s || asks |}
  | Err _ => {| cm_world := cm_world s; cm_refused := cm_refused s || asks; cm_answered := cm_answered s |}
  end.

(** A read answers the record, a patch the record that it leaves; any call may fail, but for the
    encoding of objects. *)
Definition completing : monitor Cmd completion := λ s X e,
  let w := cm_world s in
  match e in Cmd X return X → verdict completion with
  | GetObj _ k _ _ =>
      match k return result (obj k) → verdict completion with
      | KDownload => λ r, match r with Ok d => assume (bool_decide (d = dw_record w)) s | Err _ => Next s end
      | _ => λ _, Next s
      end
  | PatchObj _ k _ _ old new =>
      match k return obj k → obj k → result (obj k) → verdict completion with
      | KDownload => λ old new r, match r with
          | Ok d => assume (bool_decide (d = dw_record (dw_on_patch old new w))) (on_request old new r s)
          | Err _ => Next (on_request old new r s)
          end
      | _ => λ _ _ _, Violation
      end old new
  | MarshalJSON _ _ | CreateMergePatch _ _ _ => λ r, assume (bool_decide (r = None)) s
  | PetmCopy _ _ _ _ => λ r, match r with Ok pe => Next (in_world (dw_on_made pe w) s) | Err _ => Next s end
  | PeOverwrite target _ => λ r,
      match r with None => Next (in_world (dw_on_made target w) s) | Some _ => Next s end
  | CreateObj _ _ _ _ | UpdateObj _ _ _ _ | UpdateStatusObj _ _ _ _ | DeleteObj _ _ _ _ => λ _, Violation
  | _ => λ _, Next s
  end.

#[export] Instance completing_quiet : Quiet completing.
Proof.
  intros s X e x Hq. destruct e; try discriminate Hq; cbn; unfold assume; repeat case_match; auto.
Qed.

Lemma completing_reads {A} (p : io A) s :
  calls_only (@reads _) p → safe completing p (λ o s', match o with Hung _ => False | _ => s' = s end) s.
Proof.
  apply safe_calls_only'. intros X e x Hr. destruct e; try (by left); try discriminate Hr; cbn;
    by unfold assume; case_match; auto.
Qed.

(** *** The copy *)

(** A copy that succeeds has made the volume that it answers, or overwritten it. *)
Definition copied_one (s : completion) {A} (id : A → option PEID) (o : outcome A) (s' : completion) : Prop :=
  match o with
  | Returned a => match id a with
                  | Some v => s' = in_world (DownloadWorld (cm_record s) (cm_made s ++ [v])) s
                  | None => s' = s
                  end
  | Panicked _ => s' = s
  | Hung _ => False
  end.

Definition answered_id {A} (r : result A) : option A := match r with Ok a => Some a | Err _ => None end.

Lemma completing_copyFromRepo d peID target m options s :
  safe completing (copyFromRepo d peID target m options) (copied_one s answered_id) s.
Proof.
  unfold copyFromRepo. intros [pe|e]; [|done]. cbn [bind]. case_bool_decide.
  - intros [tpe|e]; [|done]. by intros [e|].
  - by intros [pe'|e].
Qed.

Lemma completing_withLock d find peID target options s :
  calls_only (@reads _) find →
  safe completing (withReloadConfigLock (let? m := find else e => Ret (Err e) in copyFromRepo d peID target m options))
    (copied_one s answered_id) s.
Proof.
  intros Hf. unfold withReloadConfigLock. intros []. cbn [completing bind]. apply safe_defer.
  eapply (safe_mono _ _ (copied_one s answered_id)).
  - eapply safe_seq; [by apply completing_reads|..]; [|by intros w s' ->|by intros w s' []].
    intros [m|e] s' ->; [apply completing_copyFromRepo|done].
  - by intros [r|w|w] s' Hr; [intros []..|].
Qed.

Lemma completing_copyDownload req peID target options s :
  safe completing (copyDownload c req peID target options)
    (copied_one s (λ r, match r with Ok r => answered_id r | Err _ => None end)) s.
Proof.
  unfold copyDownload. destruct (_ && _).
  - eapply safe_seq; [apply completing_reads; auto with calls|..]; [|by intros w s' ->|by intros w s' []].
    intros [br|e] s' ->; [|done].
    eapply safe_seq; [apply completing_withLock; auto with calls|..]; [by intros r s'|by intros w s'..].
  - eapply safe_seq; [apply completing_withLock; auto with calls|..]; [by intros r s'|by intros w s'..].
Qed.

(** *** Patches *)

(** The record is not completed and no request to complete it was sent; the volume it names stays. *)
Definition uncompleted (vol : string) (made : list PEID) (s : completion) : Prop :=
  d_Phase (cm_record s) ≠ DownloadPhaseCompleted ∧ ds_VolumeID (d_Status (cm_record s)) = vol ∧
  cm_made s = made ∧ cm_refused s = false ∧ cm_answered s = false.

(** A patch to another phase. *)
Lemma completing_patch_other req p msg vol made s :
  p ≠ DownloadPhaseCompleted → uncompleted vol made s →
  safe completing (patchDownloadByStatusWithRetry c req p msg) (λ o s', uncompleted vol made s' ∧ match o with
    | Returned (Ok d) => d = cm_record s'
    | Returned (Err _) => True
    | _ => False
    end) s.
Proof.
  intros Hp Hs. eapply safe_mono.
  - apply (safe_patchDownloadByStatusWithRetry completing c (uncompleted vol made)
      (λ d s', uncompleted vol made s' ∧ d = cm_record s')); [done|].
    intros s' old new (Hph & Hvol & Hmade & Href & Hans) _ _ Hw [_ Hk] r.
    assert (Hnew : d_Phase new ≠ DownloadPhaseCompleted) by (destruct Hw; congruence).
    assert (Hv : ds_VolumeID (d_Status new) = ds_VolumeID (d_Status old)) by (destruct Hk as [[?|[? _]] _]; done).
    destruct r as [d|e]; cbn; [unfold assume; case_bool_decide as Hd; [split; [|exact Hd]|done]|];
      unfold uncompleted; cbn; rewrite ?Href, ?Hans, ?(bool_decide_false (d_Phase new = _)) by done; split_and!; try done.
    + unfold merge_field. by case_bool_decide.
    + unfold merge_field. by rewrite Hv, bool_decide_true.
  - intros [[d|e]|w|w] s'; cbn; [naive_solver|by split|done..].
Qed.

(** The object and the server after the tries so far of a patch to [Completed]. *)
Definition refused_so_far (req : Download) (msg : string) (s : completion) (st : Download) (s' : completion) : Prop :=
  (st = req ∧ s' = s) ∨
  (d_Phase st = DownloadPhaseCompleted ∧ ds_VolumeID (d_Status st) = msg ∧
   s' = {| cm_world := cm_world s; cm_refused := true; cm_answered := false |}).

(** What the requests to complete the record come to. *)
Definition requested (msg : string) (s : completion) (r : result Download) (s' : completion) : Prop :=
  cm_made s' = cm_made s ∧
  if cm_refused s' then
    d_Phase (cm_record s') = d_Phase (cm_record s) ∧
    ds_VolumeID (d_Status (cm_record s')) = ds_VolumeID (d_Status (cm_record s)) ∧
    (is_Some (answered_id r) ↔ cm_answered s' = true)
  else d_Phase (cm_record s') = DownloadPhaseCompleted ∧ ds_VolumeID (d_Status (cm_record s')) = msg ∧
    cm_answered s' = true ∧ is_Some (answered_id r).

Lemma completing_try req msg s st s' :
  req = cm_record s → d_Phase req ≠ DownloadPhaseCompleted → cm_refused s = false → cm_answered s = false →
  refused_so_far req msg s st s' →
  safe completing (patchDownloadByStatus c st DownloadPhaseCompleted msg) (λ o s2, match o with
    | Returned (st', Ok d) => requested msg s (Ok d) s2
    | Returned (st', Err e) => refused_so_far req msg s st' s2 ∧ requested msg s (Err e) s2
    | _ => False
    end) s'.
Proof.
  intros Hreq Hph Href Hans Hst. unfold patchDownloadByStatus, patchDownload, mutateDownloadCompleted.
  intros e. apply safe_assume. intros ->%bool_decide_eq_true. cbn [bind]. intros now. cbn [completing bind].
  match goal with |- context [MarshalJSON KDownload ?n] => set (new := n) end. intros e. apply safe_assume. intros ->%bool_decide_eq_true. cbn [bind].
  intros e. apply safe_assume. intros ->%bool_decide_eq_true. cbn [bind].
  assert (Hn : d_Phase new = DownloadPhaseCompleted) by done.
  assert (Hm : ds_VolumeID (d_Status new) = msg) by done. clearbody new.
  intros [d|e].
  - apply safe_assume. intros _. unfold on_request. rewrite (bool_decide_true (d_Phase new = _)) by done.
    destruct Hst as [[-> ->]|(Hc & Hv & ->)]; cbn; unfold requested; cbn; rewrite ?Href; split; try done.
    + rewrite Hn, Hm, <-Hreq. unfold merge_field. rewrite bool_decide_false by congruence.
      split; [done|]. split; [by case_bool_decide|]. split; [apply orb_true_r|by eexists].
    + rewrite Hn, Hm, Hc, Hv. unfold merge_field. rewrite !bool_decide_true by done.
      split; [done|]. split; [done|]. split; [by intros _|by eexists].
  - cbn [completing]. unfold on_request. rewrite (bool_decide_true (d_Phase new = _)) by done. cbn.
    assert (Heq : {| cm_world := cm_world s'; cm_refused := cm_refused s' || true; cm_answered := cm_answered s' |} =
      {| cm_world := cm_world s; cm_refused := true; cm_answered := false |}).
    { destruct Hst as [[-> ->]|(_ & _ & ->)]; cbn; [by rewrite Hans, orb_true_r|done]. }
    rewrite Heq. split; [by right|]. unfold requested. cbn. split; [done|]. split; [done|]. split; [done|].
    by split; [intros []|].
Qed.

Lemma completing_patch_completed req msg s :
  req = cm_record s → d_Phase req ≠ DownloadPhaseCompleted → cm_refused s = false → cm_answered s = false →
  safe completing (patchDownloadByStatusWithRetry c req DownloadPhaseCompleted msg) (λ o s', match o with
    | Returned r => requested msg s r s' | _ => False end) s.
Proof.
  intros Hreq Hph Href Hans. unfold patchDownloadByStatusWithRetry. apply safe_bind. eapply safe_mono.
  - apply (safe_PollImmediate _ _ (refused_so_far req msg s)
      (λ o s', match o with Returned (_, r) => requested msg s r s' | _ => False end)); [by left|].
    intros st s' Hst. apply safe_bind. eapply safe_mono; [by apply (completing_try req msg s)|].
    intros [[st' [d|e]]|w|w] s2; cbn; [done| |done..]. intros [Hr Hq]. split; [exact Hr|].
    destruct Hq as [Hq1 Hq2]. split; [exact Hq1|]. destruct (cm_refused s2); [|by destruct Hq2 as (_ & _ & _ & [])].
    destruct Hq2 as (? & ? & ?). auto.
  - intros [[st r]|w|w] s'; cbn; auto.
Qed.

(** *** The run *)

(** How a run ends from a record that is not completed and names the volume [vol]. *)
Definition completion_ended (vol : string) (o : outcome (option error)) (s : completion) : Prop :=
  match o with
  | Returned r =>
      if cm_refused s then
        d_Phase (cm_record s) ≠ DownloadPhaseCompleted ∧ ds_VolumeID (d_Status (cm_record s)) = vol ∧
        (∃ v, cm_made s = [v]) ∧ (r = None ↔ cm_answered s = true)
      else r = None → d_Phase (cm_record s) = DownloadPhaseCompleted ∧
        ∃ v, cm_made s = [v] ∧ ds_VolumeID (d_Status (cm_record s)) = PEIDString v
  | Panicked _ => uncompleted vol [] s
  | Hung _ => False
  end.

Lemma completing_retry req msg (f : result Download → error) vol s :
  uncompleted vol [] s →
  safe completing (let! r := patchDownloadByStatusWithRetry c req DownLoadPhaseRetry msg in Ret (Some (f r)))
    (completion_ended vol) s.
Proof.
  intros Hs. eapply safe_seq; [by apply completing_patch_other|..]; [|by intros w s' [? []]..].
  intros r s' [(_ & _ & _ & Href & _) _]. cbn. by rewrite Href.
Qed.

Lemma completing_doDownload req vol s :
  req = cm_record s → uncompleted vol [] s → safe completing (doDownload c req) (completion_ended vol) s.
Proof.
  intros Hreq Hs. pose proof Hs as (Hph & Hvol & Hmade & Href & Hans). unfold doDownload.
  destruct (NewProtectedEntityIDFromString (ds_SnapshotID _)) as [peID|e]; [|by apply completing_retry].
  destruct (downloadTarget req) as [[options target]|e]; [|cbn; by rewrite Href].
  eapply safe_seq; [apply completing_copyDownload|..]; [|by intros w s' ->|by intros w s' []].
  intros [[id|e]|e] s' Hr; cbn in Hr; subst s'; [|by apply completing_retry|cbn; by rewrite Href].
  eapply safe_seq; [apply completing_patch_completed; cbn; congruence|..]; [|by intros w s' []..].
  intros r s' [Hm Hr]. cbn in Hm. rewrite Hmade in Hm. unfold completion_ended.
  destruct (cm_refused s') eqn:Hrs.
  - destruct Hr as (Hp & Hv & Hiff). cbn in Hp, Hv. destruct r as [d|e]; cbn; rewrite Hrs.
    + split; [congruence|]. split; [congruence|]. split; [eauto|]. split; [intros _; apply Hiff; by eexists|done].
    + split; [congruence|]. split; [congruence|]. split; [eauto|]. split; [done|]. intros Ha. by destruct (proj2 Hiff Ha).
  - destruct Hr as (Hp & Hv & _ & Ha). destruct r as [d|e]; [|by destruct Ha]. cbn. rewrite Hrs. intros _. eauto.
Qed.

(** C13. A download whose record is not completed, on any server that applies merge patches, any other call
    failing or not.  When a request to record the completion is refused, no later request of the run
    records it: the volume has been made or overwritten, but the record is not completed and names
    the volume that it named before; and the run returns nil just when a
    retried request was answered with success, although it recorded no phase and no volume.
    When none is refused, nil means that the record is completed and names the one
    volume that was made. *)
Theorem refused_completion_is_lost req d :
  d_Phase d ≠ DownloadPhaseCompleted →
  safe completing (processDownload c req) (completion_ended (ds_VolumeID (d_Status d))) (completion_start d).
Proof.
  intros Hd. unfold processDownload. intros [d'|e]; [|done]. cbn [completing].
  apply safe_assume. intros ->%bool_decide_eq_true. cbn [bind]. cbn [cm_world completion_start dw_record].
  rewrite bool_decide_false by done.
  assert (Hs : uncompleted (ds_VolumeID (d_Status d)) [] (completion_start d)) by by split_and!.
  case_bool_decide.
  - eapply safe_seq; [by apply completing_patch_other|..]; [|by intros w s' [? []]..].
    intros [d'|e] s' [Hs' Hr]; [by apply completing_doDownload|]. cbn. destruct Hs' as (_ & _ & _ & Href & _).
    by rewrite Href.
  - by apply completing_doDownload.
Qed.
End completion.
