(* ===== verification/DownloadRuns.v ===== *)
(** * Schedules of the download system

    Executions of the system of [DownloadSystem], on a server whose copies and patches succeed
    or fail as told. *)

From S2P Require Export DownloadSystem DownloadCompletion Instance.
Open Scope Z_scope.

(** A goroutine starts to process the Download. *)
Definition Fetch `{Deps} (c : downloadController) : action (W := download_world) :=
  Start (λ w, processDownload c (dw_record w)).

Lemma allowed_Fetch `{Deps} c : allowed (Fetch c).
Proof. intros w. by apply start_download. Qed.

(** ** A server *)

(** The volume made next. *)
Definition next_volume (w : download_world) : peid :=
  PeId "ivd" ("vol-" +:+ pretty (length (dw_made w))) None.

(** The server of one Download: every copy makes another volume; copies and patches succeed or
    fail as told, everything else it can answer succeeds. *)
Definition serve_download (copies patches : bool) : handler Cmd download_world := λ X e w,
  match e in Cmd X return X * download_world with
  | GetObj _ k ns name =>
      match k return result (obj k) * download_world with
      | KDownload => (if asks_download w ns name then Ok (dw_record w) else Err unavailable, w)
      | KBackupStorageLocation => (Ok {|
          bsl_Meta := meta "velero" "default" ∅; bsl_Provider := "aws"; bsl_Config := {["region" := "us-1"]};
          bsl_Bucket := Some "bucket"; bsl_CACert := None |}, w)
      | _ => (Err unavailable, w)
      end
  | PatchObj _ k ns name old new =>
      match k return obj k → obj k → result (obj k) * download_world with
      | KDownload => λ old new,
          if patches && asks_download w ns name
          then (Ok (dw_record (dw_on_patch old new w)), dw_on_patch old new w)
          else (Err unavailable, w)
      | _ => λ _ _, (Err unavailable, w)
      end old new
  | LoadClientConfig => (Ok (cl_config a_client), w)
  | NewForConfig _ => (Ok a_client, w)
  | LookupEnv _ => (Some "velero", w)
  | NewSession _ => (None, w)
  | NewS3Repository _ _ _ => (Ok tt, w)
  | PetmGetProtectedEntity _ id => (Ok id, w)
  | PetmCopy _ _ _ _ =>
      if copies then (Ok (next_volume w), dw_on_made (next_volume w : PE) w) else (Err unavailable, w)
  | PeOverwrite target _ => if copies then (None, dw_on_made target w) else (Some unavailable, w)
  | e => (default_answer e, w)
  end.

Lemma serve_download_consistent copies patches : consistent (serve_download copies patches).
Proof.
  intros w X e. destruct e; cbn; try done.
  - destruct k; cbn; try done. by destruct (asks_download w ns name) eqn:Ha.
  - destruct k; cbn; try done. destruct patches; cbn; [|by left].
    destruct (asks_download w ns name) eqn:Ha; cbn; [done|by left].
  - by destruct copies.
  - by destruct copies.
Qed.

Ltac download_schedule_tac :=
  repeat constructor; first [apply allowed_Fetch|apply serve_download_consistent].

Definition a_downloader : downloadController := {|
  dc_downloadClient := a_client; dc_nodeName := "node-1"; dc_dataMover := {| dm_ivdPETM := TmIvd |} |}.

Definition a_new_download : Download :=
  Download.NextRetryTimestamp 0 (Download.Phase DownloadPhaseNew
    (Download.SnapshotID "ivd:disk-1:snap-1" (Download.ForDownload "velero" "download-1"))).

(** ** A volume that nothing names *)

(** The copy succeeds, and one request to record the completion fails; the informer brings the
    Download up again. *)
Definition forgotten_volume : list (action (W := download_world)) :=
  [Fetch a_downloader; Advance 0 16 (serve_download true true);
   Advance 0 7 (serve_download true false); Advance 0 100 (serve_download true true);
   Fetch a_downloader; Advance 1 100 (serve_download true true)].

(** When the first request to record a completed download fails, the
    retried one leaves the server's record in progress, the run answers nil all the same, and
    the next run makes another volume: the Download is completed, both runs answered nil, and of the
    two volumes that were made the record names only the second. *)
Theorem download_volume_forgotten :
  ∃ w ts, rtc sys_step (initial_download a_new_download, []) (w, ts) ∧
    result_of <$> ts = [Some None; Some None] ∧ d_Phase (dw_record w) = DownloadPhaseCompleted ∧
    dw_made w = [PeId "ivd" "vol-0" None; PeId "ivd" "vol-1" None] ∧
    ds_VolumeID (d_Status (dw_record w)) = PEIDString (PeId "ivd" "vol-1" None).
Proof.
  exists (play forgotten_volume (initial_download a_new_download, [])).1,
    (play forgotten_volume (initial_download a_new_download, [])).2.
  rewrite <-surjective_pairing. split; [apply play_reachable|vm_compute; auto].
  download_schedule_tac.
Qed.

(** ** A completed download that is tried again *)

(** Two nodes process the Download, the first one having lost its lease; the second completes
    it, then the copy of the first fails. *)
Definition late_failure : list (action (W := download_world)) :=
  [Fetch a_downloader; Advance 0 10 (serve_download true true);
   Fetch a_downloader; Advance 1 100 (serve_download true true);
   Advance 0 100 (serve_download false true)].

(** A node whose copy fails after another node completed the
    Download writes [Retry] over [Completed]: both have ended, the second with nil, the record has the time of
    its completion and names the volume made, and the next run makes another one in its place. *)
Theorem completed_download_reopened :
  ∃ w ts, rtc sys_step (initial_download a_new_download, []) (w, ts) ∧
    (∃ e, result_of <$> ts = [Some (Some e); Some None]) ∧
    d_Phase (dw_record w) = DownLoadPhaseRetry ∧
    ds_CompletionTimestamp (d_Status (dw_record w)) ≠ None ∧
    ds_VolumeID (d_Status (dw_record w)) = PEIDString (PeId "ivd" "vol-0" None) ∧
    let (o, w') := run (serve_download true true) (processDownload a_downloader (dw_record w)) w in
    o = Returned None ∧ d_Phase (dw_record w') = DownloadPhaseCompleted ∧
    dw_made w' = [PeId "ivd" "vol-0" None; PeId "ivd" "vol-1" None] ∧
    ds_VolumeID (d_Status (dw_record w')) = PEIDString (PeId "ivd" "vol-1" None).
Proof.
  exists (play late_failure (initial_download a_new_download, [])).1,
    (play late_failure (initial_download a_new_download, [])).2.
  rewrite <-surjective_pairing. split; [apply play_reachable; download_schedule_tac|split].
  - vm_compute. by eexists.
  - by vm_compute.
Qed.

Example download_system_invariant_witness :
  rtc sys_step (initial_download a_new_download, []) (play late_failure (initial_download a_new_download, [])) ∧
  d_Meta (dw_record (play late_failure (initial_download a_new_download, [])).1) = d_Meta a_new_download.
Proof.
  assert (Hr : rtc sys_step (initial_download a_new_download, [])
                 (play late_failure (initial_download a_new_download, []))).
  { apply play_reachable. download_schedule_tac. }
  split; [exact Hr|]. destruct (play _ _) as [w ts].
  destruct (download_system_invariant a_new_download w ts) as (_ & _ & Hm & _);
    [by right|by exists 0|exact Hr|exact Hm].
Defined.

Example refused_completion_is_lost_witness :
  d_Phase a_new_download ≠ DownloadPhaseCompleted ∧
  safe completing (processDownload a_downloader a_new_download) (completion_ended "") (completion_start a_new_download).
Proof.
  assert (Hp : d_Phase a_new_download ≠ DownloadPhaseCompleted) by done.
  split; [exact Hp|]. exact (refused_completion_is_lost a_downloader a_new_download a_new_download Hp).
Defined.
