(* ===== verification/RestoreLoss.v ===== *)
(** * Downloads for nobody

    What a restore does when the server stored its Download but the answer got lost. *)

From S2P Require Export SnapshotManager.
Open Scope Z_scope.

Section loss.
Context `{Deps} (lost : error → bool).

(** The Download that was stored although its creation was answered with an error, how often its
    creation was asked for, and how often the ticker fires for the poll of the creation. *)
Record sent := { sn_lost : option Download; sn_tries : nat; sn_ticks : nat }.

Definition sent_start : sent := {| sn_lost := None; sn_tries := 0; sn_ticks := 0 |}.

Definition on_create (d : Download) (r : result Download) (s : sent) : sent :=
  {| sn_lost := match sn_lost s, r with None, Err e => if lost e then Some d else None | l, _ => l end;
     sn_tries := S (sn_tries s); sn_ticks := sn_ticks s |}.

(** [lost] are the errors that come back although the object was stored.  The server refuses
    what it has already; it is asked for nothing else, and nothing is taken back. *)
Definition sending : monitor Cmd sent := λ s X e,
  match e in Cmd X return X → verdict sent with
  | PollTicks _ _ => λ n, Next {| sn_lost := sn_lost s; sn_tries := sn_tries s; sn_ticks := n |}
  | CreateObj _ k ns d =>
      match k return obj k → result (obj k) → verdict sent with
      | KDownload => λ d r,
          if bool_decide (ns = d_Namespace d ∧ d_Phase d = DownloadPhaseNew) then
            match sn_lost s, r with
            | Some d', Ok _ => Impossible
            | Some d', Err _ => if bool_decide (d = d') then Next (on_create d r s) else Violation
            | None, _ => Next (on_create d r s)
            end
          else Violation
      | _ => λ _ _, Violation
      end d
  | UpdateStatusObj _ k _ _ =>
      match k with
      | KCloneFromSnapshot => λ _, if bool_decide (sn_lost s = None) then Next s else Violation
      | _ => λ _, Violation
      end
  | UpdateObj _ _ _ _ | PatchObj _ _ _ _ _ _ | DeleteObj _ _ _ _ => λ _, Violation
  | _ => λ _, Next s
  end.

(** How a restore of the snapshot [snapshot] ends. *)
Definition sent_end {A} (snapshot : string) (timeout : A → Prop) (o : outcome A) (s : sent) : Prop :=
  match sn_lost s with
  | Some d => (∃ a, o = Returned a ∧ timeout a) ∧ sn_tries s = S (sn_ticks s) ∧
      d_Phase d = DownloadPhaseNew ∧ ds_SnapshotID (d_Spec d) = snapshot
  | None => match o with Panicked _ => False | _ => True end
  end.

(** The tries to create the Download. *)
Lemma sending_creations c ns d s :
  sn_lost s = None → sn_tries s = O → ns = d_Namespace d → d_Phase d = DownloadPhaseNew →
  safe sending (PollImmediate (RetryInterval * Second) (RetryInterval * RetryMaximum * Second)
      (λ _, let? _ := call (CreateObj c KDownload ns d) else _ => Ret (tt, PollAgain) in Ret (tt, PollDone tt)) tt)
    (λ o s', match o with
      | Returned (_, Ok _) => sn_lost s' = None
      | Returned (_, Err e) => e = ErrWaitTimeout ∧ sn_tries s' = S (sn_ticks s') ∧
          (sn_lost s' = None ∨ sn_lost s' = Some d)
      | _ => False
      end) s.
Proof.
  intros Hl Ht Hns Hp n. cbn [sending].
  apply (safe_poll_count _ _ (λ m _ s', (sn_tries s' + m)%nat = S (sn_ticks s') ∧ (sn_lost s' = None ∨ sn_lost s' = Some d))).
  { cbn. rewrite Ht. auto. }
  intros m [] s' [Hm Hd]. cbn [bind call]. intros r. cbn [sending]. rewrite bool_decide_true by done.
  destruct Hd as [Hd|Hd]; rewrite Hd.
  - destruct r as [d'|e]; cbn; rewrite Hd; [done|]. cbn. destruct (lost e).
    + split; [split; [lia|by right]|]. intros ->. split_and!; [done|lia|by right].
    + split; [split; [lia|by left]|]. intros ->. split_and!; [done|lia|by left].
  - destruct r as [d'|e]; [done|]. rewrite bool_decide_true by done. cbn. rewrite Hd.
    split; [split; [lia|by right]|]. intros ->. split_and!; [done|lia|by right].
Qed.

(** What comes after the creation, when no answer was lost. *)
Lemma sending_wait c ns name s :
  sn_lost s = None →
  safe sending (PollImmediateInfinite Second (pollDownload c ns name)) (λ o s', sn_lost s' = None ∧
    match o with Panicked _ => False | _ => True end) s.
Proof.
  intros Hl. apply (safe_PollForever _ _ (λ s', sn_lost s' = None)); [done|done|by intros s' Hs w|].
  intros s' Hs. unfold pollDownload. intros [d|e]; [|done]. cbn. by repeat case_bool_decide.
Qed.

#[local] Arguments NewProtectedEntityIDFromString : simpl never.

Lemma sending_CreateVolumeFromSnapshot source target ps :
  safe sending (CreateVolumeFromSnapshot source target ps)
    (sent_end (PEIDString source) (λ r, r = Err ErrWaitTimeout)) sent_start.
Proof.
  unfold CreateVolumeFromSnapshot, CreatePluginClientSet, GetKubeClientConfig.
  intros [cfg|e]; [|done]. intros [c|e]; [|done]. intros [ns|]; [|done]. intros [uid|e]; [|done]. cbn [bind].
  destruct (GetStringFromParamsMap _ "CloneFromSnapshotNamespace") as [cloneNs nsExists].
  destruct (GetStringFromParamsMap _ "CloneFromSnapshotName") as [cloneName nameExists].
  destruct (GetStringFromParamsMap _ "BackupRepositoryName") as [br brExists].
  intros now1 now2. cbn [sending bind]. set (d := if bool_decide (target ≠ PEID_zero) then _ else _).
  assert (Hd : ns = d_Namespace d ∧ d_Phase d = DownloadPhaseNew ∧ ds_SnapshotID (d_Spec d) = PEIDString source).
  { subst d. by case_bool_decide. }
  destruct Hd as (Hns & Hp & Hid). clearbody d.
  assert (Hnone : ∀ (r : result PEID) s, sn_lost s = None → sent_end (PEIDString source) (λ r, r = Err ErrWaitTimeout) (Returned r) s).
  { intros r s Hl. unfold sent_end. by rewrite Hl. }
  eapply safe_seq; [by apply sending_creations|..]; [|by intros w s []..].
  intros [[] [[]|e]] s Hs.
  - eapply safe_seq; [by apply sending_wait|..].
    + intros [dl|e] s' [Hl _]; [|exact (Hnone _ _ Hl)].
      destruct (NewProtectedEntityIDFromString _) as [id|e]; [|exact (Hnone _ _ Hl)].
      destruct (nameExists && nsExists); [|exact (Hnone _ _ Hl)].
      intros [cl|e]; [|exact (Hnone _ _ Hl)]. intros r. cbn. rewrite bool_decide_true by done.
      destruct r; exact (Hnone _ _ Hl).
    + by intros w s' [Hl []].
    + intros w s' [Hl _]. unfold sent_end. by rewrite Hl.
  - destruct Hs as (-> & Ht & [Hl|Hl]); [exact (Hnone _ _ Hl)|]. cbn. unfold sent_end. rewrite Hl. eauto 10.
Qed.

(** C14. A restore, when the server stores the Download but the answer to its creation
    is an error, and then refuses to create it again, whatever else fails: it asks at every tick of its poll for the
    very same Download, still new and for the very snapshot, and then fails with a timeout; it
    writes nothing else, so that the Download stays, to be carried out for nobody.  A restore never panics. *)
Theorem lost_answer_leaves_download target source ps :
  safe sending (Overwrite target source ps)
    (sent_end (PEIDString (PE_GetID source)) (λ r, r = Some ErrWaitTimeout)) sent_start.
Proof.
  unfold Overwrite. eapply safe_seq; [apply sending_CreateVolumeFromSnapshot|..];
    unfold sent_end; intros r s; destruct (sn_lost s) as [d|] eqn:Hl; cbn; rewrite ?Hl; auto.
  - intros ((a & [= ->] & ->) & Hr). eauto.
  - by intros ((a & [=] & _) & _).
  - by intros ((a & [=] & _) & _).
Qed.
End loss.
