(* ===== verification/RestoreRuns.v ===== *)
(** * Schedules of restores and their Downloads

    Executions of the system of [RestoreSystem]: a restore that completes a CloneFromSnapshot, and
    one whose Download is carried out for nobody. *)

From S2P Require Export RestoreSystem DownloadRuns.
Open Scope Z_scope.

(** ** A server *)

Definition already_exists : error :=
  External {| ext_msg := "already exists"; ext_not_found := false;
              ext_already_exists := true; ext_canceled := false |}.

Definition next_made (w : restore_world) : peid :=
  PeId "ivd" ("vol-" +:+ pretty (length (rw_made w))) None.

(** The server of [serve_download] for all records; the answer to the creation of a
    Download is lost, or not. *)
Definition serve_restore (heard : bool) : handler Cmd restore_world := λ X e w,
  match e in Cmd X return X * restore_world with
  | GetObj _ k ns name =>
      match k return result (obj k) * restore_world with
      | KDownload => (from_option Ok (Err unavailable) (rw_downloads w !! (ns, name)), w)
      | KCloneFromSnapshot => (from_option Ok (Err unavailable) (rw_clones w !! (ns, name)), w)
      | KBackupStorageLocation => (Ok {|
          bsl_Meta := meta "velero" "default" ∅; bsl_Provider := "aws"; bsl_Config := {["region" := "us-1"]};
          bsl_Bucket := Some "bucket"; bsl_CACert := None |}, w)
      | _ => (Err unavailable, w)
      end
  | CreateObj _ k ns o =>
      match k return obj k → result (obj k) * restore_world with
      | KDownload => λ d,
          match rw_downloads w !! (ns, d_Name d) with
          | Some _ => (Err already_exists, w)
          | None => (if heard then Ok d else Err unavailable, with_record (ns, d_Name d) d w)
          end
      | _ => λ _, (Err unavailable, w)
      end o
  | PatchObj _ k ns name old new =>
      match k return obj k → obj k → result (obj k) * restore_world with
      | KDownload => λ old new,
          match rw_downloads w !! (ns, name) with
          | Some d => (Ok (merge_download old new d), with_record (ns, name) (merge_download old new d) w)
          | None => (Err unavailable, w)
          end
      | _ => λ _ _, (Err unavailable, w)
      end old new
  | UpdateStatusObj _ k ns o =>
      match k return obj k → result (obj k) * restore_world with
      | KCloneFromSnapshot => λ o,
          match rw_clones w !! (ns, c_Name o) with
          | Some cl => (Ok (take_status o cl), with_clone (ns, c_Name o) (take_status o cl) w)
          | None => (Err unavailable, w)
          end
      | _ => λ _, (Err unavailable, w)
      end o
  | LoadClientConfig => (Ok (cl_config a_client), w)
  | NewForConfig _ => (Ok a_client, w)
  | LookupEnv _ => (Some "velero", w)
  | NewUUID => (Ok (pretty (size (rw_downloads w))), w)
  | NewSession _ => (None, w)
  | NewS3Repository _ _ _ => (Ok tt, w)
  | PetmGetProtectedEntity _ id => (Ok id, w)
  | PetmCopy _ _ _ _ => (Ok (next_made w), with_volume (next_made w : PE) w)
  | PeOverwrite target _ => (None, with_volume target w)
  | e => (default_answer e, w)
  end.

Lemma serve_restore_consistent heard : consistent (serve_restore heard).
Proof.
  intros w X e. destruct e; cbn; try done.
  - destruct k; cbn; try done; (split; [done|]); by destruct (_ !! _).
  - destruct k; cbn; try done. destruct (_ !! _); cbn; [by split; [|eexists]|].
    destruct heard; cbn; [done|by right].
  - destruct k; cbn; try done. destruct (_ !! _); cbn; [done|by split; [|eexists]].
  - destruct k; cbn; try done. destruct (_ !! _); cbn; [done|by split; [|eexists]].
Qed.

(** ** The goroutines *)

Definition no_target : peid := PEID_zero.
Definition the_source : peid := PeId "ivd" "disk-1" (Some "snap-1").
Definition the_clone : CloneFromSnapshot := CloneFromSnapshot.ForCloneFromSnapshot "velero" "clone-1" ∅.

Definition the_params : gmap string params := {["CloneFromSnapshotReference" :=
  {["CloneFromSnapshotNamespace" := IString "velero"; "CloneFromSnapshotName" := IString "clone-1"]}]}.

(** The restore of a volume for the clone. *)
Definition the_restore : thread := Overwrite no_target the_source the_params.
Definition Restore : action (W := restore_world) := Start (λ _, the_restore).

Definition waiting_download (kd : string * string * Download) : bool :=
  bool_decide (download_key kd.2 = kd.1 ∧ d_Phase kd.2 = DownloadPhaseNew).

(** A node processes a Download that waits. *)
Definition Node : action (W := restore_world) :=
  Start (λ w, match List.find waiting_download (map_to_list (rw_downloads w)) with
              | Some kd => processDownload a_downloader kd.2
              | None => Overwrite no_target the_source ∅
              end).

Lemma allowed_Node : allowed Node.
Proof.
  intros w. cbn. destruct (List.find _ _) as [[k d]|] eqn:Hl; [|apply start_restore].
  apply List.find_some in Hl as [Hin [Hk _]%bool_decide_eq_true]. apply list_elem_of_In, elem_of_map_to_list in Hin.
  apply (start_node w a_downloader d d); [cbn in Hk; by rewrite Hk|done].
Qed.

Ltac restore_schedule_tac :=
  repeat constructor; first [apply allowed_Node|apply serve_restore_consistent|intros ?; apply start_restore].

Definition the_start : restore_world := RestoreWorld ∅ {[("velero", "clone-1") := the_clone]} [].

(** ** A restore *)

(** The restore, already there, sends the Download, a node carries it out, the restore goes on. *)
Definition restored_clone : list (action (W := restore_world)) :=
  [Advance 0 8 (serve_restore true); Node; Advance 1 100 (serve_restore true);
   Advance 0 100 (serve_restore true)].

Definition named_volume (w : restore_world) : option (ClonePhase * option string) :=
  (λ cl, (c_Phase cl, ref_Name <$> cs_ResourceHandle (c_Status cl))) <$> rw_clones w !! ("velero", "clone-1").

Example restored_clone_run :
  let '(w, ts) := play restored_clone (the_start, [the_restore]) in
  result_of <$> ts = [Some None; Some None] ∧ rw_made w = [PeId "ivd" "vol-0" None] ∧
  named_volume w = Some (ClonePhaseCompleted, Some (PEIDString (PeId "ivd" "vol-0" None))).
Proof. by vm_compute. Qed.

Example restore_system_invariant_witness :
  no_restore_yet the_start ∧
  ∃ w ts, rtc sys_step (the_start, []) (w, ts) ∧ ts !! 0%nat = Some (Ret None) ∧
    ∃ k d, rw_downloads w !! k = Some d ∧ ds_SnapshotID (d_Spec d) = PEIDString the_source ∧
           volume_in (rw_made w) (ds_VolumeID (d_Status d)).
Proof.
  assert (H0 : no_restore_yet the_start) by (split; [done|]; by apply map_Forall_singleton).
  split; [exact H0|]. set (s := play restored_clone (the_start, [the_restore])).
  assert (H1 : rtc sys_step (the_start, []) (the_start, [the_restore])).
  { apply rtc_once, (sys_start the_restore _ []), start_restore. }
  assert (H2 : rtc sys_step (the_start, [the_restore]) s) by (apply play_reachable; restore_schedule_tac).
  assert (Hnil : s.2 !! 0%nat = Some (Ret None)).
  { assert (Hr : result_of <$> s.2 = [Some None; Some None]) by by vm_compute. by apply (ended_at _ _ 0%nat None Hr). }
  rewrite (surjective_pairing s) in H2. clearbody s.
  exists s.1, s.2. split; [by transitivity (the_start, [the_restore])|]. split; [exact Hnil|].
  by apply (restore_system_invariant the_start the_start [] no_target the_source the_params s.1 s.2).
Defined.

(** ** A Download for nobody *)

(** The server stores the Download, but the answer is lost; every further try is refused.  A
    node carries the Download out.  The driver tries the restore again. *)
Definition lost_answer : list (action (W := restore_world)) :=
  [Restore; Advance 0 100 (serve_restore false); Node; Advance 1 100 (serve_restore true);
   Restore; Advance 2 8 (serve_restore true); Node; Advance 3 100 (serve_restore true);
   Advance 2 100 (serve_restore true)].

(** When the answer to the creation of the Download is lost, the tries that
    follow meet the Download that is there, and the restore fails with a timeout; nodes
    carry that Download out all the same, and the next restore has a second volume made of
    the snapshot: both Downloads are completed, and the clone names the second volume only. *)
Theorem restore_for_nobody :
  ∃ w ts, rtc sys_step (the_start, []) (w, ts) ∧
    result_of <$> ts = [Some (Some ErrWaitTimeout); Some None; Some None; Some None] ∧
    rw_made w = [PeId "ivd" "vol-0" None; PeId "ivd" "vol-1" None] ∧
    Forall (λ kd, d_Phase kd.2 = DownloadPhaseCompleted ∧
                  ds_SnapshotID (d_Spec kd.2) = PEIDString the_source) (map_to_list (rw_downloads w)) ∧
    named_volume w = Some (ClonePhaseCompleted, Some (PEIDString (PeId "ivd" "vol-1" None))).
Proof.
  set (s := play lost_answer (the_start, [])). exists s.1, s.2. rewrite <-surjective_pairing.
  split; [apply play_reachable; restore_schedule_tac|]. vm_compute. split_and!; [done..| |done].
  by repeat constructor.
Qed.
