(* ===== verification/DownloadLiveness.v ===== *)
(** * Downloads get done

    On a healthy cluster the queue's handler brings every Download to its end: it is completed
    when the copies stop failing in time, and otherwise it is failed. *)

From S2P Require Export Healthy DownloadRuns.
Open Scope Z_scope.

Section liveness.
Context `{Deps} (c : downloadController).

(** The queue's view of a Download: the handler runs again while it answers an error, at most
    [k] more times. *)
Fixpoint download_tries (key : string) (k : nat) : io (option error) :=
  match k with
  | O => processDownloadItem c key
  | S k =>
      let! r := processDownloadItem c key in
      match r with
      | Some _ => download_tries key k
      | None => Ret None
      end
  end.

(** ** A healthy cluster *)

Definition answers_record (w : download_world) (ns name : string) (r : result Download)
    (s : nat * download_world) : verdict (nat * download_world) :=
  if asks_download w ns name then
    match r with Ok d => assume (bool_decide (d = dw_record w)) s | Err _ => Impossible end
  else Violation.

(** All requests succeed but the next [s.1] copies, the lister knows the current record, and the
    node gets the lease and keeps it; [s.2] is the shared state. *)
Definition fetching : monitor Cmd (nat * download_world) := λ s X e,
  let w := s.2 in
  match e in Cmd X return X → verdict (nat * download_world) with
  | LoadClientConfig => λ r, assume (is_ok r) s
  | NewForConfig _ => λ r, assume (is_ok r) s
  | ListerGet k ns name =>
      match k return result (obj k) → verdict (nat * download_world) with
      | KDownload => λ r, answers_record w ns name r s
      | _ => λ _, Next s
      end
  | GetObj _ k ns name =>
      match k return result (obj k) → verdict (nat * download_world) with
      | KDownload => λ r, answers_record w ns name r s
      | KBackupRepository => λ r,
          match r with Ok br => assume (usable br) s | Err _ => Impossible end
      | KBackupStorageLocation => λ r, match r with
          | Ok bsl => assume (bool_decide (is_Some (bsl_Bucket bsl))) s
          | Err _ => Impossible end
      | _ => λ _, Next s
      end
  | PatchObj _ k ns name old new =>
      match k return obj k → obj k → result (obj k) → verdict (nat * download_world) with
      | KDownload => λ old new r, if asks_download w ns name then
          match r with
          | Ok u => assume (bool_decide (u = dw_record (dw_on_patch old new w)))
                      (s.1, dw_on_patch old new w)
          | Err _ => Impossible
          end else Violation
      | _ => λ _ _ _, Violation
      end old new
  | MarshalJSON _ _ => λ r, assume (bool_decide (r = None)) s
  | CreateMergePatch _ _ _ => λ r, assume (bool_decide (r = None)) s
  | LookupEnv _ => λ r, assume (bool_decide (is_Some r)) s
  | NewSession _ => λ r, assume (bool_decide (r = None)) s
  | NewS3Repository _ _ _ => λ r, assume (is_ok r) s
  | RunOrDie _ _ _ => λ l, match l with LeaseHeld => Next s | _ => Impossible end
  | PetmGetProtectedEntity _ _ => λ r, assume (is_ok r) s
  | PetmCopy _ _ _ _ => λ r,
      match s.1, r with
      | O, Ok pe => Next (O, dw_on_made pe w)
      | S n, Err _ => Next (n, w)
      | _, _ => Impossible
      end
  | PeOverwrite target _ => λ r,
      match s.1, r with
      | O, None => Next (O, dw_on_made target w)
      | S n, Some _ => Next (n, w)
      | _, _ => Impossible
      end
  | CreateObj _ _ _ _ | UpdateObj _ _ _ _ | UpdateStatusObj _ _ _ _ | DeleteObj _ _ _ _ =>
      λ _, Violation
  | _ => λ _, Next s
  end.

#[export] Instance fetching_quiet : Quiet fetching.
Proof.
  intros s X e x Hq. destruct e; try discriminate Hq; cbn; unfold assume; repeat case_match; auto.
Qed.

#[export] Instance fetching_healthy : Healthy fetching.
Proof.
  intros s X e f x. destruct e; cbn; try discriminate; try (by intros [= <-]).
  destruct k; try discriminate; intros [= <-]; by destruct x.
Qed.

(** *** Patches *)

(** What the patch for [p] makes of the record. *)
Definition recorded_download (p : DownloadPhase) (msg : string) (r r' : Download) : Prop :=
  let st := d_Status r in let st' := d_Status r' in
  same_but_download_status r r' ∧
  match p with
  | DownloadPhaseInProgress => d_Phase r' = DownloadPhaseInProgress ∧
      ds_RetryCount st' = if bool_decide (d_Phase r = DownloadPhaseNew) then MIN_RETRY else ds_RetryCount st
  | DownLoadPhaseRetry =>
      if DOWNLOAD_MAX_RETRY <? ds_RetryCount st
      then d_Phase r' = DownloadPhaseFailed ∧ is_Some (ds_CompletionTimestamp st')
      else d_Phase r' = DownLoadPhaseRetry ∧ ds_RetryCount st' = int32 (ds_RetryCount st + 1)
  | DownloadPhaseCompleted => d_Phase r' = DownloadPhaseCompleted ∧ ds_VolumeID st' = msg ∧
      is_Some (ds_CompletionTimestamp st')
  | _ => False
  end.

(** A server that holds [old] applies the patch from [old] to [new] as [new]. *)
Lemma merge_download_current old new : same_but_download_status old new → merge_download old new old = new.
Proof.
  intros [Hs Hm]. assert (Hf : ∀ A (HA : EqDecision A) (x y : A), merge_field x y x = y).
  { intros A HA x y. unfold merge_field. by case_bool_decide. }
  destruct old as [mo so []], new as [mn sn []]. cbn in Hs, Hm. subst. unfold merge_download. cbn.
  rewrite !Hf. by destruct so.
Qed.

(** The state after the server took over the record [d]. *)
Definition with_download (w : download_world) (d : Download) : download_world :=
  DownloadWorld d (dw_made w).

Lemma asks_download_self w r :
  d_Meta r = d_Meta (dw_record w) → asks_download w (d_Namespace r) (d_Name r) = true.
Proof. intros Hm. apply bool_decide_eq_true. unfold d_Namespace, d_Name. by rewrite Hm. Qed.

Lemma safe_record {A} w ns name (k : result Download → io A) Q s :
  asks_download w ns name = true → safe fetching (k (Ok (dw_record w))) Q s →
  ∀ r, match answers_record w ns name r s with
       | Next s' => safe fetching (k r) Q s' | Violation => False | Impossible => True end.
Proof.
  intros Ha Hk r. unfold answers_record. rewrite Ha. destruct r as [d|e]; [|done].
  apply safe_assume. by intros ->%bool_decide_eq_true.
Qed.

Lemma fetch_patchDownload p msg n w mutate :
  (∀ s, safe fetching (mutate (dw_record w)) (λ o s', s' = s ∧ ∃ r', o = Returned r' ∧
     recorded_download p msg (dw_record w) r') s) →
  safe fetching (patchDownload c (dw_record w) mutate) (λ o s', ∃ r' u,
     o = Returned (r', Ok u) ∧ recorded_download p msg (dw_record w) u ∧ s' = (n, with_download w u)) (n, w).
Proof.
  intros Hmut. unfold patchDownload. cbn. intros e1. apply safe_assume.
  intros ->%bool_decide_eq_true. cbn. eapply safe_seq; [apply Hmut|..].
  2,3: by intros ? ? (? & ? & ? & ?).
  intros r s (-> & r' & [= ->] & Hr). cbn. intros e2. apply safe_assume. intros ->%bool_decide_eq_true.
  intros e3. apply safe_assume. intros ->%bool_decide_eq_true. cbn.
  pose proof Hr as ([Hs Hm] & _). rewrite asks_download_self by done. intros [u|e]; [|done]. apply safe_assume.
  intros ->%bool_decide_eq_true. cbn. eexists _, _. split; [done|].
  unfold dw_on_patch. rewrite merge_download_current by done. done.
Qed.

Lemma fetch_patch p msg n w :
  p = DownloadPhaseInProgress ∨ p = DownLoadPhaseRetry ∨ p = DownloadPhaseCompleted →
  safe fetching (patchDownloadByStatusWithRetry c (dw_record w) p msg) (λ o s', ∃ u,
     o = Returned (Ok u) ∧ recorded_download p msg (dw_record w) u ∧ s' = (n, with_download w u)) (n, w).
Proof.
  intros Hp. unfold patchDownloadByStatusWithRetry. eapply safe_seq; [|..].
  - apply (safe_PollImmediate _ _ (λ st s', st = dw_record w ∧ s' = (n, w))
      (λ o s', ∃ r' u, o = Returned (r', Ok u) ∧ recorded_download p msg (dw_record w) u ∧
               s' = (n, with_download w u))); [done|].
    intros st s [-> ->]. eapply safe_seq.
    + instantiate (1 := λ o s', ∃ r' u, o = Returned (r', Ok u) ∧
        recorded_download p msg (dw_record w) u ∧ s' = (n, with_download w u)).
      unfold patchDownloadByStatus. destruct Hp as [-> |[-> | ->]]; [|destruct (DOWNLOAD_MAX_RETRY <? _) eqn:Hmax|];
        apply fetch_patchDownload; intros s;
        unfold mutateDownloadInProgress, mutateDownloadRetry, mutateDownloadFailed, mutateDownloadCompleted; cbn;
        [destruct (bool_decide _) eqn:Hnew; cbn|..]; intros; split; try done;
        (eexists; split; [done|]); unfold recorded_download; cbn -[Z.ltb]; rewrite ?Hnew, ?Hmax; by eauto.
    + intros [r' r] s' (? & u & [= -> ->] & Hu & ->). cbn. eauto.
    + by intros ? ? (? & ? & ? & ?).
    + by intros ? ? (? & ? & ? & ?).
  - intros [r' r] s' (? & u & [= -> ->] & Hu & ->). cbn. eauto.
  - by intros ? ? (? & ? & ? & ?).
  - by intros ? ? (? & ? & ? & ?).
Qed.

(** *** Copies *)

(** What a copy comes to: as many faults as there are left. *)
Definition made (s : nat * download_world) (o : outcome (result PEID)) (s' : nat * download_world) : Prop :=
  match s.1 with
  | O => ∃ pe, o = Returned (Ok (PE_GetID pe)) ∧ s' = (O, dw_on_made pe s.2)
  | S n => s' = (n, s.2) ∧ ∃ e, o = Returned (Err e)
  end.

Lemma made_returned s o s' : made s o s' → ∃ r, o = Returned r.
Proof. unfold made. destruct s.1; naive_solver. Qed.

Lemma fetch_copyFromRepo d id target petm opts s :
  safe fetching (copyFromRepo d id target petm opts) (made s) s.
Proof.
  unfold copyFromRepo. cbn. intros [pe|]; cbn; [|done]. destruct s as [n w]. case_bool_decide; cbn.
  - intros [tpe|]; cbn; [|done]. destruct n; intros [e|]; cbn; try done; unfold made; cbn; eauto.
  - destruct n; intros [pe'|e]; cbn; try done; unfold made; cbn; eauto.
Qed.

Lemma fetch_with_repo d id target opts (p : io (result S3PETM)) s :
  safe fetching p (succeeds s) s →
  safe fetching (withReloadConfigLock (
    let? s3PETM := p else e => Ret (Err e) in copyFromRepo d id target s3PETM opts)) (made s) s.
Proof.
  intros Hp. unfold withReloadConfigLock. cbn. intros _. apply safe_defer.
  apply safe_mono with (Q := made s).
  - eapply safe_seq; [exact Hp|..].
    + intros r s' [-> [petm [= ->]]]. apply fetch_copyFromRepo.
    + by intros y s' [_ [petm ?]].
    + by intros y s' [_ [petm ?]].
  - intros o s' Ho. destruct (made_returned _ _ _ Ho) as [r ->]. by intros [].
Qed.

Lemma fetch_copyDownload req id target opts s :
  safe fetching (copyDownload c req id target opts)
    (λ o s', ∃ r, o = Returned (Ok r) ∧ made s (Returned r) s') s.
Proof.
  assert (Hend : ∀ (p : io (result PEID)), safe fetching p (made s) s →
    safe fetching (let! r := p in Ret (Ok r))
      (λ o s', ∃ r, o = Returned (Ok r) ∧ made s (Returned r) s') s).
  { intros p Hp. eapply safe_seq; [exact Hp|..].
    - intros r s' Hr. cbn. eauto.
    - by intros y s' [r ?]%made_returned.
    - by intros y s' [r ?]%made_returned. }
  unfold copyDownload. destruct (_ && _).
  - eapply safe_seq; [apply heal_GetBackupRepository, _|..].
    + intros r s' [-> (br & [= ->] & Hbr)]. apply Hend, fetch_with_repo. apply heal_GetRepository; [apply _|done].
    + by intros y s' [_ (? & ? & _)].
    + by intros y s' [_ (? & ? & _)].
  - apply Hend, fetch_with_repo, heal_GetDefaultS3PETM, _.
Qed.

(** *** One try *)

(** How often the download was tried, as far as the next try is concerned. *)
Definition fetch_attempts (d : Download) : Z :=
  if bool_decide (d_Phase d = DownloadPhaseNew) then MIN_RETRY else ds_RetryCount (d_Status d).

(** A record that the handler takes up. *)
Definition to_download (d : Download) : Prop :=
  match d_Phase d with
  | DownloadPhaseUnset | DownloadPhaseNew | DownloadPhaseInProgress | DownLoadPhaseRetry => True
  | _ => False
  end.

(** Its snapshot and the volume to overwrite, if it names one, can be read. *)
Definition well_named (d : Download) : Prop :=
  (∃ id, NewProtectedEntityIDFromString (ds_SnapshotID (d_Spec d)) = Ok id) ∧
  (∃ target, downloadTarget d = Ok target).

Definition awaiting (r : Z) (d : Download) : Prop :=
  to_download d ∧ fetch_attempts d = r ∧ well_named d.

Definition completed (w : download_world) : Prop :=
  d_Phase (dw_record w) = DownloadPhaseCompleted ∧
  is_Some (ds_CompletionTimestamp (d_Status (dw_record w))) ∧ names_made w.

(** Failed for good: nothing was made. *)
Definition given_up (w w' : download_world) : Prop :=
  d_Phase (dw_record w') = DownloadPhaseFailed ∧
  is_Some (ds_CompletionTimestamp (d_Status (dw_record w'))) ∧ dw_made w' = dw_made w.

(** What one try comes to. *)
Definition download_tried (r : Z) (w : download_world) (n : nat) (o : outcome (option error))
    (s' : nat * download_world) : Prop :=
  match n with
  | O => o = Returned None ∧ s'.1 = O ∧ completed s'.2
  | S n => (∃ e, o = Returned (Some e)) ∧ s'.1 = n ∧ d_Meta (dw_record s'.2) = d_Meta (dw_record w) ∧
      if DOWNLOAD_MAX_RETRY <? r then given_up w s'.2
      else awaiting (r + 1) (dw_record s'.2) ∧ dw_made s'.2 = dw_made w
  end.

Lemma well_named_spec d d' : d_Spec d' = d_Spec d → well_named d → well_named d'.
Proof. unfold well_named, downloadTarget. by intros ->. Qed.

Lemma fetch_doDownload w n r :
  d_Phase (dw_record w) = DownloadPhaseInProgress → ds_RetryCount (d_Status (dw_record w)) = r →
  well_named (dw_record w) → 0 ≤ r →
  safe fetching (doDownload c (dw_record w)) (download_tried r w n) (n, w).
Proof.
  intros Hph Hr Hn H0. pose proof Hn as [[id Hid] [[opts target] Ht]]. unfold doDownload.
  rewrite Hid, Ht.
  eapply safe_seq; [apply fetch_copyDownload|..].
  2,3: by intros ? ? (? & ? & _).
  intros a s' (x & [= ->] & Hx). destruct n as [|n]; cbn in Hx.
  - destruct Hx as (pe & [= ->] & ->). change (dw_record w) with (dw_record (dw_on_made pe w)).
    eapply safe_seq; [apply fetch_patch; auto|..].
    2,3: by intros ? ? (? & ? & _).
    intros u s' (d & [= ->] & (_ & Hc & Hv & Ht') & ->). split; [done|]. split; [done|].
    split_and!; [done..|]. unfold names_made. cbn. rewrite Hv. apply volume_in_last.
  - destruct Hx as [-> [e [= ->]]]. eapply safe_seq; [apply fetch_patch; auto|..].
    2,3: by intros ? ? (? & ? & _).
    intros u s' (d & [= ->] & ([Hs Hm] & Hd) & ->). cbn. split_and!; [by eexists|done|done|].
    rewrite Hr in Hd. destruct (Z.ltb_spec DOWNLOAD_MAX_RETRY r) as [Hlt|Hle]; destruct Hd as [Hd Hd'].
    + by split_and!.
    + split; [|done]. split_and!; [by unfold to_download; rewrite Hd| |by eapply well_named_spec].
      unfold fetch_attempts. rewrite Hd. cbn. rewrite Hd'. apply int32_id.
      unfold DOWNLOAD_MAX_RETRY in Hle. lia.
Qed.

Lemma fetch_processDownload req n w r :
  d_Meta req = d_Meta (dw_record w) → awaiting r (dw_record w) → 0 ≤ r →
  safe fetching (processDownload c req) (download_tried r w n) (n, w).
Proof.
  intros Hreq (Hto & Hr & Hn) H0. unfold processDownload. cbn.
  apply safe_record; [by apply asks_download_self|]. cbn. unfold to_download in Hto.
  rewrite bool_decide_false by (intros E; rewrite E in Hto; exact Hto). case_bool_decide as Hph.
  - eapply safe_seq; [apply fetch_patch; by left|..].
    2,3: by intros ? ? (? & ? & _).
    intros a s' (d & [= ->] & ([Hs Hm] & Hphd & Hcnt) & ->). cbn.
    change d with (dw_record (with_download w d)) at 1. eapply safe_mono.
    + apply fetch_doDownload; [done| |by eapply well_named_spec|exact H0]. cbn. by rewrite Hcnt.
    + intros o s'. destruct n; cbn; [done|]. by rewrite Hm.
  - cbn. apply fetch_doDownload; [done| |done..].
    unfold fetch_attempts in Hr. by rewrite Hph in Hr.
Qed.

(** *** The queue *)

Context (key : string).

Definition key_of (d : Download) : Prop :=
  SplitMetaNamespaceKey key = Ok (d_Namespace d, d_Name d).

Lemma key_of_meta d d' : d_Meta d' = d_Meta d → key_of d → key_of d'.
Proof. unfold key_of, d_Namespace, d_Name. by intros ->. Qed.

Lemma fetch_item n w r :
  key_of (dw_record w) → awaiting r (dw_record w) → 0 ≤ r →
  safe fetching (processDownloadItem c key) (download_tried r w n) (n, w).
Proof.
  intros Hk Ha H0. unfold processDownloadItem. rewrite Hk. cbn.
  apply safe_record; [by apply asks_download_self|]. pose proof Ha as (Hto & _). unfold to_download in Hto.
  destruct (d_Phase (dw_record w)); try done; cbn; intros []; try done; by apply fetch_processDownload.
Qed.

(** A Download that failed for good is left alone. *)
Lemma fetch_given_up n w w0 k :
  key_of (dw_record w) → given_up w0 w →
  safe fetching (download_tries key k) (λ o s', o = Returned None ∧ s' = (n, w)) (n, w).
Proof.
  intros Hk (Hf & _). assert (Hi : safe fetching (processDownloadItem c key)
    (λ o s', o = Returned None ∧ s' = (n, w)) (n, w)).
  { unfold processDownloadItem. rewrite Hk. cbn. apply safe_record; [by apply asks_download_self|].
    by rewrite Hf. }
  destruct k; cbn; [exact Hi|]. eapply safe_seq; [exact Hi|..]; [|by intros ? ? []..].
  by intros a s' [[= ->] ->].
Qed.

Definition download_result (r : Z) (n : nat) (w : download_world) (w' : download_world) : Prop :=
  if r + Z.of_nat n <=? DOWNLOAD_MAX_RETRY + 1 then completed w' else given_up w w'.

Lemma fetch_tries k n w r :
  key_of (dw_record w) → awaiting r (dw_record w) → 0 ≤ r ≤ DOWNLOAD_MAX_RETRY + 1 →
  (n ≤ k)%nat ∨ DOWNLOAD_MAX_RETRY + 2 - r ≤ Z.of_nat k →
  safe fetching (download_tries key k) (λ o s', o = Returned None ∧ download_result r n w s'.2) (n, w).
Proof.
  unfold download_result, DOWNLOAD_MAX_RETRY. revert n w r.
  induction k as [|k IH]; intros n w r Hk Ha Hr Hn; cbn [download_tries].
  - assert (n = O) as -> by lia. eapply safe_mono; [apply (fetch_item 0 w r); auto; lia|].
    intros o [n' w'] (-> & _ & Hc). split; [done|]. by rewrite (proj2 (Z.leb_le _ _)) by lia.
  - eapply safe_seq; [apply (fetch_item n w r); auto; lia|..].
    2,3: intros y s'; by destruct n; intros [? ?]; [|destruct H0].
    intros a [n' w']. destruct n as [|n]; cbn.
    { intros ([= ->] & _ & Hc). split; [done|]. by rewrite (proj2 (Z.leb_le _ _)) by lia. }
    intros ([e [= ->]] & -> & Hm & Hd). assert (Hk' : key_of (dw_record w')) by (by eapply key_of_meta).
    destruct (Z.ltb_spec DOWNLOAD_MAX_RETRY r) as [Hlt|Hle]; unfold DOWNLOAD_MAX_RETRY in *.
    + eapply safe_mono; [by eapply fetch_given_up|]. intros o s' [-> ->]. split; [done|].
      by rewrite (proj2 (Z.leb_gt _ _)) by lia.
    + destruct Hd as [Ha' Hmade]. eapply safe_mono; [apply (IH n w' (r + 1)); [done..|lia|lia]|].
      intros o [n'' w'']. replace (r + 1 + Z.of_nat n) with (r + Z.of_nat (S n)) by lia. unfold given_up.
      cbn. by rewrite Hmade.
Qed.

(** C8.  Every download comes to its end: on a cluster on which all requests
    succeed but [n] copies, the queue's handler of a Download that is to be downloaded,
    run again each time it answers an error, answers nil after at most seven
    tries, less those before; if the copies stop failing before, the Download is then completed, with its
    time and the ID of a volume that was made; otherwise it is failed, with its time, and no
    volume was made. *)
Theorem download_ends h k n w r :
  keeps fetching h → key_of (dw_record w) → awaiting r (dw_record w) →
  0 ≤ r ≤ DOWNLOAD_MAX_RETRY + 1 → (n ≤ k)%nat ∨ DOWNLOAD_MAX_RETRY + 2 - r ≤ Z.of_nat k →
  ∃ w' n', run h (download_tries key k) (n, w) = (Returned None, (n', w')) ∧
    if r + Z.of_nat n <=? DOWNLOAD_MAX_RETRY + 1 then completed w' else given_up w w'.
Proof.
  intros Hh Hk Ha Hr Hn.
  pose proof (safe_keeps fetching h (download_tries key k) _ (n, w) Hh (fetch_tries k n w r Hk Ha Hr Hn)) as Hrun.
  destruct (run h (download_tries key k) (n, w)) as [o [n' w']]. cbn in Hrun. destruct Hrun as [-> Hd]. eauto.
Qed.
End liveness.

(** ** A cluster that recovers *)

(** The next copies fail, as many as the first component says. *)
Definition fetching_server : handler Cmd (nat * download_world) := λ X e s,
  match e in Cmd X return X * (nat * download_world) with
  | PetmCopy _ _ _ _ =>
      match s.1 with
      | O => (Ok (next_volume s.2), (O, dw_on_made (next_volume s.2 : PE) s.2))
      | S n => (Err unavailable, (n, s.2))
      end
  | PeOverwrite target _ =>
      match s.1 with
      | O => (None, (O, dw_on_made target s.2))
      | S n => (Some unavailable, (n, s.2))
      end
  | ListerGet k ns name =>
      match k return result (obj k) * (nat * download_world) with
      | KDownload => (if asks_download s.2 ns name then Ok (dw_record s.2) else Err unavailable, s)
      | _ => (Err unavailable, s)
      end
  | GetObj _ KBackupRepository _ _ =>
      (Ok (BackupRepository.RepositoryParameters (Some {["region" := "us-1"; "bucket" := "b"]})
        (BackupRepository.RepositoryDriver (BackupRepository.ForBackupRepository "br-1"))), s)
  | RunOrDie _ _ _ => (LeaseHeld, s)
  | e => let '(x, w) := serve_download true true _ e s.2 in (x, (s.1, w))
  end.

Lemma fetching_server_keeps : keeps fetching fetching_server.
Proof.
  intros [n w] X e. destruct e; cbn; try done.
  - destruct k; cbn; try done. unfold answers_record. destruct (asks_download w ns name); [|done].
    unfold assume. by rewrite bool_decide_true.
  - destruct k; cbn; try done. destruct (asks_download w ns name); [|done]. cbn -[dw_on_patch]. unfold assume.
    by rewrite bool_decide_true.
  - destruct k; cbn; try done. unfold answers_record. destruct (asks_download w ns name); [|done].
    unfold assume. by rewrite bool_decide_true.
  - by destruct n.
  - by destruct n.
Qed.

(** After six failures the seventh try completes; a seventh failure is the last. *)
Example download_ends_witness :
  let w := initial_download a_new_download in
  keeps fetching fetching_server ∧ awaiting 0 a_new_download ∧
  (∃ w' n', run fetching_server (download_tries a_downloader "velero/download-1" 6) (6%nat, w) =
              (Returned None, (n', w')) ∧ completed w') ∧
  (∃ w' n', run fetching_server (download_tries a_downloader "velero/download-1" 7) (100%nat, w) =
              (Returned None, (n', w')) ∧ given_up w w').
Proof.
  assert (Ha : awaiting 0 a_new_download).
  { split; [exact I|]. split; [reflexivity|]. by split; eexists. }
  split; [exact fetching_server_keeps|]. split; [exact Ha|]. split.
  - apply (download_ends a_downloader "velero/download-1" fetching_server 6 6 (initial_download a_new_download) 0);
      [exact fetching_server_keeps|reflexivity|exact Ha|by vm_compute|by left].
  - apply (download_ends a_downloader "velero/download-1" fetching_server 7 100 (initial_download a_new_download) 0);
      [exact fetching_server_keeps|reflexivity|exact Ha|by vm_compute|by right].
Defined.
