(* ===== verification/UploadLiveness.v ===== *)
(** * Uploads get done

    On a healthy cluster an upload whose copy fails fewer times than the retry
    maximum is completed: every failed try leaves a record that the next try
    takes up again. *)

From S2P Require Export Healthy UploadRuns UploadRetry.
Open Scope Z_scope.

Section liveness.
Context `{Deps} (c : uploadController).

(** The queue's view of an Upload: the handler runs again while it answers an
    error, at most [k] more times. *)
Fixpoint tries (req : Upload) (k : nat) : io (option error) :=
  match k with
  | O => processUpload c req
  | S k =>
      let! r := processUpload c req in
      match r with
      | Some _ => tries req k
      | None => Ret None
      end
  end.

(** ** A healthy cluster *)

(** All requests succeed but the next [s.1] copies, which fail without being
    cancelled, and, when the cluster [refuses], the deletions of the snapshot, which is there;
    [s.2] is the shared state.  [m] is the configured maximum of retries. *)
Definition cluster (refuses : bool) (m : Z) : monitor Cmd (nat * world) := λ s X e,
  let w := s.2 in
  match e in Cmd X return X → verdict (nat * world) with
  | LoadClientConfig => λ r, assume (is_ok r) s
  | NewForConfig _ => λ r, assume (is_ok r) s
  | GetObj _ k ns name =>
      match k return result (obj k) → verdict (nat * world) with
      | KUpload => λ r, if asks_for w ns name then
          match r with Ok u => assume (bool_decide (u = w_record w)) s | Err _ => Impossible end
          else Violation
      | KBackupRepository => λ r,
          match r with Ok br => assume (usable br) s | Err _ => Impossible end
      | KBackupStorageLocation => λ r, match r with
          | Ok bsl => assume (bool_decide (is_Some (bsl_Bucket bsl))) s
          | Err _ => Impossible end
      | KConfigMap => λ r, assume (bool_decide (configured_maximum r = m)) s
      | _ => λ _, Next s
      end
  | PatchObj _ k ns name old new =>
      match k return obj k → obj k → result (obj k) → verdict (nat * world) with
      | KUpload => λ old new r, if asks_for w ns name then
          match r with
          | Ok u => assume (bool_decide (u = w_record (w_on_patch old new w)))
                      (s.1, w_on_patch old new w)
          | Err _ => Impossible
          end else Violation
      | _ => λ _ _ _, Violation
      end old new
  | MarshalJSON _ _ => λ r, assume (bool_decide (r = None)) s
  | CreateMergePatch _ _ _ => λ r, assume (bool_decide (r = None)) s
  | LookupEnv _ => λ r, assume (bool_decide (is_Some r)) s
  | NewSession _ => λ r, assume (bool_decide (r = None)) s
  | NewS3Repository _ _ _ => λ r, assume (is_ok r) s
  | PemGetTypeManager _ => λ r, match r with Some _ => Next s | None => Impossible end
  | PetmGetProtectedEntity _ _ => λ r, assume (is_ok r) s
  | PetmCopy _ _ _ _ => λ r,
      match s.1, r with
      | O, Ok _ => Next (O, w_on_copied w)
      | S n, Err e => assume (negb (IsCanceled e)) (n, w)
      | _, _ => Impossible
      end
  | PeListSnapshots _ => λ r,
      match r with
      | Ok [] => assume (negb refuses) (s.1, w_on_gone w)
      | Ok _ => Next s
      | Err _ => Impossible
      end
  | PeDeleteSnapshot _ _ _ => λ r,
      if refuses then assume (negb (is_ok r)) s else assume (is_ok r) (s.1, w_on_gone w)
  | CreateObj _ _ _ _ | UpdateObj _ _ _ _ | UpdateStatusObj _ _ _ _ | DeleteObj _ _ _ _ =>
      λ _, Violation
  | _ => λ _, Next s
  end.

(** The cluster on which only copies fail. *)
Definition recovering : Z → monitor Cmd (nat * world) := cluster false.


#[export] Instance cluster_quiet refuses m : Quiet (cluster refuses m).
Proof.
  intros s X e x Hq. destruct e; try discriminate Hq; cbn; unfold assume; repeat case_match; auto.
Qed.

#[export] Instance cluster_healthy refuses m : Healthy (cluster refuses m).
Proof.
  intros s X e f x. destruct e; cbn; try discriminate; try (by intros [= <-]).
  destruct k; try discriminate; intros [= <-]; by destruct x.
Qed.

Section cluster.
Context (refuses : bool) (m : Z).

(** *** Patches *)

(** What the status patches record that the tries depend on. *)
Definition recorded (p : UploadPhase) (r r' : Upload) : Prop :=
  same_but_status r r' ∧ u_Phase r' = p ∧
  match p with
  | UploadPhaseInProgress =>
      us_RetryCount (u_Status r') =
      if bool_decide (u_Phase r = UploadPhaseNew) then 0 else us_RetryCount (u_Status r)
  | UploadPhaseUploadError =>
      us_RetryCount (u_Status r') = int32 (us_RetryCount (u_Status r) + 1)
  | UploadPhaseCompleted => is_Some (us_CompletionTimestamp (u_Status r'))
  | _ => True
  end.

(** A server that holds [old] applies the patch from [old] to [new] as [new]. *)
Lemma merge_patch_current old new : same_but_status old new → merge_patch old new old = new.
Proof.
  intros [Hs Hm]. assert (Hf : ∀ A (HA : EqDecision A) (x y : A), merge_field x y x = y).
  { intros A HA x y. unfold merge_field. by case_bool_decide. }
  destruct old as [mo so []], new as [mn sn []]. cbn in Hs, Hm. subst. unfold merge_patch. cbn.
  rewrite !Hf. by destruct so.
Qed.

(** The world after the server took over the record [u]. *)
Definition with_record (w : world) (u : Upload) : world := w_on_patch (w_record w) u w.

Lemma asks_for_self w r :
  u_Meta r = u_Meta (w_record w) → asks_for w (u_Namespace r) (u_Name r) = true.
Proof. intros Hm. apply bool_decide_eq_true. unfold u_Namespace, u_Name. by rewrite Hm. Qed.

Lemma heal_patchUpload p n w mutate :
  (∀ s, safe (cluster refuses m) (mutate (w_record w)) (λ o s', s' = s ∧ ∃ r', o = Returned r' ∧
     recorded p (w_record w) r') s) →
  safe (cluster refuses m) (patchUpload c Private (w_record w) mutate) (λ o s', ∃ r' u,
     o = Returned (r', Ok u) ∧ recorded p (w_record w) u ∧ s' = (n, with_record w u)) (n, w).
Proof.
  intros Hmut. unfold patchUpload, PatchUpload. cbn. intros e1. apply safe_assume.
  intros ->%bool_decide_eq_true. rewrite <-safe_bind_bind. cbn. eapply safe_seq; [apply Hmut|..].
  2,3: by intros ? ? (? & ? & ? & ?).
  intros r s (-> & r' & [= ->] & Hr). cbn. intros e2. apply safe_assume. intros ->%bool_decide_eq_true.
  intros e3. apply safe_assume. intros ->%bool_decide_eq_true. cbn.
  pose proof Hr as ((Hs & Hm) & _).
  replace (u_Name r') with (u_Name (w_record w)) by (unfold u_Name; by rewrite Hm).
  rewrite asks_for_self by done. intros [u|e]; [|done]. apply safe_assume.
  intros ->%bool_decide_eq_true. cbn. eexists _, _. split; [done|].
  unfold with_record. cbn. rewrite merge_patch_current by done. split; [done|].
  unfold w_on_patch. by rewrite merge_patch_current.
Qed.

Lemma heal_patch p msg n w :
  p = UploadPhaseInProgress ∨ p = UploadPhaseUploadError ∨ p = UploadPhaseCompleted ∨
  p = UploadPhaseCleanupFailed →
  safe (cluster refuses m) (patchUploadByStatusWithRetry c Private (w_record w) p msg) (λ o s', ∃ u,
     o = Returned (Ok u) ∧ recorded p (w_record w) u ∧ s' = (n, with_record w u)) (n, w).
Proof.
  intros Hp. unfold patchUploadByStatusWithRetry. eapply safe_seq; [|..].
  - apply (safe_PollImmediate _ _ (λ st s', st = w_record w ∧ s' = (n, w))
      (λ o s', ∃ r' u, o = Returned (r', Ok u) ∧ recorded p (w_record w) u ∧ s' = (n, with_record w u)));
      [done|].
    intros st s [-> ->]. eapply safe_seq.
    + instantiate (1 := λ o s', ∃ r' u,
        o = Returned (r', Ok u) ∧ recorded p (w_record w) u ∧ s' = (n, with_record w u)).
      destruct Hp as [-> |[-> |[-> | ->]]]; apply heal_patchUpload; intros s;
        unfold mutateInProgress, mutateRetry, mutateDone; cbn;
        [destruct (bool_decide _) eqn:Hnew; cbn|..]; intros; split; try done;
        (eexists; split; [done|]); unfold recorded; cbn; rewrite ?Hnew; by eauto.
    + intros [r' r] s' (? & u & [= -> ->] & Hu & ->). cbn. eauto.
    + by intros ? ? (? & ? & ? & ?).
    + by intros ? ? (? & ? & ? & ?).
  - intros [r' r] s' (? & u & [= -> ->] & Hu & ->). cbn. eauto.
  - by intros ? ? (? & ? & ? & ?).
  - by intros ? ? (? & ? & ? & ?).
Qed.

(** *** Copies and deletions *)

(** What a copy comes to: as many faults as there are left. *)
Definition copied {A} (s : nat * world) (o : outcome (result A)) (s' : nat * world) : Prop :=
  match s.1 with
  | O => s' = (O, w_on_copied s.2) ∧ ∃ a, o = Returned (Ok a)
  | S n => s' = (n, s.2) ∧ ∃ e, o = Returned (Err e) ∧ IsCanceled e = false
  end.

Lemma copied_returned {A} s (o : outcome (result A)) s' : copied s o s' → ∃ r, o = Returned r.
Proof. unfold copied. destruct s.1; naive_solver. Qed.

Lemma heal_copyToRepo id petm s :
  safe (cluster refuses m) (copyToRepo (uc_dataMover c) id petm) (copied s) s.
Proof.
  unfold copyToRepo, RegisterOngoingUpload. cbn. intros [pe|]; cbn; [|done].
  intros f _. destruct s as [[|n] w]; intros [pe'|e]; cbn; try done; [by eauto|].
  unfold assume. destruct (IsCanceled e) eqn:He; cbn; [done|]. split; eauto.
Qed.

Lemma heal_with_repo id (p : io (result S3PETM)) s :
  safe (cluster refuses m) p (succeeds s) s →
  safe (cluster refuses m) (withReloadConfigLock (
    let? s3PETM := p else e => Ret (Err e) in copyToRepo (uc_dataMover c) id s3PETM)) (copied s) s.
Proof.
  intros Hp. unfold withReloadConfigLock. cbn. intros _. apply safe_defer.
  apply safe_mono with (Q := copied s).
  - eapply safe_seq; [exact Hp|..].
    + intros r s' [-> [petm [= ->]]]. apply heal_copyToRepo.
    + by intros y s' [_ [petm ?]].
    + by intros y s' [_ [petm ?]].
  - intros o s' Ho. destruct (copied_returned _ _ _ Ho) as [r ->]. by intros [].
Qed.

Lemma heal_copyUpload req id s :
  safe (cluster refuses m) (copyUpload c req id)
    (λ o s', ∃ r, o = Returned (Ok r) ∧ copied s (Returned r) s') s.
Proof.
  assert (Hend : ∀ (p : io (result PEID)), safe (cluster refuses m) p (copied s) s →
    safe (cluster refuses m) (let! r := p in Ret (Ok r))
      (λ o s', ∃ r, o = Returned (Ok r) ∧ copied s (Returned r) s') s).
  { intros p Hp. eapply safe_seq; [exact Hp|..].
    - intros r s' Hr. cbn. eauto.
    - by intros y s' [r ?]%copied_returned.
    - by intros y s' [r ?]%copied_returned. }
  unfold copyUpload. destruct (_ && _).
  - eapply safe_seq; [apply heal_GetBackupRepository, _|..].
    + intros r s' [-> (br & [= ->] & Hbr)]. apply Hend, heal_with_repo. apply heal_GetRepository; [apply _|done].
    + by intros y s' [_ (? & ? & _)].
    + by intros y s' [_ (? & ? & _)].
  - apply Hend, heal_with_repo, heal_GetDefaultS3PETM, _.
Qed.

(** A deletion succeeds, and the snapshot is gone, or there was none. *)
Lemma heal_DeleteLocalSnapshot id n w :
  refuses = false → entity w = Ok id →
  safe (cluster refuses m) (DeleteLocalSnapshot id)
    (λ o s', o = Returned None ∧ gone s'.2 ∧ s'.1 = n ∧ w_record s'.2 = w_record w ∧
             w_copied s'.2 = w_copied w) (n, w).
Proof.
  intros Href Hid. unfold DeleteLocalSnapshot, deleteSnapshotFromRepo. cbn. rewrite Href.
  intros [petm|]; [|done].
  destruct (HasSnapshot id) eqn:Hs; cbn.
  2: { split; [done|]. split; [|done]. right. eauto. }
  intros [pe|]; cbn; [|done]. intros [[|i l]|]; cbn; [|..|done].
  { split; [done|]. split; [by left|done]. }
  eapply safe_seq.
  - apply (safe_PollImmediate _ _ (λ _ s', s' = (n, w))
      (λ o s', o = Returned (tt, Ok tt) ∧ s' = (n, w_on_gone w))); [done|].
    intros [] s' ->. cbn. by intros [b|e].
  - intros [u r] s' [[= -> ->] ->]. cbn. split; [done|]. split; [by left|done].
  - by intros ? ? [? _].
  - by intros ? ? [? _].
Qed.

(** A deletion of a snapshot that is there is refused, until the time for the tries is over. *)
Lemma heal_refused_deletion id s :
  refuses = true → HasSnapshot id = true →
  safe (cluster refuses m) (DeleteLocalSnapshot id)
    (λ o s', s' = s ∧ ∃ e, o = Returned (Some e)) s.
Proof.
  intros Href Hs. unfold DeleteLocalSnapshot, deleteSnapshotFromRepo. cbn. rewrite Href, Hs.
  intros [petm|]; cbn; [|done]. intros [pe|]; cbn; [|done]. intros [[|i l]|]; cbn; [done| |done].
  eapply safe_seq.
  - apply (safe_PollImmediate _ _ (λ _ s', s' = s)
      (λ o s', s' = s ∧ ∃ e, o = Returned (tt, Err e))); [done|].
    intros [] s' ->. cbn. intros [b|e]; cbn; [done|]. destruct (Contains _ _); cbn; eauto.
  - intros [u r] s' [-> [e [= -> ->]]]. cbn. eauto.
  - by intros ? ? [_ [? ?]].
  - by intros ? ? [_ [? ?]].
Qed.

(** *** One try *)

(** How often the upload was tried, as far as the next try is concerned. *)
Definition attempts (w : world) : Z :=
  if bool_decide (w_phase w = UploadPhaseNew) then 0 else us_RetryCount (u_Status (w_record w)).

(** A record that the next try uploads. *)
Definition to_upload (p : UploadPhase) : Prop :=
  match p with
  | UploadPhaseCanceled | UploadPhaseCanceling | UploadPhaseCompleted
  | UploadPhaseUploadFailedAfterRetry | UploadPhaseCleanupFailed => False
  | _ => True
  end.

Definition pending (id : PEID) (r : Z) (w : world) : Prop :=
  entity w = Ok id ∧ to_upload (w_phase w) ∧ attempts w = r.

(** Nothing happened to the data and the snapshot. *)
Definition untouched (w w' : world) : Prop :=
  u_Meta (w_record w') = u_Meta (w_record w) ∧ u_Spec (w_record w') = u_Spec (w_record w) ∧
  w_copied w' = w_copied w ∧ w_gone w' = w_gone w.

Definition saved (w : world) : Prop :=
  w_phase w = UploadPhaseCompleted ∧ is_Some (us_CompletionTimestamp (u_Status (w_record w))) ∧
  w_copied w = true ∧ gone w.

(** What one try comes to. *)
Definition tried (id : PEID) (r : Z) (w : world) (n : nat) (o : outcome (option error))
    (s' : nat * world) : Prop :=
  match n with
  | O => o = Returned None ∧ s'.1 = O ∧ saved s'.2
  | S n => (∃ e, o = Returned (Some e)) ∧ s'.1 = n ∧ pending id (r + 1) s'.2 ∧ untouched w s'.2
  end.

Lemma w_record_with_record w u :
  same_but_status (w_record w) u → w_record (with_record w u) = u.
Proof. intros Hu. unfold with_record, w_on_patch. cbn -[merge_patch]. by rewrite merge_patch_current. Qed.

Lemma entity_spec w w' :
  u_Spec (w_record w') = u_Spec (w_record w) → entity w' = entity w.
Proof. unfold entity. by intros ->. Qed.

Lemma untouched_with_record w u : same_but_status (w_record w) u → untouched w (with_record w u).
Proof. intros Hu. unfold untouched. rewrite w_record_with_record by done. by destruct Hu. Qed.

Lemma untouched_trans w w' w'' : untouched w w' → untouched w' w'' → untouched w w''.
Proof. unfold untouched. intros (?&?&?&?) (?&?&?&?). split_and!; congruence. Qed.

Lemma untouched_entity w w' : untouched w w' → entity w' = entity w.
Proof. intros (_ & Hs & _). by apply entity_spec. Qed.

Lemma untouched_gone w w' : untouched w w' → gone w' → gone w.
Proof.
  intros Hu. pose proof (untouched_entity _ _ Hu) as He. destruct Hu as (_ & _ & _ & Hg).
  unfold gone. by rewrite He, Hg.
Qed.

Lemma not_gone_HasSnapshot id w : entity w = Ok id → ¬ gone w → HasSnapshot id = true.
Proof. intros Hid Hg. destruct (HasSnapshot id) eqn:Hs; [done|]. destruct Hg. right. eauto. Qed.

Lemma heal_uploadCopied id w n :
  refuses = false → entity w = Ok id → w_copied w = true →
  safe (cluster refuses m) (uploadCopied c (w_record w) id)
    (λ o s', o = Returned None ∧ s'.1 = n ∧ saved s'.2) (n, w).
Proof.
  intros Href Hid Hc. unfold uploadCopied. eapply (safe_seq _ _ _ _ (λ o s', o = Returned tt ∧ s' = (n, w))).
  { unfold UnregisterOngoingUpload. cbn. intros [f|]; cbn; [by intros []|done]. }
  2,3: by intros ? ? [? _].
  intros [] s' [_ ->]. eapply safe_seq; [by apply heal_DeleteLocalSnapshot|..].
  2,3: by intros ? ? [? _].
  intros r [n' w'] ([= ->] & Hg & Hn & Hrec & Hcop). cbn in Hn, Hg, Hrec, Hcop. subst n'.
  rewrite <-Hrec. eapply safe_seq; [apply heal_patch; auto|..].
  2,3: by intros ? ? (? & ? & _).
  intros r s' (u & [= ->] & (Hsame & Hph & Hd) & ->). cbn -[with_record].
  pose proof (grows_on_patch (w_record w') u w' Hsame) as Hgrow.
  split; [done|]. split; [done|]. unfold saved, w_phase. rewrite w_record_with_record by done.
  split_and!; [done..| |by apply (grows_gone w')]. by rewrite <-Hcop in Hc.
Qed.

Lemma heal_GetUploadCRRetryMaximum s :
  safe (cluster refuses m) (GetUploadCRRetryMaximum None) (λ o s', o = Returned m ∧ s' = s) s.
Proof.
  unfold GetUploadCRRetryMaximum, GetUploadCRRetryMaximumFromConfig, configOr, GetKubeClientConfig,
    GetKubeClientSet, veleroNamespaceOrDefault, GetVeleroNamespace. cbn.
  intros [cfg|]; cbn; [|done]. intros [cl|]; cbn; [|done]. intros ns.
  destruct (bool_decide (is_Some ns)); cbn; [|done]. intros cm. apply safe_assume.
  intros Hcm%bool_decide_eq_true. unfold configured_maximum in Hcm.
  destruct cm as [cm|]; cbn; [|by subst]. destruct (cm_Data cm !! _); cbn; by subst.
Qed.

Lemma heal_uploadFailed id w n e r :
  entity w = Ok id → IsCanceled e = false → w_phase w = UploadPhaseInProgress → attempts w = r →
  0 ≤ r → r < int32 m →
  safe (cluster refuses m) (uploadFailed c (w_record w) id e)
    (λ o s', (∃ e, o = Returned (Some e)) ∧ s'.1 = n ∧ pending id (r + 1) s'.2 ∧
             untouched w s'.2) (n, w).
Proof.
  intros Hid He Hph Hr H0 Hm. unfold uploadFailed. rewrite He.
  unfold attempts in Hr. rewrite bool_decide_false in Hr by congruence.
  eapply safe_seq; [apply heal_GetUploadCRRetryMaximum|..].
  2,3: by intros ? ? [? _].
  intros mx s' [[= ->] ->]. rewrite Hr. destruct (Z.ltb_spec r (int32 m)); [|lia].
  eapply safe_seq; [apply heal_patch; auto|..].
  2,3: by intros ? ? (? & ? & _).
  intros p s' (u & [= ->] & (Hsame & Hph' & Hcnt) & ->). cbn -[with_record].
  split_and!; [by eexists|done| |by apply untouched_with_record]. split_and!.
  - rewrite <-Hid. by apply untouched_entity, untouched_with_record.
  - unfold w_phase. by rewrite w_record_with_record, Hph'.
  - unfold attempts, w_phase. rewrite w_record_with_record, Hph' by done. cbn. rewrite Hcnt, Hr.
    apply int32_id. pose proof (int32_range m). lia.
Qed.

Lemma heal_doUpload id w n r :
  entity w = Ok id → w_phase w = UploadPhaseInProgress → attempts w = r →
  (n ≠ O → 0 ≤ r < int32 m) → (n = O → refuses = false) →
  safe (cluster refuses m) (doUpload c (w_record w)) (tried id r w n) (n, w).
Proof.
  intros Hid Hph Hr Hn Href. unfold doUpload. fold (entity w). rewrite Hid.
  rewrite bool_decide_false by (intros He; unfold w_phase in Hph; congruence).
  eapply safe_seq; [apply heal_copyUpload|..].
  2,3: by intros ? ? (? & ? & _).
  intros a s' (x & [= ->] & Hx). destruct n as [|n]; cbn in Hx.
  - destruct Hx as [-> [a [= ->]]].
    change (w_record w) with (w_record (w_on_copied w)). apply heal_uploadCopied; auto.
  - destruct Hx as [-> (e & [= ->] & He)]. destruct (Hn ltac:(done)).
    by apply heal_uploadFailed.
Qed.

(** A record that is to be uploaded is put in progress, if it is not, and worked on. *)
Lemma heal_started req id n w r Q :
  u_Meta req = u_Meta (w_record w) → pending id r w →
  (∀ w1, untouched w w1 → entity w1 = Ok id → w_phase w1 = UploadPhaseInProgress → attempts w1 = r →
    safe (cluster refuses m) (doUpload c (w_record w1)) Q (n, w1)) →
  safe (cluster refuses m) (processUpload c req) Q (n, w).
Proof.
  intros Hreq (Hid & Hto & Hr) Hdo. unfold processUpload. cbn. rewrite asks_for_self by done.
  intros [u|e]; [|done]. apply safe_assume. intros ->%bool_decide_eq_true. cbn.
  unfold w_phase in Hto. rewrite !bool_decide_false by (intros E; rewrite E in Hto; exact Hto).
  rewrite (bool_decide_true (u_Phase (w_record w) ≠ UploadPhaseCleanupFailed))
    by (intros E; rewrite E in Hto; exact Hto). rewrite andb_true_r.
  case_bool_decide as Hph.
  - eapply safe_seq; [apply heal_patch; auto|..].
    2,3: by intros ? ? (? & ? & _).
    intros a s' (u & [= ->] & (Hsame & Hphu & Hcnt) & ->). pose proof (w_record_with_record w u Hsame) as Hw.
    pose proof (untouched_with_record w u Hsame) as Hu. rewrite <-Hw at 1. apply Hdo; [done|..].
    + by rewrite (untouched_entity _ _ Hu).
    + unfold w_phase. by rewrite Hw.
    + unfold attempts, w_phase. rewrite Hw, Hphu. cbn. by rewrite Hcnt.
  - apply Hdo; [done..| |done]. unfold w_phase. by destruct (decide (u_Phase (w_record w) = UploadPhaseInProgress)).
Qed.

Lemma heal_processUpload req id n w r :
  u_Meta req = u_Meta (w_record w) → pending id r w → (n ≠ O → 0 ≤ r < int32 m) → (n = O → refuses = false) →
  safe (cluster refuses m) (processUpload c req) (tried id r w n) (n, w).
Proof.
  intros Hreq Hp Hn Href. apply (heal_started req id n w r); [done..|]. intros w1 Hu Hid Hph Hr.
  eapply safe_mono; [by apply heal_doUpload|]. intros o s'. destruct n; cbn; [done|].
  intros (? & ? & ? & ?). split_and!; try done. by apply (untouched_trans _ w1).
Qed.

(** [k] tries that fail, and what the next one comes to. *)
Lemma heal_tries req id k n w r (Q : outcome (option error) → nat * world → Prop) :
  u_Meta req = u_Meta (w_record w) → pending id r w → 0 ≤ r → r + Z.of_nat k ≤ int32 m →
  (∀ w', untouched w w' → pending id (r + Z.of_nat k) w' →
    safe (cluster refuses m) (processUpload c req) Q (n, w')) →
  safe (cluster refuses m) (tries req k) Q (k + n, w)%nat.
Proof.
  revert w r. induction k as [|k IH]; intros w r Hreq Hp H0 Hk Hlast; cbn [tries].
  - apply Hlast; [done|]. by rewrite Z.add_0_r.
  - eapply safe_seq; [apply (heal_processUpload req id (S k + n) w r); [done..|lia|done]|..].
    + intros a [k' w'] ([e [= ->]] & Hk' & Hp' & Hu). cbn in Hk', Hp', Hu. subst k'.
      pose proof Hu as (Hm & _). apply (IH w' (r + 1)); [congruence|done|lia..|].
      intros w'' Hu' Hp''. apply Hlast; [by apply (untouched_trans _ w')|].
      by replace (r + Z.of_nat (S k)) with (r + 1 + Z.of_nat k) by lia.
    + by intros y s' ([? ?] & _).
    + by intros y s' ([? ?] & _).
Qed.

(** *** The last try *)

(** A record whose data is given up: the local snapshot is still there, and a clean-up is due. *)
Definition given_up (id : PEID) (w : world) : Prop :=
  entity w = Ok id ∧ w_phase w = UploadPhaseCleanupFailed ∧ w_copied w = false ∧ ¬ gone w.

Lemma heal_last_doUpload id w n :
  refuses = true → entity w = Ok id → w_phase w = UploadPhaseInProgress → int32 m ≤ attempts w →
  w_copied w = false → ¬ gone w →
  safe (cluster refuses m) (doUpload c (w_record w))
    (λ o s', (∃ e, o = Returned (Some e)) ∧ s'.1 = n ∧ given_up id s'.2 ∧ untouched w s'.2) (S n, w).
Proof.
  intros Href Hid Hph Hr Hc Hg. unfold doUpload. fold (entity w). rewrite Hid.
  rewrite bool_decide_false by (intros He; unfold w_phase in Hph; congruence).
  eapply safe_seq; [apply heal_copyUpload|..].
  2,3: by intros ? ? (? & ? & _).
  intros a s' (x & [= ->] & -> & e & [= ->] & He). cbn -[uploadFailed]. unfold uploadFailed. rewrite He.
  eapply safe_seq; [apply heal_GetUploadCRRetryMaximum|..].
  2,3: by intros ? ? [? _].
  intros mx s' [[= ->] ->]. unfold attempts in Hr. rewrite bool_decide_false in Hr by congruence.
  destruct (Z.ltb_spec (us_RetryCount (u_Status (w_record w))) (int32 m)); [lia|].
  eapply safe_seq; [apply heal_refused_deletion; [done|by apply (not_gone_HasSnapshot _ w)]|..].
  2,3: by intros ? ? [_ [? ?]].
  intros d s' [-> [e' [= ->]]]. cbn -[cleanupFailed]. unfold cleanupFailed.
  eapply safe_seq; [apply heal_patch; auto|..].
  2,3: by intros ? ? (? & ? & _).
  intros p s' (u & [= ->] & (Hsame & Hph' & _) & ->). cbn -[with_record].
  pose proof (untouched_with_record w u Hsame) as Hu. split_and!; [by eexists|done| |done]. split_and!.
  - by rewrite (untouched_entity _ _ Hu).
  - unfold w_phase. by rewrite w_record_with_record.
  - done.
  - intros Hg'. apply Hg. by apply (untouched_gone _ _ Hu).
Qed.

(** The run after it completes the record without the data. *)
Lemma heal_cleanup req id w n :
  refuses = false → u_Meta req = u_Meta (w_record w) → given_up id w →
  safe (cluster refuses m) (processUpload c req) (λ o s', o = Returned None ∧ s'.1 = n ∧
    w_phase s'.2 = UploadPhaseCompleted ∧ w_copied s'.2 = false ∧ gone s'.2) (n, w).
Proof.
  intros Href Hreq (Hid & Hph & Hc & _). unfold processUpload. cbn. rewrite asks_for_self by done.
  intros [u|e]; [|done]. apply safe_assume. intros ->%bool_decide_eq_true. cbn.
  unfold w_phase in Hph. rewrite Hph. rewrite !bool_decide_false by done.
  rewrite (bool_decide_false (_ ≠ UploadPhaseCleanupFailed)), andb_false_r by auto. cbn. unfold doUpload. fold (entity w).
  rewrite Hid, bool_decide_true by done. unfold retryCleanup.
  eapply safe_seq; [by apply heal_DeleteLocalSnapshot|..].
  2,3: by intros ? ? [? _].
  intros r [n' w'] ([= ->] & Hg & Hn & Hrec & Hcop). cbn in Hn, Hg, Hrec, Hcop. subst n'.
  rewrite <-Hrec. eapply safe_seq; [apply heal_patch; auto|..].
  2,3: by intros ? ? (? & ? & _).
  intros p s' (u & [= ->] & (Hsame & Hph' & _) & ->). cbn -[with_record].
  pose proof (grows_on_patch (w_record w') u w' Hsame) as Hgrow. split_and!; [done..| | |].
  - unfold w_phase. by rewrite w_record_with_record.
  - cbn. congruence.
  - by apply (grows_gone w').
Qed.
End cluster.

Lemma heal_all_tries m req id k w r :
  u_Meta req = u_Meta (w_record w) → pending id r w → 0 ≤ r → r + Z.of_nat k ≤ int32 m →
  safe (recovering m) (tries req k) (λ o s', o = Returned None ∧ saved s'.2) (k, w).
Proof.
  intros Hreq Hp H0 Hk. rewrite <-(Nat.add_0_r k) at 2. apply (heal_tries _ _ req id k 0 w r); [done..|].
  intros w' Hu Hp'. eapply safe_mono; [apply (heal_processUpload _ _ req id 0 w' (r + Z.of_nat k))|].
  - rewrite Hreq. by destruct Hu.
  - done.
  - done.
  - done.
  - intros o s'. cbn. tauto.
Qed.

(** C5.  Every upload gets done: on a cluster on which all requests succeed but
    [k] copies, the handler of an Upload that is to be uploaded, run again
    each time it answers an error, answers nil after [k] failures when these
    and the tries before do not exceed the configured maximum of retries, and
    then the server's record is completed, with its time, the data is in the
    repository and the local snapshot is gone. *)
Theorem upload_completes m h req id k w r :
  keeps (recovering m) h →
  u_Meta req = u_Meta (w_record w) → pending id r w → 0 ≤ r → r + Z.of_nat k ≤ int32 m →
  ∃ w' n, run h (tries req k) (k, w) = (Returned None, (n, w')) ∧ saved w'.
Proof.
  intros Hh Hreq Hp H0 Hk.
  pose proof (safe_keeps (recovering m) h (tries req k) _ (k, w) Hh
    (heal_all_tries m req id k w r Hreq Hp H0 Hk)) as Hrun.
  destruct (run h (tries req k) (k, w)) as [o [n w']]. cbn in Hrun. destruct Hrun as [-> Hs]. eauto.
Qed.

Lemma heal_tries_refused m req id k w r :
  u_Meta req = u_Meta (w_record w) → pending id r w → w_copied w = false → ¬ gone w →
  0 ≤ r → r + Z.of_nat k = int32 m →
  safe (cluster true m) (tries req k)
    (λ o s', (∃ e, o = Returned (Some e)) ∧ s'.1 = O ∧ given_up id s'.2 ∧ untouched w s'.2) (S k, w).
Proof.
  intros Hreq Hp Hc Hg H0 Hk. rewrite <-Nat.add_1_r. apply (heal_tries _ _ req id k 1 w r); [done..|lia|].
  intros w' Hu Hp'. apply (heal_started _ _ req id 1 w' (r + Z.of_nat k)); [|done|].
  { rewrite Hreq. by destruct Hu. }
  intros w1 Hu1 Hid Hph Hr. pose proof (untouched_trans _ _ _ Hu Hu1) as Hw.
  eapply safe_mono; [apply (heal_last_doUpload _ _ id); [done..|lia| |]|].
  - destruct Hw as (_ & _ & -> & _). done.
  - intros Hg1. by apply Hg, (untouched_gone w w1).
  - intros o s' (? & ? & ? & ?). split_and!; try done. by apply (untouched_trans _ w1).
Qed.

(** C12.  The phase of a clean-up that is due forgets whether there is data.  On a cluster on
    which all requests succeed but the copies and the deletions of the local snapshot, which is
    there, an Upload that is to be uploaded fails exactly as often as the configured maximum of
    retries lets it, and then its record says [CleanupFailed].  One run of the handler on a
    cluster that deletes the snapshot takes the record from there to [Completed] and answers nil,
    without a copy: the local snapshot is gone, and its data never reached the repository. *)
Theorem unsaved_upload_completes m h h' req id k w r n :
  keeps (cluster true m) h → keeps (recovering m) h' →
  u_Meta req = u_Meta (w_record w) → pending id r w → w_copied w = false → ¬ gone w →
  0 ≤ r → r + Z.of_nat k = int32 m →
  ∃ e w1 w2,
    run h (tries req k) (S k, w) = (Returned (Some e), (O, w1)) ∧
    w_phase w1 = UploadPhaseCleanupFailed ∧ ¬ gone w1 ∧
    run h' (processUpload c req) (n, w1) = (Returned None, (n, w2)) ∧
    w_phase w2 = UploadPhaseCompleted ∧ w_copied w2 = false ∧ gone w2.
Proof.
  intros Hh Hh' Hreq Hp Hc Hg H0 Hk.
  pose proof (safe_keeps _ h (tries req k) _ (S k, w) Hh
    (heal_tries_refused m req id k w r Hreq Hp Hc Hg H0 Hk)) as Hrun.
  destruct (run h (tries req k) (S k, w)) as [o [n1 w1]].
  cbn in Hrun. destruct Hrun as ([e ->] & Hn & Hup & Hu). cbn in Hn, Hup, Hu. subst n1.
  assert (Hm : u_Meta req = u_Meta (w_record w1)) by (rewrite Hreq; by destruct Hu).
  pose proof (safe_keeps _ h' (processUpload c req) _ (n, w1) Hh'
    (heal_cleanup false m req id w1 n eq_refl Hm Hup)) as Hrun.
  destruct (run h' (processUpload c req) (n, w1)) as [o [n2 w2]] eqn:He2.
  cbn in Hrun. destruct Hrun as (-> & Hn & Hph & Hcop & Hgone). cbn in Hn, Hph, Hcop, Hgone. subst n2.
  destruct Hup as (_ & Hph1 & _ & Hg1). exists e, w1, w2. split_and!; done.
Qed.
End liveness.

(** ** A cluster that recovers *)

Definition an_S3_repository : BackupRepository :=
  BackupRepository.RepositoryParameters (Some {["region" := "us-1"; "bucket" := "b"]})
    (BackupRepository.RepositoryDriver (BackupRepository.ForBackupRepository "br-1")).

(** The next copies fail, as many as the first component says. *)
Definition recovering_server : handler Cmd (nat * world) := λ X e s,
  match e in Cmd X return X * (nat * world) with
  | PetmCopy _ _ pe _ =>
      match s.1 with
      | O => (Ok pe, (O, w_on_copied s.2))
      | S n => (Err unavailable, (n, s.2))
      end
  | GetObj _ KBackupRepository _ _ => (Ok an_S3_repository, s)
  | MapLoad _ => (None, s)
  | MapStore _ _ | MapDelete _ => (tt, s)
  | e => let '(x, w) := serve true true _ e s.2 in (x, (s.1, w))
  end.

Lemma recovering_server_keeps : keeps (recovering DefaultUploadCRRetryMaximum) recovering_server.
Proof.
  intros [n w] X e. destruct e; cbn; try done.
  - destruct k; cbn; try done. destruct (asks_for w ns name); [|done]. unfold assume.
    by rewrite bool_decide_true.
  - destruct k; cbn; try done. destruct (asks_for w ns name); [|done]. cbn -[w_on_patch]. unfold assume.
    by rewrite bool_decide_true.
  - by destruct n.
  - by destruct (w_gone w).
Qed.

Example upload_completes_witness :
  let w := initially an_unsaved_upload in
  keeps (recovering DefaultUploadCRRetryMaximum) recovering_server ∧ pending (ivd_pe : PEID) 0 w ∧
  ∃ w' n, run recovering_server (tries a_controller an_unsaved_upload 10) (10%nat, w) =
            (Returned None, (n, w')) ∧ saved w'.
Proof.
  assert (Hp : pending (ivd_pe : PEID) 0 (initially an_unsaved_upload)) by (by vm_compute).
  split; [exact recovering_server_keeps|]. split; [exact Hp|].
  apply (upload_completes a_controller DefaultUploadCRRetryMaximum recovering_server an_unsaved_upload
    ivd_pe 10 _ 0); [exact recovering_server_keeps|reflexivity|exact Hp|lia|by vm_compute].
Defined.

(** ** A cluster that refuses deletions *)

Definition refusing_server : handler Cmd (nat * world) := λ X e s,
  match e in Cmd X return X * (nat * world) with
  | PeListSnapshots _ => (Ok ["snap-1"], s)
  | PeDeleteSnapshot _ _ _ => (Err unavailable, s)
  | e => recovering_server _ e s
  end.

Lemma refusing_server_keeps : keeps (cluster true DefaultUploadCRRetryMaximum) refusing_server.
Proof. intros s X e. pose proof (recovering_server_keeps s X e) as Hk. by destruct e. Qed.

Example unsaved_upload_completes_witness :
  let w := initially an_unsaved_upload in
  keeps (cluster true DefaultUploadCRRetryMaximum) refusing_server ∧ ¬ gone w ∧
  ∃ e w1 w2,
    run refusing_server (tries a_controller an_unsaved_upload 10) (11%nat, w) =
      (Returned (Some e), (O, w1)) ∧
    w_phase w1 = UploadPhaseCleanupFailed ∧ ¬ gone w1 ∧
    run recovering_server (processUpload a_controller an_unsaved_upload) (O, w1) =
      (Returned None, (O, w2)) ∧
    w_phase w2 = UploadPhaseCompleted ∧ w_copied w2 = false ∧ gone w2.
Proof.
  assert (Hp : pending (ivd_pe : PEID) 0 (initially an_unsaved_upload)) by (by vm_compute).
  assert (Hg : ¬ gone (initially an_unsaved_upload)) by (intros [?|(id & [= <-] & ?)]; discriminate).
  split; [exact refusing_server_keeps|]. split; [exact Hg|].
  apply (unsaved_upload_completes a_controller DefaultUploadCRRetryMaximum refusing_server recovering_server
    an_unsaved_upload ivd_pe 10 _ 0 O); [exact refusing_server_keeps|exact recovering_server_keeps|reflexivity|
    exact Hp|reflexivity|exact Hg|lia|by vm_compute].
Defined.
