(* ===== verification/GuestRuns.v ===== *)
(** * A restore without its volume

    A run of [ParaVirtCreateFromMetadata] on clusters where everything succeeds
    but the creation of the guest's volume. *)

From S2P Require Export Instance.
Open Scope Z_scope.

Definition a_guest : @ParaVirtProtectedEntityTypeManager concrete := {|
  pvm_entityType := ParaVirtEntityTypePersistentVolume;
  pvm_gcKubeClientSet := a_client; pvm_gcBackupDriverClient := a_client;
  pvm_svcKubeClientSet := a_client; pvm_svcBackupDriverClient := a_client;
  pvm_svcNamespace := "svc-ns"; pvm_s3Config := tt |}.

(** The clusters, with the claims that were created in the guest. *)
Definition no_volume_server : handler Cmd (list PersistentVolumeClaim) := λ X e s,
  match e in Cmd X return X * list PersistentVolumeClaim with
  | NewUUID => (Ok "uuid", s)
  | CreateObj _ k _ o =>
      match k return obj k → result (obj k) * list PersistentVolumeClaim with
      | KPersistentVolume => λ _, (Err unavailable, s)
      | KPersistentVolumeClaim => λ o, (Ok o, o :: s)
      | _ => λ o, (Ok o, s)
      end o
  | UpdateStatusObj _ _ _ o => (Ok o, s)
  | GetObj _ k _ name =>
      match k return result (obj k) * list PersistentVolumeClaim with
      | KPersistentVolumeClaim => (Ok (a_claim name), s)
      | KCloneFromSnapshot => (Ok a_clone, s)
      | _ => (Err unavailable, s)
      end
  | Watch _ k _ =>
      match k return (list (watch_event (obj k)) * option error) * list PersistentVolumeClaim with
      | KCloneFromSnapshot =>
          (([Updated ((CloneFromSnapshot.ForCloneFromSnapshot "svc-ns" "uuid" ∅)
               <| c_Status; cs_Phase := ClonePhaseCompleted |>)], None), s)
      | _ => (([], None), s)
      end
  | WaitForPersistentVolumeClaimPhase _ _ _ _ => (None, s)
  | e => (default_answer e, s)
  end.

(** When the guest's volume cannot be created but its claim can, and
    becomes bound, the restore succeeds: the claim names no volume, and nothing
    ties it to the data that was restored. *)
Theorem restore_without_volume :
  match run no_volume_server
    (ParaVirtCreateFromMetadata a_guest "claim" guest_pe "guest-ns" "clone-1" "") [] with
  | (Returned (Ok pe), [claim]) =>
      pve_id pe = PeId "pvc" "ns/claim" None ∧ pvc_Name claim = "claim" ∧
      pvc_VolumeName claim = "" ∧ pvc_StorageClassName claim = None
  | _ => False
  end.
Proof. vm_compute. auto. Qed.
