(* ===== verification/ItemRuns.v ===== *)
(** * Item actions on a concrete cluster

    Witnesses for the theorems about item actions, and a backup and a restore run from end to
    end. *)

From S2P Require Export Instance RepositoryClaims ItemNames ItemProtocol.
Open Scope Z_scope.

Example kinds_in_ss_not_blocked_witness :
  let item := ItemOther "vmoperator.vmware.com/v1alpha1" "VirtualMachineClass" in
  UnstructuredToCRDName (H := concrete) item = Ok "virtualmachineclasss.vmoperator.vmware.com" ∧
  ∃ name, UnstructuredToCRDName (H := concrete) item = Ok name ∧
    IsResourceBlocked name installed_block_list = false ∧ IsResourceBlockedOnRestore name = false.
Proof.
  set (item := ItemOther _ _). split; [by vm_compute|].
  exact (proj1 (kinds_in_ss_not_blocked (H := concrete) item "vmoperator.vmware.com/v1alpha1"
    "VirtualMachineClass" eq_refl eq_refl ltac:(by vm_compute))).
Defined.

Example annotated_item_roundtrip_witness :
  ∃ p a, annotatedItem (H := concrete) (a_claim "data") (saved_snapshot "ivd:v:s") = Ok (ItemPVC p) ∧
    om_Annotations (pvc_Meta p) !! ItemSnapshotLabel = Some a ∧
    GetSnapshotFromPVCAnnotation (H := concrete) a = Ok (saved_snapshot "ivd:v:s").
Proof.
  destruct (annotatedItem (H := concrete) (a_claim "data") (saved_snapshot "ivd:v:s")) as [i|e] eqn:Hi;
    [|by vm_compute in Hi].
  destruct (annotated_item_roundtrip (H := concrete) (a_claim "data") (saved_snapshot "ivd:v:s") _ i
    eq_refl eq_refl) as (p & a & Hp & _ & Ha & Hs & _); [by intros p i' [= <-]|exact Hi|].
  exists p, a. destruct i as [q| | |]; [|done..]. injection Hp as ->. done.
Defined.

(** ** Runs *)

Definition a_backup : Backup := {|
  bk_Meta := meta "velero" "nightly" ∅; bk_StorageLocation := "default";
  bk_SnapshotVolumes := None; bk_DefaultVolumesToFsBackup := None |}.

Definition a_volume : PersistentVolume := {|
  pv_Meta := meta "" "pv-1" ∅; pv_CSI := Some {| csi_Driver := VSphereCSIDriverName; csi_VolumeHandle := "v" |};
  pv_VsphereVolume := false; pv_ClaimRef := None; pv_AccessModes := []; pv_Capacity := ∅ |}.

(** A cluster in local mode, without a block list, that stores the last Snapshot
    and CloneFromSnapshot; the backup driver takes the snapshot [ivd:v:s] and
    completes the clone at once. *)
Definition item_server : handler Cmd (option Snapshot * option CloneFromSnapshot) := λ X e st,
  match e in Cmd X return X * (option Snapshot * option CloneFromSnapshot) with
  | LookupEnv _ => (Some "velero", st)
  | LoadClientConfig => (Ok (Build_RestConfig "host" "" "" 0%N), st)
  | NewForConfig c => (Ok (Client c), st)
  | NewUUID => (Ok "1", st)
  | GetObj _ k _ name =>
      match k return result (obj k) * (option Snapshot * option CloneFromSnapshot) with
      | KConfigMap =>
          (if bool_decide (name = ResourcesToBlockListName) then Err missing
           else Ok {| cm_Meta := meta "velero" name ∅; cm_Data := {[VSphereLocalModeFlag := "true"]} |}, st)
      | KPersistentVolume => (Ok a_volume, st)
      | KPersistentVolumeClaim => (Err missing, st)
      | KStorageClass => (Ok {| sc_Meta := meta "" name ∅; sc_VolumeBindingMode := None |}, st)
      | KBackup => (Ok a_backup, st)
      | _ => (Err unavailable, st)
      end
  | ListObj _ k _ =>
      match k return result (list (obj k)) * (option Snapshot * option CloneFromSnapshot) with
      | KPod => (Ok [], st)
      | _ => (Err unavailable, st)
      end
  | ListSelected _ _ _ _ => (Ok [], st)
  | CreateObj _ k _ o =>
      match k return obj k → result (obj k) * (option Snapshot * option CloneFromSnapshot) with
      | KSnapshot => λ o, (Ok o, (Some o, st.2))
      | KCloneFromSnapshot => λ o, (Ok o, (st.1, Some o))
      | _ => λ _, (Err unavailable, st)
      end o
  | UpdateStatusObj _ k _ o =>
      match k return obj k → result (obj k) * (option Snapshot * option CloneFromSnapshot) with
      | KSnapshot => λ o, (Ok o, (Some o, st.2))
      | KCloneFromSnapshot => λ o, (Ok o, (st.1, Some o))
      | _ => λ _, (Err unavailable, st)
      end o
  | Watch _ k _ =>
      match k return (list (watch_event (obj k)) * option error) * (option Snapshot * option CloneFromSnapshot) with
      | KSnapshot =>
          (match st.1 with
           | Some o => ([Added o; Updated (o <| s_Status; ss_Phase := SnapshotPhaseSnapshotted |>
                                             <| s_Status; ss_SnapshotID := "ivd:v:s" |>)], None)
           | None => ([], None)
           end, st)
      | KCloneFromSnapshot =>
          (match st.2 with
           | Some o => ([Added o; Updated (o <| c_Status; cs_Phase := ClonePhaseCompleted |>)], None)
           | None => ([], None)
           end, st)
      | _ => (([], None), st)
      end
  | e => (default_answer e, st)
  end.

Definition a_restore : Restore :=
  {| rst_BackupName := "nightly"; rst_RestorePVs := None; rst_NamespaceMapping := ∅ |}.

(** What a backup makes of a claim a restore turns into a clone of the snapshot that was taken. *)
Example backup_then_restore :
  match (run item_server (BackupExecute (H := concrete) (ItemPVC (a_claim "data")) a_backup) (None, None)).1 with
  | Returned (Ok item) =>
      match run item_server (RestoreExecute (H := concrete)
              {| ri_Item := item; ri_ItemFromBackup := item; ri_Restore := a_restore |}) (None, None) with
      | (Returned (Ok out), (None, Some clone)) =>
          ro_SkipRestore out = true ∧ cs_SnapshotID (c_Spec clone) = "ivd:v:s" ∧
          c_Namespace clone = "ns" ∧ c_Phase clone = ClonePhaseCompleted
      | _ => False
      end
  | _ => False
  end.
Proof. vm_compute. done. Qed.
