(* ===== verification/VSphere.v ===== *)
(** * Connections to vCenter (pkg/common/vsphere)

    A VirtualCenter holds the clients of one vCenter and renews them when their
    session is gone; the VSLM and CNS managers repeat a call that was refused for
    its credentials after such a renewal. *)

From S2P Require Export Env.
Open Scope Z_scope.

(** ** The SDKs *)

(** A govmomi client with the host of its URL; the clients of the virtual storage
    (VSLM) and container storage (CNS) services, tasks, and open disks, by identity. *)
Record vimClient := { vim_handle : N; vim_URLHost : string }.
Abbreviation vslmClient := N.
Abbreviation cnsClient := N.
Abbreviation task := N.
Abbreviation disk := N.

(** The [Id] of a [vim.ID], and a managed object reference. *)
Abbreviation vimID := string.
Record ManagedObjectReference := { mor_Type : string; mor_Value : string }.

#[export] Instance mor_eq_dec : EqDecision ManagedObjectReference.
Proof. solve_decision. Defined.
#[export] Instance mor_countable : Countable ManagedObjectReference.
Proof.
  refine (inj_countable' (λ r, (mor_Type r, mor_Value r)) (λ '(t, v), {| mor_Type := t; mor_Value := v |}) _).
  by intros [].
Defined.

(** The faults the code tells apart. *)
Inductive fault :=
| NotAuthenticated | InvalidLogin | NotFound | InvalidState | VslmSyncFault
| InvalidArgument | TaskInProgress | FileLocked | OtherFault.

#[export] Instance fault_eq_dec : EqDecision fault.
Proof. solve_decision. Defined.

(** The fields of a virtual storage object that the code looks at; a label. *)
Record VStorageObject := {
  vso_Id : vimID;
  vso_Name : string;
  vso_CapacityInMB : Z;
  vso_Datastore : ManagedObjectReference;
}.

Record KeyValue := { kv_Key : string; kv_Value : string }.

(** The result of a task, by its dynamic type. *)
Inductive any := AnyID (i : vimID) | AnyVSO (v : VStorageObject) | AnyOther.

(** astrolabe's transports, and its description of an entity. *)
Record DataTransport := { dt_Type : string; dt_Params : gmap string string }.

Section info.
Context `{Deps}.

Record PEInfo := {
  pi_ID : PEID;
  pi_Name : string;
  pi_Size : Z;
  pi_DataTransports : list DataTransport;
}.
End info.

(** What createCnsVolumeWithClusterConfig asks for; the types it fills in are constants. *)
Record CnsVolumeCreateSpec := {
  cv_Name : string;
  cv_Datastores : list ManagedObjectReference;
  cv_ClusterId : string;
  cv_VSphereUser : string;
  cv_EntityName : string;
  cv_Labels : list KeyValue;
  cv_CapacityInMb : Z;
}.

Record ConnectParams := {
  cp_serverName : string; cp_thumbPrint : string; cp_userName : string; cp_password : string;
  cp_fcdId : string; cp_datastore : string; cp_fcdssid : string; cp_readOnly : bool;
}.

(** Pure functions of govmomi, astrolabe and the virtual disk library: the fault
    in a SOAP error with its text, that of a failed task, the predicates on errors, the
    code of a disk error, and what encoding/xml makes of the code's [metadata]
    type (a virtual storage object, its datastore and its labels). *)
Class VDeps `{Deps} := {
  SoapFault : error → option (fault * string);
  VimFault : error → option fault;
  IsConnectionResetError : error → bool;
  IsFindNotFound : error → bool;
  VixErrorCode : error → Z;
  NewS3DataTransportForPEID : PEID → S3Config → result DataTransport;
  NewProtectedEntityIDWithSnapshotID : string → string → SnapID → PEID;
  NewProtectedEntitySnapshotID : string → SnapID;
  XmlMarshal : VStorageObject → ManagedObjectReference → list KeyValue → result string;
  XmlUnmarshal : string → (VStorageObject * ManagedObjectReference * list KeyValue) * option error;
}.

Section vcmd.
Context `{VDeps}.

Inductive VCmd : Type → Type :=
(* locks, and the ticker of wait.PollImmediate *)
| ConfigLock : VCmd unit
| ConfigUnlock : VCmd unit
| ConnectLock (vc : nat) : VCmd unit
| ConnectUnlock (vc : nat) : VCmd unit
| VPollTicks (interval timeout : Z) : VCmd nat
(* sessions *)
| ParseURL (host : string) (port : Z) : VCmd (result string)
| NewVimClient (url : string) (timeout : Z) : VCmd (result vimClient)
| UseServiceVersion (c : vimClient) (namespace : string) : VCmd (option error)
| Login (c : vimClient) (user password : string) : VCmd (option error)
| UserSession (c : vimClient) : VCmd (result (option string))
| Logout (c : vimClient) : VCmd (option error)
| NewVslmClient (c : vimClient) : VCmd (result vslmClient)
| NewCnsClient (c : vimClient) : VCmd (result cnsClient)
(* virtual storage objects *)
| VslmCreateSnapshot (v : vslmClient) (id : vimID) (description : string) : VCmd (result task)
| VslmDeleteSnapshot (v : vslmClient) (id snap : vimID) : VCmd (result task)
| VslmRetrieveSnapshotInfo (v : vslmClient) (id : vimID) : VCmd (result (list vimID))
| VslmRetrieve (v : vslmClient) (id : vimID) : VCmd (result VStorageObject)
| VslmRetrieveSnapshotDetails (v : vslmClient) (id snap : vimID) : VCmd (result unit)
| VslmUpdateMetadata (v : vslmClient) (id : vimID) (md : list KeyValue) (deleteKeys : list string)
    : VCmd (result task)
| VslmRetrieveMetadata (v : vslmClient) (id : vimID) (snap : option vimID) (prefix : string)
    : VCmd (result (list KeyValue))
| VslmCreateDiskFromSnapshot (v : vslmClient) (id snap : vimID) (name : string) : VCmd (result task)
| VslmListObjectsForSpec (v : vslmClient) (field operator : string) (value : list string) (max : Z)
    : VCmd (result (list vimID))
| VslmCreateDisk (v : vslmClient) (name : string) (capacityInMB : Z) : VCmd (result task)
| VslmClone (v : vslmClient) (id : vimID) (name : string) (keepAfterDeleteVm : bool) (md : list KeyValue)
    : VCmd (result task)
| VslmDelete (v : vslmClient) (id : vimID) : VCmd (result task)
| TaskWait (t : task) (timeout : Z) : VCmd (result any)
| TaskWaitNonDefault (t : task) (timeout start : Z) (exponential : bool) (max : Z) : VCmd (result any)
(* container volumes; a result has a fault with its message, or the volume *)
| CnsCreateVolume (c : cnsClient) (spec : list CnsVolumeCreateSpec) : VCmd (result task)
| CnsDeleteVolume (c : cnsClient) (volumes : list vimID) (deleteDisk : bool) : VCmd (result task)
| CnsQueryVolume (c : cnsClient) (volumes : list vimID) : VCmd (result (list vimID))
| GetTaskInfo (t : task) : VCmd (result task)
| GetTaskResult (t : task) : VCmd (result (option (string + vimID)))
(* the inventory: ancestors have a parent or not, a name and a type; a VM has the host name of its
   guest and the host it runs on, whose pointers may be nil *)
| InClusterConfig : VCmd (result RestConfig)
| ListNodes (c : RestConfig) : VCmd (result (list (string * string)))
| DatacenterList (c : vimClient) : VCmd (result (list string))
| VirtualMachineList (c : vimClient) (path : string) : VCmd (result (list ManagedObjectReference))
| RetrieveVMs (c : vimClient) (vms : list ManagedObjectReference)
    : VCmd (result (list (option string * option ManagedObjectReference)))
| Ancestors (c : vimClient) (r : ManagedObjectReference) : VCmd (result (list (bool * string * string)))
| DatastoreList (c : vimClient) (path : string) : VCmd (result (list ManagedObjectReference))
| DatastoreType (c : vimClient) (ds : ManagedObjectReference) : VCmd (result string)
| NasRemoteHost (c : vimClient) (ds : ManagedObjectReference) : VCmd (result (option string))
| AttachedHosts (c : vimClient) (ds : ManagedObjectReference) : VCmd (result (list ManagedObjectReference))
(* disks and readers; a stream is what a reader gives until its end or an error *)
| GetThumbPrintForURL (c : vimClient) : VCmd (result string)
| DiskOpen (p : ConnectParams) : VCmd (result disk)
| DiskEndAccess (p : ConnectParams) : VCmd unit
| DiskWrite (d : disk) (bytes : string) : VCmd (option error)
| DiskClose (d : disk) : VCmd (option error)
| ReadStream (r : reader) : VCmd (string * option error)
| CloseReader (r : reader) : VCmd (option error)
| InitEx (path : string) : VCmd (option error)
| CreateConfigFile (config : gmap string string) : VCmd (result string)
| DeleteConfigFile (path : string) : VCmd (option error)
(* the source of a copy *)
| SrcGetInfo (pe : PE) : VCmd (result PEInfo)
| SrcGetDataReader (pe : PE) : VCmd (result (option reader))
| SrcGetMetadataReader (pe : PE) : VCmd (result reader).
End vcmd.
Arguments VCmd {_} _.
Abbreviation vio := (prog VCmd).

(** ** Configuration *)

Definition DefaultScheme : string := "https".
Definition DefaultRoundTripperCount : Z := 3.
Definition DefaultVCClientTimeoutInMinutes : Z := 30.
Definition DefaultAuthErrorRetryCount : Z := 1.
Definition HostVcParamKey : string := "VirtualCenter".
Definition UserVcParamKey : string := "user".
Definition PasswordVcParamKey : string := "password".
Definition PortVcParamKey : string := "port".
Definition ClusterVcParamKey : string := "cluster-id".

Record VirtualCenterConfig := {
  vcc_Scheme : string;
  vcc_Host : string;
  vcc_Port : Z;
  vcc_Username : string;
  vcc_Password : string;
  vcc_ClusterId : string;
  vcc_RoundTripperCount : Z;
  vcc_VCClientTimeout : Z;
}.

#[export] Instance VirtualCenterConfig_eq_dec : EqDecision VirtualCenterConfig.
Proof. solve_decision. Defined.

#[export] Instance update_vcc_Scheme : Update vcc_Scheme := λ v r,
  let (_, a, b, c, d, e, f, g) := r in Build_VirtualCenterConfig v a b c d e f g.
#[export] Instance update_vcc_RoundTripperCount : Update vcc_RoundTripperCount := λ v r,
  let (a, b, c, d, e, f, _, g) := r in Build_VirtualCenterConfig a b c d e f v g.

Definition vsphere_GetStringFromParamsMap (ps : params) (key : string) : result string :=
  match ps !! key with
  | Some (IString value) => Ok value
  | Some _ => Err (ErrorString ("Value for params key " +:+ key +:+ " is not a string"))
  | None => Err (ErrorString ("No such key " +:+ key +:+ " in params map"))
  end.

Definition GetVirtualCenterFromParamsMap ps := vsphere_GetStringFromParamsMap ps HostVcParamKey.
Definition GetUserFromParamsMap ps := vsphere_GetStringFromParamsMap ps UserVcParamKey.
Definition GetPasswordFromParamsMap ps := vsphere_GetStringFromParamsMap ps PasswordVcParamKey.
Definition GetPortFromParamsMap ps := vsphere_GetStringFromParamsMap ps PortVcParamKey.
Definition GetClusterFromParamsMap ps := vsphere_GetStringFromParamsMap ps ClusterVcParamKey.

(** The text of strconv's error is that of a number out of range as well. *)
Definition AtoiError (s : string) : error :=
  ErrorString ("strconv.Atoi: parsing " +:+ s +:+ ": invalid syntax").

Definition GetVirtualCenterConfigFromParams (ps : params) : result VirtualCenterConfig :=
  match GetVirtualCenterFromParamsMap ps with
  | Err e => Err e
  | Ok vcHost =>
      match GetPortFromParamsMap ps with
      | Err e => Err e
      | Ok vcHostPortStr =>
          match Atoi vcHostPortStr with
          | None => Err (AtoiError vcHostPortStr)
          | Some vcHostPort =>
              match GetUserFromParamsMap ps with
              | Err e => Err e
              | Ok vcUser =>
                  match GetPasswordFromParamsMap ps with
                  | Err e => Err e
                  | Ok vcPassword =>
                      match GetClusterFromParamsMap ps with
                      | Err e => Err e
                      | Ok clusterId => Ok {|
                          vcc_Scheme := "https"; vcc_Host := vcHost; vcc_Port := vcHostPort;
                          vcc_Username := vcUser; vcc_Password := vcPassword;
                          vcc_ClusterId := clusterId; vcc_RoundTripperCount := 0;
                          vcc_VCClientTimeout := DefaultVCClientTimeoutInMinutes |}
                      end
                  end
              end
          end
      end
  end.

(** [None] is the panic on a nil [newVcConfig], which is read only when
    [oldVcConfig] is not nil. *)
Definition CheckIfVirtualCenterConfigChanged (oldVcConfig newVcConfig : option VirtualCenterConfig)
    : option bool :=
  match oldVcConfig, newVcConfig with
  | None, _ => Some true
  | Some _, None => None
  | Some old, Some new => Some
      (bool_decide (vcc_Host old ≠ vcc_Host new) || bool_decide (vcc_Username old ≠ vcc_Username new)
       || bool_decide (vcc_Password old ≠ vcc_Password new))
  end.

(** ** A connection to a vCenter *)

(** The pointers to the configuration and to the clients may be nil. *)
Record VirtualCenter := {
  vc_Config : option VirtualCenterConfig;
  vc_Client : option vimClient;
  vc_CnsClient : option cnsClient;
  vc_VslmClient : option vslmClient;
}.

#[export] Instance update_vc_Config : Update vc_Config := λ v r,
  let (_, a, b, c) := r in Build_VirtualCenter v a b c.
#[export] Instance update_vc_Client : Update vc_Client := λ v r,
  let (a, _, b, c) := r in Build_VirtualCenter a v b c.
#[export] Instance update_vc_CnsClient : Update vc_CnsClient := λ v r,
  let (a, b, _, c) := r in Build_VirtualCenter a b v c.
#[export] Instance update_vc_VslmClient : Update vc_VslmClient := λ v r,
  let (a, b, c, _) := r in Build_VirtualCenter a b c v.

(** The VirtualCenters that were allocated; a pointer to one is its index. *)
Abbreviation heap := (list VirtualCenter).

Section virtual_center.
Context `{VDeps}.

Definition CheckForVcAuthFaults (err : error) : bool :=
  match SoapFault err with
  | Some (f, _) => bool_decide (f = NotAuthenticated) || bool_decide (f = InvalidLogin)
  | None => false
  end.

Definition login (vc : VirtualCenter) (client : vimClient) : vio (option error) :=
  match vc_Config vc with
  | None => Panic "nil pointer: Config"
  | Some cfg => call (Login client (vcc_Username cfg) (vcc_Password cfg))
  end.

(** The client, with the configuration as it is left.  Type managers keep a pointer to
    that configuration too, but do not read the two fields that are set. *)
Definition newClient (vc : VirtualCenter) : vio (VirtualCenter * result vimClient) :=
  match vc_Config vc with
  | None => Panic "nil pointer: Config"
  | Some cfg =>
      let cfg := if bool_decide (vcc_Scheme cfg = "") then cfg <| vcc_Scheme := DefaultScheme |> else cfg in
      let vc := vc <| vc_Config := Some cfg |> in
      let? url := call (ParseURL (vcc_Host cfg) (vcc_Port cfg)) else e => Ret (vc, Err e) in
      let? client := call (NewVimClient url (vcc_VCClientTimeout cfg * Minute)) else e =>
        Ret (vc, Err e) in
      let! err := call (UseServiceVersion client "vsan") in
      match err, bool_decide (vcc_Host cfg ≠ "127.0.0.1") with
      | Some e, true => Ret (vc, Err e)
      | _, _ =>
          check! login vc client else e => Ret (vc, Err e) in
          let! s := call (UserSession client) in
          match s with
          | Ok None => Panic "nil pointer: UserSession"  (* the log reads its name and key *)
          | _ =>
          let cfg := if vcc_RoundTripperCount cfg =? 0
                     then cfg <| vcc_RoundTripperCount := DefaultRoundTripperCount |> else cfg in
          Ret (vc <| vc_Config := Some cfg |>, Ok client)
          end
      end
  end.

Definition ok_of {A} (r : result A) : option A := match r with Ok a => Some a | Err _ => None end.

(** [this.Client, err = this.newClient(ctx)] *)
Definition setClient (vc : VirtualCenter) : vio (VirtualCenter * result vimClient) :=
  let! (vc, r) := newClient vc in
  Ret (vc <| vc_Client := ok_of r |>, r).

Definition newVslmClient (c : vimClient) : vio (result vslmClient) := call (NewVslmClient c).
Definition newCnsClient (c : vimClient) : vio (result cnsClient) := call (NewCnsClient c).

(** The clients for a session that has expired. *)
Definition renewClients (vc : VirtualCenter) : vio (VirtualCenter * result (vslmClient * cnsClient)) :=
  let! (vc, r) := setClient vc in
  match r with
  | Err e => Ret (vc, Err e)
  | Ok client =>
      let? v := newVslmClient client else e => Ret (vc, Err e) in
      let vc := vc <| vc_VslmClient := Some v |> in
      let! r := newCnsClient client in
      let vc := vc <| vc_CnsClient := ok_of r |> in
      match r with
      | Err e => Ret (vc, Err e)
      | Ok c => Ret (vc, Ok (v, c))
      end
  end.

(** The clients that are missing are made, and all of them if there is no session. *)
Definition connectClients (vc : VirtualCenter) : vio (VirtualCenter * result (vslmClient * cnsClient)) :=
  let! (vc, r) := (match vc_Client vc with
    | Some client => Ret (vc, Ok client)
    | None => setClient vc
    end) in
  match r with
  | Err e => Ret (vc, Err e)
  | Ok client =>
      let? v := (match vc_VslmClient vc with
        | Some v => Ret (Ok v) | None => newVslmClient client end) else e => Ret (vc, Err e) in
      let vc := vc <| vc_VslmClient := Some v |> in
      let? c := (match vc_CnsClient vc with
        | Some c => Ret (Ok c) | None => newCnsClient client end) else e => Ret (vc, Err e) in
      let vc := vc <| vc_CnsClient := Some c |> in
      let? userSession := call (UserSession client) else e => Ret (vc, Err e) in
      match userSession with
      | Some _ => Ret (vc, Ok (v, c))
      | None => renewClients vc
      end
  end.

(** Under the mutex of the VirtualCenter at [p]. *)
Definition withConnectLock {A} (p : nat) (h : heap) (f : VirtualCenter → vio (VirtualCenter * A))
    : vio (heap * A) :=
  call (ConnectLock p) ;;;
  defer (call (ConnectUnlock p)) (
    match h !! p with
    | None => Panic "nil pointer: VirtualCenter"
    | Some vc => let! (vc, a) := f vc in Ret (<[p := vc]> h, a)
    end).

Definition Connect (p : nat) (h : heap) : vio (heap * result (vslmClient * cnsClient)) :=
  withConnectLock p h connectClients.

Definition Disconnect (p : nat) (h : heap) : vio (heap * option error) :=
  withConnectLock p h (λ vc,
    let vc := vc <| vc_VslmClient := None |> <| vc_CnsClient := None |> in
    match vc_Client vc with
    | None => Ret (vc, None)
    | Some client =>
        check! call (Logout client) else e => Ret (vc, Some e) in
        Ret (vc <| vc_Client := None |>, None)
    end).

Definition GetVirtualCenter (config : option VirtualCenterConfig) (h : heap)
    : vio (heap * result (nat * vslmClient * cnsClient)) :=
  let vc := {| vc_Config := config; vc_Client := None; vc_CnsClient := None; vc_VslmClient := None |} in
  let p := length h in
  let! (h, r) := Connect p (h ++ [vc]) in
  match r with
  | Err e => Ret (h, Err e)
  | Ok (v, c) => Ret (h, Ok (p, v, c))
  end.

(** ** Calls that are repeated after a failed authentication *)

Record VslmManager := { vm_virtualCenter : nat; vm_vsom : vslmClient }.
Record CnsManager := { cm_virtualCenter : nat; cm_cnsClient : cnsClient }.

Definition GetVslmManager (vc : nat) (vsom : vslmClient) : result VslmManager :=
  Ok {| vm_virtualCenter := vc; vm_vsom := vsom |}.
Definition GetCnsManager (vc : nat) (client : cnsClient) : result CnsManager :=
  Ok {| cm_virtualCenter := vc; cm_cnsClient := client |}.

(** processError of both managers; [renewed] picks the client of Connect's answer. *)
Definition processError {C} (vc : nat) (renewed : vslmClient * cnsClient → C) (invokeCount : Z)
    (apiError : error) (h : heap) : vio (heap * result C) :=
  if DefaultAuthErrorRetryCount <? invokeCount then Ret (h, Err apiError)
  else if CheckForVcAuthFaults apiError then
    let! (h, r) := Connect vc h in
    Ret (h, match r with Ok clients => Ok (renewed clients) | Err e => Err e end)
  else Ret (h, Err apiError).

(** The loop that every method of both managers is.  The client that was renewed is
    used in this loop alone: the manager keeps the one it had. *)
Fixpoint invoke {C A} (fuel : nat) (vc : nat) (renewed : vslmClient * cnsClient → C)
    (method : C → vio (result A)) (invokeCount : Z) (cached : C) (h : heap) : vio (heap * result A) :=
  match fuel with
  | O => Hang "retries"
  | S fuel =>
      let invokeCount := invokeCount + 1 in
      let! r := method cached in
      match r with
      | Ok a => Ret (h, Ok a)
      | Err apiError =>
          let! (h, r) := processError vc renewed invokeCount apiError h in
          match r with
          | Err e => Ret (h, Err e)
          | Ok cached => invoke fuel vc renewed method invokeCount cached h
          end
      end
  end.

Definition retries : nat := Z.to_nat (DefaultAuthErrorRetryCount + 1).

Definition withVslm {A} (this : VslmManager) (h : heap) (method : vslmClient → VCmd (result A))
    : vio (heap * result A) :=
  invoke retries (vm_virtualCenter this) fst (λ v, call (method v)) 0 (vm_vsom this) h.

Definition withCns {A} (this : CnsManager) (h : heap) (method : cnsClient → VCmd (result A))
    : vio (heap * result A) :=
  invoke retries (cm_virtualCenter this) snd (λ c, call (method c)) 0 (cm_cnsClient this) h.

End virtual_center.

(** The methods of the managers. *)
Module Vslm.
Section methods.
Context `{VDeps} (this : VslmManager) (h : heap).

Definition CreateSnapshot id description := withVslm this h (λ v, VslmCreateSnapshot v id description).
Definition DeleteSnapshot id snap := withVslm this h (λ v, VslmDeleteSnapshot v id snap).
Definition RetrieveSnapshotInfo id := withVslm this h (λ v, VslmRetrieveSnapshotInfo v id).
Definition Retrieve id := withVslm this h (λ v, VslmRetrieve v id).
Definition RetrieveSnapshotDetails id snap := withVslm this h (λ v, VslmRetrieveSnapshotDetails v id snap).
Definition UpdateMetadata id md deleteKeys := withVslm this h (λ v, VslmUpdateMetadata v id md deleteKeys).
Definition RetrieveMetadata id snap prefix := withVslm this h (λ v, VslmRetrieveMetadata v id snap prefix).
Definition CreateDiskFromSnapshot id snap name :=
  withVslm this h (λ v, VslmCreateDiskFromSnapshot v id snap name).
Definition ListObjectsForSpec field operator value max :=
  withVslm this h (λ v, VslmListObjectsForSpec v field operator value max).
Definition CreateDisk name capacityInMB := withVslm this h (λ v, VslmCreateDisk v name capacityInMB).
Definition Clone id name keepAfterDeleteVm md :=
  withVslm this h (λ v, VslmClone v id name keepAfterDeleteVm md).
Definition Delete id := withVslm this h (λ v, VslmDelete v id).

Definition ResetManager (vcenter : nat) (vsom : vslmClient) : VslmManager :=
  {| vm_virtualCenter := vcenter; vm_vsom := vsom |}.
End methods.
End Vslm.

Module Cns.
Section methods.
Context `{VDeps} (this : CnsManager) (h : heap).

Definition CreateVolume specs := withCns this h (λ c, CnsCreateVolume c specs).
Definition DeleteVolume volumes deleteDisk := withCns this h (λ c, CnsDeleteVolume c volumes deleteDisk).
Definition QueryVolume volumes := withCns this h (λ c, CnsQueryVolume c volumes).

Definition ResetManager (vcenter : nat) (client : cnsClient) : CnsManager :=
  {| cm_virtualCenter := vcenter; cm_cnsClient := client |}.
End methods.
End Cns.
