(* ===== verification/VSphereSpec.v ===== *)
(** * How connections to vCenter are kept and renewed

    A connection is changed under its mutex only, and a method of the VSLM and CNS managers
    asks its service a second time only after a refusal for its credentials. *)

From S2P Require Export VSphere.
Open Scope Z_scope.

Section vsphere_spec.
Context `{VDeps}.

(** ** Classes of calls *)

(** The calls to the services, with the error in an answer. *)
Definition service {X} (e : VCmd X) : option (X → option error) :=
  match e in VCmd X return option (X → option error) with
  | VslmCreateSnapshot _ _ _ => Some err_of
  | VslmDeleteSnapshot _ _ _ => Some err_of
  | VslmRetrieveSnapshotInfo _ _ => Some err_of
  | VslmRetrieve _ _ => Some err_of
  | VslmRetrieveSnapshotDetails _ _ _ => Some err_of
  | VslmUpdateMetadata _ _ _ _ => Some err_of
  | VslmRetrieveMetadata _ _ _ _ => Some err_of
  | VslmCreateDiskFromSnapshot _ _ _ _ => Some err_of
  | VslmListObjectsForSpec _ _ _ _ _ => Some err_of
  | VslmCreateDisk _ _ _ => Some err_of
  | VslmClone _ _ _ _ _ => Some err_of
  | VslmDelete _ _ => Some err_of
  | CnsCreateVolume _ _ => Some err_of
  | CnsDeleteVolume _ _ _ => Some err_of
  | CnsQueryVolume _ _ => Some err_of
  | _ => None
  end.

(** The calls that make and end sessions, but for the mutex. *)
Definition session {X} (e : VCmd X) : bool :=
  match e with
  | ParseURL _ _ | NewVimClient _ _ | UseServiceVersion _ _ | Login _ _ _ | UserSession _ | Logout _
  | NewVslmClient _ | NewCnsClient _ => true
  | _ => false
  end.

(** Sessions and their mutexes. *)
Definition connecting {X} (e : VCmd X) : bool :=
  session e || match e with ConnectLock _ | ConnectUnlock _ => true | _ => false end.

(** Only the VirtualCenter at [p] has changed. *)
Definition only_at (p : nat) (h h' : heap) : Prop :=
  length h' = length h ∧ ∀ q, q ≠ p → h' !! q = h !! q.

Lemma only_at_refl p h : only_at p h h.
Proof. done. Qed.

Lemma only_at_insert p h vc : only_at p h (<[p := vc]> h).
Proof. split; [apply length_insert|]. intros q Hq. by apply list_lookup_insert_ne. Qed.

Lemma only_at_trans p h1 h2 h3 : only_at p h1 h2 → only_at p h2 h3 → only_at p h1 h3.
Proof. intros [Hl1 H1] [Hl2 H2]. split; [congruence|]. intros q Hq. by rewrite H2, H1. Qed.

(** ** Connecting *)

(** What the calls of a connection have shown: the error answered last; whether the last call
    was a login that succeeded; whether there was no session right after such a login; and whether
    the connection has ended, after which nothing more is noted. *)
Record sessions := {
  se_error : option error; se_logged : bool; se_lost : bool; se_closed : bool }.

Definition no_sessions : sessions :=
  {| se_error := None; se_logged := false; se_lost := false; se_closed := false |}.

Definition or_else {A} (x y : option A) : option A := match x with Some _ => x | None => y end.

Definition answered (r : sessions) (logged lost : bool) (err : option error) : sessions :=
  {| se_error := or_else err (se_error r); se_logged := logged; se_lost := se_lost r || lost;
     se_closed := false |}.

Definition session_step (r : sessions) {X} (e : VCmd X) (x : X) : sessions :=
  if se_closed r then r else
  match e in VCmd X return X → sessions with
  | ParseURL _ _ => λ x, answered r false false (err_of x)
  | NewVimClient _ _ => λ x, answered r false false (err_of x)
  | UseServiceVersion _ _ => λ x, answered r false false x
  | Login _ _ _ => λ x, answered r (match x with None => true | Some _ => false end) false x
  | UserSession _ => λ x,
      answered r false (se_logged r && match x with Ok None => true | _ => false end) (err_of x)
  | Logout _ => λ x, answered r false false x
  | NewVslmClient _ => λ x, answered r false false (err_of x)
  | NewCnsClient _ => λ x, answered r false false (err_of x)
  | ConnectUnlock _ => λ _, {| se_error := se_error r; se_logged := false; se_lost := se_lost r;
                               se_closed := true |}
  | _ => λ _, r
  end x.

(** The mutex of the VirtualCenter at [p] is taken when it is free, released when
    it is held, and held by every call that makes or ends a session. *)
Definition connect_monitor (p : nat) : monitor VCmd (bool * sessions) := λ '(held, r) X e x,
  match e with
  | ConnectLock q => if bool_decide (q = p) && negb held then Next (true, session_step r e x) else Violation
  | ConnectUnlock q => if bool_decide (q = p) && held then Next (false, session_step r e x) else Violation
  | _ => if session e && held then Next (held, session_step r e x) else Violation
  end.

(** The configuration may get its defaults, but stays that of the same vCenter and user. *)
Definition same_config (c c' : option VirtualCenterConfig) : Prop :=
  match c, c' with
  | None, None => True
  | Some c, Some c' =>
      vcc_Host c' = vcc_Host c ∧ vcc_Port c' = vcc_Port c ∧ vcc_Username c' = vcc_Username c ∧
      vcc_Password c' = vcc_Password c ∧ vcc_ClusterId c' = vcc_ClusterId c
  | _, _ => False
  end.

Lemma same_config_refl c : same_config c c.
Proof. by destruct c. Qed.

Lemma same_config_trans c1 c2 c3 : same_config c1 c2 → same_config c2 c3 → same_config c1 c3.
Proof. destruct c1, c2, c3; cbn; try done.
  intros (?&?&?&?&?) (?&?&?&?&?). repeat split; congruence.
Qed.

(** The error of a connection is the one that was answered last. *)
Definition failed_with {A} (r : sessions) (a : result A) : Prop :=
  match a with Err e => se_error r = Some e | Ok _ => True end.

Section sessions.
Context (p : nat).
Let mon := connect_monitor p.

(** During a connection: the mutex is held. *)
Definition going_on (s : bool * sessions) : Prop := s.1 = true ∧ se_closed s.2 = false.

Lemma session_next s X (e : VCmd X) x :
  going_on s → session e = true → ∃ r, mon s X e x = Next (true, r) ∧ r = session_step s.2 e x.
Proof. destruct s as [held r]. intros [Hh _] He. cbn in Hh. subst. exists (session_step r e x). by destruct e. Qed.

(** A step over a call that makes or ends a session. *)
Local Ltac session_step x :=
  cbn [bind call safe]; intros x;
  match goal with Hg : going_on ?s |- context [mon ?s ?X ?e x] =>
    let r := fresh "r" in let Hm := fresh in let Hr := fresh "Hr" in
    destruct (session_next s X e x Hg eq_refl) as (r & Hm & Hr); rewrite Hm; clear Hm;
    unfold session_step in Hr; rewrite (proj2 Hg) in Hr; cbn in Hr;
    assert (going_on (true, r)) by (by rewrite Hr)
  end.

(** What a step of a connection leaves: [P] of what it answers, or a reason to panic. *)
Definition step_left (vc : VirtualCenter) {A} (P : VirtualCenter → result A → Prop)
    (o : outcome (VirtualCenter * result A)) (s : bool * sessions) : Prop :=
  going_on s ∧
  match o with
  | Returned (vc', a) => same_config (vc_Config vc) (vc_Config vc') ∧ failed_with s.2 a ∧ P vc' a
  | Panicked _ => vc_Config vc = None ∨ se_lost s.2 = true
  | Hung _ => False
  end.

Lemma safe_newClient vc s :
  going_on s →
  safe mon (newClient vc) (step_left vc (λ vc' _, ∃ c, vc' = vc <| vc_Config := c |>)) s.
Proof.
  intros Hg. unfold newClient, login. destruct vc as [[cfg|] cl cc vl]; [|by split; [|left]]. cbn -[bool_decide].
  set (cfg1 := if bool_decide _ then _ else _).
  assert (Hc : same_config (Some cfg) (Some cfg1)) by (unfold cfg1; case_match; [by destruct cfg|done]).
  set (cfg2 := if _ =? 0 then _ else _).
  assert (Hc' : same_config (Some cfg) (Some cfg2)).
  { eapply same_config_trans; [exact Hc|]. unfold cfg2. case_match; [by destruct cfg1|done]. }
  clearbody cfg1. clearbody cfg2.
  assert (Hend : ∀ s c (a : result vimClient), going_on s → same_config (Some cfg) (Some c) → failed_with s.2 a →
    step_left {| vc_Config := Some cfg; vc_Client := cl; vc_CnsClient := cc; vc_VslmClient := vl |}
      (λ vc' _, ∃ c, vc' = {| vc_Config := c; vc_Client := cl; vc_CnsClient := cc; vc_VslmClient := vl |})
      (Returned ({| vc_Config := Some c; vc_Client := cl; vc_CnsClient := cc; vc_VslmClient := vl |}, a)) s).
  { intros s' c a Hs' Hc1 Ha. split; [done|]. split; [done|]. split; [done|by eexists]. }
  session_step x. destruct x as [url|e]; [|apply Hend; [done..|by rewrite Hr]].
  session_step x. destruct x as [c|e]; [|apply Hend; [done..|by rewrite Hr0]].
  session_step x. destruct x as [e|], (bool_decide (vcc_Host cfg1 ≠ "127.0.0.1"));
    [apply Hend; [done..|by rewrite Hr1]|..].
  all: session_step x; destruct x as [e'|]; [apply Hend; [done..|by rewrite Hr2]|].
  all: session_step x; destruct x as [[u|]|e']; try (by apply Hend).
  all: split; [done|right; rewrite Hr3, Hr2; cbn; apply orb_true_r].
Qed.

Lemma safe_setClient vc s :
  going_on s →
  safe mon (setClient vc) (step_left vc (λ vc' a, vc_Client vc' = ok_of a ∧
    vc_VslmClient vc' = vc_VslmClient vc ∧ vc_CnsClient vc' = vc_CnsClient vc)) s.
Proof.
  intros Hg. unfold setClient. eapply safe_seq; [by apply safe_newClient|..]; cbn; [|by intros w s'..].
  intros [vc' a] s' (Hg' & Hc & Hf & c & ->). by destruct vc.
Qed.

(** When a connection succeeds, the clients it answers are those that the VirtualCenter keeps. *)
Definition connected : VirtualCenter → result (vslmClient * cnsClient) → Prop := λ vc a,
  match a with
  | Ok (v, c) => is_Some (vc_Client vc) ∧ vc_VslmClient vc = Some v ∧ vc_CnsClient vc = Some c
  | Err _ => True
  end.

Lemma safe_renewClients vc s : going_on s → safe mon (renewClients vc) (step_left vc connected) s.
Proof.
  intros Hg. unfold renewClients, newVslmClient, newCnsClient.
  eapply safe_seq; [by apply safe_setClient|..]; [|by intros w s'..].
  intros [vc' a] s' (Hg' & Hc & Hf & Hcl & Hv & Hcc). destruct a as [c|e]; [|done]. cbn in Hcl.
  session_step x. destruct x as [v|e]; [|by split; [|split; [|rewrite Hr]]].
  session_step x. destruct vc'; cbn in *; subst. destruct x as [cc|e]; by split_and!.
Qed.

Lemma step_left_trans vc vc' {A} (P : VirtualCenter → result A → Prop) o s :
  same_config (vc_Config vc) (vc_Config vc') → step_left vc' P o s → step_left vc P o s.
Proof.
  intros Hc [Hg Ho]. split; [done|]. destruct o as [[vc'' r]|w|w]; [..|done].
  - destruct Ho as [Hc' Hr]. split; [by eapply same_config_trans|done].
  - destruct Ho as [Ho|Ho]; [left|by right]. rewrite Ho in Hc. by destruct (vc_Config vc).
Qed.

Lemma safe_connectClients vc s : going_on s → safe mon (connectClients vc) (step_left vc connected) s.
Proof.
  intros Hg. unfold connectClients, newVslmClient, newCnsClient.
  eapply (safe_seq _ _ _ _ (step_left vc (λ vc' a, vc_Client vc' = ok_of a))); [| |by intros w s'..].
  { destruct (vc_Client vc) eqn:Hcl; [by split; [|split; [apply same_config_refl|]]|].
    eapply safe_mono; [by apply safe_setClient|]. intros [[vc' a]|w|w] s' Ho; [|done..].
    destruct Ho as (? & ? & ? & ? & _). by split_and!. }
  intros [vc' a] s' (Hg' & Hc & Hf & Hcl). destruct a as [client|e]; [|done]. cbn in Hcl.
  destruct vc' as [cfg cl cc vl]; cbn in *; subst cl.
  assert (Hus : ∀ v c s, going_on s → safe mon
    (let? u := call (UserSession client) else e =>
       Ret ({| vc_Config := cfg; vc_Client := Some client; vc_CnsClient := Some c; vc_VslmClient := Some v |}, Err e) in
     match u with
     | Some _ => Ret ({| vc_Config := cfg; vc_Client := Some client; vc_CnsClient := Some c; vc_VslmClient := Some v |},
                      Ok (v, c))
     | None => renewClients {| vc_Config := cfg; vc_Client := Some client; vc_CnsClient := Some c; vc_VslmClient := Some v |}
     end) (step_left vc connected) s).
  { intros v c s1 Hs1. session_step x. destruct x as [[u|]|e]; [done| |by split; [|split; [|rewrite Hr]]].
    eapply safe_mono; [by apply safe_renewClients|]. intros o s2. by apply step_left_trans. }
  assert (Hcns : ∀ v s, going_on s → safe mon
    (let? c := (match cc with Some c => Ret (Ok c) | None => call (NewCnsClient client) end) else e =>
       Ret ({| vc_Config := cfg; vc_Client := Some client; vc_CnsClient := cc; vc_VslmClient := Some v |}, Err e) in
     let? u := call (UserSession client) else e =>
       Ret ({| vc_Config := cfg; vc_Client := Some client; vc_CnsClient := Some c; vc_VslmClient := Some v |}, Err e) in
     match u with
     | Some _ => Ret ({| vc_Config := cfg; vc_Client := Some client; vc_CnsClient := Some c; vc_VslmClient := Some v |},
                      Ok (v, c))
     | None => renewClients {| vc_Config := cfg; vc_Client := Some client; vc_CnsClient := Some c; vc_VslmClient := Some v |}
     end) (step_left vc connected) s).
  { intros v s1 Hs1. destruct cc as [c|]; [by apply Hus|]. session_step x.
    destruct x as [c|e]; [by apply Hus|by split; [|split; [|rewrite Hr]]]. }
  destruct vl as [v|]; [by apply Hcns|]. session_step x.
  destruct x as [v|e]; [by apply Hcns|by split; [|split; [|rewrite Hr]]].
Qed.
End sessions.

(** From any state of the notes, while they are open. *)
Definition connection_left (p : nat) (h : heap) (o : outcome (heap * result (vslmClient * cnsClient)))
    (s : bool * sessions) : Prop :=
  s.1 = false ∧ se_closed s.2 = true ∧
  match o with
  | Returned (h', a) => only_at p h h' ∧ ∃ vc vc', h !! p = Some vc ∧ h' !! p = Some vc' ∧
      same_config (vc_Config vc) (vc_Config vc') ∧ failed_with s.2 a ∧ connected vc' a
  | Panicked _ => (∀ vc, h !! p = Some vc → vc_Config vc = None) ∨ se_lost s.2 = true
  | Hung _ => False
  end.

Lemma Connect_safe p h r :
  se_closed r = false → safe (connect_monitor p) (Connect p h) (connection_left p h) (false, r).
Proof.
  intros Hr. unfold Connect, withConnectLock. intros x. cbn. rewrite bool_decide_true by done. cbn.
  assert (Hg : going_on (true, session_step r (ConnectLock p) x)) by (unfold session_step; by rewrite Hr).
  revert Hg. generalize (session_step r (ConnectLock p) x). clear r Hr. intros r Hg. apply safe_defer.
  assert (Hclose : ∀ r' x, se_closed r' = false → session_step r' (ConnectUnlock p) x =
    {| se_error := se_error r'; se_logged := false; se_lost := se_lost r'; se_closed := true |}).
  { intros r' x' Hr'. unfold session_step. by rewrite Hr'. }
  destruct (h !! p) as [vc|] eqn:Hp.
  2: { intros ?; cbn. rewrite bool_decide_true, Hclose by (done || apply Hg).
    split; [done|]. split; [done|]. left. congruence. }
  eapply safe_seq; [by apply safe_connectClients|..]; [| |by intros w s' []].
  - intros [vc' a] [held r'] ([Hh Hr'] & Hc & Hf & Ha) y; cbn in *; subst held.
    rewrite bool_decide_true, Hclose by done. split; [done|]. split; [done|]. split; [apply only_at_insert|]. exists vc, vc'.
    rewrite list_lookup_insert_eq by (by eapply lookup_lt_Some). split_and!; [done..| |done].
    by destruct a.
  - intros w [held r'] ([Hh Hr'] & Ho) y; cbn in *; subst held. rewrite bool_decide_true, Hclose by done.
    split; [done|]. split; [done|]. cbn. destruct Ho as [Ho|Ho]; [left|by right]. intros vc0. congruence.
Qed.

(** C29. A VirtualCenter is changed under its own mutex, which is free again however the
    connection ends, and no other is changed; its configuration stays that of the same vCenter,
    user and cluster.  When Connect succeeds the clients it answers are those the VirtualCenter
    keeps; when it fails, its error is the one answered last.  It panics only on a VirtualCenter
    without configuration, or when vCenter has no session right after a login that succeeded, and
    never waits for ever. *)
Theorem Connect_spec p h :
  safe (connect_monitor p) (Connect p h) (λ o '(held, r), held = false ∧
    match o with
    | Returned (h', a) => only_at p h h' ∧ ∃ vc vc', h !! p = Some vc ∧ h' !! p = Some vc' ∧
        same_config (vc_Config vc) (vc_Config vc') ∧ failed_with r a ∧
        match a with
        | Ok (v, c) => is_Some (vc_Client vc') ∧ vc_VslmClient vc' = Some v ∧ vc_CnsClient vc' = Some c
        | Err _ => True
        end
    | Panicked _ => (∀ vc, h !! p = Some vc → vc_Config vc = None) ∨ se_lost r = true
    | Hung _ => False
    end) (false, no_sessions).
Proof.
  eapply safe_mono; [by apply Connect_safe|]. intros o [held r] (Hh & _ & Ho). split; [done|].
  destruct o as [[h' a]|w|w]; [|done..]. destruct Ho as (Hat & vc & vc' & Hp & Hp' & Hc & Hf & Ha).
  split; [done|]. exists vc, vc'. by destruct a as [[v c]|e].
Qed.

(** ** Methods of the managers *)

Lemma connect_noted p held r X (e : VCmd X) x :
  connecting e = true →
  connect_monitor p (held, r) X e x = Violation ∨
  ∃ held', connect_monitor p (held, r) X e x = Next (held', session_step r e x).
Proof. intros He. destruct e; try discriminate He; unfold connect_monitor; case_match; eauto. Qed.

(** A monitor whose states stand for notes [r] during a connection, as [K r] says. *)
Lemma safe_Connect_noted {S} (mon : monitor VCmd S) (K : sessions → S → Prop) p h r s :
  (∀ r s X (e : VCmd X) x, K r s → connecting e = true →
     ∃ s', mon s X e x = Next s' ∧ K (session_step r e x) s') →
  se_closed r = false → K r s →
  safe mon (Connect p h) (λ o s', ∃ r', K r' s' ∧ se_closed r' = true ∧ match o with
    | Returned (h', a) => only_at p h h' ∧ failed_with r' a
    | Panicked _ => True
    | Hung _ => False
    end) s.
Proof.
  intros HK Hr Hs. eapply safe_mono.
  - apply (safe_follows (λ (s : bool * sessions) t, K s.2 t) (connect_monitor p) mon _
      (connection_left p h) (false, r)); [|exact Hs|by apply Connect_safe].
    intros [held r1] t X e x Ht. destruct (connecting e) eqn:He.
    + destruct (HK r1 t X e x Ht He) as (t' & Hm & Ht').
      destruct (connect_noted p held r1 X e x He) as [-> |[held' ->]]; [done|by exists t'].
    + destruct e; try discriminate He; done.
  - intros o t ([held r'] & Ht & _ & Hcl & Ho). exists r'. split; [exact Ht|]. split; [exact Hcl|].
    destruct o as [[h' a]|w|w]; [|done..]. destruct Ho as (Hat & ? & ? & _ & _ & _ & Hf & _). done.
Qed.

(** One that stays where it is. *)
Lemma safe_Connect {S} (mon : monitor VCmd S) p h s :
  (∀ X (e : VCmd X) x, connecting e = true → mon s X e x = Next s) →
  safe mon (Connect p h) (λ o s', s' = s ∧
    match o with Returned (h', _) => only_at p h h' | Panicked _ => True | Hung _ => False end) s.
Proof.
  intros Hm. eapply safe_mono.
  - apply (safe_Connect_noted mon (λ _ s', s' = s) p h no_sessions); [|done..].
    intros r s' X e x -> He. exists s. by rewrite Hm.
  - intros o s' (r & -> & _ & Ho). split; [done|]. destruct o as [[h' a]|w|w]; [apply Ho|done..].
Qed.

#[local] Arguments Connect : simpl never.

(** A refusal for the credentials. *)
Definition refused (last : option error) : bool :=
  match last with Some err => CheckForVcAuthFaults err | None => false end.

Section retries.
Context {C A S : Type} (mon : monitor VCmd S) (vc : nat).
Context (renewed : vslmClient * cnsClient → C) (method : C → VCmd (result A)).
Context (J J' : heap → S → Prop) (Q : outcome (heap * result A) → S → Prop).

(** The connection between the attempts. *)
Hypothesis reconnects : ∀ h s, J h s → safe mon (Connect vc h) (λ o s', match o with
  | Returned (h', Ok _) => J' h' s'
  | Returned (h', Err e) => Q (Returned (h', Err e)) s'
  | Panicked w => Q (Panicked w) s'
  | Hung _ => False
  end) s.

(** An attempt of the method, with any client: [P] of its answer. *)
Definition attempt (P : result A → S → Prop) (s : S) : Prop :=
  ∀ c x, match mon s _ (method c) x with Next s' => P x s' | Violation => False | Impossible => True end.

Hypothesis again : ∀ h s, J' h s → attempt (λ x, Q (Returned (h, x))) s.

(** The rule for a method: [J] holds after the refusal of the first attempt, [J'] before the second. *)
Lemma safe_invoke cached h s :
  attempt (λ x s', if refused (err_of x) then J h s' else Q (Returned (h, x)) s') s →
  safe mon (invoke retries vc renewed (λ c, call (method c)) 0 cached h) Q s.
Proof.
  intros H1. change retries with 2%nat. intros x. specialize (H1 cached x).
  destruct (mon s _ (method cached) x) as [s1| |]; [|done..].
  destruct x as [a|e]; cbn [bind err_of refused] in *; [done|]. unfold processError at 1. cbn [bind Z.add Z.ltb].
  destruct (CheckForVcAuthFaults e); [|done].
  cbn. apply safe_bind_bind. eapply safe_seq; [by apply reconnects|..].
  - intros [h' [cs|e']] s2 Hh; cbn in Hh |- *; [|done]. intros x.
    pose proof (again _ _ Hh (renewed cs) x) as H2.
    destruct (mon s2 _ (method (renewed cs)) x) as [s3| |]; [|done..]. by destruct x.
  - by intros w s2.
  - by intros w s2.
Qed.
End retries.

(** The calls of a method are those of its attempts and of the connection between them. *)
Lemma only_invoke {D A} (C : ∀ X, VCmd X → bool) vc renewed (method : D → VCmd (result A)) cached h :
  (∀ p h, calls_only C (Connect p h)) → (∀ c, C _ (method c) = true) →
  calls_only C (invoke retries vc renewed (λ c, call (method c)) 0 cached h).
Proof.
  intros Hc Hm. change retries with 2%nat. cbn. unfold processError. split; [apply Hm|]. intros [a|e]; [done|].
  cbn. destruct (CheckForVcAuthFaults e); [|done].
  apply calls_only_bind; [apply calls_only_bind; [apply Hc|by intros [h' [cs|e']]]|].
  intros [h' [c|e']]; [|done]. cbn. split; [apply Hm|]. by intros [a|e'].
Qed.

(** The attempts of a method: their number, and the error of the last one.  The first may
    be made at once; the second, and a connection before it, only when the first was refused
    for its credentials. *)
Definition attempts_monitor : monitor VCmd (nat * option error) := λ '(n, last) X e x,
  match service e with
  | Some err => if bool_decide (n = 0%nat) || (bool_decide (n = 1%nat) && refused last)
                then Next (S n, err x) else Violation
  | None => if connecting e && bool_decide (n = 1%nat) && refused last then Next (n, last) else Violation
  end.

(** The answer is that of the last attempt, or the error of the connection after the first;
    only the VirtualCenter at [vc] was changed. *)
Definition attempts_done (vc : nat) (h : heap) {A} (o : outcome (heap * result A))
    (s : nat * option error) : Prop :=
  let '(n, last) := s in
  match o with
  | Returned (h', r) => only_at vc h h' ∧ (n = 1%nat ∨ n = 2%nat) ∧
      (last = err_of r ∨ n = 1%nat ∧ refused last = true ∧ is_Some (err_of r))
  | Panicked _ => n = 1%nat ∧ refused last = true
  | Hung _ => False
  end.

End vsphere_spec.
