(* ===== verification/Disks.v ===== *)
(** * Improved virtual disks (pkg/ivd)

    The type manager of virtual disks, its entities, and the provisioning of
    volumes on the datastores that all nodes share. *)

From S2P Require Export VSphere.
Open Scope Z_scope.

Definition vddkconfig : string := "vddk-config".
Definition waitTime : Z := 3600 * Second.

Module Ivd.

(** The pointers may be nil; the managers are owned by the type manager. *)
Record IVDProtectedEntityTypeManager := {
  tm_vcenterConfig : option VirtualCenterConfig;
  tm_vcenter : option nat;
  tm_vslmManager : option VslmManager;
  tm_cnsManager : option CnsManager;
}.

#[export] Instance update_tm_vcenterConfig : Update tm_vcenterConfig := λ v r,
  let (_, a, b, c) := r in Build_IVDProtectedEntityTypeManager v a b c.
#[export] Instance update_tm_vcenter : Update tm_vcenter := λ v r,
  let (a, _, b, c) := r in Build_IVDProtectedEntityTypeManager a v b c.
#[export] Instance update_tm_vslmManager : Update tm_vslmManager := λ v r,
  let (a, b, _, c) := r in Build_IVDProtectedEntityTypeManager a b v c.
#[export] Instance update_tm_cnsManager : Update tm_cnsManager := λ v r,
  let (a, b, c, _) := r in Build_IVDProtectedEntityTypeManager a b c v.

(** The memory that the methods share. *)
Record world := World { w_heap : heap; w_tm : IVDProtectedEntityTypeManager }.

#[export] Instance update_w_heap : Update w_heap := λ v r, let (_, a) := r in World v a.
#[export] Instance update_w_tm : Update w_tm := λ v r, let (a, _) := r in World a v.

Section type_manager.
Context `{VDeps}.

(** ** Configuration *)

(** The initialisation of the virtual disk library, at the end of a reload. *)
Definition initVddk (ps : params) : vio (option error) :=
  let? path := (match ps !! vddkconfig with
    | None => Ret (Ok "")
    | Some (IMap vddkConfig) =>
        let? path := call (CreateConfigFile vddkConfig) else e =>
          Ret (Err (Wrap e "Failed to create config file")) in
        Ret (Ok path)
    | Some _ => Panic "interface conversion: not a map[string]string"
    end) else e => Ret (Some e) in
  check! call (InitEx path) else e =>
    Ret (Some (Wrap e "Could not initialize VDDK during config reload")) in
  if bool_decide (path ≠ "") then
    check! call (DeleteConfigFile path) else e =>
      Ret (Some (Wrap e "Failed to delete config file")) in
    Ret None
  else Ret None.

(** The clients of a new connection are handed to the managers, which are made when they
    are missing. *)
Definition resetVslmManager (vc : nat) (client : vslmClient) (w : world) : result world :=
  match tm_vslmManager (w_tm w) with
  | Some _ => Ok (w <| w_tm; tm_vslmManager := Some (Vslm.ResetManager vc client) |>)
  | None =>
      match GetVslmManager vc client with
      | Err e => Err (Wrap e "Failed to initialize vslm manager")
      | Ok m => Ok (w <| w_tm; tm_vslmManager := Some m |>)
      end
  end.

Definition resetCnsManager (vc : nat) (client : cnsClient) (w : world) : result world :=
  match tm_cnsManager (w_tm w) with
  | Some _ => Ok (w <| w_tm; tm_cnsManager := Some (Cns.ResetManager vc client) |>)
  | None =>
      match GetCnsManager vc client with
      | Err e => Err (Wrap e "Failed to initialize cns manager")
      | Ok m => Ok (w <| w_tm; tm_cnsManager := Some m |>)
      end
  end.

(** A connection with the configuration [newVcConfig]. *)
Definition reconnect (newVcConfig : option VirtualCenterConfig) (ps : params) (w : world)
    : vio (world * option error) :=
  let! (h, r) := GetVirtualCenter newVcConfig (w_heap w) in
  let w := w <| w_heap := h |> in
  match r with
  | Err e => Ret (w, Some e)
  | Ok (reloadedVc, vslmClient, cnsClient) =>
      let w := w <| w_tm; tm_vcenter := Some reloadedVc |> in
      match resetVslmManager reloadedVc vslmClient w with
      | Err e => Ret (w, Some e)
      | Ok w =>
          match resetCnsManager reloadedVc cnsClient w with
          | Err e => Ret (w, Some e)
          | Ok w => let! err := initVddk ps in Ret (w, err)
          end
      end
  end.

(** The error of Disconnect is only logged. *)
Definition disconnectOld (w : world) : vio world :=
  match tm_vcenter (w_tm w) with
  | None => Ret w
  | Some p => let! (h, _) := Disconnect p (w_heap w) in Ret (w <| w_heap := h |>)
  end.

Definition reloadLocked (ps : params) (w : world) : vio (world * option error) :=
  let old := tm_vcenterConfig (w_tm w) in
  match (if bool_decide (ps = ∅) then Ok old
         else match GetVirtualCenterConfigFromParams ps with Ok c => Ok (Some c) | Err e => Err e end) with
  | Err e => Ret (w, Some e)
  | Ok newVcConfig =>
      match CheckIfVirtualCenterConfigChanged old newVcConfig with
      | None => Panic "nil pointer: newVcConfig"
      | Some false =>
          match tm_vcenter (w_tm w) with
          | Some _ => Ret (w, None)
          | None => reconnect newVcConfig ps w
          end
      | Some true =>
          let! w := disconnectOld (w <| w_tm; tm_vcenterConfig := newVcConfig |>) in
          reconnect newVcConfig ps w
      end
  end.

Definition ReloadConfig (ps : params) (w : world) : vio (world * option error) :=
  call ConfigLock ;;; defer (call ConfigUnlock) (reloadLocked ps w).

Definition NewIVDProtectedEntityTypeManager (ps : params) (h : heap) : vio world :=
  let! (w, _) := ReloadConfig ps (World h {| tm_vcenterConfig := None; tm_vcenter := None;
                                             tm_vslmManager := None; tm_cnsManager := None |}) in
  Ret w.

Definition GetTypeName : string := "ivd".

Definition CheckVcenterConnections (w : world) : vio (world * option error) :=
  match tm_vcenter (w_tm w), tm_vslmManager (w_tm w), tm_cnsManager (w_tm w) with
  | Some _, Some _, Some _ => Ret (w, None)
  | _, _, _ => ReloadConfig ∅ w
  end.

(** ** Identifiers and metadata *)

Definition newProtectedEntityID (id : vimID) : PEID := NewProtectedEntityID "ivd" id.

Definition NewVimIDFromPEID (peid : PEID) : vimID :=
  if bool_decide (GetPeType peid = "ivd") then GetID peid else "".

Definition NewVimSnapshotIDFromPEID (peid : PEID) : vimID :=
  if HasSnapshot peid then SnapIDGetID (GetSnapshotID peid) else "".

Definition NewVimSnapshotIDFromPESnapshotID (s : SnapID) : vimID := SnapIDGetID s.

Record metadata := {
  md_VirtualStorageObject : VStorageObject;
  md_Datastore : ManagedObjectReference;
  md_ExtendedMetadata : list KeyValue;
}.

Definition with_labels (md : metadata) (kvs : list KeyValue) : metadata :=
  {| md_VirtualStorageObject := md_VirtualStorageObject md; md_Datastore := md_Datastore md;
     md_ExtendedMetadata := kvs |}.

Definition readMetadataFromBuf (buf : string) : metadata * option error :=
  let '((vso, ds, kvs), err) := XmlUnmarshal buf in
  ({| md_VirtualStorageObject := vso; md_Datastore := ds; md_ExtendedMetadata := kvs |}, err).

(** What ReadAll got before an error is dropped; the metadata is then the zero value,
    which no caller looks at. *)
Definition readMetadataFromReader (r : reader) : vio (result (metadata * option error)) :=
  let! (mdBuf, err) := call (ReadStream r) in
  match err with
  | Some e => Ret (Err (Wrap e "ReadAll failed"))
  | None => Ret (Ok (readMetadataFromBuf mdBuf))
  end.

(** The labels that say which cluster a volume belongs to.  A [range] over them may
    visit them in the other order. *)
Definition fillInClusterSpecificParams (cfg : VirtualCenterConfig) : list KeyValue :=
  [{| kv_Key := "cns.containerCluster.clusterId"; kv_Value := vcc_ClusterId cfg |};
   {| kv_Key := "cns.containerCluster.vSphereUser"; kv_Value := vcc_Username cfg |}].

Definition lookup_label (l : list KeyValue) (key : string) : option string :=
  (λ '(_, kv), kv_Value kv) <$> list_find (λ kv, kv_Key kv = key) l.

Definition FilterLabelsFromMetadataForVslmAPIs (md : metadata) (cfg : VirtualCenterConfig) : metadata :=
  let reservedLabels := fillInClusterSpecificParams cfg in
  with_labels md (reservedLabels ++
    ((λ label, {| kv_Key := kv_Key label;
                  kv_Value := default (kv_Value label) (lookup_label reservedLabels (kv_Key label)) |})
       <$> md_ExtendedMetadata md)).

Definition FilterLabelsFromMetadataForCnsAPIs (md : metadata) (prefix : string) : metadata :=
  with_labels md (filter (λ label, has_prefix prefix (kv_Key label) = false) (md_ExtendedMetadata md)).

(** ** Entities *)

Context (s3Config : S3Config).

(** Of the transports only those of the data are modelled; the others are S3 transports, of
    which nothing but an error is looked at. *)
Record IVDProtectedEntity := { ie_id : PEID; ie_data : list DataTransport }.

Definition getDataTransports (cfg : VirtualCenterConfig) (id : PEID) : result (list DataTransport) :=
  let snap := SnapIDString (GetSnapshotID id) in
  let vadpParams : gmap string string :=
    <["vcenter" := vcc_Host cfg]> (if bool_decide (snap ≠ "") then {["id" := GetID id; "snapshotID" := snap]}
                                   else {["id" := GetID id]}) in
  match NewS3DataTransportForPEID id s3Config with
  | Err e => Err (Wrap e "Could not create S3 data transport")
  | Ok dataS3Transport =>
      match NewS3MDTransportForPEID id s3Config with
      | Some e => Err (Wrap e "Could not create S3 md transport")
      | None =>
          match NewS3CombinedTransportForPEID id s3Config with
          | Some e => Err (Wrap e "Could not create S3 combined transport")
          | None => Ok [{| dt_Type := "vadp"; dt_Params := vadpParams |}; dataS3Transport]
          end
      end
  end.

(** The fields of the configuration, whose pointer may be nil. *)
Definition withConfig {A} (w : world) (f : VirtualCenterConfig → vio A) : vio A :=
  match tm_vcenterConfig (w_tm w) with
  | Some cfg => f cfg
  | None => Panic "nil pointer: vcenterConfig"
  end.

Definition newIVDProtectedEntity (w : world) (id : PEID) : vio (result IVDProtectedEntity) :=
  withConfig w (λ cfg, Ret (match getDataTransports cfg id with
    | Err e => Err e
    | Ok data => Ok {| ie_id := id; ie_data := data |}
    end)).

Definition zeroEntity : IVDProtectedEntity := {| ie_id := PEID_zero; ie_data := [] |}.

(** A method of the VSLM manager. *)
Definition vslm {A} (w : world) (f : VslmManager → heap → vio (heap * result A))
    : vio (world * result A) :=
  match tm_vslmManager (w_tm w) with
  | None => Panic "nil pointer: vslmManager"
  | Some m => let! (h, r) := f m (w_heap w) in Ret (w <| w_heap := h |>, r)
  end.

Definition GetProtectedEntity (id : PEID) (w : world) : vio (world * result IVDProtectedEntity) :=
  let! (w, err) := CheckVcenterConnections w in
  match err with
  | Some e => Ret (w, Err e)
  | None => let! r := newIVDProtectedEntity w id in Ret (w, r)
  end.

Definition GetProtectedEntities (w : world) : vio (world * result (list PEID)) :=
  let! (w, err) := CheckVcenterConnections w in
  match err with
  | Some e => Ret (w, Err e)
  | None =>
      let! (w, r) := vslm w (λ m h, Vslm.ListObjectsForSpec m h "createTime" "greaterThan" ["0"] 1000) in
      Ret (w, match r with Err e => Err e | Ok ids => Ok (newProtectedEntityID <$> ids) end)
  end.

Definition VPollImmediate {St R} (interval timeout : Z) (cond : St → vio (St * poll_step R)) (st : St)
    : vio (St * result R) :=
  Do (VPollTicks interval timeout) (λ n, poll_loop n cond st).

(** ** Snapshots *)

Section entity.
Context (this : IVDProtectedEntity).

Definition vimId : vimID := NewVimIDFromPEID (ie_id this).

(** The tries of a snapshot share the number of tasks they have started. *)
Abbreviation tries := (world * Z)%type.

(** The error of a wait that is not tried again. *)
Definition snapshotWaitError (err : error) (retryCount : Z) : error :=
  Wrap err ("Failed at waiting for the CreateSnapshot invocation on IVD Protected Entity, "
    +:+ PEIDString (ie_id this) +:+ ", Retry-Count: " +:+ pretty retryCount).

(** What follows the creation of a task; [retryCount] counts it. *)
Definition snapshotTask (t : task) (w : world) (retryCount : Z) : vio (tries * poll_step SnapID) :=
  let! r := call (TaskWait t waitTime) in
  match r with
  | Err err =>
      let failed := PollFail (snapshotWaitError err retryCount) in
      Ret (w, retryCount, match VimFault err with
        | Some InvalidState | Some VslmSyncFault | Some NotFound => PollAgain
        | _ => if IsConnectionResetError err then PollAgain else failed
        end)
  | Ok (AnyID ivdSnapshotID) =>
      let! (w, r) := vslm w (λ m h, Vslm.RetrieveSnapshotDetails m h vimId ivdSnapshotID) in
      let retVal := PollDone (NewProtectedEntitySnapshotID ivdSnapshotID) in
      Ret (w, retryCount, match r with
        | Ok _ => retVal
        | Err err =>
            match SoapFault err with
            | Some (_, faultMsg) =>
                if Contains faultMsg "A specified parameter was not correct: snapshotId" then PollAgain
                else retVal
            | None => retVal
            end
        end)
  | Ok _ => Panic "interface conversion: not a vim.ID"
  end.

Definition trySnapshot (st : tries) : vio (tries * poll_step SnapID) :=
  let '(w, retryCount) := st in
  let! (w, err) := CheckVcenterConnections w in
  match err with
  | Some _ => Ret (w, retryCount, PollAgain)
  | None =>
      let! (w, r) := vslm w (λ m h, Vslm.CreateSnapshot m h vimId "AstrolabeSnapshot") in
      match r with
      | Err err => Ret (w, retryCount, PollFail (Wrap err
          ("Failed to create a task for the CreateSnapshot invocation on IVD Protected Entity, "
             +:+ PEIDString (ie_id this))))
      | Ok vslmTask => snapshotTask vslmTask w (retryCount + 1)
      end
  end.

Definition Snapshot (w : world) : vio (world * result SnapID) :=
  let! ((w, _), r) := VPollImmediate Second Hour trySnapshot (w, 0) in
  Ret (w, r).

Definition ListSnapshots (w : world) : vio (world * result (list SnapID)) :=
  let! (w, err) := CheckVcenterConnections w in
  match err with
  | Some e => Ret (w, Err e)
  | None =>
      let! (w, r) := vslm w (λ m h, Vslm.RetrieveSnapshotInfo m h vimId) in
      Ret (w, match r with
              | Err e => Err (Wrap e "RetrieveSnapshotInfo failed")
              | Ok infos => Ok (NewProtectedEntitySnapshotID <$> infos)
              end)
  end.

(** The faults of a deletion's task: the snapshot is gone, or a later try may succeed. *)
Definition deleteOutcome (msg : string) (r : result any) : poll_step unit :=
  match r with
  | Ok _ => PollDone tt
  | Err err =>
      match VimFault err with
      | Some InvalidArgument | Some NotFound => PollDone tt
      | Some InvalidState | Some TaskInProgress | Some FileLocked => PollAgain
      | _ => if IsConnectionResetError err then PollAgain
             else PollFail (Wrap err ("Failed at waiting for the DeleteSnapshot invocation" +:+ msg))
      end
  end.

Definition tryDeleteSnapshot (snapshotToDelete : SnapID) (w : world) : vio (world * poll_step unit) :=
  let msg := " on IVD Protected Entity, " +:+ PEIDString (ie_id this) +:+ ", with input arg, "
               +:+ SnapIDString snapshotToDelete in
  let! (w, err) := CheckVcenterConnections w in
  match err with
  | Some _ => Ret (w, PollAgain)
  | None =>
      let! (w, r) := vslm w (λ m h, Vslm.DeleteSnapshot m h vimId
                                      (NewVimSnapshotIDFromPESnapshotID snapshotToDelete)) in
      match r with
      | Err err =>
          let failed := PollFail (Wrap err ("Failed to create a task for the DeleteSnapshot invocation" +:+ msg)) in
          Ret (w, match SoapFault err with Some (NotFound, _) => PollDone tt | _ => failed end)
      | Ok vslmTask =>
          let! r := call (TaskWait vslmTask waitTime) in
          Ret (w, deleteOutcome msg r)
      end
  end.

Definition DeleteSnapshot (snapshotToDelete : SnapID) (w : world) : vio (world * result bool) :=
  let! (w, r) := VPollImmediate Second Hour (tryDeleteSnapshot snapshotToDelete) w in
  Ret (w, match r with Ok _ => Ok true | Err e => Err e end).

(** There is no information on a snapshot: a nil pointer, and no error. *)
Definition GetInfoForSnapshot (snapshotID : SnapID) : result (option PEInfo) := Ok None.

Definition GetComponents : result (list PE) := Ok [].

Definition IVD_GetID : PEID := ie_id this.

(** ** Information and metadata *)

Definition GetInfo (w : world) : vio (world * result PEInfo) :=
  let! (w, err) := CheckVcenterConnections w in
  match err with
  | Some e => Ret (w, Err e)
  | None =>
      let! (w, r) := vslm w (λ m h, Vslm.Retrieve m h (GetID (ie_id this))) in
      Ret (w, match r with
              | Err e => Err (Wrap e "Retrieve failed")
              | Ok vso => Ok {| pi_ID := ie_id this; pi_Name := vso_Name vso;
                                pi_Size := int64 (vso_CapacityInMB vso * 1024 * 1024);
                                pi_DataTransports := ie_data this |}
              end)
  end.

Definition GetCombinedInfo (w : world) : vio (world * result (list PEInfo)) :=
  let! (w, r) := GetInfo w in
  Ret (w, match r with Err e => Err e | Ok ivdIPE => Ok [ivdIPE] end).

(** An error of RetrieveMetadata is dropped, and no labels are returned. *)
Definition getMetadata (w : world) : vio (world * result metadata) :=
  let vsoID := GetID (ie_id this) in
  let! (w, r) := vslm w (λ m h, Vslm.Retrieve m h vsoID) in
  match r with
  | Err e => Ret (w, Err e)
  | Ok vso =>
      let ssID := if HasSnapshot (ie_id this) then Some (SnapIDGetID (GetSnapshotID (ie_id this))) else None in
      let! (w, r) := vslm w (λ m h, Vslm.RetrieveMetadata m h vsoID ssID "") in
      Ret (w, Ok {| md_VirtualStorageObject := vso; md_Datastore := vso_Datastore vso;
                    md_ExtendedMetadata := default [] (ok_of r) |})
  end.

Definition getMetadataBuf (w : world) : vio (world * result string) :=
  let! (w, r) := getMetadata w in
  Ret (w, match r with
          | Err e => Err (Wrap e "Retrieve failed")
          | Ok md => XmlMarshal (md_VirtualStorageObject md) (md_Datastore md) (md_ExtendedMetadata md)
          end).

Definition GetMetadataReader (w : world) : vio (world * result string) :=
  let! (w, err) := CheckVcenterConnections w in
  match err with
  | Some e => Ret (w, Err e)
  | None => getMetadataBuf w
  end.

(** ** Data *)

(** net/url's Hostname, but for IPv6 literals. *)
Definition Hostname (host : string) : string := match cut ":" host with Some (h, _) => h | None => host end.

Definition TrimPrefix (s prefix : string) : string :=
  if has_prefix prefix s then String.substring (String.length prefix) (String.length s) s else s.

Definition getDiskConnectionParams (readOnly : bool) (w : world) : vio (world * result ConnectParams) :=
  match tm_vcenter (w_tm w) with
  | None => Panic "nil pointer: vcenter"
  | Some p =>
      let! (h, r) := Connect p (w_heap w) in
      let w := w <| w_heap := h |> in
      match r with
      | Err e => Ret (w, Err e)
      | Ok _ =>
          match h !! p with
          | Some {| vc_Client := Some client; vc_Config := Some cfg |} =>
              let! (w, r) := vslm w (λ m h, Vslm.Retrieve m h vimId) in
              match r with
              | Err e => Ret (w, Err e)
              | Ok vso =>
                  let ds := mor_Type (vso_Datastore vso) +:+ ":" +:+ mor_Value (vso_Datastore vso) in
                  let? thumbPrint := call (GetThumbPrintForURL client) else e => Ret (w, Err e) in
                  Ret (w, Ok {|
                    cp_serverName := Hostname (vim_URLHost client); cp_thumbPrint := thumbPrint;
                    cp_userName := vcc_Username cfg; cp_password := vcc_Password cfg;
                    cp_fcdId := GetID (ie_id this); cp_datastore := TrimPrefix ds "Datastore:";
                    cp_fcdssid := if HasSnapshot (ie_id this)
                                  then SnapIDString (GetSnapshotID (ie_id this)) else "";
                    cp_readOnly := readOnly |})
              end
          | _ => Panic "nil pointer: Client or Config"
          end
      end
  end.

(** The text of the error is taken for a format; it is here that of one without a verb. *)
Definition diskError (e : error) : error :=
  ErrorString (Error e +:+ " with error code: " +:+ pretty (VixErrorCode e)).

Definition getDataWriter (w : world) : vio (world * result disk) :=
  let! (w, r) := getDiskConnectionParams false w in
  match r with
  | Err e => Ret (w, Err e)
  | Ok diskConnectParam =>
      let? diskWriter := call (DiskOpen diskConnectParam) else e => Ret (w, Err (diskError e)) in
      Ret (w, Ok diskWriter)
  end.

Definition GetDataReader (w : world) : vio (world * result disk) :=
  let! (w, err) := CheckVcenterConnections w in
  match err with
  | Some e => Ret (w, Err e)
  | None =>
      let! (w, r) := getDiskConnectionParams true w in
      match r with
      | Err e => Ret (w, Err e)
      | Ok diskConnectParam =>
          let! r := call (DiskOpen diskConnectParam) in
          let! r := (match r with
            | Err vErr =>
                if VixErrorCode vErr =? 20005 then
                  call (DiskEndAccess diskConnectParam) ;;;
                  call (DiskOpen diskConnectParam)
                else Ret (Err vErr)
            | Ok diskReader => Ret (Ok diskReader)
            end) in
          Ret (w, match r with Err e => Err (diskError e) | Ok diskReader => Ok diskReader end)
      end
  end.
End entity.

(** *** Copying to a disk *)

Definition bufferSize : Z := 1024 * 1024.

(** bufio's Writer, filled by ReadFrom: a buffer is written when it is full, and what is left at the
    end stays in it unless it fills it; [n] bytes are in the buffer [buf], the last one first. *)
Fixpoint fullChunks (s : string) (buf : string) (n : Z) : list string :=
  match s with
  | EmptyString => []
  | String a s =>
      if n + 1 =? bufferSize then str_rev (String a buf) "" :: fullChunks s "" 0
      else fullChunks s (String a buf) (n + 1)
  end.

(** [written] is what was taken from the reader so far. *)
Fixpoint writeChunks (d : disk) (chunks : list string) (written : Z) : vio (Z * option error) :=
  match chunks with
  | [] => Ret (written, None)
  | c :: chunks =>
      let written := written + bufferSize in
      check! call (DiskWrite d c) else e => Ret (written, Some e) in
      writeChunks d chunks written
  end.

(** [io.CopyBuffer] to a [bufio.Writer], which is never flushed.  The source has no WriteTo and
    the disk no ReadFrom of its own, and a reader's error comes after its last bytes. *)
Definition CopyBuffer (d : disk) (r : reader) : vio (Z * option error) :=
  let! (s, readErr) := call (ReadStream r) in
  let! (written, err) := writeChunks d (fullChunks s "" 0) 0 in
  match err with
  | Some e => Ret (written, Some e)
  | None => Ret (Z.of_nat (String.length s), readErr)
  end.

(** The metadata is not restored.  [None] is a nil reader. *)
Definition copy (this : IVDProtectedEntity) (dataReader : option reader) (w : world)
    : vio (world * (Z * option error)) :=
  let! (w, r) := getDataWriter this w in
  match r with
  | Err e => Ret (w, (0, Some e))
  | Ok dataWriter =>
      defer (call (DiskClose dataWriter) ;;; Ret tt) (
        match dataReader with
        | None => Panic "nil pointer: io.Reader"
        | Some rd =>
            let! (bytesWritten, err) := CopyBuffer dataWriter rd in
            Ret (w, (bytesWritten, (λ e, Wrap e ("Failed in CopyBuffer, bytes written = "
                                                   +:+ pretty bytesWritten)) <$> err))
        end)
  end.

(** The error of reading the metadata is overwritten by that of the copy. *)
Definition Overwrite (this : IVDProtectedEntity) (sourceID : PEID) (sourcePE : PE) (w : world)
    : vio (world * option error) :=
  if bool_decide (GetPeType sourceID ≠ "ivd") then
    Ret (w, Some (ErrorString "Overwrite source must be an ivd"))
  else
    let! (w, err) := CheckVcenterConnections w in
    match err with
    | Some e => Ret (w, Some e)
    | None =>
        let? metadataReader := call (SrcGetMetadataReader sourcePE) else e =>
          Ret (w, Some (Wrap e "Could not retrieve metadata reader")) in
        let? dataReader := call (SrcGetDataReader sourcePE) else e =>
          Ret (w, Some (Wrap e "Could not retrieve data reader")) in
        let! _ := readMetadataFromReader metadataReader in
        let! (w, (_, err)) := copy this dataReader w in
        Ret (w, (λ e, Wrap e ("Data copy failed from PE " +:+ PEIDString (ie_id this)
                                +:+ ", to PE " +:+ PEIDString sourceID)) <$> err)
    end.

(** ** Provisioning *)

(** The path of the data center that an object is in. *)
Fixpoint dcPathFrom (pathElements : list (bool * string * string)) (dcPath : string) : string :=
  match pathElements with
  | [] => dcPath
  | (hasParent, name, type) :: rest =>
      if negb hasParent then dcPathFrom rest dcPath
      else let dcPath := dcPath +:+ "/" +:+ name in
           if bool_decide (type = "Datacenter") then dcPath else dcPathFrom rest dcPath
  end.

Definition findDatacenterPath (client : vimClient) (objectRef : ManagedObjectReference)
    : vio (result string) :=
  let? pathElements := call (Ancestors client objectRef) else e => Ret (Err e) in
  Ret (Ok (dcPathFrom pathElements "")).

(** The VMs of the data centers; one without VMs is skipped. *)
Fixpoint listVMs (client : vimClient) (dcs : list string) (vmRefList : list ManagedObjectReference)
    : vio (result (list ManagedObjectReference)) :=
  match dcs with
  | [] => Ret (Ok vmRefList)
  | dc :: dcs =>
      let! r := call (VirtualMachineList client (dc +:+ "/vm/...")) in
      match r with
      | Err e => if IsFindNotFound e then listVMs client dcs vmRefList else Ret (Err e)
      | Ok vms => listVMs client dcs (vmRefList ++ vms)
      end
  end.

(** The hosts of the VMs that are nodes, each once; [None] is the panic on a nil pointer. *)
Fixpoint hostsOf (names : list string) (vms : list (option string * option ManagedObjectReference))
    (hostList : list ManagedObjectReference) : option (list ManagedObjectReference) :=
  match vms with
  | [] => Some hostList
  | (None, _) :: _ => None
  | (Some hostName, host) :: vms =>
      if bool_decide (hostName ∉ names) then hostsOf names vms hostList
      else match host with
           | None => None
           | Some host => hostsOf names vms (if bool_decide (host ∈ hostList) then hostList
                                             else hostList ++ [host])
           end
  end.

Definition findHostsOfNodeVMs (client : vimClient) (config : RestConfig)
    : vio (result (list ManagedObjectReference)) :=
  let? nodeList := call (ListNodes config) else e => Ret (Err e) in
  match list_find (λ '(name, _), name = "") nodeList with
  | Some (_, (_, uid)) => Ret (Err (ErrorString
      ("One of the node VM with uid, " +:+ uid +:+ ", in the cluster has empty node name")))
  | None =>
      let? dcs := call (DatacenterList client) else e => Ret (Err e) in
      let? vmRefList := listVMs client dcs [] else e => Ret (Err e) in
      let? vmMoList := call (RetrieveVMs client vmRefList) else e => Ret (Err e) in
      match hostsOf nodeList.*1 vmMoList [] with
      | Some hostList => Ret (Ok hostList)
      | None => Panic "nil pointer: Guest or Host"
      end
  end.

(** The distinct data centers of the hosts; a host without one is skipped.  A [range] may
    visit them in any order. *)
Fixpoint dcPaths (client : vimClient) (hosts : list ManagedObjectReference) (paths : list string)
    : vio (list string) :=
  match hosts with
  | [] => Ret paths
  | host :: hosts =>
      let? dcPath := findDatacenterPath client host else _ => dcPaths client hosts paths in
      dcPaths client hosts (if bool_decide (dcPath ∈ paths) then paths else paths ++ [dcPath])
  end.

Fixpoint listDatastores (client : vimClient) (paths : list string) (dss : list ManagedObjectReference)
    : vio (result (list ManagedObjectReference)) :=
  match paths with
  | [] => Ret (Ok dss)
  | dcPath :: paths =>
      let! r := call (DatastoreList client (dcPath +:+ "/datastore/...")) in
      match r with
      | Err e => if IsFindNotFound e then listDatastores client paths dss else Ret (Err e)
      | Ok dssPerDC => listDatastores client paths (dss ++ dssPerDC)
      end
  end.

(** A volume may be put on the datastore: it is no NFS 4.1 and no internal NFS share, and every
    host is attached to it. *)
Definition eligible (client : vimClient) (hosts : list ManagedObjectReference)
    (ds : ManagedObjectReference) : vio bool :=
  let attached :=
    let? attachedHosts := call (AttachedHosts client ds) else _ => Ret false in
    Ret (negb (bool_decide (length attachedHosts < length hosts)%nat)
         && forallb (λ host, bool_decide (host ∈ attachedHosts)) hosts) in
  let? dsType := call (DatastoreType client ds) else _ => Ret false in
  if bool_decide (dsType = "NFS41") then Ret false
  else if bool_decide (dsType = "NFS") then
    let? info := call (NasRemoteHost client ds) else _ => Ret false in
    match info with
    | None => Ret false
    | Some RemoteHost => if Contains RemoteHost "eng.vmware.com" then Ret false else attached
    end
  else attached.

Fixpoint eligibleDatastores (client : vimClient) (hosts dss dsList : list ManagedObjectReference)
    : vio (list ManagedObjectReference) :=
  match dss with
  | [] => Ret dsList
  | ds :: dss =>
      let! b := eligible client hosts ds in
      eligibleDatastores client hosts dss (if (b : bool) then dsList ++ [ds] else dsList)
  end.

Definition findSharedDatastoresFromAllNodeVMs (client : vimClient) (config : RestConfig)
    : vio (result (list ManagedObjectReference)) :=
  let? hosts := findHostsOfNodeVMs client config else e => Ret (Err e) in
  if bool_decide (hosts = []) then Ret (Err (ErrorString "No hosts can be found for node VMs"))
  else
    let! paths := dcPaths client hosts [] in
    let? dss := listDatastores client paths [] else e => Ret (Err e) in
    let! dsList := eligibleDatastores client hosts dss [] in
    Ret (Ok dsList).

(** The result of the task of a creation. *)
Definition createdVolume (r : option (string + vimID)) : result vimID :=
  match r with
  | None => Err (ErrorString "Empty create task results")
  | Some (inl fault) => Err (ErrorString fault)
  | Some (inr volumeId) => Ok volumeId
  end.

(** The pointers may be nil; each is looked at only where it is used. *)
Definition createCnsVolumeWithClusterConfig (vcConfig : option VirtualCenterConfig)
    (config : RestConfig) (client : option vimClient) (cnsManager : option CnsManager)
    (md : metadata) (h : heap) : vio (heap * result vimID) :=
  match vcConfig, client with
  | Some cfg, Some client =>
      let reservedLabels := fillInClusterSpecificParams cfg in
      let label key := default "" (lookup_label reservedLabels key) in
      let? dsList := findSharedDatastoresFromAllNodeVMs client config else e => Ret (h, Err e) in
      let vso := md_VirtualStorageObject md in
      let spec := {|
        cv_Name := vso_Name vso; cv_Datastores := dsList;
        cv_ClusterId := label "cns.containerCluster.clusterId";
        cv_VSphereUser := label "cns.containerCluster.vSphereUser";
        cv_EntityName := vso_Name vso; cv_Labels := md_ExtendedMetadata md;
        cv_CapacityInMb := vso_CapacityInMB vso |} in
      match cnsManager with
      | None => Panic "nil pointer: cnsManager"
      | Some cnsManager =>
          let! (h, r) := Cns.CreateVolume cnsManager h [spec] in
          match r with
          | Err e => Ret (h, Err e)
          | Ok createTask =>
              let? info := call (GetTaskInfo createTask) else e => Ret (h, Err e) in
              let? createTaskResult := call (GetTaskResult info) else e => Ret (h, Err e) in
              Ret (h, createdVolume createTaskResult)
          end
      end
  | _, _ => Panic "nil pointer: vcConfig or client"
  end.

Definition CreateCnsVolumeInCluster (vcConfig : option VirtualCenterConfig) (client : option vimClient)
    (cnsManager : option CnsManager) (md : metadata) (h : heap) : vio (heap * result vimID) :=
  let? config := call InClusterConfig else e => Ret (h, Err e) in
  createCnsVolumeWithClusterConfig vcConfig config client cnsManager md h.

(** ** Copies *)

(** A volume of the vCenter of the manager: one of its transports reads the disk there. *)
Fixpoint isOurVC (vcHost : vio string) (ts : list DataTransport) : vio bool :=
  match ts with
  | [] => Ret false
  | t :: ts =>
      match dt_Params t !! "vcenter" with
      | Some vcenterURL =>
          if bool_decide (dt_Type t = "vadp") then
            let! host := vcHost in
            if bool_decide (vcenterURL = host) then Ret true else isOurVC vcHost ts
          else isOurVC vcHost ts
      | None => isOurVC vcHost ts
      end
  end.

(** [this.vcenter.Client]. *)
Definition vcenterClient (w : world) : vio (option vimClient) :=
  match p ← tm_vcenter (w_tm w); w_heap w !! p with
  | Some vc => Ret (vc_Client vc)
  | None => Panic "nil pointer: vcenter"
  end.

Definition vcenterHost (w : world) : vio string :=
  let! client := vcenterClient w in
  match client with
  | Some client => Ret (vim_URLHost client)
  | None => Panic "nil pointer: Client"
  end.

(** An error of Retrieve that is not a SOAP fault is dropped: the volume is then taken to exist. *)
Definition existsInVC (id : PEID) (ourVC : bool) (w : world) : vio (world * result bool) :=
  if ourVC then
    let! (w, r) := vslm w (λ m h, Vslm.Retrieve m h (NewVimIDFromPEID id)) in
    Ret (w, match r with
      | Ok _ => Ok true
      | Err err =>
          match SoapFault err with
          | Some (NotFound, _) => Ok false
          | Some _ => Err (Wrap err "Retrieve failed")
          | None => Ok true
          end
      end)
  else Ret (w, Ok false).

Definition taskWait (t : task) : vio (result any) :=
  call (TaskWaitNonDefault t (24 * Hour) (10 * Second) true (30 * Second)).

(** A volume made by vCenter from the source's snapshot, or from the volume itself.  An error of
    newIVDProtectedEntity is overwritten or dropped. *)
Definition copyLocal (sourcePEInfo : PEInfo) (md : metadata) (w : world)
    : vio (world * result IVDProtectedEntity) :=
  withConfig w (λ cfg,
    let id := pi_ID sourcePEInfo in
    let kvs := md_ExtendedMetadata (FilterLabelsFromMetadataForVslmAPIs md cfg) in
    let! (w, r) := (if HasSnapshot id then
        let! (w, r) := vslm w (λ m h, Vslm.CreateDiskFromSnapshot m h (NewVimIDFromPEID id)
                                        (NewVimSnapshotIDFromPEID id) (pi_Name sourcePEInfo)) in
        Ret (w, match r with Ok t => Ok t | Err e => Err (Wrap e "CreateDiskFromSnapshot failed") end)
      else vslm w (λ m h, Vslm.Clone m h (NewVimIDFromPEID id) (pi_Name sourcePEInfo) true kvs)) in
    match r with
    | Err e => Ret (w, Err e)
    | Ok createTask =>
        let? retVal := taskWait createTask else e => Ret (w, Err e) in
        match retVal with
        | AnyVSO newVSO =>
            let! r := newIVDProtectedEntity w (newProtectedEntityID (vso_Id newVSO)) in
            let retPE := default zeroEntity (ok_of r) in
            if HasSnapshot id then
              let! (w, r) := vslm w (λ m h, Vslm.UpdateMetadata m h (vso_Id newVSO) kvs []) in
              match r with
              | Err e => Ret (w, Err e)
              | Ok updateTask =>
                  let? _ := taskWait updateTask else e => Ret (w, Err e) in
                  Ret (w, Ok retPE)
              end
            else Ret (w, Ok retPE)
        | _ => Panic "interface conversion: not a types.VStorageObject"
        end
    end).

(** A new container volume, into which the data are copied. *)
Definition copyRemote (dataReader : option reader) (md : metadata) (w : world)
    : vio (world * result IVDProtectedEntity) :=
  let md := FilterLabelsFromMetadataForCnsAPIs md "cns" in
  let! client := vcenterClient w in
  let! (h, r) := CreateCnsVolumeInCluster (tm_vcenterConfig (w_tm w)) client (tm_cnsManager (w_tm w))
                   md (w_heap w) in
  let w := w <| w_heap := h |> in
  match r with
  | Err e => Ret (w, Err (Wrap e "CreateDisk failed"))
  | Ok volumeVimID =>
      let? retPE := newIVDProtectedEntity w (newProtectedEntityID volumeVimID) else e =>
        Ret (w, Err (Wrap e "CreateDisk failed")) in
      let! (w, (_, err)) := copy retPE dataReader w in
      Ret (w, match err with
        | Some e => Err (Wrap e
            "Failed to copy data from data source to newly-provisioned IVD protected entity")
        | None => Ok retPE
        end)
  end.

Definition copyInt (sourcePEInfo : PEInfo) (dataReader : option reader) (metadataReader : reader)
    (w : world) : vio (world * result IVDProtectedEntity) :=
  let id := pi_ID sourcePEInfo in
  if bool_decide (GetPeType id ≠ "ivd") then Ret (w, Err (ErrorString "Copy source must be an ivd"))
  else
    let! ourVC := isOurVC (vcenterHost w) (pi_DataTransports sourcePEInfo) in
    let! (w, r) := existsInVC id ourVC w in
    match r with
    | Err e => Ret (w, Err e)
    | Ok existsInOurVC =>
        let! r := readMetadataFromReader metadataReader in
        match r with
        | Err e | Ok (_, Some e) => Ret (w, Err e)
        | Ok (md, None) =>
            if ourVC && existsInOurVC then copyLocal sourcePEInfo md w else copyRemote dataReader md w
        end
    end.

Definition Copy (sourcePE : PE) (w : world) : vio (world * result IVDProtectedEntity) :=
  let? sourcePEInfo := call (SrcGetInfo sourcePE) else e => Ret (w, Err (Wrap e "GetInfo failed")) in
  let? dataReader := call (SrcGetDataReader sourcePE) else e =>
    Ret (w, Err (Wrap e "GetDataReader failed")) in
  let rest :=
    let? metadataReader := call (SrcGetMetadataReader sourcePE) else e =>
      Ret (w, Err (Wrap e "GetMetadataReader failed")) in
    let! (w, r) := copyInt sourcePEInfo dataReader metadataReader w in
    Ret (w, match r with Ok pe => Ok pe | Err e => Err (Wrap e "copyInt failed") end) in
  match dataReader with
  | Some r => defer (call (CloseReader r) ;;; Ret tt) rest
  | None => rest
  end.

(** Nothing is copied: a nil entity, and no error. *)
Definition CopyFromInfo (peInfo : PEInfo) : result (option IVDProtectedEntity) := Ok None.
End type_manager.
End Ivd.
