(* ===== verification/IvdProtocol.v ===== *)
(** * What virtual disks ask of vCenter

    The tries of a snapshot and of its deletion, what a configuration that fails to
    load leaves behind, the labels a copied volume gets, the datastores a volume is
    put on, and the bytes a copy writes to a disk. *)

From S2P Require Export VSphereSpec Disks.
Open Scope Z_scope.
Import Ivd.

Section ivd_protocol.
Context `{VDeps}.

(** ** Connections between the calls *)

(** What the calls of a reload do besides the connection. *)
Definition housekeeping {X} (e : VCmd X) : bool :=
  connecting e ||
  match e with
  | ConfigLock | ConfigUnlock | InitEx _ | CreateConfigFile _ | DeleteConfigFile _ => true
  | _ => false
  end.

Abbreviation quiet := (calls_only (@housekeeping)).

Lemma quiet_newClient vc : quiet (newClient vc).
Proof. unfold newClient, login. calls_tac. Qed.
Hint Resolve quiet_newClient : calls.

Lemma quiet_setClient vc : quiet (setClient vc).
Proof. unfold setClient. calls_tac. Qed.
Hint Resolve quiet_setClient : calls.

Lemma quiet_Connect p h : quiet (Connect p h).
Proof. unfold Connect, withConnectLock, connectClients, renewClients, newVslmClient, newCnsClient. calls_tac. Qed.
Hint Resolve quiet_Connect : calls.

Lemma quiet_CheckVcenterConnections w : quiet (CheckVcenterConnections w).
Proof.
  unfold CheckVcenterConnections, ReloadConfig, reloadLocked, reconnect, GetVirtualCenter, disconnectOld,
    Disconnect, withConnectLock, initVddk.
  calls_tac.
Qed.

(** What a method of the manager is for a monitor: [J] holds after a refusal of the first attempt,
    [J'] before the second. *)
Section vslm.
Context {A S : Type} (mon : monitor VCmd S) (method : vslmClient → VCmd (result A)).
Context (J J' : S → Prop) (Q : outcome (world * result A) → S → Prop) (w : world) (s : S).
Hypothesis panics : ∀ m s', Q (Panicked m) s'.

Hypothesis reconnects : ∀ p h s, J s → safe mon (Connect p h) (λ o s', match o with
  | Returned (h', Ok _) => J' s'
  | Returned (h', Err e) => Q (Returned (w <| w_heap := h' |>, Err e)) s'
  | Panicked _ => True
  | Hung _ => False
  end) s.

(** The answer of an attempt. *)
Definition answers (x : result A) (s' : S) : Prop := ∀ h, Q (Returned (w <| w_heap := h |>, x)) s'.

Hypothesis first : attempt mon method (λ x s', if refused (err_of x) then J s' else answers x s') s.
Hypothesis again : ∀ s', J' s' → attempt mon method answers s'.

Lemma safe_vslm_noted : safe mon (vslm w (λ m h, withVslm m h method)) Q s.
Proof.
  unfold vslm. destruct (tm_vslmManager (w_tm w)) as [m|]; [|by apply panics].
  apply safe_bind. unfold withVslm.
  apply (safe_invoke _ _ _ _ (λ _, J) (λ _, J')).
  - intros h s' HJ. eapply safe_mono; [by apply reconnects|].
    intros [[h' [c|e]]|m'|m'] s2; cbn; [done..| |done]. intros _. apply panics.
  - intros h s' HJ c x. specialize (again s' HJ c x). cbn.
    destruct (mon s' _ _ x); [apply again|done..].
  - intros c x. specialize (first c x). cbn.
    destruct (mon s _ _ x); [|done..]. destruct (refused (err_of x)); [exact first|apply first].
Qed.
End vslm.

(** For a monitor that stays where it is during a connection after a refusal. *)
Lemma safe_vslm {A S : Type} (mon : monitor VCmd S) (method : vslmClient → VCmd (result A))
    (J : S → Prop) (Q : outcome (world * result A) → S → Prop) w s :
  (∀ s X (e : VCmd X) x, J s → housekeeping e = true → mon s X e x = Next s) →
  (∀ m s', Q (Panicked m) s') →
  (∀ s' e, J s' → answers Q w (Err e) s') →
  (∀ s', s' = s ∨ J s' → attempt mon method (λ x s2,
     answers Q w x s2 ∧ match x with Err e => CheckForVcAuthFaults e = true → J s2 | Ok _ => True end) s') →
  safe mon (vslm w (λ m h, withVslm m h method)) Q s.
Proof.
  intros Hq Hp Hc Ha. apply (safe_vslm_noted _ _ J J); [done|..].
  - intros p h s' HJ. eapply safe_mono.
    { apply safe_Connect. intros X e x He. apply Hq; [done|]. unfold housekeeping. by rewrite He. }
    intros [[h' [c|e]]|m|m] s2 [-> Ho]; [done|by apply Hc|done..].
  - intros c x. pose proof (Ha s (or_introl eq_refl) c x) as H1.
    destruct (mon s _ _ x); [|done..]. destruct H1 as [HQ HJ]. destruct x as [a|e]; cbn; [done|].
    destruct (CheckForVcAuthFaults e); auto.
  - intros s' HJ c x. pose proof (Ha s' (or_intror HJ) c x) as H1. destruct (mon s' _ _ x); [apply H1|done..].
Qed.

(** A check of the connections, in a program that a monitor watches which stays where it is
    during housekeeping. *)
Lemma safe_check {S A} (mon : monitor VCmd S) w (f : world * option error → vio A) Q s :
  (∀ X (e : VCmd X) x, housekeeping e = true → mon s X e x = Next s) →
  (∀ m, Q (Panicked m) s) →
  (∀ w' r, safe mon (f (w', r)) Q s) →
  safe mon (bind (CheckVcenterConnections w) f) Q s.
Proof.
  intros Hq Hp Hf. eapply safe_seq; [apply (safe_calls_stay (@housekeeping)); [done|apply quiet_CheckVcenterConnections]|..].
  - intros [w' r] s' ->. apply Hf.
  - intros m s' ->. apply Hp.
  - by intros m s' Hs.
Qed.

(** The error of a connection that failed, as the notes have it. *)
Definition connect_error (r : sessions) : option error := if se_closed r then se_error r else None.

(** ** Snapshots *)

(** A wait that failed this way is tried again, with another task. *)
Definition retryable (e : error) : bool :=
  match VimFault e with
  | Some InvalidState | Some VslmSyncFault | Some NotFound => true
  | _ => IsConnectionResetError e
  end.

(** vCenter says that there is no such snapshot. *)
Definition denies (e : error) : bool :=
  match SoapFault e with
  | Some (_, msg) => Contains msg "A specified parameter was not correct: snapshotId"
  | None => false
  end.

(** How far a snapshot is, with the number of tasks so far: no task that left a snapshot; one that
    is waited for; a snapshot that the task made; the question for it refused for the
    credentials; the snapshot denied by vCenter, confirmed, or neither; a wait that failed for good. *)
Inductive taking :=
| Idle (n : Z) | Started (t : task) (n : Z) | Made (i : vimID) (n : Z) | Refused (i : vimID) (n : Z) (r : sessions)
| Denied (n : Z) | Found (i : vimID) | Doubted (i : vimID) | Failed (e : error) (n : Z).

Definition on_details (i : vimID) (n : Z) (e : error) : taking := if denies e then Denied n else Doubted i.

(** The connection is noted during which the question for a snapshot was refused. *)
Definition taking_noted (s : taking) {X} (e : VCmd X) (x : X) : taking :=
  match s with Refused i n r => Refused i n (session_step r e x) | s => s end.

(** The number of tasks, when none of them left a snapshot. *)
Definition none_left (s : taking) : option Z :=
  match s with
  | Idle n | Denied n => Some n
  | Refused _ n r => match connect_error r with Some e => if denies e then Some n else None | None => None end
  | _ => None
  end.

Definition taking_monitor (id : vimID) : monitor VCmd taking := λ s X e,
  match e in VCmd X return X → verdict taking with
  | VslmCreateSnapshot _ id' _ => λ r,
      match none_left s with
      | Some n =>
          if bool_decide (id' = id) then Next (match r with Ok t => Started t (n + 1) | Err _ => s end) else Violation
      | None => Violation
      end
  | TaskWait t timeout => λ r,
      match s with
      | Started t' n =>
          if bool_decide (t = t') && (timeout =? Hour) then
            Next (match r with
                  | Ok (AnyID i) => Made i n
                  | Ok _ => Failed ErrWaitTimeout n
                  | Err e => if retryable e then Idle n else Failed e n
                  end)
          else Violation
      | _ => Violation
      end
  | VslmRetrieveSnapshotDetails _ id' i => λ r,
      match s with
      | Made i' n =>
          if bool_decide (id' = id) && bool_decide (i = i')
          then Next (match r with
                     | Ok _ => Found i
                     | Err e => if CheckForVcAuthFaults e then Refused i n no_sessions else on_details i n e
                     end) else Violation
      | Refused i' n r' =>
          if bool_decide (id' = id) && bool_decide (i = i') && se_closed r'
          then Next (match r with Ok _ => Found i | Err e => on_details i n e end) else Violation
      | _ => Violation
      end
  | VPollTicks _ _ => λ _, Next s
  | e => λ x, if housekeeping e then Next (taking_noted s e x) else Violation
  end.

(** No connection is being noted. *)
Definition taking_still (s : taking) : Prop :=
  match s with Refused _ _ r => se_closed r = true | _ => True end.

Lemma taking_quiet id s X (e : VCmd X) x :
  taking_still s → housekeeping e = true → taking_monitor id s X e x = Next s.
Proof.
  intros Hs He. assert (Hn : taking_noted s e x = s).
  { destruct s; cbn in *; try done. unfold session_step. by rewrite Hs. }
  destruct e; try discriminate He; cbn; by rewrite Hn.
Qed.

(** What the tries have, between and after them. *)
Definition has_snapshot (sid : SnapID) (s : taking) : Prop :=
  taking_still s ∧ none_left s = None ∧
  match s with
  | Found i | Doubted i | Refused i _ _ => sid = NewProtectedEntitySnapshotID i
  | _ => False
  end.

Definition no_snapshot (s : taking) : Prop :=
  taking_still s ∧ (is_Some (none_left s) ∨ ∃ e n, s = Failed e n).

Section snapshots.
Context (s3Config : S3Config) (this : IVDProtectedEntity).
Let id := vimId this.

Definition tried_snapshot (o : outcome ((world * Z) * poll_step SnapID)) (s : taking) : Prop :=
  match o with
  | Returned (_, PollDone sid) => has_snapshot sid s
  | Returned ((_, n), PollAgain) => taking_still s ∧ none_left s = Some n
  | Returned ((_, n), PollFail e) => taking_still s ∧
      (none_left s = Some n ∨ ∃ e', s = Failed e' n ∧ e = snapshotWaitError this e' n)
  | Panicked _ => True
  | Hung _ => False
  end.

(** What the code makes of the answer for the details. *)
Definition detailsOutcome (i : vimID) (r : result unit) : poll_step SnapID :=
  match r with
  | Ok _ => PollDone (NewProtectedEntitySnapshotID i)
  | Err e => if denies e then PollAgain else PollDone (NewProtectedEntitySnapshotID i)
  end.

Lemma tried_details i n w (r : result unit) :
  tried_snapshot (Returned ((w, n), detailsOutcome i r))
    (match r with Ok _ => Found i | Err e => on_details i n e end).
Proof. destruct r as [[]|e]; cbn; [done|]. unfold on_details. by destruct (denies e). Qed.

Lemma tried_refused i n w e r :
  se_closed r = true → se_error r = Some e →
  tried_snapshot (Returned ((w, n), detailsOutcome i (Err e))) (Refused i n r).
Proof.
  intros Hr He. unfold detailsOutcome, tried_snapshot, has_snapshot. cbn. unfold connect_error. rewrite Hr, He.
  destruct (denies e) eqn:Hd; cbn; by rewrite ?Hd.
Qed.

Lemma safe_details i n w :
  safe (taking_monitor id) (vslm w (λ m h, Vslm.RetrieveSnapshotDetails m h (vimId this) i))
    (λ o s, match o with
      | Returned (w', r) => tried_snapshot (Returned ((w', n), detailsOutcome i r)) s
      | Panicked _ => True | Hung _ => False end) (Made i n).
Proof.
  apply (safe_vslm_noted _ _ (λ s, s = Refused i n no_sessions)
    (λ s, ∃ r, s = Refused i n r ∧ se_closed r = true)); [done|..].
  - intros p h s ->. eapply safe_mono.
    + apply (safe_Connect_noted _ (λ r s, s = Refused i n r) p h no_sessions); [|done..].
      intros r s X e x -> He. exists (Refused i n (session_step r e x)). split; [|done].
      destruct e; try discriminate He; done.
    + intros [[h' [c|e]]|m|m] s (r & -> & Hr & Ho); cbn; [by exists r| |done..].
      destruct Ho as [_ He]. by apply tried_refused.
  - intros c r. cbn. rewrite !bool_decide_true by done. cbn. destruct r as [u|e]; cbn.
    + intros h. apply (tried_details i n (w <| w_heap := h |>) (Ok u)).
    + destruct (CheckForVcAuthFaults e); [done|]. intros h. apply (tried_details i n (w <| w_heap := h |>) (Err e)).
  - intros s (r' & -> & Hr') c r. cbn. rewrite !bool_decide_true, Hr' by done. cbn.
    intros h. apply (tried_details i n (w <| w_heap := h |>)).
Qed.

Lemma safe_snapshotTask t w n :
  safe (taking_monitor id) (snapshotTask this t w n) tried_snapshot (Started t n).
Proof.
  intros r. cbn. rewrite bool_decide_true by done. change (waitTime =? Hour) with true. cbn.
  destruct r as [[i|v|]|e]; [|done..|].
  - eapply safe_seq; [apply safe_details|..]; [|done..]. intros [w' r] s Hs. cbn.
    enough ((match r with
      | Ok _ => PollDone (NewProtectedEntitySnapshotID i)
      | Err err => match SoapFault err with
          | Some (_, faultMsg) =>
              if Contains faultMsg "A specified parameter was not correct: snapshotId" then PollAgain
              else PollDone (NewProtectedEntitySnapshotID i)
          | None => PollDone (NewProtectedEntitySnapshotID i)
          end
      end) = detailsOutcome i r) as -> by exact Hs.
    unfold detailsOutcome, denies. by destruct r as [u|err]; [|destruct (SoapFault err) as [[? ?]|]].
  - cbn. unfold retryable. assert (Hf : ∃ e', Failed e n = Failed e' n ∧
      snapshotWaitError this e n = snapshotWaitError this e' n) by by exists e.
    destruct (VimFault e) as [[]|]; cbn; try done; destruct (IsConnectionResetError e); cbn; auto.
Qed.

Lemma safe_trySnapshot w n s :
  taking_still s → none_left s = Some n →
  safe (taking_monitor id) (trySnapshot this (w, n)) tried_snapshot s.
Proof.
  intros Hs Hn. unfold trySnapshot. apply safe_check; [by intros; apply taking_quiet|done|].
  intros w' [e|]; [done|]. 
  eapply (safe_seq _ _ _ _ (λ o s', match o with
    | Returned (_, Ok t) => s' = Started t (n + 1) | Returned (_, Err _) => s' = s
    | Panicked _ => True | Hung _ => False end)); [|intros [w2 [t|e]] s' ->|done..].
  - apply (safe_vslm _ _ (λ s', s' = s)); [by intros s' X e x ->; apply taking_quiet|done|by intros s' e ->|].
    intros s' Hs' c r. assert (s' = s) as -> by (by destruct Hs'). cbn.
    rewrite Hn, bool_decide_true by done. by destruct r.
  - apply safe_snapshotTask.
  - by split; [|left].
Qed.

(** A snapshot is made of this disk by one task at a time; a task is waited for
    before another is created, and another is created only when the wait failed with a fault
    that may pass, or vCenter, asked for the snapshot that the task had made, or the connection
    before a second question, says that there is none.  The snapshot that is answered is that
    of the last task; an answer without one is that of a wait that failed for good, or none
    is left. *)
Theorem Snapshot_protocol w s :
  taking_still s → none_left s = Some 0 →
  safe (taking_monitor id) (Snapshot this w) (λ o s, match o with
    | Returned (_, Ok sid) => has_snapshot sid s
    | Returned (_, Err e) => taking_still s ∧ (is_Some (none_left s) ∨
        ∃ e' n, s = Failed e' n ∧ e = snapshotWaitError this e' n)
    | Panicked _ => True
    | Hung _ => False
    end) s.
Proof.
  intros Hs Hn. unfold Snapshot. apply safe_bind. intros ticks. cbn.
  apply (safe_poll_loop _ _ (λ '(_, n) s, taking_still s ∧ none_left s = Some n)); [done|].
  intros [w' n] s' [Hs' Hn']. eapply safe_mono; [by apply safe_trySnapshot|].
  intros [[[w2 n2] [|sid|e]]|m|m] s2 Ho; cbn in *; try done.
  - destruct Ho as [? Ho]. split; [done|]. split; [done|]. left. by exists n2.
  - destruct Ho as [? [Ho|(e' & -> & ->)]]; (split; [done|]); [left; by exists n2|right; eauto].
Qed.
End snapshots.

(** ** Deletions of snapshots *)

(** How far a deletion is: not begun, refused for the credentials with the notes of the connection
    that follows, waited for, done, or failed for good. *)
Inductive deleting := Undeleted | Unauthorized (r : sessions) | Deleting (t : task) | Gone | Undeletable.

(** The snapshot is gone, or a fault may pass. *)
Definition deleted (r : result any) : deleting :=
  match r with
  | Ok _ => Gone
  | Err e =>
      match VimFault e with
      | Some InvalidArgument | Some NotFound => Gone
      | Some InvalidState | Some TaskInProgress | Some FileLocked => Undeleted
      | _ => if IsConnectionResetError e then Undeleted else Undeletable
      end
  end.

Definition is_not_found (e : error) : bool :=
  match SoapFault e with Some (NotFound, _) => true | _ => false end.

(** The first refusal for the credentials is followed by a connection, the second is not. *)
Definition refusal (first : bool) (e : error) : deleting :=
  if is_not_found e then Gone
  else if first && CheckForVcAuthFaults e then Unauthorized no_sessions else Undeletable.

Definition deleting_noted (s : deleting) {X} (e : VCmd X) (x : X) : deleting :=
  match s with Unauthorized r => Unauthorized (session_step r e x) | s => s end.

Definition deleting_monitor (id snap : vimID) : monitor VCmd deleting := λ s X e,
  match e in VCmd X return X → verdict deleting with
  | VslmDeleteSnapshot _ id' snap' => λ r,
      if bool_decide (id' = id) && bool_decide (snap' = snap) then
        match s with
        | Undeleted => Next (match r with Ok t => Deleting t | Err e => refusal true e end)
        | Unauthorized n =>
            if se_closed n then Next (match r with Ok t => Deleting t | Err e => refusal false e end) else Violation
        | _ => Violation
        end
      else Violation
  | TaskWait t timeout => λ r,
      match s with
      | Deleting t' => if bool_decide (t = t') && (timeout =? Hour) then Next (deleted r) else Violation
      | _ => Violation
      end
  | VPollTicks _ _ => λ _, Next s
  | e => λ x, if housekeeping e then Next (deleting_noted s e x) else Violation
  end.

(** No connection is being noted. *)
Definition deleting_still (s : deleting) : Prop :=
  match s with Unauthorized r => se_closed r = true | _ => True end.

Lemma deleting_quiet id snap s X (e : VCmd X) x :
  deleting_still s → housekeeping e = true → deleting_monitor id snap s X e x = Next s.
Proof.
  intros Hs He. assert (Hn : deleting_noted s e x = s).
  { destruct s; cbn in *; try done. unfold session_step. by rewrite Hs. }
  destruct e; try discriminate He; cbn; by rewrite Hn.
Qed.

(** The snapshot is gone: a task deleted it, vCenter says that there is nothing to delete, or the
    connection after a refusal failed with NotFound. *)
Definition is_gone (s : deleting) : bool :=
  match s with
  | Gone => true
  | Unauthorized r => match connect_error r with Some e => is_not_found e | None => false end
  | _ => false
  end.

(** Between two deletions. *)
Definition not_deleted (s : deleting) : Prop :=
  deleting_still s ∧ is_gone s = false ∧ ∀ t, s ≠ Deleting t.

Lemma gone_still s : is_gone s = true → deleting_still s.
Proof. destruct s; cbn; try done. unfold connect_error. by destruct (se_closed r). Qed.

Lemma refused_not_found e : CheckForVcAuthFaults e = true → is_not_found e = false.
Proof. unfold CheckForVcAuthFaults, is_not_found. by destruct (SoapFault e) as [[[] ?]|]. Qed.

Section deletions.
Context (this : IVDProtectedEntity) (snapshotToDelete : SnapID).
Let mon := deleting_monitor (vimId this) (NewVimSnapshotIDFromPESnapshotID snapshotToDelete).

Definition tried_deletion (o : outcome (world * poll_step unit)) (s : deleting) : Prop :=
  match o with
  | Returned (_, PollDone _) => is_gone s = true
  | Returned (_, PollAgain) => s = Undeleted
  | Returned (_, PollFail _) => not_deleted s
  | Panicked _ => True
  | Hung _ => False
  end.

Lemma safe_deleteOutcome w msg r :
  tried_deletion (Returned (w, deleteOutcome msg r)) (deleted r).
Proof. unfold deleteOutcome, deleted. repeat case_match; cbn; auto; by simplify_eq. Qed.

(** The creation of the task. *)
Definition deletion_asked (o : outcome (world * result task)) (s : deleting) : Prop :=
  match o with
  | Returned (_, Ok t) => s = Deleting t
  | Returned (_, Err e) => if is_not_found e then is_gone s = true else not_deleted s
  | Panicked _ => True
  | Hung _ => False
  end.

Lemma refusal_asked first w e :
  (first = true → CheckForVcAuthFaults e = false) → deletion_asked (Returned (w, Err e)) (refusal first e).
Proof.
  intros Hf. unfold deletion_asked, refusal. destruct (is_not_found e); [done|].
  destruct first; cbn; [rewrite Hf by done|]; done.
Qed.

Lemma safe_askDeletion w :
  safe mon (vslm w (λ m h, Vslm.DeleteSnapshot m h (vimId this) (NewVimSnapshotIDFromPESnapshotID snapshotToDelete)))
    deletion_asked Undeleted.
Proof.
  apply (safe_vslm_noted _ _ (λ s, s = Unauthorized no_sessions)
    (λ s, ∃ r, s = Unauthorized r ∧ se_closed r = true)); [done|..].
  - intros p h s ->. eapply safe_mono.
    + apply (safe_Connect_noted _ (λ r s, s = Unauthorized r) p h no_sessions); [|done..].
      intros r s X e x -> He. exists (Unauthorized (session_step r e x)). split; [|done].
      destruct e; try discriminate He; done.
    + intros [[h' [c|e]]|m|m] s (r & -> & Hr & Ho); cbn; [by exists r| |done..].
      destruct Ho as [_ He]. cbn in He. unfold not_deleted. cbn. unfold connect_error. rewrite Hr, He.
      by destruct (is_not_found e).
  - intros c r. cbn. rewrite !bool_decide_true by done. cbn. destruct r as [t|e]; cbn; [done|].
    destruct (CheckForVcAuthFaults e) eqn:Ha.
    + unfold refusal. by rewrite refused_not_found, Ha.
    + intros h. by apply refusal_asked.
  - intros s (r' & -> & Hr') c r. cbn. rewrite !bool_decide_true, Hr' by done. cbn.
    destruct r as [t|e]; intros h; [done|]. by apply refusal_asked.
Qed.

Lemma safe_tryDeleteSnapshot w :
  safe mon (tryDeleteSnapshot this snapshotToDelete w) tried_deletion Undeleted.
Proof.
  unfold tryDeleteSnapshot. apply safe_check; [by intros; apply deleting_quiet|done|].
  intros w' [e|]; [done|]. eapply safe_seq; [apply safe_askDeletion|..]; [|done..].
  intros [w2 [t|e]] s Hs.
  - cbn in Hs. subst s. intros r. cbn. rewrite bool_decide_true by done. cbn. exact (safe_deleteOutcome w2 _ r).
  - cbn in *. unfold is_not_found in Hs. by destruct (SoapFault e) as [[[] ?]|]; cbn.
Qed.

(** A snapshot of this disk is deleted by one task at a time, and another task is
    created only after a wait that failed with a fault that may pass.  The deletion is
    answered to be done only when a task did it or vCenter says that there is nothing to
    delete, or when, after a refusal for the credentials, the new connection fails with NotFound. *)
Theorem DeleteSnapshot_protocol w :
  safe mon (DeleteSnapshot this snapshotToDelete w) (λ o s, match o with
    | Returned (_, Ok b) => b = true ∧ is_gone s = true
    | Returned (_, Err _) => not_deleted s
    | Panicked _ => True
    | Hung _ => False
    end) Undeleted.
Proof.
  unfold DeleteSnapshot. apply safe_bind. intros ticks. cbn.
  apply (safe_poll_loop _ _ (λ _ s, s = Undeleted)); [done|]. intros st s ->.
  eapply safe_mono; [apply safe_tryDeleteSnapshot|].
  intros [[w' [|[]|e]]|m|m] s' Ho; cbn in *; try done; subst; by split_and!.
Qed.
End deletions.

(** ** Reloads that fail *)

(** Every call, with every answer. *)
Definition anything : monitor VCmd unit := λ s _ _ _, Next s.

Lemma quiet_Disconnect p h : quiet (Disconnect p h).
Proof. unfold Disconnect, withConnectLock. calls_tac. Qed.

(** The old connection has lost its clients, or all of it is gone, and keeps its configuration. *)
Definition disconnected (vc vc' : VirtualCenter) : Prop :=
  vc_Config vc' = vc_Config vc ∧ vc_VslmClient vc' = None ∧ vc_CnsClient vc' = None.

Lemma safe_Disconnect p h vc :
  h !! p = Some vc →
  safe anything (Disconnect p h) (λ o _, returns (λ '(h', _),
    length h' = length h ∧ ∃ vc', h' !! p = Some vc' ∧ disconnected vc vc') o) tt.
Proof.
  intros Hp. unfold Disconnect, withConnectLock. intros []. cbn. rewrite Hp.
  assert (Hi : ∀ vc', disconnected vc vc' → length (<[p := vc']> h) = length h ∧
    ∃ vc'', <[p := vc']> h !! p = Some vc'' ∧ disconnected vc vc'').
  { intros vc' Hd. rewrite length_insert, list_lookup_insert_eq by (by eapply lookup_lt_Some). eauto. }
  apply safe_defer. destruct vc as [cfg [client|] cc vl]; cbn.
  - intros [e|]; intros []; by apply Hi.
  - intros []; by apply Hi.
Qed.

Lemma safe_GetVirtualCenter cfg h :
  safe anything (GetVirtualCenter cfg h) (λ o _, match o with
    | Returned (h', r) => length h' = S (length h) ∧ (∀ q, (q < length h)%nat → h' !! q = h !! q) ∧
        match r with Ok (p, _, _) => p = length h | Err _ => True end
    | Panicked _ => True
    | Hung _ => False
    end) tt.
Proof.
  unfold GetVirtualCenter. eapply safe_seq; [by apply safe_Connect|..]; [|done|by intros ?? []].
  intros [h' r] s' [_ [Hl Hh]].
  assert (Hh' : ∀ q, (q < length h)%nat → h' !! q = h !! q).
  { intros q Hq. rewrite Hh by lia. by apply lookup_app_l. }
  rewrite length_app in Hl. cbn in Hl. destruct r as [[v c]|e]; cbn; (split; [lia|done]).
Qed.

#[local] Arguments Disconnect : simpl never.
#[local] Arguments GetVirtualCenter : simpl never.
#[local] Arguments initVddk : simpl never.
#[local] Arguments CheckIfVirtualCenterConfigChanged : simpl never.

(** The manager after a change of configuration whose connection failed: it has the new
    configuration and the old connection, without its clients and with the configuration it
    had.  A reload with the new parameters, or with none, then finds nothing to do. *)
Definition stuck (p : nat) (vc : VirtualCenter) (cfg : VirtualCenterConfig) (w : world) : Prop :=
  tm_vcenterConfig (w_tm w) = Some cfg ∧
  (∃ vc', w_heap w !! p = Some vc' ∧ disconnected vc vc') ∧
  ∀ ps, ps = ∅ ∨ GetVirtualCenterConfigFromParams ps = Ok cfg →
    ReloadConfig ps w = (call ConfigLock ;;; call ConfigUnlock ;;; Ret (w, None)).


(** A manager that was made from parameters that are not a configuration panics at the
    first use: a reload without parameters, which the log announces as the remedy, connects
    with the configuration that is nil. *)
Theorem unconfigured_manager_panics s3Config ps h id e :
  ps ≠ ∅ → GetVirtualCenterConfigFromParams ps = Err e →
  safe anything (let! w := NewIVDProtectedEntityTypeManager ps h in GetProtectedEntity s3Config id w)
    (λ o _, ∃ m, o = Panicked m) tt.
Proof.
  intros Hps He. unfold NewIVDProtectedEntityTypeManager, ReloadConfig at 1. intros []. cbn.
  unfold reloadLocked at 1. rewrite bool_decide_false, He by done. intros []. cbn. intros [].
  unfold reloadLocked, reconnect. rewrite bool_decide_true by done. cbn.
  unfold GetVirtualCenter, Connect, withConnectLock. cbn. intros [].
  rewrite lookup_app_r, Nat.sub_diag by done. cbn. intros []. eauto.
Qed.
End ivd_protocol.
