(* ===== verification/IvdCopies.v ===== *)
(** * Copies of virtual disks

    The labels that a copied volume gets, the datastores that a volume may be put on, and
    the bytes that a copy writes to a disk. *)

From S2P Require Export IvdProtocol.
Open Scope Z_scope.
Import Ivd.

(** ** Labels *)

Section labels.
Context `{VDeps}.

Definition clusterIdKey : string := "cns.containerCluster.clusterId".
Definition vSphereUserKey : string := "cns.containerCluster.vSphereUser".

(** The value that this cluster gives a label, if it is one that says which cluster a volume
    belongs to. *)
Definition own_value (cfg : VirtualCenterConfig) (key : string) : option string :=
  if bool_decide (key = clusterIdKey) then Some (vcc_ClusterId cfg)
  else if bool_decide (key = vSphereUserKey) then Some (vcc_Username cfg) else None.

(** Every label that says which cluster a volume belongs to names this one, and there are
    such labels. *)
Definition own_label (cfg : VirtualCenterConfig) (kv : KeyValue) : bool :=
  match own_value cfg (kv_Key kv) with Some v => bool_decide (kv_Value kv = v) | None => true end.

Definition own_labels (cfg : VirtualCenterConfig) (kvs : list KeyValue) : bool :=
  forallb (own_label cfg) kvs &&
  bool_decide (clusterIdKey ∈ kv_Key <$> kvs) && bool_decide (vSphereUserKey ∈ kv_Key <$> kvs).

Definition own_spec (cfg : VirtualCenterConfig) (spec : CnsVolumeCreateSpec) : bool :=
  bool_decide (cv_ClusterId spec = vcc_ClusterId cfg) &&
  bool_decide (cv_VSphereUser spec = vcc_Username cfg) &&
  forallb (λ kv, negb (has_prefix "cns" (kv_Key kv))) (cv_Labels spec).

(** The calls that label a volume name this cluster; there are none without a configuration. *)
Definition labels_own (c : option VirtualCenterConfig) {X} (e : VCmd X) : bool :=
  match e, c with
  | VslmClone _ _ _ _ kvs, Some cfg | VslmUpdateMetadata _ _ kvs _, Some cfg => own_labels cfg kvs
  | CnsCreateVolume _ specs, Some cfg => forallb (own_spec cfg) specs
  | VslmClone _ _ _ _ _, None | VslmUpdateMetadata _ _ _ _, None | CnsCreateVolume _ _, None => false
  | _, _ => true
  end.

Lemma labels_quiet c X (e : VCmd X) : housekeeping e = true → labels_own c e = true.
Proof. by destruct e. Qed.

Lemma lookup_reserved cfg key :
  lookup_label (fillInClusterSpecificParams cfg) key = own_value cfg key.
Proof.
  unfold lookup_label, own_value, fillInClusterSpecificParams.
  destruct (decide (key = clusterIdKey)) as [->|H1]; [done|].
  destruct (decide (key = vSphereUserKey)) as [->|H2]; [done|].
  rewrite !bool_decide_false by done. cbn. by rewrite !decide_False by (intros Hk; first [by apply H1|by apply H2]).
Qed.

Lemma own_FilterLabelsFromMetadataForVslmAPIs md cfg :
  own_labels cfg (md_ExtendedMetadata (FilterLabelsFromMetadataForVslmAPIs md cfg)) = true.
Proof.
  unfold own_labels. rewrite !andb_true_iff. split_and!.
  - cbn [md_ExtendedMetadata FilterLabelsFromMetadataForVslmAPIs with_labels]. rewrite forallb_app.
    apply andb_true_iff. split.
    { cbn [forallb fillInClusterSpecificParams]. rewrite !andb_true_iff. split_and!; [| |done].
      - by apply (bool_decide_true (vcc_ClusterId cfg = vcc_ClusterId cfg)).
      - by apply (bool_decide_true (vcc_Username cfg = vcc_Username cfg)). }
    apply forallb_forall. intros kv (label & -> & _)%list_elem_of_In%list_elem_of_fmap.
    unfold own_label. cbn [kv_Key kv_Value]. rewrite lookup_reserved.
    destruct (own_value cfg _); [by apply bool_decide_true|done].
  - apply bool_decide_true. by left.
  - apply bool_decide_true. right. by left.
Qed.

(** The labels that do not say which cluster a volume belongs to are kept, in their order. *)
Lemma other_FilterLabelsFromMetadataForVslmAPIs md cfg :
  filter (λ kv, own_value cfg (kv_Key kv) = None)
    (md_ExtendedMetadata (FilterLabelsFromMetadataForVslmAPIs md cfg)) =
  filter (λ kv, own_value cfg (kv_Key kv) = None) (md_ExtendedMetadata md).
Proof.
  cbn [md_ExtendedMetadata FilterLabelsFromMetadataForVslmAPIs with_labels]. rewrite filter_app.
  assert (filter (λ kv, own_value cfg (kv_Key kv) = None) (fillInClusterSpecificParams cfg) = []) as -> by done.
  cbn [app]. induction (md_ExtendedMetadata md) as [|[k v] l IH]; [done|]. cbn [fmap list_fmap kv_Key kv_Value].
  rewrite !filter_cons. cbn [kv_Key]. rewrite IH, lookup_reserved.
  destruct (own_value cfg k); [by rewrite !decide_False by done|by rewrite !decide_True by done].
Qed.

(** *** The calls of a copy *)

(** Calls that neither make or label a volume, nor open a disk, nor answer a task of these. *)
Definition idle {X} (e : VCmd X) : bool :=
  match e with
  | VslmClone _ _ _ _ _ | VslmUpdateMetadata _ _ _ _ | CnsCreateVolume _ _ | DiskOpen _
  | VslmCreateDiskFromSnapshot _ _ _ _ | TaskWaitNonDefault _ _ _ _ _ | GetTaskInfo _ | GetTaskResult _ => false
  | _ => true
  end.

Abbreviation idling := (calls_only (@idle)).

Lemma idle_quiet {A} (p : vio A) : calls_only (@housekeeping _) p → idling p.
Proof. apply calls_only_mono. by intros X []. Qed.

Lemma idle_Connect p h : idling (Connect p h).
Proof. apply idle_quiet, quiet_Connect. Qed.

Lemma idle_check w : idling (CheckVcenterConnections w).
Proof. apply idle_quiet, quiet_CheckVcenterConnections. Qed.

Lemma idle_isOurVC w ts : idling (isOurVC (vcenterHost w) ts).
Proof.
  induction ts as [|t ts IH]; [done|]. cbn [isOurVC]. unfold vcenterHost, vcenterClient in *.
  repeat first [exact IH | calls_step].
Qed.

Lemma idle_CopyBuffer d r : idling (CopyBuffer d r).
Proof.
  assert (Hw : ∀ chunks n, idling (writeChunks d chunks n)).
  { intros chunks. induction chunks as [|ch chunks IH]; intros n; cbn; [done|].
    split; [done|]. intros [e|]; [done|apply IH]. }
  unfold CopyBuffer. calls_step; [calls_tac|]. destruct a as [s readErr].
  apply calls_only_bind; [apply Hw|]. by intros [written [e|]].
Qed.

Lemma idle_findHostsOfNodeVMs client config : idling (findHostsOfNodeVMs client config).
Proof.
  assert (Hl : ∀ dcs vms, idling (listVMs client dcs vms)).
  { intros dcs. induction dcs as [|dc dcs IH]; intros vms; cbn; [done|].
    split; [done|]. intros [l|e]; [apply IH|]. case_match; [apply IH|done]. }
  unfold findHostsOfNodeVMs. calls_tac.
Qed.

Lemma idle_findSharedDatastoresFromAllNodeVMs client config :
  idling (findSharedDatastoresFromAllNodeVMs client config).
Proof.
  assert (Hp : ∀ hosts paths, idling (dcPaths client hosts paths)).
  { intros hosts. induction hosts as [|h hosts IH]; intros paths; cbn; [done|].
    split; [done|]. intros [l|e]; cbn; apply IH. }
  assert (Hd : ∀ paths dss, idling (listDatastores client paths dss)).
  { intros paths. induction paths as [|p paths IH]; intros dss; cbn; [done|].
    split; [done|]. intros [l|e]; [apply IH|]. case_match; [apply IH|done]. }
  assert (He : ∀ hosts dss dsList, idling (eligibleDatastores client hosts dss dsList)).
  { intros hosts dss. induction dss as [|ds dss IH]; intros dsList; cbn [eligibleDatastores]; [done|].
    apply calls_only_bind; [unfold eligible; calls_tac|]. intros b. apply IH. }
  pose proof (idle_findHostsOfNodeVMs client config).
  unfold findSharedDatastoresFromAllNodeVMs. calls_tac.
Qed.

Section walk.
Context (c : option VirtualCenterConfig).
Abbreviation owned := (calls_only (@labels_own c)).

Lemma owned_idle {A} (p : vio A) : idling p → owned p.
Proof. apply calls_only_mono. by intros X []. Qed.

Lemma owned_Connect p h : owned (Connect p h).
Proof. apply owned_idle, idle_Connect. Qed.
Hint Resolve owned_Connect : calls.

Lemma owned_check w : owned (CheckVcenterConnections w).
Proof. apply owned_idle, idle_check. Qed.
Hint Resolve owned_check : calls.

Lemma owned_vslm {A} w (method : vslmClient → VCmd (result A)) :
  (∀ v, labels_own c (method v) = true) → owned (vslm w (λ m h, withVslm m h method)).
Proof.
  intros Hm. unfold vslm, withVslm. destruct (tm_vslmManager _); [|done].
  apply calls_only_bind; [apply only_invoke; [apply owned_Connect|done]|by intros [? ?]].
Qed.

Local Ltac owned_tac :=
  repeat first [solve [auto with calls nocore] | apply owned_vslm; intros ?; reflexivity | calls_step].

Lemma owned_copy this r w : owned (copy this r w).
Proof.
  assert (Hc : ∀ d r, owned (CopyBuffer d r)) by (intros; apply owned_idle, idle_CopyBuffer).
  unfold copy, getDataWriter, getDiskConnectionParams. owned_tac.
Qed.
Hint Resolve owned_copy : calls.

Lemma owned_findSharedDatastoresFromAllNodeVMs client config :
  owned (findSharedDatastoresFromAllNodeVMs client config).
Proof. apply owned_idle, idle_findSharedDatastoresFromAllNodeVMs. Qed.
Hint Resolve owned_findSharedDatastoresFromAllNodeVMs : calls.

Lemma owned_Cns {A} m h (method : cnsClient → VCmd (result A)) :
  (∀ v, labels_own c (method v) = true) → owned (withCns m h method).
Proof. intros Hm. unfold withCns. apply only_invoke; [apply owned_Connect|done]. Qed.

End walk.

#[local] Hint Resolve owned_Connect owned_copy owned_findSharedDatastoresFromAllNodeVMs : calls.

Local Ltac owned_tac :=
  repeat first [solve [auto with calls nocore] | apply owned_vslm; intros ?; reflexivity | calls_step].
Abbreviation owned c := (calls_only (@labels_own c)).

(** A new container volume is made for this cluster. *)
Lemma own_created cfg name dss entity md capacity :
  own_spec cfg {| cv_Name := name; cv_Datastores := dss;
    cv_ClusterId := default "" (lookup_label (fillInClusterSpecificParams cfg) "cns.containerCluster.clusterId");
    cv_VSphereUser := default "" (lookup_label (fillInClusterSpecificParams cfg) "cns.containerCluster.vSphereUser");
    cv_EntityName := entity; cv_Labels := md_ExtendedMetadata (FilterLabelsFromMetadataForCnsAPIs md "cns");
    cv_CapacityInMb := capacity |} = true.
Proof.
  unfold own_spec. cbn -[FilterLabelsFromMetadataForCnsAPIs]. rewrite !bool_decide_true by done. cbn.
  apply forallb_forall. intros kv [Hkv _]%list_elem_of_In%list_elem_of_filter. by rewrite Hkv.
Qed.

(** The labels of a new volume are those that the filter leaves. *)
Lemma owned_CreateCnsVolumeInCluster c client cns md h :
  owned c (CreateCnsVolumeInCluster c client cns (FilterLabelsFromMetadataForCnsAPIs md "cns") h).
Proof.
  unfold CreateCnsVolumeInCluster, createCnsVolumeWithClusterConfig.
  apply calls_only_bind; [owned_tac|intros [config|e]; [|done]].
  destruct c as [cfg|]; [|done]. destruct client as [client|]; [|done].
  apply calls_only_bind; [owned_tac|intros [dsList|e]; [|done]]. cbv zeta. destruct cns as [m|]; [|done].
  apply calls_only_bind; [|intros ?; owned_tac]. apply owned_Cns. intros v.
  cbn -[FilterLabelsFromMetadataForCnsAPIs own_spec lookup_label fillInClusterSpecificParams].
  by rewrite own_created.
Qed.
Hint Resolve owned_CreateCnsVolumeInCluster : calls.

Lemma owned_copyLocal s3Config c info md w :
  tm_vcenterConfig (w_tm w) = c → owned c (copyLocal s3Config info md w).
Proof.
  intros Hc. unfold copyLocal, withConfig. rewrite Hc. destruct c as [cfg|]; [|done].
  pose proof (own_FilterLabelsFromMetadataForVslmAPIs md cfg) as Hown.
  set (kvs := md_ExtendedMetadata _) in *. clearbody kvs.
  repeat first [apply owned_vslm; intros ?; (reflexivity || exact Hown) | progress unfold newIVDProtectedEntity, withConfig, taskWait | calls_step].
Qed.

Lemma owned_copyRemote s3Config c r md w :
  tm_vcenterConfig (w_tm w) = c → owned c (copyRemote s3Config r md w).
Proof.
  intros Hc. unfold copyRemote, vcenterClient. rewrite Hc.
  unfold newIVDProtectedEntity, withConfig. owned_tac.
Qed.
(** The monitor that accepts the calls whose labels name this cluster. *)
Definition label_monitor (c : option VirtualCenterConfig) : monitor VCmd unit := λ s X e _,
  if labels_own c e then Next s else Violation.

Definition ends {A} (o : outcome A) (_ : unit) : Prop := match o with Hung _ => False | _ => True end.

Lemma safe_owned {A} c (p : vio A) : owned c p → safe (label_monitor c) p ends tt.
Proof.
  intros Hp. eapply safe_mono; [apply (safe_calls_only (@labels_own c)); [|exact Hp]|by intros [|?|?] []].
  intros [] X e x He. unfold label_monitor. by rewrite He.
Qed.

Lemma safe_existsInVC c id ourVC w :
  safe (label_monitor c) (existsInVC id ourVC w) (λ o _, match o with
    | Returned (w', _) => tm_vcenterConfig (w_tm w') = tm_vcenterConfig (w_tm w)
    | Panicked _ => True
    | Hung _ => False
    end) tt.
Proof.
  destruct w as [h0 tm], ourVC; [|done]. unfold existsInVC. apply safe_bind.
  apply (safe_vslm _ _ (λ _, True)).
  - intros [] X e x _ He. unfold label_monitor. by rewrite labels_quiet.
  - done.
  - by intros [] e _ h.
  - intros [] _ v x. cbn. by destruct x.
Qed.

Lemma owned_isOurVC c w ts : owned c (isOurVC (vcenterHost w) ts).
Proof. apply owned_idle, idle_isOurVC. Qed.

Lemma safe_copyInt s3Config info r m w :
  safe (label_monitor (tm_vcenterConfig (w_tm w))) (copyInt s3Config info r m w) ends tt.
Proof.
  unfold copyInt. case_bool_decide; [done|].
  eapply safe_seq; [apply safe_owned, owned_isOurVC| |done..]. intros ourVC [] _.
  eapply safe_seq; [apply safe_existsInVC| |done..]. intros [w' [b|e]] [] Hw; [|done].
  eapply safe_seq; [apply safe_owned; unfold readMetadataFromReader; owned_tac| |done..].
  intros [[md [e|]]|e] [] _; [done| |done]. apply safe_owned.
  case_match; [by apply owned_copyLocal|by apply owned_copyRemote].
Qed.

#[local] Arguments defer : simpl never.

(** However a volume is copied, the calls that label the copy name the cluster of the
    manager's configuration: a clone or an update carries this cluster's id and user under
    their keys and nothing else there, and a new container volume is made for this cluster
    with none of the source's labels of the container storage.  A copy never waits for ever. *)
Theorem Copy_labels s3Config sourcePE w :
  safe (label_monitor (tm_vcenterConfig (w_tm w))) (Copy s3Config sourcePE w) ends tt.
Proof.
  unfold Copy. intros [info|e]; [|done]. cbn. intros [r|e]; [|done]. cbn.
  assert (Hrest : safe (label_monitor (tm_vcenterConfig (w_tm w)))
    (let? m := call (SrcGetMetadataReader sourcePE) else e => Ret (w, Err (Wrap e "GetMetadataReader failed")) in
     let! (w, r) := copyInt s3Config info r m w in
     Ret (w, match r with Ok pe => Ok pe | Err e => Err (Wrap e "copyInt failed") end)) ends tt).
  { intros [m|e]; [|done]. cbn. eapply safe_seq; [apply safe_copyInt| |done..]. by intros [w' [p|e]]. }
  destruct r as [r|]; [|exact Hrest]. apply safe_defer. eapply safe_mono; [exact Hrest|].
  by intros [p|m|m] [] Ho.
Qed.
End labels.

(** ** Datastores *)

Section datastores.
Context `{VDeps}.

(** What vCenter and the API server answered, and the volumes that CNS was asked for. *)
Inductive known :=
| NodesKnown (nodes : list (string * string))
| VMsKnown (vms : list (option string * option ManagedObjectReference))
| TypeKnown (ds : ManagedObjectReference) (type : string)
| AttachedKnown (ds : ManagedObjectReference) (hosts : list ManagedObjectReference)
| Asked (datastores : list ManagedObjectReference).   (* a volume, on one of these *)

Definition known_of {X} (e : VCmd X) : X → list known :=
  match e in VCmd X return X → list known with
  | ListNodes _ => λ r, match r with Ok l => [NodesKnown l] | Err _ => [] end
  | RetrieveVMs _ _ => λ r, match r with Ok l => [VMsKnown l] | Err _ => [] end
  | DatastoreType _ ds => λ r, match r with Ok t => [TypeKnown ds t] | Err _ => [] end
  | AttachedHosts _ ds => λ r, match r with Ok l => [AttachedKnown ds l] | Err _ => [] end
  | CnsCreateVolume _ specs => λ _, (λ spec, Asked (cv_Datastores spec)) <$> specs
  | _ => λ _, []
  end.

Definition learn : monitor VCmd (list known) := λ f X e x, Next (f ++ known_of e x).

(** A volume may be put on the datastore: all nodes run on hosts that are attached to it. *)
Definition shared (f : list known) (nodes : list (string * string))
    (vms : list (option string * option ManagedObjectReference)) (ds : ManagedObjectReference) : Prop :=
  ∃ type hosts, TypeKnown ds type ∈ f ∧ type ≠ "NFS41" ∧ AttachedKnown ds hosts ∈ f ∧
    ∀ name host, (Some name, Some host) ∈ vms → name ∈ nodes.*1 → host ∈ hosts.

Lemma shared_mono f f' nodes vms ds : f ⊆ f' → shared f nodes vms ds → shared f' nodes vms ds.
Proof. intros Hf (t & hs & Ht & Hn & Ha & Hh). exists t, hs. split_and!; auto. Qed.

Lemma learn_grows {A} (p : vio A) f : safe learn p (λ _ f', f ⊆ f') f.
Proof.
  assert (Hg : ∀ f', f ⊆ f' → safe learn p (λ _ f', f ⊆ f') f').
  { induction p as [a|m|m|X e k IH]; cbn; [done..|]. intros f' Hf x. apply IH.
    intros y Hy. apply elem_of_app. auto. }
  by apply Hg.
Qed.

Lemma elem_of_hostsOf names vms hosts hosts' host :
  hostsOf names vms hosts = Some hosts' →
  host ∈ hosts' ↔ host ∈ hosts ∨ ∃ name, (Some name, Some host) ∈ vms ∧ name ∈ names.
Proof.
  revert hosts. induction vms as [|[[n|] h] vms IH]; intros hosts Hh; cbn [hostsOf] in Hh; [| |done].
  { simplify_eq. split; [by left|]. intros [?|(? & Hn & _)]; [done|by apply not_elem_of_nil in Hn]. }
  case_bool_decide as Hn.
  - rewrite (IH _ Hh). setoid_rewrite elem_of_cons. naive_solver.
  - destruct h as [h|]; [|done]. rewrite (IH _ Hh). setoid_rewrite elem_of_cons.
    case_bool_decide; rewrite ?elem_of_app, ?list_elem_of_singleton; naive_solver.
Qed.

Lemma learn_findHostsOfNodeVMs client config f :
  safe learn (findHostsOfNodeVMs client config) (λ o f', match o with
    | Returned (Ok hosts) => ∃ nodes vms, NodesKnown nodes ∈ f' ∧ VMsKnown vms ∈ f' ∧
        hostsOf nodes.*1 vms [] = Some hosts
    | _ => True
    end) f.
Proof.
  unfold findHostsOfNodeVMs. intros [nodes|e]; [|done]. cbn.
  destruct (list_find _ nodes) as [[i [name uid]]|]; [done|]. intros [dcs|e]; [|done]. cbn.
  eapply safe_seq; [apply learn_grows| |done..]. intros [vmRefs|e] f' Hf; [|done].
  intros [vms|e]; [|done]. cbn. destruct (hostsOf _ _ _) as [hosts|] eqn:Hh; [|done].
  exists nodes, vms. split_and!; [| |done].
  - apply elem_of_app. left. apply Hf. rewrite app_nil_r. apply elem_of_app. right. by left.
  - apply elem_of_app. right. by left.
Qed.

(** What the hosts of the nodes are attached to is what every host of a list is. *)
Lemma learn_eligible client hosts ds f :
  safe learn (eligible client hosts ds) (λ o f', f ⊆ f' ∧ match o with
    | Returned true => ∃ type hs, TypeKnown ds type ∈ f' ∧ type ≠ "NFS41" ∧ AttachedKnown ds hs ∈ f' ∧
        ∀ host, host ∈ hosts → host ∈ hs
    | _ => True
    end) f.
Proof.
  apply (safe_mono _ _ (λ o f', f ⊆ f' ∧ match o with Returned true => ∃ type hs,
    TypeKnown ds type ∈ f' ∧ type ≠ "NFS41" ∧ AttachedKnown ds hs ∈ f' ∧ ∀ host, host ∈ hosts → host ∈ hs
    | _ => True end)); [|done].
  apply safe_conj; [apply learn_grows|].
  assert (Hatt : ∀ t f, TypeKnown ds t ∈ f → t ≠ "NFS41" → safe learn
    (let? l := call (AttachedHosts client ds) else _ => Ret false in
     Ret (negb (bool_decide (length l < length hosts)%nat) && forallb (λ host, bool_decide (host ∈ l)) hosts))
    (λ o f', match o with
      | Returned true => ∃ type hs, TypeKnown ds type ∈ f' ∧ type ≠ "NFS41" ∧ AttachedKnown ds hs ∈ f' ∧
          ∀ host, host ∈ hosts → host ∈ hs
      | _ => True
      end) f).
  { intros t f' Ht Hn [l|e]; [|done]. cbn. destruct (negb _ && _) eqn:Hb; [|done].
    apply andb_true_iff in Hb as [_ Hb]. rewrite forallb_forall in Hb.
    exists t, l. split_and!; [by apply elem_of_app; left|done|apply elem_of_app; right; by left|].
    intros host Hh. apply list_elem_of_In in Hh. by apply Hb, bool_decide_eq_true in Hh. }
  unfold eligible. intros [t|e]; [|done]. cbn.
  assert (Ht : TypeKnown ds t ∈ f ++ [TypeKnown ds t]) by (apply elem_of_app; right; by left).
  case_bool_decide as Hn; [done|]. case_bool_decide; [|exact (Hatt t _ Ht Hn)].
  intros [[info|]|e]; [|done..]. cbn. rewrite app_nil_r.
  destruct (Contains info "eng.vmware.com"); [done|exact (Hatt t _ Ht Hn)].
Qed.

Lemma learn_eligibleDatastores client hosts dss dsList nodes vms f :
  hostsOf nodes.*1 vms [] = Some hosts → (∀ ds, ds ∈ dsList → shared f nodes vms ds) →
  safe learn (eligibleDatastores client hosts dss dsList) (λ o f', f ⊆ f' ∧ match o with
    | Returned dsList => ∀ ds, ds ∈ dsList → shared f' nodes vms ds
    | _ => True
    end) f.
Proof.
  intros Hh. assert (Hgo : ∀ dss dsList f', f ⊆ f' → (∀ ds, ds ∈ dsList → shared f' nodes vms ds) →
    safe learn (eligibleDatastores client hosts dss dsList) (λ o f', f ⊆ f' ∧ match o with
      | Returned dsList => ∀ ds, ds ∈ dsList → shared f' nodes vms ds | _ => True end) f');
    [|by apply Hgo].
  clear dss dsList. intros dss. induction dss as [|ds dss IH]; intros dsList f' Hf Hl; [done|].
  cbn [eligibleDatastores]. eapply safe_seq; [apply learn_eligible|..].
  - intros b f2 [Hf2 Hb]. apply IH; [by etransitivity|]. intros ds' Hds'.
    destruct b; [|by eapply shared_mono, Hl]. apply elem_of_app in Hds' as [Hds'|Hds'].
    { by eapply shared_mono, Hl. }
    apply list_elem_of_singleton in Hds' as ->. destruct Hb as (t & hs & Ht & Hn & Ha & Hhs).
    exists t, hs. split_and!; [done..|]. intros name host Hv Hn'. apply Hhs.
    apply (elem_of_hostsOf _ _ _ _ _ Hh). right. eauto.
  - intros m f2 [Hf2 _]. split; [by etransitivity|done].
  - intros m f2 [Hf2 _]. split; [by etransitivity|done].
Qed.

(** There is a host that runs a virtual machine whose name is that of a node. *)
Definition nodes_found (f : list known) (nodes : list (string * string))
    (vms : list (option string * option ManagedObjectReference)) : Prop :=
  NodesKnown nodes ∈ f ∧ VMsKnown vms ∈ f ∧ ∃ name host, (Some name, Some host) ∈ vms ∧ name ∈ nodes.*1.

(** For each datastore answered the type and the attached hosts were read, and they include the
    host of every virtual machine whose name is that of a node. *)
Lemma learn_findSharedDatastores client config f :
  safe learn (findSharedDatastoresFromAllNodeVMs client config) (λ o f, match o with
    | Returned (Ok dsList) => ∃ nodes vms, nodes_found f nodes vms ∧ ∀ ds, ds ∈ dsList → shared f nodes vms ds
    | _ => True
    end) f.
Proof.
  unfold findSharedDatastoresFromAllNodeVMs. eapply safe_seq; [apply learn_findHostsOfNodeVMs| |done..].
  intros [hosts|e] f0 Hh; [|done]. destruct Hh as (nodes & vms & Hn & Hv & Hh).
  case_bool_decide as Hne; [done|].
  eapply safe_seq; [apply learn_grows| |done..]. intros paths f1 Hf1.
  eapply safe_seq; [apply learn_grows| |done..]. intros [dss|e] f2 Hf2; [|done].
  eapply safe_seq; [apply (learn_eligibleDatastores _ _ _ _ nodes vms); [done|]| |done..].
  { intros ds Hds. by apply not_elem_of_nil in Hds. }
  intros dsList f3 [Hf3 Hl]. exists nodes, vms. split; [|done]. split_and!; [auto..|].
  destruct hosts as [|host hosts]; [done|].
  destruct (proj1 (elem_of_hostsOf _ _ _ _ host Hh)) as [Hin|(name & ? & ?)]; [by left| |eauto].
  by apply not_elem_of_nil in Hin.
Qed.
(** The list of a volume that CNS was asked for had been found to be of shared datastores. *)
Definition placed (f : list known) : Prop := ∀ f1 dss f2, f = f1 ++ Asked dss :: f2 →
  ∃ nodes vms, nodes_found f1 nodes vms ∧ ∀ ds, ds ∈ dss → shared f1 nodes vms ds.

Lemma placed_others f g : (∀ dss, Asked dss ∉ g) → placed f → placed (f ++ g).
Proof.
  intros Hg Hf f1 dss f2 [(k & -> & Hk)|(k & -> & Hk)]%app_eq_inv.
  - destruct k as [|x k]; cbn in Hk.
    + exfalso. apply (Hg dss). rewrite <-Hk. by left.
    + injection Hk as <- _. by apply (Hf f1 dss k).
  - exfalso. apply (Hg dss). rewrite Hk. apply elem_of_app. right. by left.
Qed.

Lemma placed_asked f dss nodes vms :
  nodes_found f nodes vms → (∀ ds, ds ∈ dss → shared f nodes vms ds) → placed f → placed (f ++ [Asked dss]).
Proof.
  intros Hn Hs Hf f1 dss' f2 [(k & Hk1 & Hk)|(k & Hk1 & Hk)]%app_eq_inv; destruct k as [|x k]; cbn in Hk.
  - rewrite app_nil_r in Hk1. simplify_eq. eauto.
  - injection Hk as <- _. by apply (Hf f1 dss' k).
  - rewrite app_nil_r in Hk1. simplify_eq. eauto.
  - injection Hk as _ Hk. by destruct k.
Qed.

Lemma learn_others X (e : VCmd X) x f : idle e = true → placed f → placed (f ++ known_of e x).
Proof.
  intros He. apply placed_others. intros dss Hin.
  destruct e; try done; cbn in Hin; repeat case_match; set_solver.
Qed.

Lemma learn_idle {A} (p : vio A) f : calls_only (@idle _) p → placed f → safe learn p (λ o f', placed f' ∧ match o with Hung _ => False | _ => True end) f.
Proof.
  intros Hp Hf. apply (safe_calls_keep (@idle _) _ placed); [|exact Hf|exact Hp].
  intros f' X e x Hf' He. by apply learn_others.
Qed.

(** C27. CNS is asked for a new container volume only with datastores that vCenter says every
    host running a node of the cluster is attached to, and that are no NFS 4.1: for each
    datastore of the request the type and the attached hosts were read before, and they
    include the host of every virtual machine whose name is that of a node; there is at
    least one such host.  Nothing keeps the list from being empty, and then the request leaves
    the choice to CNS.  A volume is answered only after CNS was asked for one. *)
Theorem CreateCnsVolumeInCluster_datastores c client cns md h :
  safe learn (CreateCnsVolumeInCluster c client cns md h) (λ o f, placed f ∧ match o with
    | Returned (_, Ok _) => ∃ dss, Asked dss ∈ f | Returned (_, Err _) | Panicked _ => True | Hung _ => False end) [].
Proof.
  assert (Hnone : placed []) by by intros [].
  unfold CreateCnsVolumeInCluster, createCnsVolumeWithClusterConfig. intros [config|e]; [|done]. cbn [bind].
  destruct c as [cfg|]; [|done]. destruct client as [client|]; [|done]. unfold learn at 1. cbn [app known_of].
  eapply safe_seq; [apply safe_conj;
    [apply learn_findSharedDatastores|apply learn_idle; [apply idle_findSharedDatastoresFromAllNodeVMs|exact Hnone]]|..].
  - intros [dsList|e] f [Ho [Hf _]]; [|done]. destruct Ho as (nodes & vms & Hn & Hs). cbv zeta.
    destruct cns as [m|]; [|done]. set (spec := {| cv_Name := _ |}).
    eapply (safe_seq _ _ _ _ (λ o f', placed f' ∧ match o with
      | Returned (_, Ok _) => Asked dsList ∈ f' | Returned (_, Err _) | Panicked _ => True | Hung _ => False end)).
    + assert (Hadd : ∀ f', f ⊆ f' → placed f' → placed (f' ++ [Asked dsList])).
      { intros f' Hf' Hp. apply (placed_asked _ _ nodes vms); [| |exact Hp].
        - destruct Hn as (? & ? & ?). split_and!; auto.
        - intros ds Hds. by eapply shared_mono, Hs. }
      set (K := λ f' : list known, f ⊆ f' ∧ placed f').
      unfold Cns.CreateVolume, withCns. apply (safe_invoke _ _ _ _ (λ _, K) (λ _, K)).
      * intros h' f' HK. eapply safe_mono; [apply safe_Connect|].
        { intros X e x He. unfold learn. destruct e; try done; cbn; by rewrite app_nil_r. }
        intros [[h2 [cs|e]]|?|?] f2 [-> Ho]; [exact HK|by destruct HK..|done].
      * intros h' f' [Hsub Hp] v x. cbn. split; [by apply Hadd|]. destruct x; [|done]. set_solver.
      * intros v x. cbn. destruct (refused _).
        -- split; [set_solver|by apply Hadd].
        -- split; [by apply Hadd|]. destruct x; [|done]. set_solver.
    + intros [h' [t|e]] f' [Hp Hin]; [|done]. cbn. intros [info|e]; cbn; [|by rewrite app_nil_r].
      intros r. cbn. rewrite !app_nil_r. destruct r as [r|e]; [|done]. cbn. split; [done|].
      destruct (createdVolume r); eauto.
    + by intros w f' [Hp _].
    + by intros w f' [_ []].
  - by intros w f (_ & Hf & _).
  - by intros w f (_ & _ & []).
Qed.
End datastores.

(** ** Bytes *)

Section bytes.
Context `{VDeps}.

Definition concat_all (l : list string) : string := foldr String.append "" l.

Lemma length_str_app s t : String.length (s +:+ t) = (String.length s + String.length t)%nat.
Proof. induction s as [|a s IH]; [done|]. exact (f_equal S IH). Qed.

(** What goes through a buffer comes out in whole buffers, but for what stays in it. *)
Lemma fullChunks_spec s buf n :
  n = Z.of_nat (String.length buf) → (n < bufferSize)%Z →
  ∃ rest, str_rev buf "" +:+ s = concat_all (fullChunks s buf n) +:+ rest ∧
    (Z.of_nat (String.length rest) < bufferSize)%Z ∧
    Forall (λ c, Z.of_nat (String.length c) = bufferSize) (fullChunks s buf n).
Proof.
  assert (Hrev : ∀ b, String.length (str_rev b "") = String.length b).
  { induction b as [|a b IH]; [done|]. cbn. rewrite str_rev_app, length_str_app, IH. cbn. lia. }
  revert buf n. induction s as [|a s IH]; intros buf n Hn Hlt; cbn [fullChunks].
  { exists (str_rev buf ""). rewrite str_app_nil_r, Hrev. cbn. split_and!; [done|lia|constructor]. }
  assert (Hs : str_rev buf "" +:+ String a s = str_rev (String a buf) "" +:+ s).
  { cbn. rewrite (str_rev_app buf (String a "")), str_app_assoc. done. }
  rewrite Hs. destruct (n + 1 =? bufferSize) eqn:Hfull.
  - apply Z.eqb_eq in Hfull. destruct (IH "" 0) as (rest & Hr & Hl & Hall); [done|done|].
    exists rest. cbn [concat_all foldr]. change (str_rev "" "" +:+ s) with s in Hr.
    split_and!; [by rewrite str_app_assoc; f_equal|done|]. constructor; [|done].
    rewrite Hrev. cbn [String.length]. lia.
  - apply Z.eqb_neq in Hfull. apply IH; [cbn [String.length]; lia|lia].
Qed.

(** What was read, what was written, and the error of the write that failed. *)
Definition copied : Type := option (string * option error) * string * option error.

(** The reader is read once, and the disk written until a write fails. *)
Definition copy_monitor (d : disk) (r : reader) : monitor VCmd copied := λ '(read, written, failed) X e,
  match e in VCmd X return X → verdict copied with
  | ReadStream r' => λ x,
      if bool_decide (r' = r) && bool_decide (read = None) then Next (Some x, written, failed) else Violation
  | DiskWrite d' c => λ x,
      if bool_decide (d' = d) && bool_decide (failed = None) then
        Next (match x with None => (read, written +:+ c, None) | Some e => (read, written, Some e) end)
      else Violation
  | _ => λ _, Violation
  end.

Lemma safe_writeChunks d r x chunks n written :
  safe (copy_monitor d r) (writeChunks d chunks n) (λ o '(read, written', failed), read = Some x ∧
    match o with
    | Returned (_, err) => err = failed ∧ ∃ l, l `prefix_of` chunks ∧
        written' = written +:+ concat_all l ∧ (err = None → l = chunks)
    | _ => False
    end) (Some x, written, None).
Proof.
  revert n written. induction chunks as [|c chunks IH]; intros n written; cbn.
  { split; [done|]. split; [done|]. exists []. rewrite str_app_nil_r. done. }
  intros [e|]; rewrite bool_decide_true by done; cbn.
  { split; [done|]. split; [done|]. exists []. split_and!; [apply prefix_nil|by rewrite str_app_nil_r|done]. }
  eapply safe_mono; [apply IH|]. intros [[n' err]|m|m] [[read written'] failed] [-> Ho]; [|done..].
  destruct Ho as (-> & l & Hl & -> & Hall). split; [done|]. split; [done|].
  exists (c :: l). split_and!; [by apply prefix_cons|by rewrite str_app_assoc|].
  intros He. by rewrite Hall.
Qed.

End bytes.
