(* ===== verification/IvdRuns.v ===== *)
(** * Runs with vCenter

    A vCenter for concrete runs: the session of the client 1 has expired, and a login makes
    the client 2, or is refused. *)

From S2P Require Export Instance IvdCopies.
Open Scope Z_scope.
Import Ivd.

Definition concrete_vdeps (E : Type) (E_GetID : E → peid) : @VDeps (concrete_deps E E_GetID) :=
  let D := concrete_deps E E_GetID in {|
  SoapFault e := match e with ErrorString "NotAuthenticated" => Some (NotAuthenticated, "no session") | _ => None end;
  VimFault e := match e with ErrorString "InvalidState" => Some InvalidState | _ => None end;
  IsConnectionResetError _ := false;
  IsFindNotFound _ := false;
  VixErrorCode _ := 0;
  NewS3DataTransportForPEID _ _ := Ok {| dt_Type := "s3"; dt_Params := ∅ |};
  NewProtectedEntityIDWithSnapshotID t i s := PeId t i (Some s);
  NewProtectedEntitySnapshotID s := s;
  XmlMarshal v _ _ := Ok (vso_Name v);
  XmlUnmarshal s := (({| vso_Id := ""; vso_Name := s; vso_CapacityInMB := 1;
                         vso_Datastore := {| mor_Type := "Datastore"; mor_Value := "ds" |} |},
                      {| mor_Type := "Datastore"; mor_Value := "ds" |}, []), None);
|}.

#[export] Instance concrete_v : VDeps := concrete_vdeps peid id.

Definition unused : error := ErrorString "not asked in these runs".

(** The state counts the logins. *)
Definition vcenter_of E f (loginErr : option error) : handler (@VCmd (concrete_deps E f)) nat := λ X e n,
  match e in VCmd X return X * nat with
  | ConfigLock | ConfigUnlock | ConnectLock _ | ConnectUnlock _ | DiskEndAccess _ => (tt, n)
  | VPollTicks _ _ => (3%nat, n)
  | ParseURL host _ => (Ok host, n)
  | NewVimClient url _ => (Ok {| vim_handle := 2; vim_URLHost := url |}, n)
  | UseServiceVersion _ _ | Logout _ | DiskWrite _ _ | DiskClose _ | CloseReader _ | InitEx _
  | DeleteConfigFile _ => (None, n)
  | Login _ _ _ => (loginErr, S n)
  | UserSession c => (Ok (if (vim_handle c =? 2)%N then Some "session" else None), n)
  | NewVslmClient c => (Ok (vim_handle c), n)
  | NewCnsClient c => (Ok (vim_handle c), n)
  | VslmCreateSnapshot v _ _ => (if (v =? 2)%N then Ok 7%N else Err (ErrorString "NotAuthenticated"), n)
  | TaskWait _ _ => (Ok (AnyID "snap-1"), n)
  | VslmRetrieveSnapshotDetails v _ _ => (if (v =? 2)%N then Ok tt else Err (ErrorString "NotAuthenticated"), n)
  | ReadStream _ => (("", None), n)
  | VslmDeleteSnapshot _ _ _ | VslmRetrieveSnapshotInfo _ _ | VslmRetrieve _ _ | VslmUpdateMetadata _ _ _ _
  | VslmRetrieveMetadata _ _ _ _ | VslmCreateDiskFromSnapshot _ _ _ _ | VslmListObjectsForSpec _ _ _ _ _
  | VslmCreateDisk _ _ _ | VslmClone _ _ _ _ _ | VslmDelete _ _ | TaskWaitNonDefault _ _ _ _ _
  | CnsCreateVolume _ _ | CnsDeleteVolume _ _ _ | CnsQueryVolume _ _ | GetTaskInfo _ | GetTaskResult _
  | InClusterConfig | ListNodes _ | DatacenterList _ | VirtualMachineList _ _ | RetrieveVMs _ _
  | Ancestors _ _ | DatastoreList _ _ | DatastoreType _ _ | NasRemoteHost _ _ | AttachedHosts _ _
  | GetThumbPrintForURL _ | DiskOpen _ | CreateConfigFile _ | SrcGetInfo _ | SrcGetDataReader _
  | SrcGetMetadataReader _ => (Err unused, n)
  end.

Definition vcenter : option error → handler (@VCmd concrete) nat := vcenter_of peid id.

Definition config (host : string) : VirtualCenterConfig := {|
  vcc_Scheme := "https"; vcc_Host := host; vcc_Port := 443; vcc_Username := "user";
  vcc_Password := "password"; vcc_ClusterId := "cluster"; vcc_RoundTripperCount := 0;
  vcc_VCClientTimeout := 30 |}.

Definition config_params (host : string) : params :=
  <["VirtualCenter" := IString host]> (<["port" := IString "443"]> (<["user" := IString "user"]>
    (<["password" := IString "password"]> {["cluster-id" := IString "cluster"]}))).

(** A manager whose session has expired. *)
Definition expired_vc : VirtualCenter := {|
  vc_Config := Some (config "vc1"); vc_Client := Some {| vim_handle := 1; vim_URLHost := "vc1" |};
  vc_CnsClient := Some 1%N; vc_VslmClient := Some 1%N |}.

Definition expired : world := World [expired_vc] {|
  tm_vcenterConfig := Some (config "vc1"); tm_vcenter := Some 0%nat;
  tm_vslmManager := Some {| vm_virtualCenter := 0; vm_vsom := 1 |};
  tm_cnsManager := Some {| cm_virtualCenter := 0; cm_cnsClient := 1 |} |}.

Definition disk1 : IVDProtectedEntity := {| ie_id := PeId "ivd" "disk" None; ie_data := [] |}.

(** The snapshot is made after one login: the first call is refused and made again, and so is
    the check of the snapshot, since the manager keeps its old client. *)
Example snapshot_after_renewal :
  let '(o, logins) := run (vcenter None) (Snapshot disk1 expired) 0%nat in
  match o with Returned (w, r) => r = Ok "snap-1" | _ => False end ∧ logins = 1%nat.
Proof. by vm_compute. Qed.



Lemma unconfigured_manager_panics_witness :
  GetVirtualCenterConfigFromParams {["VirtualCenter" := IString "vc1"]} =
    Err (ErrorString "No such key port in params map") ∧
  safe anything (let! w := NewIVDProtectedEntityTypeManager {["VirtualCenter" := IString "vc1"]} [] in
                 GetProtectedEntity (tt : @S3Config concrete) (PeId "ivd" "disk" None) w) (λ o _, ∃ m, o = Panicked m) tt.
Proof.
  split; [by vm_compute|].
  apply (unconfigured_manager_panics (tt : @S3Config concrete) _ [] (PeId "ivd" "disk" None)
    (ErrorString "No such key port in params map")); [by apply (bool_decide_unpack _); vm_compute|by vm_compute].
Defined.

