(* ===== verification/Construction.v ===== *)
(** * How the managers are built

    The constructors of the snapshot manager (pkg/snapshotmgr), of the data mover
    (pkg/dataMover), of the guest's type manager (pkg/paravirt) and of the volume
    snapshotter (pkg/plugin).  They fill maps they are given, which their callers go on
    using: a constructor answers such a map with its result. *)

From S2P Require Export Disks Supervisor Paravirt ItemActions.
Open Scope Z_scope.

Definition VolumeSnapshotterLocalMode : string := "LocalMode".
Definition VolumeSnapshotterManagerLocation : string := "SnapshotManagerLocation".
Definition VolumeSnapshotterPlugin : string := "Plugin".
Definition VolumeSnapshotterDataServer : string := "DataServer".

(** ** Configurations *)

(** The entry ["pvc"] of the configurations of type managers; a key that is not there is
    [None]. *)
Record pvcConfig := {
  pvc_restConfig : option RestConfig;
  pvc_svcConfig : option RestConfig;
  pvc_svcNamespace : option string;
}.

(** astrolabe's configuration: its entries ["ivd"] and ["pvc"].  The S3 configuration is
    always the one with the URL VOID_URL. *)
Record ConfigInfo := { ci_ivd : option params; ci_pvc : option pvcConfig }.

#[export] Instance update_ci_ivd : Update ci_ivd := λ v r, let (_, a) := r in Build_ConfigInfo v a.

Section construction.
Context `{VDeps}.

(** The data manager's type manager: that of the source, which writes Uploads (or
    Downloads) instead of copying. *)
Record DataManagerPETM := { dmp_source : PETM; dmp_upload : bool }.

Definition NewDataManagerProtectedEntityTypeManager (sourcePETM : PETM) (upload : bool) : DataManagerPETM :=
  {| dmp_source := sourcePETM; dmp_upload := upload |}.

(** Not written yet: a nil entity without an error. *)
Definition DataManagerCopy (this : DataManagerPETM) (pe : PE) (ps : gmap string params) (options : CopyCreateOptions)
    : io (result (option PE)) := Ret (Ok None).
Definition DataManagerCopyFromInfo (this : DataManagerPETM) (info : string) (ps : gmap string params)
    (options : CopyCreateOptions) : io (result (option PE)) := Ret (Ok None).
End construction.

(** The repository's own type managers as values of astrolabe's interface, and the S3
    configuration of the constructors. *)
Class SDeps `{VDeps} := {
  PETM_of_DataManager : DataManagerPETM → PETM;
  PETM_of_ParaVirt : ParaVirtProtectedEntityTypeManager → PETM;
  PETM_of_DataManager_as d : PETM_AsDataManager (PETM_of_DataManager d) = Some (dmp_source d);
  PETM_of_ParaVirt_is m : PETM_IsParaVirt (PETM_of_ParaVirt m) = true;
  VoidS3Config : S3Config;
}.

(** ** Calls

    [SKube] and [SVim] are the calls of [Env] and of [VSphere].  [NewDirectPEM] is astrolabe's
    NewDirectProtectedEntityManagerFromParamMap, which builds a type manager for every
    configuration, that of ["ivd"] with the function of pkg/ivd; [NewIvdManager] allocates a
    manager of virtual disks.  The last calls start goroutines and wait for them. *)
Section scmd.
Context `{SDeps}.

Inductive goroutine :=
| UntilWorker (queue : string) (period : Z)
| UntilResync (period : Z)
| RunController (name : string) (workers : Z)
| StartInformers (factory : string)
| RunProfiler (address : string).

Inductive SCmd : Type → Type :=
| SKube {X} (e : Cmd X) : SCmd X
| SVim {X} (e : VCmd X) : SCmd X
| FactoryClientConfig : SCmd (result RestConfig)
| BuildConfigFromFlags (masterURL kubeconfigPath : string) : SCmd (result RestConfig)
| FactoryNamespace : SCmd string
| NewDirectPEM (c : ConfigInfo) : SCmd unit
| RegisterPETM (m : PETM) : SCmd unit
| NewIvdManager (w : Ivd.world) : SCmd PETM
| Go (g : goroutine) : SCmd unit
| WaitForCacheSync (informers : list string) : SCmd bool
| ShutDownQueue (queue : string) : SCmd unit
| AwaitDone : SCmd unit
| WgAdd (n : Z) : SCmd unit
| WgWait : SCmd unit
| CancelOnShutdown (f : CancelFunc) : SCmd unit.

Abbreviation sio := (prog SCmd).

Fixpoint skube {A} (p : io A) : sio A :=
  match p with
  | Ret a => Ret a
  | Panic w => Panic w
  | Hang w => Hang w
  | Do e k => Do (SKube e) (λ x, skube (k x))
  end.

Fixpoint svim {A} (p : vio A) : sio A :=
  match p with
  | Ret a => Ret a
  | Panic w => Panic w
  | Hang w => Hang w
  | Do e k => Do (SVim e) (λ x, svim (k x))
  end.

(** ** The guest's type manager *)

(** Its parameters; [None] is a key that is not there. *)
Record paravirtParams := {
  pp_entityType : option ParaVirtEntityType;
  pp_restConfig : option RestConfig;
  pp_masterURL : string;
  pp_kubeconfigPath : string;
  pp_svcConfig : option RestConfig;
  pp_svcMasterURL : string;
  pp_svcKubeconfigPath : string;
  pp_svcNamespace : option string;
}.

Definition clientFromConfig (config : option RestConfig) : sio (result client) :=
  match config with
  | None => Panic "nil pointer: rest.Config"
  | Some c => let? c := call (SKube (NewForConfig c)) else e => Ret (Err (WithStack e)) in Ret (Ok c)
  end.

(** The configuration built for a missing [svcConfig] is assigned to [config]. *)
Definition NewParaVirtProtectedEntityTypeManagerFromConfig (ps : paravirtParams)
    : sio (result ParaVirtProtectedEntityTypeManager) :=
  match pp_entityType ps with
  | None => Panic "interface conversion: interface is nil, not ParaVirtEntityType"
  | Some entityType =>
    let? config := (match pp_restConfig ps with
      | Some c => Ret (Ok c)
      | None => call (BuildConfigFromFlags (pp_masterURL ps) (pp_kubeconfigPath ps))
      end) else e => Ret (Err (WithStack e)) in
    let? gcKubeClientSet := clientFromConfig (Some config) else e => Ret (Err e) in
    let? config := (match pp_svcConfig ps with
      | Some _ => Ret (Ok config)
      | None => call (BuildConfigFromFlags (pp_svcMasterURL ps) (pp_svcKubeconfigPath ps))
      end) else e => Ret (Err (WithStack e)) in
    let? svcKubeClientSet := clientFromConfig (pp_svcConfig ps) else e => Ret (Err e) in
    let? svcBackupDriverClient := clientFromConfig (pp_svcConfig ps) else e => Ret (Err e) in
    let? gcBackupDriverClient := clientFromConfig (Some config) else e => Ret (Err e) in
    match pp_svcNamespace ps with
    | None => Panic "interface conversion: interface is nil, not string"
    | Some svcNamespace => Ret (Ok {|
        pvm_entityType := entityType; pvm_gcKubeClientSet := gcKubeClientSet;
        pvm_gcBackupDriverClient := gcBackupDriverClient; pvm_svcKubeClientSet := svcKubeClientSet;
        pvm_svcBackupDriverClient := svcBackupDriverClient; pvm_svcNamespace := svcNamespace;
        pvm_s3Config := VoidS3Config |})
    end
  end.

(** ** The snapshot manager *)

(** A SnapshotManager as its constructor leaves it. *)
Record SnapshotMgr := {
  bm_manager : SnapshotManager;
  bm_config : gmap string string;
  bm_s3PETM : option DataManagerPETM;
}.

(** The credentials of the vCenter, unless the map has a host. *)
Definition withVcSecret (ps : params) (config : option RestConfig) : sio (result params) :=
  match ps !! HostVcParamKey with
  | Some _ => Ret (Ok ps)
  | None => skube (RetrieveVcConfigSecret ps config)
  end.

(** The manager of the repository: only out of local mode, on vSphere. *)
Definition remoteStorage (clusterFlavor : ClusterFlavor) (s3RepoParams : params) (config : gmap string string)
    (k8sRestConfig : option RestConfig) : sio (result (option DataManagerPETM)) :=
  if negb (GetBool (map_get config VolumeSnapshotterLocalMode) false) && bool_decide (clusterFlavor = VSphere) then
    let? s3RepoParams := (match config !! "region", config !! "bucket" with
      | Some region, Some bucket =>
          Ret (Ok (<["bucket" := IString bucket]> (<["region" := IString region]> s3RepoParams)))
      | _, _ => skube (RetrieveVSLFromVeleroBSLs s3RepoParams DefaultS3BackupLocation k8sRestConfig)
      end) else e => Ret (Err e) in
    let? intS3PETM := skube (GetS3PETMFromParamsMap s3RepoParams) else e => Ret (Err e) in
    Ret (Ok (Some (NewDataManagerProtectedEntityTypeManager intS3PETM false)))
  else Ret (Ok None).

(** What the guest's type manager is built from. *)
Definition guestParams (c : ConfigInfo) : paravirtParams :=
  let pvc {A} (f : pvcConfig → option A) := match ci_pvc c with Some p => f p | None => None end in
  {| pp_entityType := Some ParaVirtEntityTypePersistentVolume;
     pp_restConfig := pvc pvc_restConfig; pp_masterURL := ""; pp_kubeconfigPath := "";
     pp_svcConfig := pvc pvc_svcConfig; pp_svcMasterURL := ""; pp_svcKubeconfigPath := "";
     pp_svcNamespace := pvc pvc_svcNamespace |}.

(** Out of guest clusters the virtual disks always have a configuration. *)
Definition withIvdConfig (clusterFlavor : ClusterFlavor) (c : ConfigInfo) : ConfigInfo :=
  if bool_decide (clusterFlavor ≠ TkgGuest) then
    match ci_ivd c with None => c <| ci_ivd := Some ∅ |> | Some _ => c end
  else c.

(** The first component of the answer is the configuration the caller holds. *)
Definition NewSnapshotManagerFromConfig (configInfo : ConfigInfo) (s3RepoParams : params)
    (config : gmap string string) (k8sRestConfig : option RestConfig) : sio (ConfigInfo * result SnapshotMgr) :=
  let? clusterFlavor := skube (GetClusterFlavor k8sRestConfig) else e => Ret (configInfo, Err e) in
  let configInfo := withIvdConfig clusterFlavor configInfo in
  let? configInfo := (match ci_ivd configInfo with
    | None => Ret (Ok configInfo)
    | Some ivdParams =>
        let? ivdParams := withVcSecret ivdParams k8sRestConfig else e => Ret (Err e) in
        Ret (Ok (configInfo <| ci_ivd := Some ivdParams |>))
    end) else e => Ret (configInfo, Err e) in
  let! _ := call (NewDirectPEM configInfo) in
  let? s3PETM := remoteStorage clusterFlavor s3RepoParams config k8sRestConfig else e =>
    Ret (configInfo, Err e) in
  let? _ := (if bool_decide (clusterFlavor = TkgGuest) then
      let? paraVirtPETM := NewParaVirtProtectedEntityTypeManagerFromConfig (guestParams configInfo) else e =>
        Ret (Err e) in
      let! _ := call (RegisterPETM (PETM_of_ParaVirt paraVirtPETM)) in
      Ret (Ok tt)
    else Ret (Ok tt)) else e => Ret (configInfo, Err e) in
  let! ivdPETM := call (SKube (PemGetTypeManager "ivd")) in
  let! _ := (match ivdPETM with
    | None => Ret tt
    | Some m => call (RegisterPETM (PETM_of_DataManager (NewDataManagerProtectedEntityTypeManager m true)))
    end) in
  Ret (configInfo, Ok {| bm_manager := {| sm_clusterFlavor := clusterFlavor |}; bm_config := config;
                         bm_s3PETM := s3PETM |}).

(** The keys that are copied when the one that stands for all is there.  A key without a
    value is copied as nil, which its readers do not tell from a missing one. *)
Definition copyKeys (first : string) (keys : list string) (ps : params) : params :=
  match ps !! first with
  | None => ∅
  | Some _ => list_to_map (omap (λ k, (k,.) <$> ps !! k) keys)
  end.

Definition NewSnapshotManagerFromCluster (ps : params) (config : gmap string string)
    : sio (result SnapshotMgr) :=
  let s3RepoParams := copyKeys "region" ["region"; "bucket"; "s3ForcePathStyle"; "s3Url"] ps in
  let ivdParams := copyKeys HostVcParamKey
    [HostVcParamKey; UserVcParamKey; PasswordVcParamKey; PortVcParamKey; ClusterVcParamKey] ps in
  let! (_, r) := NewSnapshotManagerFromConfig {| ci_ivd := Some ivdParams; ci_pvc := None |}
                   s3RepoParams config None in
  Ret r.

(** ** The volume snapshotter *)

(** Its fields after Init: the flavour, and the manager when it has one. *)
Definition Init (config : gmap string string) : sio (result (ClusterFlavor * option SnapshotMgr)) :=
  let? clusterFlavor := skube (GetClusterFlavor None) else e => Ret (Err e) in
  if bool_decide (clusterFlavor ≠ VSphere) then Ret (Ok (clusterFlavor, None))
  else
    let config := <[VolumeSnapshotterManagerLocation := VolumeSnapshotterPlugin]> config in
    let? snapMgr := NewSnapshotManagerFromCluster ∅ config else e => Ret (Err e) in
    Ret (Ok (clusterFlavor, Some snapMgr)).

(** ** The data mover *)

Definition GetIVDPETMFromParamsMap (ps : params) : sio (result PETM) :=
  let! w := svim (Ivd.NewIVDProtectedEntityTypeManager ps []) in
  let! m := call (NewIvdManager w) in
  Ret (Ok m).

(** The first component of the answer is the map the caller holds. *)
Definition NewDataMoverFromCluster (ps : params) : sio (params * result DataMover) :=
  let? ps' := withVcSecret ps None else e => Ret (ps, Err e) in
  let? ivdPETM := GetIVDPETMFromParamsMap ps' else e => Ret (ps', Err e) in
  Ret (ps', Ok {| dm_ivdPETM := ivdPETM |}).
End scmd.
Arguments SCmd {_} _.
Abbreviation sio := (prog SCmd).
