(* ===== verification/ConstructionSpec.v ===== *)
(** * What the constructors leave

    The type managers a snapshot manager registers, the storage it opens, and the vCenter
    that a manager of virtual disks is configured with. *)

From S2P Require Export Construction IvdProtocol.
Open Scope Z_scope.

(** ** Programs of a component among those of the servers *)

Section calls.
Context `{VDeps} {S : Type} (mon : monitor SCmd S).

Lemma safe_skube (C : ∀ X, Cmd X → bool) {A} (p : io A) s :
  (∀ s X (e : Cmd X) x, C X e = true → mon s X (SKube e) x = Next s) →
  calls_only C p → safe mon (skube p) (λ o s', match o with Hung _ => False | _ => s' = s end) s.
Proof.
  intros Hm. induction p as [a|w|w|X e k IH]; cbn; auto.
  intros [HC Hk] x. rewrite Hm by done. auto.
Qed.

(** A lookup of [skube], in a program that a monitor watches which ignores reads. *)
Lemma safe_skube_bind {A B} (p : io A) (f : A → sio B) Q s :
  (∀ s X (e : Cmd X) x, reads e = true → mon s X (SKube e) x = Next s) →
  calls_only (@reads _) p → (∀ a, safe mon (f a) Q s) → (∀ w, Q (Panicked w) s) →
  safe mon (bind (skube p) f) Q s.
Proof.
  intros Hm Hp Hf Hq. eapply safe_seq; [by apply (safe_skube (@reads _))|..].
  - intros a s' ->. apply Hf.
  - intros w s' ->. apply Hq.
  - by intros w s' [].
Qed.

(** A program of pkg/ivd or of pkg/common/vsphere, for a monitor that ignores its calls. *)
Lemma safe_svim_any {A} (p : vio A) (Q : outcome A → Prop) s :
  (∀ s X (e : VCmd X) x, mon s X (SVim e) x = Next s) →
  safe (λ _ _ _ _, Next tt) p (λ o _, Q o) tt → safe mon (svim p) (λ o s', Q o ∧ s' = s) s.
Proof.
  intros Hm. induction p as [a|w|w|X e k IH]; cbn; auto.
  intros Hp x. rewrite Hm. apply IH, Hp.
Qed.
End calls.

(** ** The vCenter of a manager of virtual disks *)

Section ivd_config.
Import Ivd.
Context `{VDeps}.

Definition no_rules : monitor VCmd unit := λ _ _ _ _, Next tt.

(** A program that does not wait for ever, and answers as [P] says. *)
Definition may_panic {A} (P : A → Prop) (o : outcome A) : Prop :=
  match o with Returned a => P a | Panicked _ => True | Hung _ => False end.

Lemma safe_quiet {A} (p : vio A) :
  calls_only (@housekeeping _) p → safe no_rules p (λ o _, may_panic (λ _, True) o) tt.
Proof.
  intros Hp. eapply safe_mono; [by apply (safe_calls_only (@housekeeping _)); [by intros []|]|]. by intros [] s.
Qed.

Lemma safe_any_seq {A B} (p : vio A) (f : A → vio B) (P : A → Prop) (R : B → Prop) :
  safe no_rules p (λ o _, may_panic P o) tt →
  (∀ a, P a → safe no_rules (f a) (λ o _, may_panic R o) tt) →
  safe no_rules (bind p f) (λ o _, may_panic R o) tt.
Proof. intros Hp Hf. eapply safe_seq; [exact Hp|..]; [|done..]. intros a []. apply Hf. Qed.

(** The configuration that the parameters give, if they give one. *)
Definition configured (ps : params) : option VirtualCenterConfig :=
  match GetVirtualCenterConfigFromParams ps with Ok c => Some c | Err _ => None end.

(** What keeps the manager's configuration. *)
Definition same_config (w w' : world) : Prop :=
  tm_vcenterConfig (w_tm w') = tm_vcenterConfig (w_tm w).

Lemma resetVslmManager_config p c w w' : resetVslmManager p c w = Ok w' → same_config w w'.
Proof. unfold resetVslmManager. destruct w as [h []]. by repeat case_match; intros; simplify_eq. Qed.

Lemma resetCnsManager_config p c w w' : resetCnsManager p c w = Ok w' → same_config w w'.
Proof. unfold resetCnsManager. destruct w as [h []]. by repeat case_match; intros; simplify_eq. Qed.

Lemma safe_reconnect cfg ps w :
  safe no_rules (reconnect cfg ps w) (λ o _, may_panic (λ '(w', _), same_config w w') o) tt.
Proof.
  apply (safe_any_seq _ _ (λ _, True)).
  { apply safe_quiet. unfold GetVirtualCenter. apply calls_only_bind; [apply quiet_Connect|].
    by intros [h [[v c]|e]]. }
  intros [h [[[p v] c]|e]] _; [|by destruct w].
  cbv zeta. set (w1 := w <| w_heap := h |> <| w_tm; tm_vcenter := Some p |>).
  assert (H1 : same_config w w1) by by destruct w as [? []].
  destruct (resetVslmManager p v w1) as [w2|e] eqn:H2; [|exact H1]. apply resetVslmManager_config in H2.
  destruct (resetCnsManager p c w2) as [w3|e] eqn:H3; [|cbn; unfold same_config in *; congruence].
  apply resetCnsManager_config in H3.
  apply (safe_any_seq _ _ (λ _, True)); [apply safe_quiet; unfold initVddk; calls_tac|].
  intros err _. cbn. unfold same_config in *. congruence.
Qed.

(** A new manager has the configuration of its parameters, whether or not it is connected. *)
Lemma safe_NewIVDProtectedEntityTypeManager ps h :
  safe no_rules (NewIVDProtectedEntityTypeManager ps h)
    (λ o _, may_panic (λ w, tm_vcenterConfig (w_tm w) = configured ps) o) tt.
Proof.
  unfold NewIVDProtectedEntityTypeManager, ReloadConfig.
  apply (safe_any_seq _ _ (λ '(w, _), tm_vcenterConfig (w_tm w) = configured ps)); [|by intros [w e]].
  intros []. apply safe_defer.
  assert (Hr : safe no_rules (reloadLocked ps (World h {| tm_vcenterConfig := None;
      tm_vcenter := None; tm_vslmManager := None; tm_cnsManager := None |}))
    (λ o _, may_panic (λ '(w, _), tm_vcenterConfig (w_tm w) = configured ps) o) tt).
  { unfold reloadLocked, configured. case_bool_decide as Hps; [subst ps|].
    - apply safe_reconnect.
    - destruct (GetVirtualCenterConfigFromParams ps) as [c|e]; [|done]. apply safe_reconnect. }
  eapply safe_mono; [exact Hr|]. by intros [[w e]|m|m] [] Ho; cbn in *.
Qed.

(** What is known of the outcome of a program whose calls a monitor ignores. *)
Lemma safe_no_rules {S A} (C : ∀ X, VCmd X → bool) (mon : monitor VCmd S) (p : vio A) (Q : outcome A → Prop) s :
  (∀ X (e : VCmd X) x, C X e = true → mon s X e x = Next s) → calls_only C p →
  safe no_rules p (λ o _, Q o) tt → safe mon p (λ o s', s' = s ∧ Q o) s.
Proof.
  intros Hm. induction p as [a|m|m|X e k IH]; cbn; auto.
  intros [HC Hk] Hp x. rewrite Hm by done. auto.
Qed.

Lemma safe_disconnectOld w :
  safe no_rules (disconnectOld w) (λ o _, may_panic (same_config w) o) tt.
Proof.
  unfold disconnectOld. destruct (tm_vcenter (w_tm w)) as [p|]; [|done].
  apply (safe_any_seq _ _ (λ _, True)); [apply safe_quiet; unfold Disconnect, withConnectLock; calls_tac|].
  intros [h e] _. by destruct w.
Qed.

(** A check of the connections may connect, with the configuration there is. *)
Lemma safe_check_config w :
  safe no_rules (CheckVcenterConnections w) (λ o _, may_panic (λ '(w', _), same_config w w') o) tt.
Proof.
  assert (Hr : safe no_rules (reloadLocked ∅ w) (λ o _, may_panic (λ '(w', _), same_config w w') o) tt).
  { unfold reloadLocked. rewrite bool_decide_true by done.
    destruct (CheckIfVirtualCenterConfigChanged _ _) as [[]|] eqn:Hch; [|by destruct (tm_vcenter _); [|apply safe_reconnect]|done].
    set (w1 := w <| w_tm; tm_vcenterConfig := _ |>). assert (H1 : same_config w w1) by by destruct w as [? []].
    apply (safe_any_seq _ _ (same_config w1)); [apply safe_disconnectOld|]. intros w2 H2.
    eapply safe_mono; [apply safe_reconnect|]. intros [[w3 e]|m|m] [] Ho; cbn in *; try done.
    unfold same_config in *. congruence. }
  assert (safe no_rules (ReloadConfig ∅ w) (λ o _, may_panic (λ '(w', _), same_config w w') o) tt).
  { intros []. apply safe_defer. eapply safe_mono; [exact Hr|]. by intros [[w' e]|m|m] [] Ho; cbn in *. }
  unfold CheckVcenterConnections. by repeat case_match.
Qed.
End ivd_config.

(** ** The snapshot manager *)

Section snapshot_manager.
Context `{SDeps}.

(** The configuration that astrolabe's direct manager was built from, the type managers
    registered since, and the one of disks that it answered. *)
Record building := {
  bd_direct : option ConfigInfo;
  bd_registered : list PETM;
  bd_ivd : option PETM;
}.

Definition not_built : building := {| bd_direct := None; bd_registered := []; bd_ivd := None |}.

(** Of the calls of [Env], only the look-up of a type manager counts: it is that of disks,
    in the manager that was built. *)
Definition manager_answer (s : building) {X} (e : Cmd X) : X → verdict building :=
  match e in Cmd X return X → verdict building with
  | PemGetTypeManager t => λ r,
      if bool_decide (t = "ivd" ∧ bd_direct s ≠ None)
      then Next {| bd_direct := bd_direct s; bd_registered := bd_registered s; bd_ivd := r |}
      else Violation
  | _ => λ _, Next s
  end.

(** The direct manager is built once, before a type manager is registered with it. *)
Definition building_protocol : monitor SCmd building := λ s X e,
  match e in SCmd X return X → verdict building with
  | SKube e => manager_answer s e
  | BuildConfigFromFlags _ _ => λ _, Next s
  | NewDirectPEM c => λ _,
      match bd_direct s with
      | None => Next {| bd_direct := Some c; bd_registered := []; bd_ivd := None |}
      | Some _ => Violation
      end
  | RegisterPETM m => λ _,
      match bd_direct s with
      | Some _ => Next {| bd_direct := bd_direct s; bd_registered := bd_registered s ++ [m]; bd_ivd := bd_ivd s |}
      | None => Violation
      end
  | _ => λ _, Violation
  end.

Lemma building_reads s X (e : Cmd X) x : reads e = true → building_protocol s X (SKube e) x = Next s.
Proof. by destruct e. Qed.

(** The guest's manager, of what the snapshot manager gives it. *)
Definition guest_manager (c : ConfigInfo) (m : PETM) : Prop :=
  ∃ g pvc, m = PETM_of_ParaVirt g ∧ ci_pvc c = Some pvc ∧ is_Some (pvc_svcConfig pvc) ∧
    pvc_svcNamespace pvc = Some (pvm_svcNamespace g) ∧
    pvm_entityType g = ParaVirtEntityTypePersistentVolume.

Lemma safe_clientFromConfig config Q s :
  (∀ c, Q (Returned c) s) → (∀ w, Q (Panicked w) s) → safe building_protocol (clientFromConfig config) Q s.
Proof. intros HQ Hw. destruct config as [c|]; [|apply Hw]. intros [x|e]; apply HQ. Qed.

Lemma NewParaVirt_spec c s :
  safe building_protocol (NewParaVirtProtectedEntityTypeManagerFromConfig (guestParams c))
    (λ o s', s' = s ∧ may_panic (λ r, match r with
      | Ok g => guest_manager c (PETM_of_ParaVirt g) | Err _ => True end) o) s.
Proof.
  assert (Hclient : ∀ cfg {B} (f : client → sio (result B)) (Q : outcome (result B) → building → Prop),
    (∀ e, Q (Returned (Err e)) s) → (∀ w, Q (Panicked w) s) → (∀ x, safe building_protocol (f x) Q s) →
    safe building_protocol (bind (clientFromConfig cfg) (λ r, match r with Ok x => f x | Err e => Ret (Err e) end)) Q s).
  { intros cfg B f Q He Hw Hf. apply safe_bind, safe_clientFromConfig; [|done]. intros [x|e]; cbn; auto. }
  assert (Hconfig : ∀ (p : sio (result RestConfig)) {B} (f : RestConfig → sio (result B)) (Q : outcome (result B) → building → Prop),
    safe building_protocol p (λ o s', s' = s ∧ ∃ r, o = Returned r) s →
    (∀ e, Q (Returned (Err e)) s) → (∀ x, safe building_protocol (f x) Q s) →
    safe building_protocol (bind p (λ r, match r with Ok x => f x | Err e => Ret (Err (WithStack e)) end)) Q s).
  { intros p B f Q Hp He Hf. eapply safe_seq; [exact Hp|..]; [|by intros w s' [_ [? [=]]]..].
    intros [x|e] s' [-> _]; [apply Hf|apply He]. }
  unfold NewParaVirtProtectedEntityTypeManagerFromConfig. cbn [guestParams pp_entityType].
  apply Hconfig; [by case_match; cbn; eauto|done|]. intros config.
  apply Hclient; [done..|]. intros gc.
  apply Hconfig; [by case_match; cbn; eauto|done|]. intros config'.
  destruct (pp_svcConfig (guestParams c)) as [svc|] eqn:Hsvc.
  2:{ by split. }
  apply Hclient; [done..|]. intros svcKube. apply Hclient; [done..|]. intros svcClient.
  apply Hclient; [done..|]. intros gcClient.
  destruct (pp_svcNamespace (guestParams c)) as [ns|] eqn:Hns; [|by split].
  split; [done|]. cbn in *. destruct (ci_pvc c) as [pvc|] eqn:Hpvc; [|done].
  eexists _, pvc. repeat split; eauto.
Qed.

Lemma withVcSecret_spec ps config s :
  safe building_protocol (withVcSecret ps config) (λ o s', match o with Hung _ => False | _ => s' = s end) s.
Proof.
  unfold withVcSecret. destruct (ps !! _); [done|].
  apply (safe_skube _ (@reads _)); [apply building_reads|apply reads_RetrieveVcConfigSecret].
Qed.

(** A repository is opened, and only with the upload flag cleared, on vSphere and not in local mode. *)
Lemma remoteStorage_spec flavor repo config rest s :
  safe building_protocol (remoteStorage flavor repo config rest) (λ o s', s' = s ∧ may_panic (λ r, match r with
    | Ok m => is_Some m ↔ flavor = VSphere ∧ GetBool (map_get config VolumeSnapshotterLocalMode) false = false
    | Err _ => True
    end) o) s.
Proof.
  unfold remoteStorage. destruct (GetBool _ _); cbn [negb andb].
  { split; [done|]. cbn. split; [by intros []|by intros [_ ?]]. }
  case_bool_decide as Hf; cbn.
  2:{ split; [done|]. split; [by intros []|by intros [? _]]. }
  assert (Hopen : ∀ ps, safe building_protocol
    (let? m := skube (GetS3PETMFromParamsMap ps) else e => Ret (Err e) in
     Ret (Ok (Some (NewDataManagerProtectedEntityTypeManager m false))))
    (λ o s', s' = s ∧ may_panic (λ r, match r with
      | Ok m => is_Some m ↔ flavor = VSphere ∧ false = false | Err _ => True end) o) s).
  { intros ps. apply safe_skube_bind; [apply building_reads|apply reads_GetS3PETMFromParamsMap|..]; [|done].
    by intros [m|e]. }
  assert (Hlookup : safe building_protocol
    (let? ps := skube (RetrieveVSLFromVeleroBSLs repo DefaultS3BackupLocation rest) else e => Ret (Err e) in
     let? m := skube (GetS3PETMFromParamsMap ps) else e => Ret (Err e) in
     Ret (Ok (Some (NewDataManagerProtectedEntityTypeManager m false))))
    (λ o s', s' = s ∧ may_panic (λ r, match r with
      | Ok m => is_Some m ↔ flavor = VSphere ∧ false = false | Err _ => True end) o) s).
  { apply safe_skube_bind; [apply building_reads|apply reads_RetrieveVSLFromVeleroBSLs|..]; [|done].
    intros [ps|e]; [apply Hopen|done]. }
  destruct (config !! "region"); [|apply Hlookup]. destruct (config !! "bucket"); [apply Hopen|apply Hlookup].
Qed.

(** The entry of the virtual disks is there outside of guest clusters, and stays. *)
Lemma withIvdConfig_spec flavor c :
  flavor ≠ TkgGuest ∨ is_Some (ci_ivd c) → is_Some (ci_ivd (withIvdConfig flavor c)).
Proof. intros [Hf|Hc]; unfold withIvdConfig; case_bool_decide; try done; destruct c as [[|] ?]; cbn; eauto. Qed.

Lemma ivdEntry_spec c rest s :
  safe building_protocol (match ci_ivd c with
    | None => Ret (Ok c)
    | Some ivdParams =>
        let? ivdParams := withVcSecret ivdParams rest else e => Ret (Err e) in
        Ret (Ok (c <| ci_ivd := Some ivdParams |>))
    end)
    (λ o s', s' = s ∧ may_panic (λ r, match r with
      | Ok c' => is_Some (ci_ivd c) → is_Some (ci_ivd c') | Err _ => True end) o) s.
Proof.
  destruct (ci_ivd c) as [ps|] eqn:Hc; [|cbn; by rewrite Hc].
  eapply safe_seq; [apply withVcSecret_spec|..]; [|by intros w s' ->|by intros w s' []].
  intros [ps'|e] s' ->; cbn; [|done]. split; [done|]. destruct c; cbn. eauto.
Qed.

Definition guests_registered (flavor : ClusterFlavor) (c : ConfigInfo) (ms : list PETM) : Prop :=
  if bool_decide (flavor = TkgGuest) then ∃ g, ms = [g] ∧ guest_manager c g else ms = [].

Lemma registerGuest_spec flavor c :
  let s := {| bd_direct := Some c; bd_registered := []; bd_ivd := None |} in
  safe building_protocol (if bool_decide (flavor = TkgGuest) then
      let? paraVirtPETM := NewParaVirtProtectedEntityTypeManagerFromConfig (guestParams c) else e =>
        Ret (Err e) in
      let! _ := call (RegisterPETM (PETM_of_ParaVirt paraVirtPETM)) in
      Ret (Ok tt)
    else Ret (Ok tt))
    (λ o s', match o with
    | Returned (Ok _) => ∃ guests, guests_registered flavor c guests ∧
        s' = {| bd_direct := Some c; bd_registered := guests; bd_ivd := None |}
    | Hung _ => False
    | _ => bd_registered s' = []
    end) s.
Proof.
  intros s. unfold guests_registered. case_bool_decide; [|by exists []].
  eapply safe_seq; [apply NewParaVirt_spec|..]; [|by intros w s' [-> ?]|by intros w s' [? []]].
  intros [g|e] s' [-> Hg]; [|done]. intros []. cbn. eexists. eauto.
Qed.

(** How the constructor may end. *)
Definition manager_built (c : ConfigInfo) (config : gmap string string) (o : outcome (ConfigInfo * result SnapshotMgr))
    (s : building) : Prop :=
  match o with
  | Returned (c', Ok m) =>
      let flavor := sm_clusterFlavor (bm_manager m) in
      bd_direct s = Some c' ∧ (flavor ≠ TkgGuest ∨ is_Some (ci_ivd c) → is_Some (ci_ivd c')) ∧
      (is_Some (bm_s3PETM m) ↔
        flavor = VSphere ∧ GetBool (map_get config VolumeSnapshotterLocalMode) false = false) ∧
      ∃ guests disks, bd_registered s = guests ++ disks ∧ guests_registered flavor c' guests ∧
        match bd_ivd s with
        | Some ivd => ∃ d, disks = [d] ∧ PETM_AsDataManager d = Some ivd
        | None => disks = []
        end
  | Returned (_, Err _) | Panicked _ => bd_registered s = []
  | Hung _ => False
  end.

Lemma NewSnapshotManagerFromConfig_built c repo config rest :
  safe building_protocol (NewSnapshotManagerFromConfig c repo config rest) (manager_built c config) not_built.
Proof.
  unfold NewSnapshotManagerFromConfig.
  apply safe_skube_bind; [apply building_reads|apply reads_GetClusterFlavor|..]; [|done].
  intros [flavor|e]; [|done].
  pose proof (withIvdConfig_spec flavor c) as Hivd. generalize dependent (withIvdConfig flavor c).
  intros c0 Hivd.
  eapply safe_seq; [apply ivdEntry_spec|..]; [|by intros w s [-> ?]|by intros w s [? []]].
  intros [c'|e] s [-> Hc']; [|done]. cbn in Hc'. intros []. cbn [building_protocol not_built bd_direct bind].
  eapply safe_seq; [apply remoteStorage_spec|..]; [|by intros w s [-> ?]|by intros w s [? []]].
  intros [s3|e] s [-> Hs3]; [|done]. cbn in Hs3.
  eapply safe_seq; [apply registerGuest_spec|..]; [|done..].
  intros [u|e] s Hs; [|done]. destruct Hs as (guests & Hg & ->). intros ivd.
  cbn [building_protocol manager_answer bd_direct bd_registered bd_ivd]. rewrite bool_decide_true by done.
  assert (Hend : ∀ disks, match ivd with
      | Some ivd => ∃ d, disks = [d] ∧ PETM_AsDataManager d = Some ivd | None => disks = [] end →
    manager_built c config (Returned (c', Ok {| bm_manager := {| sm_clusterFlavor := flavor |}; bm_config := config;
      bm_s3PETM := s3 |})) {| bd_direct := Some c'; bd_registered := guests ++ disks; bd_ivd := ivd |}).
  { intros disks Hd. cbn. split; [done|]. split; [auto|]. split; [exact Hs3|]. eauto 10. }
  destruct ivd as [ivd|].
  - intros []. apply Hend. eexists. split; [done|]. by rewrite PETM_of_DataManager_as.
  - specialize (Hend [] eq_refl). by rewrite app_nil_r in Hend.
Qed.
End snapshot_manager.
