(* ===== verification/IvdAstrolabe.v ===== *)
(** * The disks behind astrolabe

    The snapshot manager and the data mover reach virtual disks through astrolabe's
    interfaces, which are calls of [Env].  Here these calls are answered by pkg/ivd, through
    the data manager's wrappers where the snapshot manager has them, so that the two
    components run as one program over vCenter and the API servers. *)

From S2P Require Export Construction IvdProtocol.
Open Scope Z_scope.
Import Ivd.

(** The entities of pkg/ivd as values of astrolabe's interface: those the data manager's type
    manager wraps, and the others. *)
Class IvdEntities `{VDeps} := {
  PE_of_ivd : bool → IVDProtectedEntity → PE;
  ivd_of_PE : PE → option (bool * IVDProtectedEntity);
  ivd_of_PE_of_ivd b e : ivd_of_PE (PE_of_ivd b e) = Some (b, e);
  PE_GetID_of_ivd b e : PE_GetID (PE_of_ivd b e) = ie_id e;
  ivd_of_PE_ID pe b e : ivd_of_PE pe = Some (b, e) → PE_GetID pe = ie_id e;
  ivdS3Config : S3Config;
}.

Section astrolabe.
Context `{IvdEntities}.

Definition as_PE (wrapped : bool) (r : result IVDProtectedEntity) : result PE :=
  match r with Ok e => Ok (PE_of_ivd wrapped e) | Err e => Err e end.

(** DataManagerProtectedEntityTypeManager.GetProtectedEntity, on the manager of pkg/ivd. *)
Definition DataManager_GetProtectedEntity (id : PEID) (w : world) : vio (world * result PE) :=
  let! (w, r) := GetProtectedEntity ivdS3Config id w in
  match r with
  | Err e => Ret (w, Err (Wrap e ("GetProtectedEntity from base PETM failed for PEID " +:+ PEIDString id)))
  | Ok basePE => Ret (w, Ok (PE_of_ivd true basePE))
  end.

(** The data manager's type manager on that of pkg/ivd. *)
Definition wraps_ivd (m : PETM) : bool :=
  match PETM_AsDataManager m with Some base => PETM_IsIVD base | None => false end.

(** The calls that reach pkg/ivd, of the one type manager whose state is [world].  A snapshot
    leaves its parameters as they are; Overwrite of a wrapped entity asks for a Download, and
    stays a call. *)
Definition ivd_call {X} (e : Cmd X) : option (world → vio (world * X)) :=
  match e in Cmd X return option (world → vio (world * X)) with
  | PemGetProtectedEntity id =>
      if bool_decide (GetPeType id = "ivd") then Some (DataManager_GetProtectedEntity id) else None
  | PetmGetProtectedEntity m id =>
      if PETM_IsIVD m then
        Some (λ w, let! (w, r) := GetProtectedEntity ivdS3Config id w in Ret (w, as_PE false r))
      else if wraps_ivd m then Some (DataManager_GetProtectedEntity id)
      else None
  | PetmCopy m _ pe _ =>
      if PETM_IsIVD m then
        Some (λ w, let! (w, r) := Copy ivdS3Config pe w in Ret (w, as_PE false r))
      else None
  | PeOverwrite target source =>
      match ivd_of_PE target with
      | Some (false, this) => Some (Overwrite this (PE_GetID source) source)
      | _ => None
      end
  | PeSnapshot pe _ ps =>
      match ivd_of_PE pe with
      | Some (_, this) => Some (λ w, let! (w, r) := Snapshot this w in Ret (w, (ps, r)))
      | None => None
      end
  | PeListSnapshots pe =>
      match ivd_of_PE pe with Some (_, this) => Some (ListSnapshots this) | None => None end
  | PeDeleteSnapshot pe s _ =>
      match ivd_of_PE pe with Some (_, this) => Some (DeleteSnapshot this s) | None => None end
  | PeGetComponents pe =>
      match ivd_of_PE pe with Some _ => Some (λ w, Ret (w, GetComponents)) | None => None end
  | ReloadIvdConfig m ps => if PETM_IsIVD m then Some (ReloadConfig ps) else None
  | _ => None
  end.

(** A program of the snapshot manager or of the data mover, on pkg/ivd.  A panic in pkg/ivd ends
    the run at once: the deferred calls of the caller, which Go still makes before the process
    ends, are not part of it. *)
Fixpoint on_ivd {A} (p : io A) (w : world) : sio (world * A) :=
  match p with
  | Ret a => Ret (w, a)
  | Panic m => Panic m
  | Hang m => Hang m
  | Do e k =>
      match ivd_call e with
      | Some f => let! (w, x) := svim (f w) in on_ivd (k x) w
      | None => Do (SKube e) (λ x, on_ivd (k x) w)
      end
  end.

(** ** The program logic through the translation *)

Section logic.
Context {S : Type} (mon : monitor SCmd S).

Lemma safe_on_ivd_bind {A B} (p : io A) (f : A → io B) w Q s :
  safe mon (bind (on_ivd p w) (λ '(w, a), on_ivd (f a) w)) Q s → safe mon (on_ivd (bind p f) w) Q s.
Proof.
  revert w s. induction p as [a|m|m|X e k IH]; intros w s Hs; cbn in *; auto.
  destruct (ivd_call e) as [g|]; cbn in *.
  - apply safe_bind. apply (proj2 (safe_bind_bind _ _ _ _ _ _)) in Hs || apply safe_bind_bind in Hs.
    apply safe_bind_inv in Hs. eapply safe_mono; [exact Hs|].
    intros [[w' x]|m|m] s' Ho; cbn in *; auto.
  - intros x. specialize (Hs x). destruct (mon s X (SKube e) x); auto.
Qed.

Lemma safe_on_ivd_seq {A B} (p : io A) (f : A → io B) w R Q s :
  safe mon (on_ivd p w) R s →
  (∀ w' a s', R (Returned (w', a)) s' → safe mon (on_ivd (f a) w') Q s') →
  (∀ m s', R (Panicked m) s' → Q (Panicked m) s') →
  (∀ m s', R (Hung m) s' → Q (Hung m) s') →
  safe mon (on_ivd (bind p f) w) Q s.
Proof. intros Hp Hr Hpa Hh. apply safe_on_ivd_bind. eapply safe_seq; eauto. by intros [w' a] s' Hs; apply Hr. Qed.

(** Programs without calls to pkg/ivd, for a monitor that ignores the others. *)
Definition plain {X} (e : Cmd X) : bool := match ivd_call e with None => true | Some _ => false end.

Lemma safe_on_ivd_plain {A} (p : io A) w s :
  (∀ s X (e : Cmd X) x, mon s X (SKube e) x = Next s) → calls_only (@plain) p →
  safe mon (on_ivd p w) (λ o s', s' = s ∧ match o with Returned (w', _) => w' = w | Panicked _ => True | Hung _ => False end) s.
Proof.
  intros Hm. induction p as [a|m|m|X e k IH]; cbn; auto.
  intros [He Hk]. unfold plain in He. destruct (ivd_call e); [done|]. intros x. rewrite Hm. auto.
Qed.

(** The deferred calls of a program that does not panic in pkg/ivd. *)
Lemma safe_on_ivd_defer {A} (d : io unit) (p : io A) w Q s :
  safe mon (on_ivd p w) (λ o s', match o with
    | Returned (w', a) => safe mon (on_ivd (bind d (λ _, Ret a)) w') Q s'
    | Panicked m => Q (Panicked m) s' ∧ ∀ w', safe mon (on_ivd (bind d (λ _, Panic m)) w') Q s'
    | Hung m => Q (Hung m) s'
    end) s →
  safe mon (on_ivd (defer d p) w) Q s.
Proof.
  revert w s. induction p as [a|m|m|X e k IH]; intros w s Hs; cbn in *; auto.
  { by destruct Hs. }
  destruct (ivd_call e) as [g|]; cbn in *.
  - apply safe_bind. apply safe_bind_inv in Hs. eapply safe_mono; [exact Hs|].
    intros [[w' x]|m|m] s' Ho; cbn in *; auto. by destruct Ho.
  - intros x. specialize (Hs x). destruct (mon s X (SKube e) x); auto.
Qed.

(** A program without calls to pkg/ivd, for the rules that the monitor has for the calls of
    [Env]. *)
Definition kube_rules : monitor Cmd S := λ s X e x, mon s X (SKube e) x.

Lemma safe_on_ivd_kube {A} (p : io A) w Q s :
  calls_only (@plain) p → safe kube_rules p Q s →
  safe mon (on_ivd p w) (λ o s', match o with
    | Returned (w', a) => w' = w ∧ Q (Returned a) s'
    | Panicked m => Q (Panicked m) s'
    | Hung m => Q (Hung m) s'
    end) s.
Proof.
  revert s. induction p as [a|m|m|X e k IH]; intros s; cbn; auto.
  intros [He Hk] Hs. unfold plain in He. destruct (ivd_call e); [done|]. intros x.
  specialize (Hs x). change (kube_rules s X e x) with (mon s X (SKube e) x) in Hs.
  destruct (mon s X (SKube e) x); auto.
Qed.

(** Polling: an invariant of the manager, the captured variables and the monitor's state. *)
Lemma safe_on_ivd_poll {St R} (cond : St → io (St * poll_step R)) (I : world → St → S → Prop)
    (Q : outcome (world * (St * result R)) → S → Prop) interval timeout w st s :
  (∀ n, mon s _ (SKube (PollTicks interval timeout)) n = Next s) →
  I w st s →
  (∀ w st s, I w st s → safe mon (on_ivd (cond st) w) (λ o s', match o with
    | Returned (w', (st', PollDone x)) => Q (Returned (w', (st', Ok x))) s'
    | Returned (w', (st', PollFail e)) => Q (Returned (w', (st', Err e))) s'
    | Returned (w', (st', PollAgain)) => I w' st' s' ∧ Q (Returned (w', (st', Err ErrWaitTimeout))) s'
    | Panicked m => Q (Panicked m) s'
    | Hung m => Q (Hung m) s'
    end) s) →
  safe mon (on_ivd (PollImmediate interval timeout cond st) w) Q s.
Proof.
  intros Hm HI Hc n. rewrite Hm. clear Hm. revert w st s HI.
  induction n as [|n IH]; intros w st s HI; cbn [poll_loop];
    apply safe_on_ivd_bind, safe_bind; (eapply safe_mono; [by apply Hc|]);
    intros [[w' [st' [|x|e]]]|m|m] s' Ho; cbn in *; auto; destruct Ho; auto.
Qed.

(** A protocol for a program over astrolabe is one for it over pkg/ivd, when a relation between
    the two states is kept by the calls of [Env] and by what pkg/ivd does for the others. *)
Lemma safe_on_ivd_refines {T A} (spec : monitor Cmd T) (R : T → S → Prop) (p : io A) Q w t s :
  (∀ t s X (e : Cmd X) x, R t s → ivd_call e = None →
    match spec t X e x with
    | Next t' => match mon s X (SKube e) x with Next s' => R t' s' | Violation => False | Impossible => True end
    | Violation => True
    | Impossible => mon s X (SKube e) x = Impossible
    end) →
  (∀ t s w X (e : Cmd X) f, R t s → ivd_call e = Some f → (∀ x, spec t X e x ≠ Violation) →
    safe mon (svim (f w)) (λ o s', match o with
      | Returned (_, x) => ∃ t', spec t X e x = Next t' ∧ R t' s'
      | Panicked _ => True
      | Hung _ => False
      end) s) →
  R t s → safe spec p Q t →
  safe mon (on_ivd p w) (λ o s', match o with
    | Returned (_, a) => ∃ t', Q (Returned a) t' ∧ R t' s'
    | Panicked _ => True
    | Hung m => ∃ t', Q (Hung m) t'
    end) s.
Proof.
  intros Hkube Hivd. revert w t s. induction p as [a|m|m|X e k IH]; intros w t s HR Hp; cbn in *; eauto.
  destruct (ivd_call e) as [f|] eqn:Hf.
  - eapply safe_seq; [apply (Hivd t); [done..|]|..]; [| |done|done].
    { intros x Hx. specialize (Hp x). by rewrite Hx in Hp. }
    intros [w' x] s' (t' & Hx & HR'). specialize (Hp x). rewrite Hx in Hp. by eapply IH.
  - intros x. specialize (Hp x). specialize (Hkube t s X e x HR Hf).
    destruct (spec t X e x) as [t'| |]; [|done|by rewrite Hkube].
    destruct (mon s X (SKube e) x); [by eapply IH|done..].
Qed.

(** A program of pkg/ivd, when the monitor follows its calls as another does. *)
Lemma safe_svim {A} (C : ∀ X, VCmd X → bool) (mv : monitor VCmd S) (p : vio A) Q s :
  (∀ s X (e : VCmd X) x, C X e = true → mon s X (SVim e) x = mv s X e x) →
  calls_only C p → safe mv p Q s → safe mon (svim p) Q s.
Proof.
  intros Hm. revert s. induction p as [a|m|m|X e k IH]; cbn; auto.
  intros s [HC Hk] Hs x. specialize (Hs x). rewrite Hm by done. destruct (mv s X e x); auto.
Qed.

(** In a state that the calls of a class do not change. *)
Lemma safe_svim_stay {A} (C : ∀ X, VCmd X → bool) (p : vio A) (Q : outcome A → Prop) s :
  (∀ X (e : VCmd X) x, C X e = true → mon s X (SVim e) x = Next s) →
  calls_only C p → safe (λ s _ _ _, Next s) p (λ o _, Q o) tt →
  safe mon (svim p) (λ o s', s' = s ∧ Q o) s.
Proof.
  intros Hm. induction p as [a|m|m|X e k IH]; cbn; auto.
  intros [HC Hk] Hs x. rewrite Hm by done. auto.
Qed.

Lemma safe_svim_bind {A B} (p : vio A) (f : A → vio B) Q s :
  safe mon (bind (svim p) (λ a, svim (f a))) Q s → safe mon (svim (bind p f)) Q s.
Proof.
  revert s. induction p as [a|m|m|X e k IH]; intros s Hs; cbn in *; auto.
  intros x. specialize (Hs x). destruct (mon s X (SVim e) x); auto.
Qed.
End logic.
End astrolabe.
