(* ===== verification/IvdComposition.v ===== *)
(** * Snapshots through astrolabe

    The snapshot manager on pkg/ivd: how many snapshots of vCenter one call takes or
    deletes, whatever is tried again at either level. *)

From S2P Require Export IvdAstrolabe.
Open Scope Z_scope.
Import Ivd.

Section composition.
Context `{IvdEntities}.

(** ** The calls of a try *)

(** Everything but the ticker of a wait and listings. *)
Definition no_ticks {X} (e : VCmd X) : bool :=
  match e with VPollTicks _ _ | VslmRetrieveSnapshotInfo _ _ => false | _ => true end.

Abbreviation within_try := (calls_only (@no_ticks)).

Lemma within_quiet {A} (p : vio A) : calls_only (@housekeeping _) p → within_try p.
Proof. apply calls_only_mono. by intros X []. Qed.

Lemma only_vslm (C : ∀ X, VCmd X → bool) {A} w (method : vslmClient → VCmd (result A)) :
  (∀ X (e : VCmd X), housekeeping e = true → C X e = true) → (∀ c, C _ (method c) = true) →
  calls_only C (vslm w (λ m h, withVslm m h method)).
Proof.
  intros HC Hm. unfold vslm. destruct (tm_vslmManager (w_tm w)); [|exact I].
  apply calls_only_bind; [|by intros []]. unfold withVslm. apply only_invoke; [|done].
  intros p h. eapply calls_only_mono; [exact HC|apply quiet_Connect].
Qed.

Lemma within_vslm {A} w (method : vslmClient → VCmd (result A)) :
  (∀ c, no_ticks (method c) = true) → within_try (vslm w (λ m h, withVslm m h method)).
Proof. apply only_vslm. by intros X []. Qed.

Lemma within_check {A} w (f : world * option error → vio A) :
  (∀ r, within_try (f r)) → within_try (bind (CheckVcenterConnections w) f).
Proof. intros Hf. apply calls_only_bind; [apply within_quiet, quiet_CheckVcenterConnections|done]. Qed.

Lemma within_poll {St R} (cond : St → vio (St * poll_step R)) n st :
  (∀ st, within_try (cond st)) → within_try (poll_loop n cond st).
Proof. apply calls_only_poll. Qed.

Lemma within_trySnapshot this st : within_try (trySnapshot this st).
Proof.
  destruct st as [w n]. apply within_check. intros [w' [e|]]; [done|].
  apply calls_only_bind; [by apply within_vslm|]. intros [w2 [t|e]]; [|done].
  split; [done|]. intros [[i|v|]|e]; cbn; try done.
  apply calls_only_bind; [by apply within_vslm|]. by intros [w3 r].
Qed.

Lemma within_tryDeleteSnapshot this snap w : within_try (tryDeleteSnapshot this snap w).
Proof.
  apply within_check. intros [w' [e|]]; [done|].
  apply calls_only_bind; [by apply within_vslm|]. intros [w2 [t|e]]; [|done]. by split.
Qed.

(** ** What does not reach a disk *)

(** Calls of [Env] during which no snapshot is taken, listed or deleted. *)
Definition setup {X} (e : Cmd X) : bool :=
  match e with
  | PemGetProtectedEntity _ | PetmGetProtectedEntity _ _ | PeGetComponents _ => true
  | e => plain e
  end.

Lemma quiet_GetProtectedEntity id w : calls_only (@housekeeping _) (GetProtectedEntity ivdS3Config id w).
Proof.
  unfold GetProtectedEntity. apply calls_only_bind; [apply quiet_CheckVcenterConnections|].
  intros [w' [e|]]; [done|]. unfold newIVDProtectedEntity, withConfig. by destruct (tm_vcenterConfig _).
Qed.

Lemma quiet_setup {X} (e : Cmd X) f w :
  setup e = true → ivd_call e = Some f → calls_only (@housekeeping _) (f w).
Proof.
  destruct e; cbn; unfold plain; cbn; intros Hs Hf; try congruence.
  all: repeat case_match; simplify_eq; try done.
  - apply calls_only_bind; [apply quiet_GetProtectedEntity|]. by intros [w' [e|e]].
  - apply calls_only_bind; [apply quiet_GetProtectedEntity|]. by intros [w' r].
  - apply calls_only_bind; [apply quiet_GetProtectedEntity|]. by intros [w' [e|e]].
Qed.

(** A monitor that ignores the calls of [Env] and housekeeping where it is, is there after a
    program of set-up calls. *)
Lemma safe_setup {S A} (mon : monitor SCmd S) (p : io A) w s :
  (∀ X (e : Cmd X) x, mon s X (SKube e) x = Next s) →
  (∀ X (e : VCmd X) x, housekeeping e = true → mon s X (SVim e) x = Next s) →
  calls_only (@setup) p →
  safe mon (on_ivd p w) (λ o s', s' = s ∧ match o with Hung _ => False | _ => True end) s.
Proof.
  intros Hk Hv. revert w. induction p as [a|m|m|X e k IH]; intros w; cbn; auto.
  intros [He Hp]. destruct (ivd_call e) as [f|] eqn:Hf.
  - eapply (safe_seq _ _ _ _ (λ o s', s' = s ∧ match o with Hung _ => False | _ => True end)).
    + eapply (safe_svim_stay _ (@housekeeping _)); [by intros; apply Hv|by eapply quiet_setup|].
      eapply safe_mono; [apply (safe_calls_only (@housekeeping _)); [done|by eapply quiet_setup]|].
      by intros [] s' Hs.
    + intros [w' x] s' [-> _]. by apply IH.
    + by intros m s' [-> _].
    + by intros m s' [_ []].
  - intros x. rewrite Hk. by apply IH.
Qed.

(** ** Taking a snapshot *)

(** The error on which the snapshot manager asks for another snapshot. *)
Definition asks_again (e : error) : bool := Contains (Error e) InvalidStateMessage.

Definition entity_of (peID : PEID) : IVDProtectedEntity := {| ie_id := peID; ie_data := [] |}.

(** The contract of one Snapshot of the entity, of which another may begin when the one before left no
    snapshot, or when the wait for its task failed with an error that says that the
    operation is not allowed in the state the disk is in. *)
Definition taking_again (peID : PEID) : monitor VCmd taking := λ s X e,
  match e in VCmd X return X → verdict taking with
  | VPollTicks _ _ => λ _,
      match none_left s, s with
      | Some _, _ => Next (Idle 0)
      | None, Failed e n => if asks_again (snapshotWaitError (entity_of peID) e n) then Next (Idle 0) else Violation
      | None, _ => Violation
      end
  | e => taking_monitor (NewVimIDFromPEID peID) s _ e
  end.

#[local] Arguments taking_again : simpl never.

(** The calls of an entity's manager; all of [Env] are allowed. *)
Definition on_disk {S} (mv : monitor VCmd S) : monitor SCmd S := λ s X e,
  match e in SCmd X return X → verdict S with
  | SKube _ => λ _, Next s
  | SVim e => mv s _ e
  | _ => λ _, Violation
  end.

(** What a failed Snapshot leaves, with its error. *)
Definition not_taken (this : IVDProtectedEntity) (e : error) (s : taking) : Prop :=
  taking_still s ∧ (is_Some (none_left s) ∨ ∃ e' n, s = Failed e' n ∧ e = snapshotWaitError this e' n).

Lemma safe_Snapshot_again this w s :
  taking_again (ie_id this) s _ (VPollTicks Second Hour) 0%nat = Next (Idle 0) →
  safe (on_disk (taking_again (ie_id this))) (svim (Snapshot this w)) (λ o s', match o with
    | Returned (_, Ok sid) => has_snapshot sid s'
    | Returned (_, Err e) => not_taken this e s'
    | Panicked _ => True
    | Hung _ => False
    end) s.
Proof.
  intros Hs n. pose proof (Snapshot_protocol this w (Idle 0) I eq_refl n) as Hp. cbn in Hp.
  replace (on_disk (taking_again (ie_id this)) s _ (SVim (VPollTicks Second Hour)) n) with (Next (Idle 0)) by done.
  apply (safe_svim _ (@no_ticks) (taking_monitor (vimId this))); [by intros ? ? []| |exact Hp].
  apply calls_only_bind; [apply within_poll, within_trySnapshot|]. by intros [[w' m] r].
Qed.

Lemma not_taken_again this e s :
  not_taken this e s → asks_again e = true →
  taking_again (ie_id this) s _ (VPollTicks Second Hour) 0%nat = Next (Idle 0).
Proof.
  intros [_ [[n Hn]|(e' & n & -> & ->)]] He; unfold taking_again; cbn [none_left]; [by rewrite Hn|]. change (snapshotWaitError (entity_of (ie_id this)) e' n) with (snapshotWaitError this e' n). by rewrite He.
Qed.

Lemma safe_snapshotWithRetry this b typ ps w :
  safe (on_disk (taking_again (ie_id this))) (on_ivd (snapshotWithRetry (PE_of_ivd b this) typ ps) w) (λ o s', match o with
    | Returned (_, (_, Ok sid)) => has_snapshot sid s'
    | Returned (_, (_, Err _)) => no_snapshot s'
    | Panicked _ => True
    | Hung _ => False
    end) (Idle 0).
Proof.
  unfold snapshotWithRetry. apply (safe_on_ivd_poll _ _ (λ _ _ s,
    taking_again (ie_id this) s _ (VPollTicks Second Hour) 0%nat = Next (Idle 0) ∧ no_snapshot s)).
  { done. }
  { split; [done|]. split; [done|]. left. by exists 0. }
  intros w' ps' s [Hs _]. cbn [on_ivd call bind ivd_call]. rewrite ivd_of_PE_of_ivd.
  apply safe_bind. apply safe_svim_bind. eapply safe_seq; [by apply safe_Snapshot_again|..]; [|done..].
  intros [w2 [sid|e]] s' Ho; cbn in *; [done|].
  assert (Hno : no_snapshot s') by (destruct Ho as [? [?|(e' & n & -> & _)]]; split; eauto).
  destruct (Contains _ _) eqn:Hc; cbn; [|done]. split_and!; [by eapply not_taken_again|done..].
Qed.

Lemma setup_UploadSnapshot pe br ref : calls_only (@setup) (UploadSnapshot pe br ref).
Proof. unfold UploadSnapshot, CreatePluginClientSet, GetKubeClientConfig. calls_all. Qed.

Lemma setup_inferLocalMode c br : calls_only (@setup) (inferLocalMode c br).
Proof. unfold inferLocalMode, IsFeatureEnabled, veleroNamespaceOrDefault, GetVeleroNamespace. calls_all. Qed.

(** A monitor of one disk during the set-up. *)
Lemma on_disk_housekeeping {S} (mv : monitor VCmd S) :
  (∀ s X (e : VCmd X) x, housekeeping e = true → mv s X e x = Next s) →
  ∀ s X (e : VCmd X) x, housekeeping e = true → on_disk mv s X (SVim e) x = Next s.
Proof. done. Qed.

Lemma taking_again_quiet peID s X (e : VCmd X) x :
  taking_still s → housekeeping e = true → taking_again peID s X e x = Next s.
Proof. intros Hs He. rewrite <-(taking_quiet (NewVimIDFromPEID peID) s X e x Hs He). by destruct e. Qed.

(** What was got for an ID is the wrapped disk of that ID. *)
Definition got (id : PEID) {A} (o : outcome (A * result PE)) : Prop :=
  match o with
  | Returned (_, Ok pe) => ∃ this, pe = PE_of_ivd true this ∧ ie_id this = id
  | Hung _ => False
  | _ => True
  end.

Lemma safe_get_ivd {S} id w (s : S) :
  safe (λ s _ _ _, Next s) (GetProtectedEntity ivdS3Config id w) (λ o s', s' = s ∧ match o with
    | Returned (_, Ok this) => ie_id this = id | Hung _ => False | _ => True end) s.
Proof.
  unfold GetProtectedEntity. apply safe_check; [done|done|]. intros w' [e|]; [done|].
  unfold newIVDProtectedEntity, withConfig. destruct (tm_vcenterConfig _); [|done]. cbn.
  by destruct (getDataTransports _ _).
Qed.

Lemma safe_get {S} (mv : monitor VCmd S) id w s :
  (∀ X (e : VCmd X) x, housekeeping e = true → mv s X e x = Next s) →
  safe (on_disk mv) (svim (DataManager_GetProtectedEntity id w)) (λ o s', s' = s ∧ got id o) s.
Proof.
  intros Hmv. apply (safe_svim_stay _ (@housekeeping _)).
  { intros X e x He. by apply Hmv. }
  { apply calls_only_bind; [apply quiet_GetProtectedEntity|]. by intros [w' [e|e]]. }
  eapply safe_seq; [apply safe_get_ivd|..].
  - intros [w' [this|e]] s' [-> Hid]; cbn; [|done]. by exists this.
  - by intros m s' [-> _].
  - by intros m s' [_ []].
Qed.

(** C10. The snapshot manager on pkg/ivd, creating a snapshot of a disk, whatever is tried again by
    the manager and by the entity: tasks are created one at a time, and another one only when the
    wait for the last failed with a fault that may pass or with an error that says that the
    operation is not allowed in the state the disk is in, or when vCenter denies that there is the snapshot
    that the last had made.  The ID answered is that of the snapshot that the last task made, which
    vCenter does not deny, also when the upload could not be requested; without an ID there
    is an error, and no such snapshot. *)
Theorem createSnapshot_on_ivd this peID br ref backup w :
  GetPeType peID = "ivd" →
  safe (on_disk (taking_again peID)) (on_ivd (createSnapshot this peID br ref backup) w)
    (λ o s, match o with
    | Returned (_, (id, _, err)) =>
        (∃ sid, has_snapshot sid s ∧ id = IDWithSnapshot peID sid) ∨
        (no_snapshot s ∧ id = PEID_zero ∧ err ≠ None)
    | Panicked _ => True
    | Hung _ => False
    end) (Idle 0).
Proof.
  intros Ht. set (mv := taking_again peID).
  assert (Hq : ∀ s, taking_still s → ∀ X (e : VCmd X) x, housekeeping e = true → mv s X e x = Next s).
  { intros s Hs X e x. by apply taking_again_quiet. }
  assert (Hfail : ∀ (e : error), (∃ sid, has_snapshot sid (Idle 0) ∧ PEID_zero = IDWithSnapshot peID sid) ∨
    (no_snapshot (Idle 0) ∧ PEID_zero = PEID_zero ∧ Some e ≠ None)).
  { intros e. right. split; [split; [done|left; by exists 0]|done]. }
  assert (Hsetup : ∀ A (p : io A) w s, taking_still s → calls_only (@setup) p →
    safe (on_disk mv) (on_ivd p w) (λ o s', s' = s ∧ match o with Hung _ => False | _ => True end) s).
  { intros A p w' s Hs Hp. apply safe_setup; [done|by apply Hq|done]. }
  unfold createSnapshot. apply (safe_on_ivd_seq _ _ _ _ (λ o s, s = Idle 0 ∧ got peID o)).
  { cbn [call on_ivd ivd_call]. rewrite bool_decide_true by done.
    eapply safe_seq; [by apply safe_get, Hq|..]; [|done..]. intros [w1 r] s Hg. exact Hg. }
  2,3: by intros m s [-> ?].
  intros w1 [pe|e] s [-> Hg]; [|apply Hfail]. destruct Hg as (d & -> & Hd).
  eapply safe_on_ivd_seq; [apply Hsetup; [done|unfold CreateKubeClientSet, GetKubeClientConfig; calls_all]|..].
  2,3: by intros m s [-> ?].
  intros w2 [kubeClient|e] s [-> _]; [|apply Hfail].
  eapply safe_on_ivd_seq; [unfold mv; rewrite <- Hd; apply safe_snapshotWithRetry|..]; [|done..].
  intros w3 [ps [sid|e]] s Hs; [|by right]. assert (Hst : taking_still s) by apply Hs.
  case_bool_decide; [left; by exists sid|].
  eapply safe_on_ivd_seq; [apply Hsetup, setup_inferLocalMode; done|..]; [|by intros m s' [-> ?]..].
  intros w4 [] s' [-> _]; [left; by exists sid|].
  eapply safe_on_ivd_seq; [apply Hsetup; [done|by split]|..]; [|by intros m s' [-> ?]..].
  intros w5 [pe|e] s' [-> _]; [|left; by exists sid].
  eapply safe_on_ivd_seq; [apply Hsetup, setup_UploadSnapshot; done|..]; [|by intros m s' [-> ?]..].
  intros w6 [u|e] s' [-> _]; left; by exists sid.
Qed.

(** ** Deleting a snapshot *)

(** The contract of one DeleteSnapshot, of which another may begin when the one before failed;
    a listing without snapshots says that it is gone. *)
Definition deleting_again (id snap : vimID) : monitor VCmd deleting := λ s X e,
  let again (s' : deleting) : verdict deleting :=
    match s with Deleting _ => Violation | s => if is_gone s then Violation else Next s' end in
  match e in VCmd X return X → verdict deleting with
  | VPollTicks _ _ => λ _, again Undeleted
  | VslmRetrieveSnapshotInfo _ id' => λ r,
      if bool_decide (id' = id) then again (match r with Ok [] => Gone | _ => Undeleted end) else Violation
  | e => deleting_monitor id snap s _ e
  end.

Lemma deleting_again_quiet id snap s X (e : VCmd X) x :
  deleting_still s → housekeeping e = true → deleting_again id snap s X e x = Next s.
Proof. intros Hs He. rewrite <-(deleting_quiet id snap s X e x Hs He). by destruct e. Qed.

Lemma not_deleted_start : not_deleted Undeleted.
Proof. done. Qed.
Hint Resolve not_deleted_start : core.

(** Another deletion, or a listing, may begin. *)
Lemma not_deleted_again s (v : verdict deleting) :
  not_deleted s →
  match s with Deleting _ => Violation | s => if is_gone s then Violation else v end = v.
Proof. intros (_ & Hg & Hd). destruct s; rewrite ?Hg; try done. by destruct (Hd t). Qed.

Lemma safe_DeleteSnapshot_again this snap w s :
  not_deleted s →
  safe (on_disk (deleting_again (vimId this) (NewVimSnapshotIDFromPESnapshotID snap))) (svim (DeleteSnapshot this snap w))
    (λ o s', match o with
      | Returned (_, Ok b) => is_gone s' = true
      | Returned (_, Err _) => not_deleted s'
      | Panicked _ => True
      | Hung _ => False
      end) s.
Proof.
  intros Hs n. pose proof (DeleteSnapshot_protocol this snap w n) as Hp. cbn in Hp.
  replace (on_disk _ s _ (SVim (VPollTicks Second Hour)) n) with (Next Undeleted)
    by (symmetry; by apply not_deleted_again).
  eapply safe_mono; [apply (safe_svim _ (@no_ticks) (deleting_monitor (vimId this) (NewVimSnapshotIDFromPESnapshotID snap)));
    [by intros ? ? []| |exact Hp]|].
  - apply calls_only_bind; [apply within_poll, within_tryDeleteSnapshot|]. by intros [w' r].
  - intros [[w' [b|e]]|m|m] s' Ho; cbn in *; auto. by destruct Ho as [_ Ho].
Qed.

Lemma safe_ListSnapshots this snap w s :
  not_deleted s →
  safe (on_disk (deleting_again (vimId this) snap)) (svim (ListSnapshots this w)) (λ o s', match o with
    | Returned (_, Ok ids) => s' = if bool_decide (length ids = 0%nat) then Gone else Undeleted
    | Returned (_, Err _) => not_deleted s'
    | Panicked _ => True
    | Hung _ => False
    end) s.
Proof.
  intros Hnot. apply (safe_svim _ (λ _ _, true) (deleting_again (vimId this) snap)); [done| |].
  { apply calls_only_bind; [by eapply calls_only_mono; [|apply quiet_CheckVcenterConnections]|].
    intros [w' [e|]]; [done|]. apply calls_only_bind; [by apply only_vslm|]. by intros [w2 [ids|e]]. }
  apply safe_check; [intros; apply deleting_again_quiet; [apply Hnot|done]|done|].
  intros w' [e|]; [done|]. apply safe_bind.
  apply (safe_vslm _ _ not_deleted); [intros s' X e x Hs He; apply deleting_again_quiet; [apply Hs|done]|done|by intros s' e Hs h|].
  intros s' Hs c r. assert (Hs' : not_deleted s') by (by destruct Hs as [-> |]).
  cbn. rewrite bool_decide_true, not_deleted_again by done.
  by destruct r as [[|i ids]|e].
Qed.

(** C11. The snapshot manager on pkg/ivd: the local snapshot that is cleaned up after an
    upload is deleted by one task at a time, whatever is tried again by the manager and by the
    entity, and no deletion is begun once one was done; success means that the ID names no
    snapshot, that vCenter lists none for the disk, that a task deleted it or vCenter says that
    there is nothing to delete, or that the new connection after a first refusal for the
    credentials failed with NotFound; after an error none of these is the case. *)
Theorem deleteSnapshotFromRepo_on_ivd peID petm base w :
  GetPeType peID = "ivd" → PETM_AsDataManager petm = Some base → PETM_IsIVD base = true → PETM_IsIVD petm = false →
  safe (on_disk (deleting_again (GetID peID) (SnapIDGetID (GetSnapshotID peID))))
    (on_ivd (deleteSnapshotFromRepo peID (Some petm)) w)
    (λ o s, match o with
    | Returned (_, None) => HasSnapshot peID = false ∨ is_gone s = true
    | Returned (_, Some _) => not_deleted s
    | Panicked _ => True
    | Hung _ => False
    end) Undeleted.
Proof.
  intros Ht Hw Hb Hn. set (mv := deleting_again _ _).
  unfold deleteSnapshotFromRepo. destruct (HasSnapshot peID); cbn [negb]; [|by left].
  apply (safe_on_ivd_seq _ _ _ _ (λ o s, s = Undeleted ∧ got peID o)).
  { cbn [call on_ivd ivd_call]. unfold wraps_ivd. rewrite Hn, Hw, Hb.
    eapply safe_seq; [apply safe_get; intros; by apply deleting_again_quiet|..]; [|done..]. intros [w1 r] s Hg. exact Hg. }
  2,3: by intros m s [-> ?].
  intros w1 [pe|e] s [-> Hg]; [|done]. destruct Hg as (d & -> & Hd).
  assert (Hid : vimId d = GetID peID) by (unfold vimId, NewVimIDFromPEID; by rewrite Hd, bool_decide_true).
  apply (safe_on_ivd_seq _ _ _ _ (λ o s, match o with
    | Returned (_, Ok ids) => s = if bool_decide (length ids = 0%nat) then Gone else Undeleted
    | Returned (_, Err _) => not_deleted s
    | Hung _ => False | Panicked _ => True end)).
  { cbn [call on_ivd ivd_call]. rewrite ivd_of_PE_of_ivd. unfold mv. rewrite <- Hid.
    eapply safe_seq; [by apply safe_ListSnapshots|..]; [|done..]. by intros [w2 [ids|e]] s Hs. }
  2,3: done.
  intros w2 [ids|e] s Hs; [|exact Hs]. case_bool_decide; subst s; [by right|].
  eapply safe_on_ivd_seq.
  { apply (safe_on_ivd_poll _ _ (λ _ _, not_deleted) (λ o s, match o with
      | Returned (_, (_, Ok _)) => is_gone s = true
      | Returned (_, (_, Err _)) => not_deleted s
      | Panicked _ => True | Hung _ => False end)); [done|done|].
    intros w3 [] s Hs. apply (safe_on_ivd_seq _ _ _ _ (λ o s, match o with
      | Returned (_, Ok b) => is_gone s = true
      | Returned (_, Err _) => not_deleted s
      | Panicked _ => True | Hung _ => False end)); [|..|done|done].
    - cbn [call on_ivd ivd_call]. rewrite ivd_of_PE_of_ivd. unfold mv. rewrite <- Hid.
      eapply safe_seq; [by apply safe_DeleteSnapshot_again|..]; [|done..]. intros [w4 r] s' Hr. exact Hr.
    - intros w4 [b|e] s' Hr; cbn; [done|]. by destruct (Contains _ _). }
  - intros w3 [[] [r|e]] s' Hr; cbn; auto.
  - done.
  - done.
Qed.
End composition.
