(* ===== verification/UploadOnDisks.v ===== *)
(** * Uploads of the disks of vCenter

    The upload controller, the data mover and the snapshot manager on pkg/ivd: what an
    upload asks of vCenter, and what its record then says.  The proof is a refinement: the
    protocol of [UploadProtocol] is one for the program on pkg/ivd, when an entity's
    snapshot counts as gone once vCenter said so. *)

From S2P Require Export IvdComposition UploadProtocol.
Open Scope Z_scope.
Import Ivd.

Section uploads.
Context `{IvdEntities}.

(** ** The protocol *)

(** What is known of the run, and of the snapshot at vCenter. *)
Record disk_upload := { du_run : upload_run; du_disk : deleting }.

Definition disk_upload_start : disk_upload := {| du_run := upload_start; du_disk := Undeleted |}.

(** The entity that the record names. *)
Definition named_entity (r : upload_run) : option PEID :=
  match ur_record r with
  | Some u => match NewProtectedEntityIDFromString (us_SnapshotID (u_Spec u)) with Ok id => Some id | Err _ => None end
  | None => None
  end.

(** The run as the protocol of uploads sees it: the entity is the one named, and the snapshot
    is gone or not. *)
Definition view (gone : bool) (r : upload_run) : upload_run :=
  {| ur_record := ur_record r; ur_first := ur_first r; ur_started := ur_started r; ur_entity := named_entity r;
     ur_copied := ur_copied r; ur_cleaned := gone; ur_last := ur_last r; ur_was_clean := ur_was_clean r |}.

(** A snapshot that another type manager than that of pkg/ivd deleted is gone as well. *)
Definition step_view (s : disk_upload) (gone : bool) {X} (e : Cmd X) (x : X) : verdict disk_upload :=
  match upload_protocol (view gone (du_run s)) X e x with
  | Next r => Next {| du_run := r; du_disk := if ur_cleaned r && negb gone then Gone else du_disk s |}
  | Violation => Violation
  | Impossible => Impossible
  end.

Definition upload_step (s : disk_upload) {X} (e : Cmd X) (x : X) : verdict disk_upload :=
  step_view s (is_gone (du_disk s)) e x.

(** astrolabe's promise that the entity of an ID has that ID. *)
Definition keeps_id {X} (e : Cmd X) : X → bool :=
  match e in Cmd X return X → bool with
  | PetmGetProtectedEntity _ id => λ r,
      match r with Ok pe => bool_decide (PE_GetID pe = id) | Err _ => true end
  | _ => λ _, true
  end.

(** The calls that do not reach pkg/ivd obey the protocol of uploads, and pkg/ivd is asked for
    something only while the record is worked on: to find, list or delete the snapshot named. *)
Definition upload_on_disks : monitor SCmd disk_upload := λ s X e,
  match e in SCmd X return X → verdict disk_upload with
  | SKube e => λ x, if keeps_id e x then upload_step s e x else Impossible
  | SVim e => λ x,
      match working (du_run s), named_entity (du_run s) with
      | true, Some id =>
          match deleting_again (NewVimIDFromPEID id) (SnapIDGetID (GetSnapshotID id)) (du_disk s) _ e x with
          | Next d => Next {| du_run := du_run s; du_disk := d |}
          | Violation => Violation
          | Impossible => Impossible
          end
      | _, _ => Violation
      end
  | _ => λ _, Violation
  end.

(** How an upload may end. *)
Definition disk_upload_ended (o : outcome (world * option error)) (s : disk_upload) : Prop :=
  match o with
  | Returned (_, None) => upload_settled (view (is_gone (du_disk s)) (du_run s))
  | Returned (_, Some _) | Panicked _ => True
  | Hung _ => False
  end.

(** ** The refinement *)

(** A run of the two protocols. *)
Record similar (a r : upload_run) : Prop := {
  sim_record : ur_record a = ur_record r;
  sim_first : ur_first a = ur_first r;
  sim_started : ur_started a = ur_started r;
  sim_copied : ur_copied a = ur_copied r;
  sim_last : ur_last a = ur_last r;
  sim_was : ur_was_clean a = true → ur_was_clean r = true;
  sim_entity : ∀ id, ur_entity a = Some id → named_entity a = Some id;
}.

Definition refines (a : upload_run) (s : disk_upload) : Prop :=
  similar a (du_run s) ∧
  if ur_cleaned a then is_gone (du_disk s) = true else not_deleted (du_disk s).

Lemma names_named r id : names r id = true ↔ named_entity r = Some id.
Proof.
  unfold names, named_entity. destruct (ur_record r) as [u|]; [|done].
  destruct (NewProtectedEntityIDFromString _); [|done]. rewrite bool_decide_eq_true. split; congruence.
Qed.

Lemma of_entity_named a r pe : similar a r → of_entity a pe = true → named_entity r = Some (PE_GetID pe).
Proof.
  intros Hs He%bool_decide_eq_true. apply (sim_entity _ _ Hs) in He. unfold named_entity in *.
  by rewrite (sim_record _ _ Hs) in He.
Qed.
(** The clean-up flags after a call, whether it was told to the protocol or not. *)
Definition same_cleanup (gone : bool) (a a' r' : upload_run) : Prop :=
  (ur_cleaned a' = ur_cleaned a ∧ ur_cleaned r' = gone) ∨
  (ur_cleaned a' = true ∧ ur_cleaned r' = true ∧ gone = false).

Lemma similar_view gone a r : similar a r → similar a (view gone r).
Proof. by intros []; split. Qed.

(** What the rules read of the run. *)
Lemma view_reads gone a r : similar a r →
  working (view gone r) = working a ∧ cleaning (view gone r) = cleaning a ∧ ur_started r = ur_started a ∧
  ur_copied r = ur_copied a ∧ ur_first r = ur_first a ∧
  (∀ id, names (view gone r) id = names a id) ∧ (∀ snap, names_snapshot (view gone r) snap = names_snapshot a snap).
Proof.
  intros [E1 E2 E3 E4 E5 _ _]. unfold working, cleaning, names, names_snapshot. cbn.
  by rewrite E1, E2, E3, E4.
Qed.

Lemma view_entity gone a r pe : similar a r → of_entity a pe = true → of_entity (view gone r) pe = true.
Proof. intros Hs Hp. apply bool_decide_true. exact (of_entity_named a r pe Hs Hp). Qed.

Lemma clean_view gone a r :
  similar a r → (ur_cleaned a = true → gone = true) → clean a = true → clean (view gone r) = true.
Proof.
  intros [E1 _ _ _ _ _ _] Hg. unfold clean. cbn. rewrite E1. rewrite !orb_true_iff. intros [Hc|Hc]; [left|right]; auto.
Qed.

(** A rule that both follow. *)
Lemma check_view gone a b b' (a1 r1 a' : upload_run) :
  check_ b a1 = Next a' → (b = true → gone = ur_cleaned a → b' = true) →
  (b = true → b' = true → similar a1 r1 ∧ same_cleanup gone a a1 r1) →
  match check_ b' r1 with
  | Next r' => similar a' r' ∧ same_cleanup gone a a' r'
  | Violation => gone ≠ ur_cleaned a
  | Impossible => False
  end.
Proof.
  destruct b; [|done]. intros [= <-] Hb Hs. destruct b'; cbn; [by apply Hs|].
  intros Hg. by specialize (Hb eq_refl Hg).
Qed.

Lemma may_write_view gone a r p :
  similar a r → gone = ur_cleaned a → may_write a p = true → may_write (view gone r) p = true.
Proof.
  intros Hs Hg. destruct (view_reads gone a r Hs) as (_ & Hcl & _ & Hcp & _).
  assert (Hc : clean a = true → clean (view gone r) = true) by (apply clean_view; [done|congruence]).
  destruct p; cbn; try done; rewrite ?Hcl, ?Hcp, ?Hg; try done; rewrite !andb_true_iff; naive_solver.
Qed.

Lemma similar_patch gone a r p u :
  similar a r → (ur_cleaned a = true → gone = true) → similar (on_patch p u a) (on_patch p u (view gone r)).
Proof.
  intros Hs Hg. pose proof (clean_view gone a r Hs Hg) as Hc. destruct Hs as [E1 E2 E3 E4 E5 Hw He].
  split; cbn; try congruence; [by rewrite E1|].
  rewrite !orb_true_iff. intros [Ha|Ha]; auto.
Qed.

(** The protocol rules no answer out. *)
Lemma upload_protocol_possible a X (e : Cmd X) x : upload_protocol a X e x ≠ Impossible.
Proof.
  unfold upload_protocol, check_. destruct e; try done; try (destruct k); repeat case_match; done.
Qed.

(** What the protocol allows to the run, it allows to its view. *)
Lemma upload_protocol_view a r gone X (e : Cmd X) x a' :
  similar a r → (ur_cleaned a = true → gone = true) → keeps_id e x = true →
  upload_protocol a X e x = Next a' →
  match upload_protocol (view gone r) X e x with
  | Next r' => similar a' r' ∧ same_cleanup gone a a' r'
  | Violation => gone ≠ ur_cleaned a
  | Impossible => False
  end.
Proof.
  intros Hs Hg Hid. pose proof (similar_view gone a r Hs) as Hv.
  assert (Hkeep : similar a (view gone r) ∧ same_cleanup gone a a (view gone r)) by (split; [done|by left]).
  assert (Hgone : gone = false → similar (on_cleaned a) (on_cleaned (view gone r)) ∧
    same_cleanup gone a (on_cleaned a) (on_cleaned (view gone r))).
  { intros Hgone. destruct Hv. split; [by split|by right]. }
  destruct (view_reads gone a r Hs) as (Hw & Hcl & Hst & Hcp & Hf & Hn & Hsn).
  destruct e; cbn in *; rewrite ?Hw, ?Hcl, ?Hst, ?Hcp, ?Hf, ?Hn, ?Hsn.
  all: try done.
  all: try (intros [= <-]; exact Hkeep).
  all: try (intros Hc; eapply check_view; [exact Hc|by intros|by intros]).
  - (* GetObj *)
    destruct k; cbn; try (intros [= <-]; exact Hkeep).
    destruct (ur_first a); [done|]. destruct x as [u|e]; intros [= <-]; [|exact Hkeep].
    destruct Hs. split; [|by left]. by split.
  - (* PatchObj *)
    destruct k; try done. intros Hc. eapply check_view; [exact Hc|..].
    + intros [[-> Hm]%andb_true_iff ->]%andb_true_iff Hg'. by rewrite (may_write_view gone a r).
    + intros _ _. split; [by apply similar_patch|by left].
  - (* PetmGetProtectedEntity *)
    intros Hc. eapply check_view; [exact Hc|by intros|]. intros [_ Hnm]%andb_true_iff _. split; [|by left].
    destruct Hv. split; try done. cbn. destruct x as [pe|e]; [|done]. apply bool_decide_eq_true in Hid.
    intros ? [= <-]. apply names_named. by rewrite Hid.
  - (* PetmCopy *)
    intros Hc. eapply check_view; [exact Hc|..].
    + rewrite !andb_true_iff. intros ((((((-> & ->) & ->) & ->) & Hp) & ->) & Hcl') ->.
      by rewrite (view_entity _ a r), Hcl'.
    + intros _ _. destruct x; [|exact Hkeep]. destruct Hv. split; [by split|by left].
  - (* PeListSnapshots *)
    intros Hc. eapply check_view; [exact Hc|..].
    + rewrite !andb_true_iff. intros ((-> & Hp) & Hcl') ->. by rewrite (view_entity _ a r), Hcl'.
    + rewrite !andb_true_iff, !negb_true_iff. intros _ [_ ->]. destruct x as [[|]|]; [by apply Hgone|exact Hkeep..].
  - (* PeDeleteSnapshot *)
    intros Hc. eapply check_view; [exact Hc|..].
    + rewrite !andb_true_iff. intros (((-> & Hp) & ->) & Hcl') ->. by rewrite (view_entity _ a r), Hcl'.
    + rewrite !andb_true_iff, !negb_true_iff. intros _ [_ ->]. destruct x; [by apply Hgone|exact Hkeep].
Qed.
Lemma step_view_similar a s gone X (e : Cmd X) x a' :
  similar a (du_run s) → (ur_cleaned a = true → gone = true) → keeps_id e x = true →
  upload_protocol a X e x = Next a' →
  match step_view s gone e x with
  | Next s' => similar a' (du_run s') ∧
      (ur_cleaned a' = ur_cleaned a ∧ du_disk s' = du_disk s ∨ ur_cleaned a' = true ∧ du_disk s' = Gone)
  | Violation => gone ≠ ur_cleaned a
  | Impossible => False
  end.
Proof.
  intros Hs Hg Hid Ha. pose proof (upload_protocol_view a (du_run s) gone X e x a' Hs Hg Hid Ha) as Hv.
  unfold step_view. destruct (upload_protocol (view gone _) X e x) as [r| |]; [|done..].
  destruct Hv as [Hsim Hc]. split; [exact Hsim|]. cbn. destruct Hc as [[-> ->]|(-> & -> & ->)]; [left|by right].
  by destruct gone.
Qed.

(** A call that does not reach pkg/ivd. *)
Lemma refines_kube a s X (e : Cmd X) x a' :
  refines a s → keeps_id e x = true → upload_protocol a X e x = Next a' →
  match upload_step s e x with Next s' => refines a' s' | Violation | Impossible => False end.
Proof.
  intros [Hs Hd] Hid Ha. unfold upload_step, refines.
  assert (Hg : is_gone (du_disk s) = ur_cleaned a) by (destruct (ur_cleaned a); [done|apply Hd]).
  pose proof (step_view_similar a s (is_gone (du_disk s)) X e x a' Hs) as Hv.
  specialize (Hv ltac:(congruence) Hid Ha). destruct (step_view s _ e x) as [s'| |]; [|by apply Hv|done].
  destruct Hv as [? [[-> ->]|[-> ->]]]; by split.
Qed.

(** A program of pkg/ivd about the entity that the record names. *)
Lemma safe_svim_upload id s {A} (p : vio A) Q :
  working (du_run s) = true → named_entity (du_run s) = Some id →
  safe (on_disk (deleting_again (NewVimIDFromPEID id) (SnapIDGetID (GetSnapshotID id)))) (svim p) Q (du_disk s) →
  safe upload_on_disks (svim p) (λ o s', du_run s' = du_run s ∧ Q o (du_disk s')) s.
Proof.
  intros Hw Hn. destruct s as [r d]; cbn in *. revert d.
  induction p as [a|m|m|X e k IH]; intros d; cbn; auto.
  intros Hp x. specialize (Hp x). rewrite Hw, Hn.
  destruct (deleting_again _ _ _ _ _ _); [by apply IH|done..].
Qed.

(** An entity got, and what it lists and deletes, as the protocol of uploads sees them. *)
Definition follows_ivd {X} (e : Cmd X) (a : upload_run) (o : outcome (world * X)) (s : disk_upload) : Prop :=
  match o with
  | Returned (_, x) => ∃ a', upload_protocol a X e x = Next a' ∧ refines a' s
  | Panicked _ => True
  | Hung _ => False
  end.

Lemma refines_working a s : refines a s → working a = working (du_run s).
Proof. intros [[_ E _ _ _ _ _] _]. unfold working. by rewrite E. Qed.

Lemma refines_named a s : refines a s → named_entity a = named_entity (du_run s).
Proof. intros [[E _ _ _ _ _ _] _]. unfold named_entity. by rewrite E. Qed.
Lemma check_allowed {X} (b : bool) (f : X → upload_run) (x : X) : (∀ x, check_ b (f x) ≠ Violation) → b = true.
Proof. intros Hv. specialize (Hv x). by destruct b. Qed.

Lemma refines_still a s : refines a s → deleting_still (du_disk s).
Proof. intros [_ Hd]. destruct (ur_cleaned a); [by apply gone_still|apply Hd]. Qed.

Lemma refines_get a s id w f (m : PETM) :
  refines a s → ivd_call (PetmGetProtectedEntity m id) = Some f → working a && names a id = true →
  safe upload_on_disks (svim (f w)) (follows_ivd (PetmGetProtectedEntity m id) a) s.
Proof.
  intros Hr Hf Hok. pose proof Hok as [Hw Hn%names_named]%andb_true_iff.
  rewrite (refines_working a s Hr) in Hw. rewrite (refines_named a s Hr) in Hn.
  set (mv := deleting_again (NewVimIDFromPEID id) (SnapIDGetID (GetSnapshotID id))).
  assert (Hget : safe (on_disk mv) (svim (f w)) (λ o d, d = du_disk s ∧ match o with
    | Returned (_, Ok pe) => PE_GetID pe = id | Hung _ => False | _ => True end) (du_disk s)).
  { cbn in Hf. destruct (PETM_IsIVD m); [|destruct (wraps_ivd m); [|done]]; injection Hf as <-.
    - apply (safe_svim_stay _ (@housekeeping _)); [intros; by apply deleting_again_quiet; [eapply refines_still|]|..].
      { apply calls_only_bind; [apply quiet_GetProtectedEntity|]. by intros [w' r]. }
      eapply safe_seq; [apply safe_get_ivd|..]; [|by intros m' d [-> _]|by intros m' d [_ []]].
      intros [w' [this|e]] d [_ Hid]; cbn; [|done]. by rewrite PE_GetID_of_ivd.
    - eapply safe_mono; [apply safe_get; intros; by apply deleting_again_quiet; [eapply refines_still|]|].
      intros [[w' [pe|e]]|m'|m'] d [-> Hg]; try done. split; [done|]. destruct Hg as (this & -> & <-).
      apply PE_GetID_of_ivd. }
  eapply safe_mono; [by apply (safe_svim_upload id)|].
  intros [[w' r]|m'|m'] s' [Hrun [Hd Hid]]; cbn; [|done..]. exists (on_entity r a). rewrite Hok. split; [done|].
  destruct Hr as [[E1 E2 E3 E4 E5 Ew Ee] Hc]. split; [|by rewrite Hd]. rewrite Hrun. split; try done.
  destruct r as [pe|e]; [|done]. intros ? [= <-]. apply names_named. rewrite Hid. by apply andb_true_iff in Hok as [_ Hnm].
Qed.

(** The entity that is listed or deleted is the one named. *)
Lemma entity_disk a s pe b this :
  refines a s → of_entity a pe = true → ivd_of_PE pe = Some (b, this) →
  named_entity (du_run s) = Some (ie_id this).
Proof.
  intros [Hs _] Hp Hi. rewrite <- (ivd_of_PE_ID pe b this) by done. by eapply of_entity_named.
Qed.

Lemma refines_list a s pe w f :
  refines a s → ivd_call (PeListSnapshots pe) = Some f →
  working a && of_entity a pe && negb (ur_cleaned a) = true →
  safe upload_on_disks (svim (f w)) (follows_ivd (PeListSnapshots pe) a) s.
Proof.
  intros Hr Hf Hok. pose proof Hok as [[Hw Hp]%andb_true_iff Hc%negb_true_iff]%andb_true_iff.
  rewrite (refines_working a s Hr) in Hw. cbn in Hf. destruct (ivd_of_PE pe) as [[b this]|] eqn:Hi; [|done].
  injection Hf as <-. pose proof (entity_disk a s pe b this Hr Hp Hi) as Hn.
  pose proof (refines_named a s Hr) as Hna. destruct Hr as [Hs Hd]. rewrite Hc in Hd.
  eapply safe_mono; [by apply (safe_svim_upload (ie_id this)); [..|apply (safe_ListSnapshots this)]|].
  intros [[w' r]|m'|m'] s' [Hrun Ho]; cbn; [|done..].
  exists (match r with Ok [] => on_cleaned a | _ => a end). rewrite Hok. split; [done|].
  unfold refines. rewrite Hrun.
  destruct r as [[|i l]|e]; cbn in *; subst; rewrite ?Hc, ?Ho; (split; [by destruct Hs|done]).
Qed.

Lemma refines_delete a s pe snap ps w f :
  refines a s → ivd_call (PeDeleteSnapshot pe snap ps) = Some f →
  working a && of_entity a pe && names_snapshot a (SnapIDGetID snap) && negb (ur_cleaned a) = true →
  safe upload_on_disks (svim (f w)) (follows_ivd (PeDeleteSnapshot pe snap ps) a) s.
Proof.
  intros Hr Hf Hok. pose proof Hok as [[[Hw Hp]%andb_true_iff Hsn]%andb_true_iff Hc%negb_true_iff]%andb_true_iff.
  rewrite (refines_working a s Hr) in Hw. cbn in Hf. destruct (ivd_of_PE pe) as [[b this]|] eqn:Hi; [|done].
  injection Hf as <-. pose proof (entity_disk a s pe b this Hr Hp Hi) as Hn.
  pose proof (refines_named a s Hr) as Hna. rewrite Hn in Hna.
  assert (Hsnap : SnapIDGetID (GetSnapshotID (ie_id this)) = SnapIDGetID snap).
  { unfold names_snapshot, named_entity in *. destruct (ur_record a); [|done].
    destruct (NewProtectedEntityIDFromString _); [|done]. injection Hna as ->. by apply bool_decide_eq_true in Hsn. }
  destruct Hr as [Hs Hd]. rewrite Hc in Hd.
  eapply safe_mono; [apply (safe_svim_upload (ie_id this)); [done..|]; rewrite Hsnap;
    by apply (safe_DeleteSnapshot_again this snap)|].
  intros [[w' r]|m'|m'] s' [Hrun Ho]; cbn; [|done..].
  exists (match r with Ok _ => on_cleaned a | Err _ => a end). rewrite Hok. split; [done|].
  unfold refines. rewrite Hrun.
  destruct r as [b'|e]; cbn in *; rewrite ?Hc; (split; [by destruct Hs|done]).
Qed.

(** A call that reaches pkg/ivd. *)
Lemma refines_ivd a s w X (e : Cmd X) f :
  refines a s → ivd_call e = Some f → (∀ x, upload_protocol a X e x ≠ Violation) →
  safe upload_on_disks (svim (f w)) (follows_ivd e a) s.
Proof.
  intros Hr Hf Hv.
  destruct e; try discriminate Hf; try (by destruct (Hv (Err ErrWaitTimeout))); try (by destruct (Hv None)).
  - apply refines_get; [done..|]. exact (check_allowed _ _ (Err ErrWaitTimeout) Hv).
  - pose proof (check_allowed _ _ (Err ErrWaitTimeout) Hv) as Hok. cbn in Hf, Hok. by destruct (PETM_IsIVD m).
  - by destruct (Hv (p, Err ErrWaitTimeout)).
  - apply refines_list; [done..|]. exact (check_allowed _ _ (Err ErrWaitTimeout) Hv).
  - apply refines_delete; [done..|]. exact (check_allowed _ _ (Err ErrWaitTimeout) Hv).
Qed.

(** A settled run of the protocol is one of its view. *)
Lemma settled_view a s : refines a s → upload_settled a → upload_settled (view (is_gone (du_disk s)) (du_run s)).
Proof.
  intros [Hs Hd] Ha. unfold upload_settled in *. pose proof (clean_view (is_gone (du_disk s)) a (du_run s) Hs) as Hc.
  destruct Hs as [E1 E2 E3 E4 E5 Ew Ee]. cbn [ur_first ur_was_clean ur_last view]. rewrite <- E2, <- E5.
  destruct Ha as [Ha|[Ha|[Ha|Ha]]]; auto.
  right. right. left. apply Hc; [|done]. intros Hcl. by rewrite Hcl in Hd.
Qed.

(** C4. The upload controller, the data mover and the snapshot manager on pkg/ivd, whatever
    vCenter, the API servers and the repositories answer (but that an entity answered for an ID
    has that ID, as astrolabe promises): the run obeys the protocol of uploads, in which the local
    snapshot counts as gone just when vCenter listed none, a task deleted it or found nothing to delete, or the
    connection after a first refusal of the deletion for the credentials failed with NotFound. What is
    copied is the entity that the record names. pkg/ivd is asked only while the record is worked
    on, and, besides connecting, only to list the snapshots of that disk and to delete the one
    named, by one task at a time and never again once it is gone. The run ends, and nil means that
    the record is settled. *)
Theorem processUpload_on_ivd c req w :
  safe upload_on_disks (on_ivd (processUpload c req) w) disk_upload_ended disk_upload_start.
Proof.
  eapply safe_mono; [apply (safe_on_ivd_refines _ upload_protocol refines _ upload_done w upload_start)|].
  - intros a s X e x Hr _. destruct (upload_protocol a X e x) as [a'| |] eqn:Ha; [|done|].
    + cbn. destruct (keeps_id e x) eqn:Hid; [|done].
      pose proof (refines_kube a s X e x a' Hr Hid Ha) as Hk. by destruct (upload_step s e x).
    + by apply upload_protocol_possible in Ha.
  - intros a s w' X e f Hr Hf Hv. by apply refines_ivd.
  - split; [by split|done].
  - apply processUpload_follows.
  - intros [[w' [e|]]|m|m] s; try done; [|by intros [a Ha]].
    intros (a & Ha & Hr). by apply (settled_view a).
Qed.
End uploads.
