(* ===== verification/DownloadOnDisks.v ===== *)
(** * Downloads onto the disks of vCenter

    The download controller and the data mover on pkg/ivd: which disks a download writes,
    how it labels the volume that it makes, and which volume its record names at the end. *)

From S2P Require Export IvdAstrolabe IvdCopies ConstructionSpec DownloadProtocol.
Open Scope Z_scope.
Import Ivd.

(** ** What a copy does to vCenter *)

Section disks.
Context `{VDeps}.

(** What vCenter was asked for last: to make a volume, with the labels or without; to make a
    container volume, which has them; to label a volume. *)
Inductive asked := Nothing | Making (t : task) (labelled : bool) | Provisioning (t : task) | Labelling (t : task) (v : vimID).

#[export] Instance asked_eq_dec : EqDecision asked.
Proof. solve_decision. Defined.

(** The volumes that were made, those of them that carry the labels, and the task that goes on. *)
Record volumes := { vo_made : list vimID; vo_labelled : list vimID; vo_asked : asked }.

Definition no_volumes : volumes := {| vo_made := []; vo_labelled := []; vo_asked := Nothing |}.

Definition on_asked (k : asked) (s : volumes) : volumes :=
  {| vo_made := vo_made s; vo_labelled := vo_labelled s; vo_asked := k |}.

(** A refused request starts no task. *)
Definition on_answer (k : task → asked) (r : result task) (s : volumes) : volumes :=
  match r with Ok t => on_asked (k t) s | Err _ => s end.

Definition on_volume (v : vimID) (labelled : bool) (s : volumes) : volumes :=
  {| vo_made := vo_made s ++ [v]; vo_labelled := if labelled then vo_labelled s ++ [v] else vo_labelled s;
     vo_asked := Nothing |}.

Definition on_labelled (v : vimID) (s : volumes) : volumes :=
  {| vo_made := vo_made s; vo_labelled := vo_labelled s ++ [v]; vo_asked := Nothing |}.

(** Only the task that goes on is waited for; what it makes or labels is counted when it succeeds. *)
Definition volumes_step (s : volumes) {X} (e : VCmd X) : X → verdict volumes :=
  match e in VCmd X return X → verdict volumes with
  | VslmCreateDiskFromSnapshot _ _ _ _ => λ r, Next (on_answer (λ t, Making t false) r s)
  | VslmClone _ _ _ _ _ => λ r, Next (on_answer (λ t, Making t true) r s)
  | VslmUpdateMetadata _ v _ _ => λ r, Next (on_answer (λ t, Labelling t v) r s)
  | CnsCreateVolume _ _ => λ r, Next (on_answer Provisioning r s)
  | GetTaskInfo t => λ r,
      if bool_decide (vo_asked s = Provisioning t) then Next (on_answer Provisioning r s) else Violation
  | GetTaskResult t => λ r,
      if bool_decide (vo_asked s = Provisioning t)
      then Next (match r with Ok (Some (inr v)) => on_volume v true s | _ => s end) else Violation
  | TaskWaitNonDefault t _ _ _ _ => λ r,
      match vo_asked s with
      | Making t' labelled =>
          if bool_decide (t = t') then Next (match r with Ok (AnyVSO v) => on_volume (vso_Id v) labelled s | _ => s end)
          else Violation
      | Labelling t' v =>
          if bool_decide (t = t') then Next (match r with Ok _ => on_labelled v s | Err _ => s end) else Violation
      | _ => Violation
      end
  | _ => λ _, Next s
  end.

(** A disk is opened for the entity to overwrite, or for one that was made and labelled. *)
Definition opens (target : option PEID) (s : volumes) {X} (e : VCmd X) : bool :=
  match e with
  | DiskOpen p =>
      bool_decide (GetID <$> target = Some (cp_fcdId p)) ||
      existsb (λ v, bool_decide (GetID (newProtectedEntityID v) = cp_fcdId p)) (vo_labelled s)
  | _ => true
  end.

Definition disk_rules (c : option VirtualCenterConfig) (target : option PEID) : monitor VCmd volumes :=
  λ s X e x, if labels_own c e && opens target s e then volumes_step s e x else Violation.

(** More volumes, and more of them labelled. *)
Definition more_volumes (s s' : volumes) : Prop := vo_made s ⊆ vo_made s' ∧ vo_labelled s ⊆ vo_labelled s'.

#[export] Instance more_volumes_preorder : PreOrder more_volumes.
Proof. split; [by intros s|]. intros s1 s2 s3 [? ?] [? ?]. split; by etrans. Qed.

Lemma more_volume v l s : more_volumes s (on_volume v l s).
Proof. split; cbn; [|destruct l]; set_solver. Qed.
Lemma more_labelled v s : more_volumes s (on_labelled v s).
Proof. split; cbn; set_solver. Qed.

Context (c : option VirtualCenterConfig) (target : option PEID).

Lemma disk_rules_idle made X (e : VCmd X) x : idle e = true → disk_rules c target made X e x = Next made.
Proof. by destruct e. Qed.

(** A step loses no volume and no label. *)
Lemma disk_rules_more made X (e : VCmd X) x made' :
  disk_rules c target made X e x = Next made' → more_volumes made made'.
Proof.
  unfold disk_rules. destruct (_ && _); [|done]. intros Hm.
  destruct e; cbn in Hm; repeat case_match; simplify_eq; try done;
    first [apply more_volume | apply more_labelled | by destruct x].
Qed.

Lemma safe_more {A} (p : vio A) Q made :
  safe (disk_rules c target) p Q made → safe (disk_rules c target) p (λ o made', Q o made' ∧ more_volumes made made') made.
Proof.
  intros Hp. apply safe_conj; [exact Hp|].
  assert (Hgo : ∀ s, more_volumes made s → safe (disk_rules c target) p Q s →
    safe (disk_rules c target) p (λ _ made', more_volumes made made') s); [|by apply Hgo].
  clear Hp. induction p as [a|m|m|X e k IH]; cbn; [done..|]. intros s Hs Hp x. specialize (Hp x).
  destruct (disk_rules c target s X e x) eqn:He; [|done..]. apply IH; [|exact Hp].
  etrans; [exact Hs|]. by eapply disk_rules_more.
Qed.

Lemma safe_idle {A} (p : vio A) made :
  calls_only (@idle _) p →
  safe (disk_rules c target) p (λ o made', made' = made ∧ match o with Hung _ => False | _ => True end) made.
Proof.
  intros Hp. eapply safe_mono; [apply (safe_calls_only (@idle _)); [intros; by apply disk_rules_idle|exact Hp]|].
  by intros [] made'.
Qed.

(** An idle program before another. *)
Lemma safe_idle_bind {A B} (p : vio A) (f : A → vio B) (Q : outcome B → volumes → Prop) made :
  calls_only (@idle _) p → (∀ m, Q (Panicked m) made) → (∀ a, safe (disk_rules c target) (f a) Q made) →
  safe (disk_rules c target) (bind p f) Q made.
Proof.
  intros Hp Hm Hf. eapply safe_seq; [by apply safe_idle|..]; [|by intros m s [-> _]|by intros m s [_ []]].
  by intros a s [-> _].
Qed.

(** A program of the manager: it keeps the configuration, and ends. *)
Definition settles {A} (w : world) (P : A → volumes → Prop) (o : outcome (world * A)) (made : volumes) : Prop :=
  match o with Returned (w', a) => same_config w w' ∧ P a made | Panicked _ => True | Hung _ => False end.

(** A call of the VSLM manager, that asks for a task or for nothing. *)
Lemma safe_vslm_asking {A} w (method : vslmClient → VCmd (result A)) (f : result A → volumes → volumes) made :
  (∀ v x, disk_rules c target made _ (method v) x = Next (f x made)) → (∀ e, f (Err e) made = made) →
  safe (disk_rules c target) (vslm w (λ m h, withVslm m h method)) (λ o made', match o with
    | Returned (w', x) => same_config w w' ∧ made' = f x made | Panicked _ => True | Hung _ => False end) made.
Proof.
  intros Hm He. apply (safe_vslm _ _ (λ s, s = made)); [|done|..].
  - intros s X e x -> Hq. apply disk_rules_idle. by destruct e.
  - intros s e -> h. rewrite He. by destruct w.
  - intros s Hs v x. assert (s = made) as -> by by destruct Hs. rewrite Hm. split; [|by destruct x].
    intros h. by destruct w.
Qed.

(** One that asks for nothing. *)
Lemma safe_vslm_idle {A} w (method : vslmClient → VCmd (result A)) made :
  (∀ v, idle (method v) = true) →
  safe (disk_rules c target) (vslm w (λ m h, withVslm m h method)) (λ o made', match o with
    | Returned (w', _) => same_config w w' ∧ made' = made | Panicked _ => True | Hung _ => False end) made.
Proof.
  intros Hm. apply (safe_vslm_asking w method (λ _ s, s)); [|done]. intros v x. by apply disk_rules_idle.
Qed.

(** An entity whose disk may be opened. *)
Definition writable (made : volumes) (id : PEID) : Prop :=
  target = Some id ∨ ∃ v, v ∈ vo_labelled made ∧ id = newProtectedEntityID v.

Lemma writable_opens made this p :
  writable made (ie_id this) → cp_fcdId p = GetID (ie_id this) → opens target made (DiskOpen p) = true.
Proof.
  intros Hw Hp. cbn. apply orb_true_iff. destruct Hw as [-> |(v & Hv & Hid)].
  - left. apply bool_decide_true. cbn. by rewrite Hp.
  - right. apply existsb_exists. exists v. split; [by apply list_elem_of_In|].
    apply bool_decide_true. by rewrite Hp, Hid.
Qed.

Lemma safe_getDiskConnectionParams this ro w made :
  safe (disk_rules c target) (getDiskConnectionParams this ro w) (settles w (λ r made', made' = made ∧
    match r with Ok p => cp_fcdId p = GetID (ie_id this) | Err _ => True end)) made.
Proof.
  unfold getDiskConnectionParams. destruct (tm_vcenter _) as [p|]; [|done].
  apply safe_idle_bind; [apply idle_Connect|done|]. intros [h [r|e]]; [|by destruct w].
  destruct (h !! p) as [[[cfg|] [client|] ? ?]|]; try done.
  eapply safe_seq; [by apply safe_vslm_idle|..]; [|done..].
  intros [w' [vso|e]] s [Hw ->]; [|by destruct w].
  intros r'. rewrite disk_rules_idle by done. destruct r' as [t|e]; by destruct w.
Qed.

Lemma safe_copy this r w made :
  writable made (ie_id this) →
  safe (disk_rules c target) (copy this r w) (settles w (λ _ made', made' = made)) made.
Proof.
  intros Hw. unfold copy, getDataWriter. apply (proj1 (safe_bind_bind _ _ _ _ _ _)).
  eapply safe_seq; [apply safe_getDiskConnectionParams| |done..].
  intros [w' [p|e]] s [Hc [-> Hp]]; [|done].
  intros x. unfold disk_rules at 1. cbn [labels_own andb]. rewrite (writable_opens _ this) by done.
  cbn [volumes_step]. destruct x as [d|e]; [|done]. cbn [bind].
  apply safe_defer.
  assert (Hend : ∀ {A} (a : vio A) (Q : outcome A → volumes → Prop), safe (disk_rules c target) a Q made →
    safe (disk_rules c target) (bind (call (DiskClose d) ;;; Ret tt) (λ _, a)) Q made).
  { intros A a Q Ha x. rewrite disk_rules_idle by done. exact Ha. }
  destruct r as [rd|]; [|by apply Hend].
  apply safe_idle_bind; [apply idle_CopyBuffer|intros m; by apply Hend|]. intros [n err]. by apply Hend.
Qed.

End disks.

(** ** The volume that a copy makes *)

Section copies.
Context `{VDeps} (target : option PEID).

(** The entity that a copy answers.  One of a volume whose entity cannot be made has no ID. *)
Definition answers (made : volumes) (id : PEID) : Prop :=
  (∃ v, v ∈ vo_labelled made ∧ id = newProtectedEntityID v) ∨ (vo_labelled made ≠ [] ∧ id = PEID_zero).

Lemma answers_more made made' id : more_volumes made made' → answers made id → answers made' id.
Proof.
  intros [_ Hm] [(v & Hv & ->)|[Hv ->]]; [left; eauto|]. right. split; [|done].
  intros Hn. apply Hv, list_nil_subseteq. by rewrite <- Hn.
Qed.

Lemma safe_newIVDProtectedEntity c s3Config w id made Q :
  (∀ r, match r with Ok pe => ie_id pe = id | Err _ => True end → Q (Returned r) made) →
  (∀ m, Q (Panicked m) made) → safe (disk_rules c target) (newIVDProtectedEntity s3Config w id) Q made.
Proof.
  intros Hq Hm. unfold newIVDProtectedEntity, withConfig. destruct (tm_vcenterConfig _); [|apply Hm].
  apply Hq. by destruct (getDataTransports _ _).
Qed.

(** The wait for the task that vCenter was asked for. *)
Lemma safe_taskWait_bind {B} c t labelled made (f : result any → vio B) Q :
  vo_asked made = Making t labelled →
  (∀ v, safe (disk_rules c target) (f (Ok (AnyVSO v))) Q (on_volume (vso_Id v) labelled made)) →
  (∀ r, match r with Ok (AnyVSO _) => False | _ => True end → safe (disk_rules c target) (f r) Q made) →
  safe (disk_rules c target) (bind (taskWait t) f) Q made.
Proof.
  intros Hk Hv Hr r. unfold disk_rules. cbn. rewrite Hk, bool_decide_true by done.
  destruct r as [[i|v|]|e]; cbn; auto.
Qed.

Lemma safe_labelWait_bind {B} c t v made (f : result any → vio B) Q :
  vo_asked made = Labelling t v →
  (∀ a, safe (disk_rules c target) (f (Ok a)) Q (on_labelled v made)) →
  (∀ e, safe (disk_rules c target) (f (Err e)) Q made) →
  safe (disk_rules c target) (bind (taskWait t) f) Q made.
Proof. intros Hk Ha He r. unfold disk_rules. cbn. rewrite Hk, bool_decide_true by done. destruct r; auto. Qed.

Definition entity_answered (r : result IVDProtectedEntity) (made : volumes) : Prop :=
  match r with Ok pe => answers made (ie_id pe) | Err _ => True end.

(** A program that comes after another of the manager. *)
Lemma safe_settles {A} c made w w1 (P : A → volumes → Prop) (p : vio (world * A)) :
  same_config w w1 → safe (disk_rules c target) p (settles w1 P) made → safe (disk_rules c target) p (settles w P) made.
Proof.
  intros Hw Hp. eapply safe_mono; [exact Hp|]. intros [[w' a]|m|m] s; [|done..].
  intros [Hw' Ho]. split; [unfold same_config in *; congruence|exact Ho].
Qed.

(** The volume is labelled before it is answered. *)
Lemma safe_labelled cfg made v kvs retPE w :
  own_labels cfg kvs = true → (∀ made', v ∈ vo_labelled made' → answers made' (ie_id retPE)) →
  safe (disk_rules (Some cfg) target) (let! (w, r) := vslm w (λ m h, Vslm.UpdateMetadata m h v kvs []) in
    match r with
    | Err e => Ret (w, Err e)
    | Ok updateTask => let? _ := taskWait updateTask else e => Ret (w, Err e) in Ret (w, Ok retPE)
    end) (settles w entity_answered) made.
Proof.
  intros Hl Ha. eapply safe_seq;
    [apply (safe_vslm_asking (Some cfg) target w _ (on_answer (λ t, Labelling t v)))| |done..].
  - intros vc x. unfold disk_rules. cbn. by rewrite Hl.
  - done.
  - intros [w2 [t|e]] s [Hw ->]; cbn [on_answer]; [|done].
    apply (safe_labelWait_bind _ _ v); [done|..]; [|done].
    intros _. split; [done|]. apply Ha. cbn. set_solver.
Qed.

Lemma safe_copyLocal c s3Config info md w made :
  tm_vcenterConfig (w_tm w) = c →
  safe (disk_rules c target) (copyLocal s3Config info md w) (settles w entity_answered) made.
Proof.
  intros Hc. unfold copyLocal, withConfig. rewrite Hc. destruct c as [cfg|]; [|done].
  pose proof (own_FilterLabelsFromMetadataForVslmAPIs md cfg) as Hown.
  set (kvs := md_ExtendedMetadata _) in *. clearbody kvs.
  set (snap := HasSnapshot (pi_ID info)).
  eapply (safe_seq _ _ _ _ (λ o made', match o with
    | Returned (w', r) => same_config w w' ∧ made' = on_answer (λ t, Making t (negb snap)) r made
    | Panicked _ => True | Hung _ => False end)); [| |done..].
  { destruct snap.
    - eapply safe_seq; [apply (safe_vslm_asking (Some cfg) target w _ (on_answer (λ t, Making t false)))| |done..];
        [done..|]. by intros [w' [t|e]] s [Hw ->].
    - apply (safe_vslm_asking (Some cfg) target w _ (on_answer (λ t, Making t true))); [|done].
      intros v x. unfold disk_rules. cbn. by rewrite Hown. }
  intros [w' [t|e]] s [Hw ->]; [|done]. cbn [on_answer].
  eapply safe_settles; [exact Hw|]. clear w Hc Hw. rename w' into w.
  apply (safe_taskWait_bind _ _ (negb snap)); [done|..]; [|by intros [[?|?|]|?] ?].
  intros v. set (made1 := on_volume _ _ _).
  apply safe_bind, safe_newIVDProtectedEntity; [|done].
  intros r Hr. cbn [then_outcome].
  assert (Ha : ∀ made', vso_Id v ∈ vo_labelled made' → answers made' (ie_id (default zeroEntity (ok_of r)))).
  { intros made' Hv. destruct r as [pe|e]; cbn; [left; eauto|]. right. split; [|done]. by intros Hn; rewrite Hn in Hv; apply not_elem_of_nil in Hv. }
  destruct snap.
  - by apply safe_labelled.
  - split; [done|]. apply Ha. cbn. set_solver.
Qed.

Lemma safe_createCns c client cns md h made :
  safe (disk_rules c target) (CreateCnsVolumeInCluster c client cns (FilterLabelsFromMetadataForCnsAPIs md "cns") h)
    (λ o made', match o with
      | Returned (_, Ok v) => v ∈ vo_labelled made' | Returned (_, Err _) | Panicked _ => True | Hung _ => False end) made.
Proof.
  unfold CreateCnsVolumeInCluster, createCnsVolumeWithClusterConfig.
  intros config. rewrite disk_rules_idle by done. destruct config as [config|e]; [|done]. cbn [bind].
  destruct c as [cfg|]; [|done]. destruct client as [client|]; [|done].
  apply safe_idle_bind; [apply idle_findSharedDatastoresFromAllNodeVMs|done|].
  intros [dsList|e]; [|done]. cbv zeta. destruct cns as [m|]; [|done].
  pose proof (own_created cfg (vso_Name (md_VirtualStorageObject md)) dsList (vso_Name (md_VirtualStorageObject md)) md
    (vso_CapacityInMB (md_VirtualStorageObject md))) as Hown.
  set (spec := {| cv_Name := _ |}) in *. clearbody spec.
  eapply (safe_seq _ _ _ _ (λ o made', match o with
    | Returned (_, r) => made' = on_answer Provisioning r made | Panicked _ => True | Hung _ => False end)).
  { unfold Cns.CreateVolume, withCns. apply (safe_invoke _ _ _ _ (λ _ s, s = made) (λ _ s, s = made)).
    - intros h' s ->. eapply safe_mono; [by apply safe_idle, idle_Connect|].
      intros [[h2 [cs|e]]|?|?] s [-> Ho]; done.
    - intros h' s -> v x. unfold disk_rules. cbn [labels_own forallb]. rewrite Hown. cbn. by destruct x.
    - intros v x. unfold disk_rules. cbn [labels_own forallb]. rewrite Hown. cbn. destruct x; cbn; [done|].
      by destruct (CheckForVcAuthFaults _). }
  - intros [h' [t|e]] s ->; [|done]. cbn [on_answer]. intros info. unfold disk_rules at 1. cbn.
    rewrite bool_decide_true by done. destruct info as [t'|e]; [|done]. cbn.
    intros r. unfold disk_rules at 1. cbn. rewrite bool_decide_true by done.
    destruct r as [[[fault|v]|]|e]; cbn; try done. set_solver.
  - by intros m' s _.
  - by intros m' s [].
Qed.

Lemma safe_copyRemote c s3Config r md w made :
  tm_vcenterConfig (w_tm w) = c →
  safe (disk_rules c target) (copyRemote s3Config r md w) (settles w entity_answered) made.
Proof.
  intros Hc. unfold copyRemote, vcenterClient. rewrite Hc.
  destruct (p ← _; _) as [vc|]; [|done]. cbn [bind].
  eapply safe_seq; [apply safe_createCns| |done..].
  intros [h [v|e]] made1 Hv; [|by destruct w].
  set (w1 := w <| w_heap := h |>). assert (Hw1 : same_config w w1) by by destruct w.
  apply safe_bind, safe_newIVDProtectedEntity; [|by intros m].
  intros [pe|e] Hpe; cbn [then_outcome]; [|done].
  assert (Ha : ∃ v, v ∈ vo_labelled made1 ∧ ie_id pe = newProtectedEntityID v) by eauto.
  eapply safe_seq; [apply safe_copy; by right| |done..].
  intros [w2 [n err]] s [Hw2 ->]. cbn. split; [unfold same_config in *; congruence|].
  destruct err; [done|]. by left.
Qed.

Lemma safe_existsIn c id ourVC w made :
  safe (disk_rules c target) (existsInVC id ourVC w) (settles w (λ _ made', made' = made)) made.
Proof.
  destruct ourVC; [|done]. unfold existsInVC.
  eapply safe_seq; [by apply safe_vslm_idle| |done..]. by intros [w' r] s [Hw ->].
Qed.

Lemma safe_copyInt_disks c s3Config info r m w made :
  tm_vcenterConfig (w_tm w) = c →
  safe (disk_rules c target) (copyInt s3Config info r m w) (settles w entity_answered) made.
Proof.
  intros Hc. unfold copyInt. case_bool_decide; [done|].
  apply safe_idle_bind; [apply idle_isOurVC|done|]. intros ourVC.
  eapply safe_seq; [apply safe_existsIn| |done..].
  intros [w' [b|e]] s [Hw ->]; [|done].
  apply safe_idle_bind; [unfold readMetadataFromReader; calls_tac|done|].
  intros [[md [e|]]|e]; [done| |done]. eapply safe_settles; [exact Hw|].
  destruct (ourVC && b); [apply safe_copyLocal|apply safe_copyRemote]; unfold same_config in *; congruence.
Qed.

#[local] Arguments defer : simpl never.

(** A copy labels what it makes for the cluster of the manager, writes only to what it made, and
    answers it. *)
Lemma safe_Copy s3Config sourcePE w made :
  safe (disk_rules (tm_vcenterConfig (w_tm w)) target) (Copy s3Config sourcePE w) (settles w entity_answered) made.
Proof.
  set (c := tm_vcenterConfig (w_tm w)). unfold Copy.
  assert (Hidle : ∀ made X (e : VCmd X) x, idle e = true → disk_rules c target made X e x = Next made)
    by apply disk_rules_idle.
  intros info. rewrite Hidle by done. destruct info as [info|e]; [|done]. cbn [bind].
  intros r. rewrite Hidle by done. destruct r as [r|e]; [|done]. cbn [bind].
  assert (Hrest : safe (disk_rules c target)
    (let? m := call (SrcGetMetadataReader sourcePE) else e => Ret (w, Err (Wrap e "GetMetadataReader failed")) in
     let! (w, r) := copyInt s3Config info r m w in
     Ret (w, match r with Ok pe => Ok pe | Err e => Err (Wrap e "copyInt failed") end)) (settles w entity_answered) made).
  { intros m. rewrite Hidle by done. destruct m as [m|e]; [|done]. cbn [bind].
    eapply safe_seq; [by apply safe_copyInt_disks|..]; [|done..].
    by intros [w' [pe|e]] s. }
  destruct r as [r|]; [|exact Hrest]. apply safe_defer. eapply safe_mono; [exact Hrest|].
  intros [p|m|m] s Hs; [| |by destruct Hs]; intros x; rewrite Hidle by done; exact Hs.
Qed.

(** Overwriting an entity writes to its disk alone, and labels nothing. *)
Lemma safe_Overwrite c this sourceID sourcePE w made :
  target = Some (ie_id this) →
  safe (disk_rules c target) (Overwrite this sourceID sourcePE w) (λ o _, may_panic (λ _, True) o) made.
Proof.
  intros Ht. unfold Overwrite. case_bool_decide; [done|].
  apply safe_idle_bind; [apply idle_check|done|]. intros [w' [e|]]; [done|].
  intros m. rewrite disk_rules_idle by done. destruct m as [m|e]; [|done]. cbn [bind].
  intros d. rewrite disk_rules_idle by done. destruct d as [d|e]; [|done]. cbn [bind].
  apply safe_idle_bind; [unfold readMetadataFromReader; calls_tac|done|]. intros _.
  eapply safe_seq; [apply safe_copy; by left| |done..].
  by intros [w2 [n err]] s _.
Qed.
End copies.

(** ** A download *)

(** The record as last answered, the phase it was first read in, whether the server holds it
    as in progress, the volumes that were made, and whether the completion is recorded. *)
Record disk_download := {
  dd_record : option Download;
  dd_first : option DownloadPhase;
  dd_started : bool;
  dd_made : volumes;
  dd_done : bool;
}.

Definition disk_download_start : disk_download :=
  {| dd_record := None; dd_first := None; dd_started := false; dd_made := no_volumes; dd_done := false |}.

Definition with_made (made : volumes) (s : disk_download) : disk_download :=
  {| dd_record := dd_record s; dd_first := dd_first s; dd_started := dd_started s;
     dd_made := made; dd_done := dd_done s |}.

Section download.
Context `{IvdEntities}.

Definition on_disk_read (d : Download) (s : disk_download) : disk_download :=
  {| dd_record := Some d; dd_first := Some (d_Phase d);
     dd_started := bool_decide (d_Phase d = DownloadPhaseInProgress);
     dd_made := dd_made s; dd_done := dd_done s |}.

Definition on_disk_patch (new : Download) (r : result Download) (s : disk_download) : disk_download :=
  match r with
  | Ok d => {| dd_record := Some d; dd_first := dd_first s;
               dd_started := dd_started s || bool_decide (d_Phase new = DownloadPhaseInProgress);
               dd_made := dd_made s;
               dd_done := dd_done s || bool_decide (d_Phase new = DownloadPhaseCompleted) |}
  | Err _ => s
  end.

(** The volume that the record names to be overwritten. *)
Definition named (s : disk_download) : option PEID :=
  match dd_record s with
  | Some d =>
      if bool_decide (ds_ProtectedEntityID (d_Spec d) ≠ "") then
        match NewProtectedEntityIDFromString (ds_ProtectedEntityID (d_Spec d)) with Ok id => Some id | Err _ => None end
      else None
  | None => None
  end.

(** The volume of a completed record is the one named, one that was made and carries the labels, or,
    when there is one of these whose entity could not be made, none. *)
Definition completes (s : disk_download) (volume : string) : bool :=
  bool_decide (PEIDString <$> named s = Some volume) ||
  existsb (λ v, bool_decide (PEIDString (newProtectedEntityID v) = volume)) (vo_labelled (dd_made s)) ||
  bool_decide (vo_labelled (dd_made s) ≠ [] ∧ PEIDString PEID_zero = volume).

Definition may_record_on_disk (s : disk_download) (old new : Download) : bool :=
  match d_Phase new with
  | DownloadPhaseInProgress => bool_decide (vo_made (dd_made s) = [])
  | DownloadPhaseCompleted => dd_started s && completes s (ds_VolumeID (d_Status new))
  | DownLoadPhaseRetry => dd_started s && (ds_RetryCount (d_Status old) <=? DOWNLOAD_MAX_RETRY)
  | DownloadPhaseFailed => dd_started s && (DOWNLOAD_MAX_RETRY <? ds_RetryCount (d_Status old))
  | _ => false
  end.

(** The rules for the calls that do not reach pkg/ivd. *)
Definition download_rules (s : disk_download) {X} (e : Cmd X) : X → verdict disk_download :=
  match e in Cmd X return X → verdict disk_download with
  | GetObj _ k _ _ =>
      match k return result (obj k) → verdict disk_download with
      | KDownload => λ r,
          match dd_first s, r with
          | None, Ok d => Next (on_disk_read d s)
          | None, Err _ => Next s
          | Some _, _ => Violation
          end
      | _ => λ _, Next s
      end
  | PatchObj _ k ns name old new =>
      match k return obj k → obj k → result (obj k) → verdict disk_download with
      | KDownload => λ old new r,
          if negb (dd_done s) && may_record_on_disk s old new
             && bool_decide (d_Spec new = d_Spec old ∧ d_Meta new = d_Meta old
                             ∧ ns = d_Namespace old ∧ name = d_Name old)
          then Next (on_disk_patch new r s) else Violation
      | _ => λ _ _ _, Violation
      end old new
  | Lock | Unlock | PetmGetProtectedEntity _ _ => λ _, Next s
  | e => λ _, if reads e then Next s else Violation
  end.

(** The calls of pkg/ivd come while the record is in progress, and obey the rules for disks. *)
Definition download_on_disks (c : option VirtualCenterConfig) : monitor SCmd disk_download := λ s X e,
  match e in SCmd X return X → verdict disk_download with
  | SKube e => download_rules s e
  | SVim e => λ x,
      if dd_started s && negb (dd_done s) then
        match disk_rules c (named s) (dd_made s) _ e x with
        | Next made => Next (with_made made s)
        | Violation => Violation
        | Impossible => Impossible
        end
      else Violation
  | _ => λ _, Violation
  end.

#[local] Instance download_rules_quiet c : Quiet (kube_rules (download_on_disks c)).
Proof. unfold kube_rules, download_on_disks. solve_quiet. Qed.

(** The run between its start and its completion, in which nothing but volumes is new. *)
Definition going (s s' : disk_download) : Prop := ∃ made, more_volumes (dd_made s) made ∧ s' = with_made made s.

Lemma going_refl s : going s s.
Proof. exists (dd_made s). by destruct s. Qed.

Lemma going_trans s s' s'' : going s s' → going s' s'' → going s s''.
Proof. intros (m & Hm & ->) (m' & Hm' & ->). exists m'. destruct s; cbn in *. split; [by etrans|done]. Qed.

Lemma going_fields s s' : going s s' → dd_record s' = dd_record s ∧ dd_first s' = dd_first s ∧
  dd_started s' = dd_started s ∧ dd_done s' = dd_done s ∧ named s' = named s.
Proof. by intros (m & _ & ->). Qed.

(** A program of pkg/ivd in such a run. *)
Lemma safe_svim_disks c {A} (p : vio A) (Q : outcome A → volumes → Prop) s :
  dd_started s = true → dd_done s = false → safe (disk_rules c (named s)) p Q (dd_made s) →
  safe (download_on_disks c) (svim p) (λ o s', going s s' ∧ ∃ made, s' = with_made made s ∧ Q o made) s.
Proof.
  intros Hs Hd. assert (Hgo : ∀ R made, safe (disk_rules c (named s)) p R made →
    safe (download_on_disks c) (svim p) (λ o s', ∃ made, s' = with_made made s ∧ R o made) (with_made made s)).
  { intros R. induction p as [a|m|m|X e k IH]; cbn; eauto. intros made Hp x. rewrite Hs, Hd. cbn.
    specialize (Hp x). change (named (with_made made s)) with (named s).
    destruct (disk_rules _ _ _ _ _ _) as [made'| |]; cbn; auto. by apply IH. }
  intros Hp%safe_more%Hgo. destruct s as [? ? ? made0 ?]. eapply safe_mono; [exact Hp|].
  intros o s' (made & -> & HQ & Hm). split; [by exists made|]. by exists made.
Qed.

(** Reads. *)
Lemma safe_download_reads c {A} (p : io A) w s :
  calls_only (@reads _) p →
  safe (download_on_disks c) (on_ivd p w) (λ o s', s' = s ∧ match o with
    | Returned (w', _) => w' = w | Panicked _ => True | Hung _ => False end) s.
Proof.
  intros Hp.
  assert (Hplain : ∀ X (e : Cmd X), reads e = true → plain e = true) by (unfold plain; by intros X []).
  eapply safe_mono; [apply (safe_on_ivd_kube _ _ _ (λ o s', match o with Hung _ => False | _ => s' = s end));
    [by eapply calls_only_mono; [exact Hplain|]|]|].
  - apply (safe_calls_only (@reads _)); [|exact Hp]. unfold kube_rules, download_on_disks, download_rules.
    clear. intros s X e x. destruct e; cbn; try congruence; try (intros ->); try done; destruct k; cbn; congruence.
  - intros [[w' a]|m|m] s' Ho; cbn in *; naive_solver.
Qed.

(** The entity of an ID. *)
Lemma GetProtectedEntity_spec s3Config id w :
  safe no_rules (GetProtectedEntity s3Config id w) (λ o _, may_panic (λ '(w', r),
    same_config w w' ∧ match r with Ok this => ie_id this = id | Err _ => True end) o) tt.
Proof.
  unfold GetProtectedEntity. apply (safe_any_seq _ _ (λ '(w', _), same_config w w')); [apply safe_check_config|].
  intros [w' [e|]] Hw; [done|]. unfold newIVDProtectedEntity, withConfig.
  destruct (tm_vcenterConfig _); [|done]. cbn. by destruct (getDataTransports _ _).
Qed.

Lemma idle_GetProtectedEntity s3Config id w : calls_only (@idle _) (GetProtectedEntity s3Config id w).
Proof.
  unfold GetProtectedEntity, newIVDProtectedEntity, withConfig.
  apply calls_only_bind; [apply idle_check|]. intros [w' [e|]]; calls_tac.
Qed.

(** An idle call of pkg/ivd. *)
Lemma disk_idle c {A} (p : vio (world * A)) (P : A → Prop) w s :
  dd_started s = true → dd_done s = false → calls_only (@idle _) p →
  safe no_rules p (λ o _, may_panic (λ '(w', a), same_config w w' ∧ P a) o) tt →
  safe (download_on_disks c) (let! (w', x) := svim p in on_ivd (Ret x) w')
    (λ o s', s' = s ∧ may_panic (λ '(w', a), same_config w w' ∧ P a) o) s.
Proof.
  intros Hs Hd Hi Hp.
  eapply safe_seq; [apply safe_svim_disks; [done..|]; apply (safe_no_rules (@idle _));
    [intros; by apply disk_rules_idle|exact Hi|exact Hp]|..].
  - intros [w' x] s' (_ & made & -> & -> & Ho). split; [by destruct s|exact Ho].
  - intros m s' (_ & made & -> & -> & _). split; [by destruct s|done].
  - by intros m s' (_ & made & _ & _ & []).
Qed.

Lemma disk_get c m id w s :
  dd_started s = true → dd_done s = false →
  safe (download_on_disks c) (on_ivd (call (PetmGetProtectedEntity m id)) w) (λ o s', s' = s ∧
    may_panic (λ '(w', r), same_config w w' ∧
      (PETM_IsIVD m = true → ∀ pe, r = Ok pe → ∃ this, pe = PE_of_ivd false this ∧ ie_id this = id)) o) s.
Proof.
  intros Hs Hd. cbn [call on_ivd ivd_call].
  destruct (PETM_IsIVD m) eqn:Hm; [|destruct (wraps_ivd m)].
  - apply disk_idle; [done..| |].
    + apply calls_only_bind; [apply idle_GetProtectedEntity|]. by intros [w' r].
    + eapply safe_any_seq; [apply GetProtectedEntity_spec|]. intros [w' r] [Hw Hr]. split; [done|].
      intros _ pe. destruct r as [this|e]; [|done]. intros [= <-]. eauto.
  - apply disk_idle; [done..| |].
    + apply calls_only_bind; [apply idle_GetProtectedEntity|]. by intros [w' [r|e]].
    + eapply safe_any_seq; [apply GetProtectedEntity_spec|]. intros [w' r] [Hw Hr]. by destruct r.
  - by intros x.
Qed.

(** What a copy from the repository does. *)
Definition downloaded (s : disk_download) (o : outcome (world * result PEID)) (s' : disk_download) : Prop :=
  going s s' ∧ may_panic (λ '(_, r), match r with
    | Ok id => named s = Some id ∨ answers (dd_made s') id | Err _ => True end) o.

Lemma disk_copyFromRepo d peID target m options w s :
  PETM_IsIVD (dm_ivdPETM d) = true → dd_started s = true → dd_done s = false →
  (named s = None ∧ options = AllocateNewObject ∨ named s = Some target ∧ options = UpdateExistingObject) →
  safe (download_on_disks (tm_vcenterConfig (w_tm w))) (on_ivd (copyFromRepo d peID target m options) w)
    (downloaded s) s.
Proof.
  intros Hd Hs Hn Ho. pose proof (going_refl s) as Hrefl. unfold copyFromRepo.
  eapply safe_on_ivd_seq; [by apply disk_get|..]; [|by intros m' s' [-> _]|by intros m' s' [_ []]].
  intros w1 [pe|e] s' [-> Hw1]; [|done]. destruct Hw1 as [Hw1 _]. rewrite <- Hw1.
  destruct Ho as [[Hnm ->]|[Hnm ->]].
  - rewrite bool_decide_false by done. cbn [call on_ivd ivd_call bind]. rewrite Hd.
    eapply safe_seq; [apply (safe_svim_disks _ _ (settles w1 (λ r made, match r with
      | Ok pe => answers made (PE_GetID pe) | Err _ => True end))); [done..|]|..].
    + eapply safe_seq; [apply safe_Copy|..]; [|done..].
      intros [w2 [this|e]] made Hg; [|exact Hg]. destruct Hg as [Hw2 Ha].
      split; [exact Hw2|]. cbn. by rewrite PE_GetID_of_ivd.
    + intros [w2 [pe'|e]] s' (Hm & made & -> & Hw2 & Ha); cbn; (split; [exact Hm|]); [|done]. by right.
    + by intros m' s' (Hm & _).
    + by intros m' s' (_ & made & _ & []).
  - rewrite bool_decide_true by done.
    eapply safe_on_ivd_seq; [by apply disk_get|..]; [|by intros m' s' [-> _]|by intros m' s' [_ []]].
    intros w2 [tpe|e] s' [-> [Hw2 Ht]]; [|done]. destruct (Ht Hd tpe eq_refl) as (this & -> & Hid).
    rewrite <- Hw2. cbn [call on_ivd ivd_call bind]. rewrite ivd_of_PE_of_ivd.
    eapply safe_seq; [apply (safe_svim_disks _ _ (λ o _, may_panic (λ _, True) o)); [done..|]|..].
    + apply safe_Overwrite. by rewrite Hnm, Hid.
    + intros [w3 [e|]] s' (Hm & made & -> & _); cbn; (split; [exact Hm|]); [done|]. left.
      by rewrite PE_GetID_of_ivd, Hid.
    + by intros m' s' (Hm & _).
    + by intros m' s' (_ & made & _ & []).
Qed.

Lemma disk_withLock d (find : io (result S3PETM)) peID target options w s :
  PETM_IsIVD (dm_ivdPETM d) = true → dd_started s = true → dd_done s = false →
  (named s = None ∧ options = AllocateNewObject ∨ named s = Some target ∧ options = UpdateExistingObject) →
  calls_only (@reads _) find →
  safe (download_on_disks (tm_vcenterConfig (w_tm w)))
    (on_ivd (withReloadConfigLock (let? m := find else e => Ret (Err e) in
       copyFromRepo d peID target m options)) w) (downloaded s) s.
Proof.
  intros Hd Hs Hn Ho Hf. unfold withReloadConfigLock. intros []. cbn [download_on_disks download_rules bind].
  apply safe_on_ivd_defer. eapply (safe_mono _ _ (downloaded s)).
  - eapply safe_on_ivd_seq; [by apply safe_download_reads|..].
    + intros w' [m|e] s' [-> ->]; [by apply disk_copyFromRepo|]. split; [apply going_refl|done].
    + intros m s' [-> _]. split; [apply going_refl|done].
    + by intros m s' [_ []].
  - intros [[w' r]|m|m] s' Hr; cbn; [by intros []| |by destruct Hr]. split; [exact Hr|]. by intros w' [].
Qed.

Lemma disk_copyDownload ctl req peID target options w s :
  PETM_IsIVD (dm_ivdPETM (dc_dataMover ctl)) = true → dd_started s = true → dd_done s = false →
  (named s = None ∧ options = AllocateNewObject ∨ named s = Some target ∧ options = UpdateExistingObject) →
  safe (download_on_disks (tm_vcenterConfig (w_tm w))) (on_ivd (copyDownload ctl req peID target options) w)
    (λ o s', going s s' ∧ may_panic (λ '(_, r), match r with
      | Ok (Ok id) => named s = Some id ∨ answers (dd_made s') id | _ => True end) o) s.
Proof.
  intros Hd Hs Hn Ho. unfold copyDownload.
  assert (Hgo : ∀ p : io (result PEID),
    safe (download_on_disks (tm_vcenterConfig (w_tm w))) (on_ivd p w) (downloaded s) s →
    safe (download_on_disks (tm_vcenterConfig (w_tm w))) (on_ivd (let! r := p in Ret (Ok r)) w)
      (λ o s', going s s' ∧ may_panic (λ '(_, r), match r with
        | Ok (Ok id) => named s = Some id ∨ answers (dd_made s') id | _ => True end) o) s).
  { intros p Hp. eapply safe_on_ivd_seq; [exact Hp|..]; [|by intros m s' [Hg _]|by intros m s' [_ []]].
    intros w' r s' [Hg Hr]. split; [exact Hg|]. by destruct r. }
  destruct (_ && _).
  - eapply safe_on_ivd_seq; [apply safe_download_reads; auto with calls|..]; [| |by intros m s' [_ []]].
    + intros w' [br|e] s' [-> ->]; [|split; [apply going_refl|done]]. apply Hgo, disk_withLock; auto with calls.
    + intros m s' [-> _]. split; [apply going_refl|done].
  - apply Hgo, disk_withLock; auto with calls.
Qed.

Lemma plain_patch_download ctl req p msg : calls_only (@plain _ _ _) (patchDownloadByStatusWithRetry ctl req p msg).
Proof.
  unfold patchDownloadByStatusWithRetry, patchDownloadByStatus, patchDownload, mutateDownloadCompleted,
    mutateDownloadFailed, mutateDownloadRetry, mutateDownloadInProgress. calls_all.
Qed.

Lemma disk_patch c ctl req p msg w s :
  dd_done s = false →
  match p with
  | DownloadPhaseInProgress => vo_made (dd_made s) = []
  | DownloadPhaseCompleted => dd_started s = true ∧ completes s msg = true
  | DownLoadPhaseRetry => dd_started s = true
  | _ => False
  end →
  safe (download_on_disks c) (on_ivd (patchDownloadByStatusWithRetry ctl req p msg) w) (λ o s', match o with
    | Returned (w', Ok d) => w' = w ∧ dd_first s' = dd_first s ∧ dd_made s' = dd_made s ∧ dd_record s' = Some d ∧
        (p = DownloadPhaseInProgress → dd_started s' = true ∧ dd_done s' = false) ∧
        (p = DownloadPhaseCompleted → dd_done s' = true)
    | Returned (w', Err _) => w' = w ∧ s' = s
    | _ => False
    end) s.
Proof.
  intros Hd Hp. eapply safe_mono; [apply safe_on_ivd_kube; [apply plain_patch_download|]|].
  - apply (safe_patchDownloadByStatusWithRetry (kube_rules (download_on_disks c)) ctl (λ s', s' = s)
      (λ d s', dd_first s' = dd_first s ∧ dd_made s' = dd_made s ∧ dd_record s' = Some d ∧
        (p = DownloadPhaseInProgress → dd_started s' = true ∧ dd_done s' = false) ∧
        (p = DownloadPhaseCompleted → dd_done s' = true))); [done|].
    intros s' old new -> [Hspec Hmeta] [Hspec' Hmeta'] Hwr _ r.
    apply (accepts_next (on_disk_patch new r s)).
    + unfold kube_rules, download_on_disks, download_rules.
      rewrite Hmeta, Hmeta', Hspec, Hspec', Hd, (bool_decide_true (_ ∧ _)) by done.
      assert (Hm : may_record_on_disk s old new = true).
      { unfold may_record_on_disk.
        destruct Hwr as [-> -> -> _ | -> -> Hc _ _ | -> -> Hc _ _ | -> -> _]; cbn in Hp.
        - by destruct Hp as [-> ->].
        - rewrite Hp. by apply Z.leb_le.
        - rewrite Hp. by apply Z.ltb_lt.
        - by rewrite bool_decide_true. }
      by rewrite Hm.
    + destruct r as [d|e]; [|done]. cbn.
      split_and!; [done..| |]; intros ->; destruct Hwr; try done; [split|]; try by rewrite bool_decide_true, orb_true_r.
      rewrite Hd. by apply bool_decide_false; congruence.
  - intros [[w' [d|e]]|m|m] s' Ho; cbn in *; try done; naive_solver.
Qed.

Lemma completes_answered s id :
  named s = Some id ∨ answers (dd_made s) id → completes s (PEIDString id) = true.
Proof.
  intros Hid. unfold completes. rewrite !orb_true_iff. destruct Hid as [Hid|[(v & Hv & ->)|[Hm ->]]].
  - left. left. apply bool_decide_true. by rewrite Hid.
  - left. right. apply existsb_exists. exists v. split; [by apply list_elem_of_In|]. by apply bool_decide_true.
  - right. by apply bool_decide_true.
Qed.

Lemma named_target s req options target :
  dd_record s = Some req → downloadTarget req = Ok (options, target) →
  named s = None ∧ options = AllocateNewObject ∨ named s = Some target ∧ options = UpdateExistingObject.
Proof.
  intros Hr. unfold downloadTarget, named. rewrite Hr. case_bool_decide; [|intros [= <- <-]; by left].
  destruct (NewProtectedEntityIDFromString _); [|done]. intros [= <- <-]. by right.
Qed.

(** How a download may end: nil means that it was complete, or that its completion was recorded. *)
Definition disk_download_ended (o : outcome (world * option error)) (s : disk_download) : Prop :=
  match o with
  | Returned (_, None) => dd_first s = Some DownloadPhaseCompleted ∨ dd_done s = true
  | Returned (_, Some _) | Panicked _ => True
  | Hung _ => False
  end.

Lemma disk_doDownload ctl req w s :
  PETM_IsIVD (dm_ivdPETM (dc_dataMover ctl)) = true → dd_started s = true → dd_done s = false →
  dd_record s = Some req →
  safe (download_on_disks (tm_vcenterConfig (w_tm w))) (on_ivd (doDownload ctl req) w) disk_download_ended s.
Proof.
  intros Hd Hs Hn Hr. unfold doDownload.
  assert (Hretry : ∀ msg (f : result Download → error) w' s', dd_started s' = true → dd_done s' = false →
    safe (download_on_disks (tm_vcenterConfig (w_tm w))) (on_ivd (let! r :=
      patchDownloadByStatusWithRetry ctl req DownLoadPhaseRetry msg in Ret (Some (f r))) w') disk_download_ended s').
  { intros msg f w' s' Hs' Hn'. eapply safe_on_ivd_seq; [by apply disk_patch|..]; [|done..]. by intros w2 r s2 _. }
  destruct (NewProtectedEntityIDFromString (ds_SnapshotID _)) as [peID|e]; [|by apply Hretry].
  destruct (downloadTarget req) as [[options target]|e] eqn:Ht; [|done].
  eapply safe_on_ivd_seq; [apply disk_copyDownload; [done..|by eapply named_target]|..]; [|done|by intros m s' [_ []]].
  intros w' [[id|e]|e] s' [Hg Hid]; [| |done].
  - apply going_fields in Hg as (Hr' & Hf & Hs' & Hn' & Hnm). rewrite <- Hnm in Hid.
    eapply safe_on_ivd_seq; [apply disk_patch; [congruence|split; [congruence|by apply completes_answered]]|..];
      [|done..].
    intros w2 [d|e] s2; [|done]. intros (_ & _ & _ & _ & _ & Hdone). right. auto.
  - apply going_fields in Hg as (Hr' & Hf & Hs' & Hn' & _). apply Hretry; congruence.
Qed.

(** C9. The download controller and the data mover on pkg/ivd, whatever vCenter, the
    API servers and the repositories answer: pkg/ivd is asked for something only while the
    server holds the Download as in progress, and of the tasks of vCenter it waits for the
    one it asked for last; every call that labels a volume names the cluster of the
    manager's configuration; a disk is opened only when it is that of the volume that the
    record names to be overwritten or of one made in this run that carries the labels, made
    with them or labelled by a task that succeeded; Completed is recorded only with the ID
    of such a volume or, when the entity of one that was made and labelled could not be
    made, with an empty ID, and it is the last record; the run ends, and a nil result means
    that it was complete before or is now. *)
Theorem processDownload_on_ivd ctl req w :
  PETM_IsIVD (dm_ivdPETM (dc_dataMover ctl)) = true →
  safe (download_on_disks (tm_vcenterConfig (w_tm w))) (on_ivd (processDownload ctl req) w)
    disk_download_ended disk_download_start.
Proof.
  intros Hd. unfold processDownload. cbn [on_ivd bind call ivd_call]. intros [d|e]; [|done].
  cbn [download_on_disks download_rules dd_first disk_download_start].
  set (s := on_disk_read d disk_download_start). cbn [bind].
  case_bool_decide as Hc; [by left; cbn; rewrite Hc|].
  case_bool_decide as Hp.
  - eapply safe_on_ivd_seq; [by apply disk_patch|..]; [|done..].
    intros w' [d'|e] s'; [|done]. intros (-> & _ & _ & Hr & Hst & _).
    destruct (Hst eq_refl). by apply disk_doDownload.
  - apply disk_doDownload; try done. cbn. by rewrite bool_decide_true.
Qed.
End download.
