(* ===== verification/DiskRuns.v ===== *)
(** * Disks of one vCenter behind astrolabe

    An instance of astrolabe whose entities are those of pkg/ivd, on which the theorems
    on the snapshot manager over pkg/ivd apply. *)

From S2P Require Export IvdRuns IvdComposition UploadOnDisks DownloadOnDisks.
Open Scope Z_scope.

(** An entity is wrapped by the data manager's type manager or not, and has an ID and
    transports. *)
Definition disk_entity : Type := bool * (peid * list DataTransport).

Definition disk_id (e : disk_entity) : peid := e.2.1.

#[export] Instance disks : Deps := concrete_deps disk_entity disk_id.
#[export] Instance disks_v : @VDeps disks := concrete_vdeps disk_entity disk_id.

Definition of_disk (b : bool) (e : @Ivd.IVDProtectedEntity disks) : disk_entity :=
  (b, (Ivd.ie_id e, Ivd.ie_data e)).

Definition to_disk (e : disk_entity) : option (bool * @Ivd.IVDProtectedEntity disks) :=
  Some (e.1, @Ivd.Build_IVDProtectedEntity disks e.2.1 e.2.2).

Lemma to_of_disk b e : to_disk (of_disk b e) = Some (b, e).
Proof. by destruct e. Qed.

Lemma to_disk_id (pe : @PE disks) b (e : @Ivd.IVDProtectedEntity disks) :
  to_disk pe = Some (b, e) → PE_GetID pe = Ivd.ie_id e.
Proof. by intros [= <- <-]. Qed.

#[export] Instance disk_entities : @IvdEntities disks disks_v :=
  @Build_IvdEntities disks disks_v of_disk to_disk to_of_disk (λ _ _, eq_refl) to_disk_id tt.

(** A disk, and its snapshot. *)
Definition a_disk : PEID := PeId "ivd" "disk-1" None.
Definition a_disk_snapshot : PEID := PeId "ivd" "disk-1" (Some "snap-1").

(** Creating a snapshot through a manager whose session with vCenter has expired. *)
Lemma createSnapshot_on_ivd_witness :
  GetPeType a_disk = "ivd" ∧
  safe (on_disk (taking_again a_disk))
    (on_ivd
      (createSnapshot {| sm_clusterFlavor := VSphere |} a_disk "br-1" "ns/snap-1" "backup-1") expired)
    (λ o s, match o with
    | Returned (_, (id, _, err)) =>
        (∃ sid, has_snapshot sid s ∧ id = IDWithSnapshot a_disk sid) ∨
        (no_snapshot s ∧ id = PEID_zero ∧ err ≠ None)
    | Panicked _ => True
    | Hung _ => False
    end) (Idle 0).
Proof.
  split; [done|].
  by apply (createSnapshot_on_ivd {| sm_clusterFlavor := VSphere |} a_disk).
Defined.

Lemma deleteSnapshotFromRepo_on_ivd_witness :
  GetPeType a_disk_snapshot = "ivd" ∧ HasSnapshot a_disk_snapshot = true ∧
  safe (on_disk (deleting_again "disk-1" "snap-1"))
    (on_ivd
      (deleteSnapshotFromRepo a_disk_snapshot (Some (TmDataManager TmIvd : PETM))) expired)
    (λ o s, match o with
    | Returned (_, None) => HasSnapshot a_disk_snapshot = false ∨ is_gone s = true
    | Returned (_, Some _) => not_deleted s
    | Panicked _ => True
    | Hung _ => False
    end) Undeleted.
Proof.
  split; [done|]. split; [done|].
  by apply (@deleteSnapshotFromRepo_on_ivd disks disks_v disk_entities a_disk_snapshot
    (TmDataManager TmIvd) TmIvd expired).
Defined.

(** ** A vSphere cluster *)

Definition a_location : BackupStorageLocation := {|
  bsl_Meta := meta "velero" "default" ∅; bsl_Provider := "aws"; bsl_Config := {["region" := "eu"]};
  bsl_Bucket := Some "backups"; bsl_CACert := None |}.

(** The plugin is in the namespace [velero], and the default storage location can be read. *)
Definition vsphere_cluster {E f X} (e : @Cmd (concrete_deps E f) X) : X :=
  match e in Cmd X return X with
  | LookupEnv _ => Some "velero"
  | LoadClientConfig => Ok {| rc_Host := "api"; rc_CAData := ""; rc_BearerToken := ""; rc_handle := 0%N |}
  | NewForConfig c => Ok (Client c)
  | GetObj _ k ns name =>
      match k return result (obj k) with
      | KConfigMap => Ok {| cm_Meta := meta ns name ∅; cm_Data := {[ConfigClusterFlavorKey := "VANILLA"]} |}
      | KBackupStorageLocation => Ok a_location
      | KNamespace => Ok {| ns_Meta := meta "" name ∅ |}
      | _ => Err unavailable
      end
  | ListSelected _ _ _ _ => Ok []
  | NewSession _ => None
  | NewS3Repository _ _ _ => Ok tt
  | PemGetTypeManager "ivd" => Some TmIvd
  | e => default_answer e
  end.

(** ** A download *)

(** A manager with a session, and what vCenter and the API server answer: one node, on the one
    host, which has one datastore; the volume made is [fcd-1]. *)
Definition live_vc : VirtualCenter := {|
  vc_Config := Some (config "vc1"); vc_Client := Some {| vim_handle := 2; vim_URLHost := "vc1" |};
  vc_CnsClient := Some 2%N; vc_VslmClient := Some 2%N |}.

Definition live : Ivd.world := Ivd.World [live_vc] {|
  Ivd.tm_vcenterConfig := Some (config "vc1"); Ivd.tm_vcenter := Some 0%nat;
  Ivd.tm_vslmManager := Some {| vm_virtualCenter := 0; vm_vsom := 2 |};
  Ivd.tm_cnsManager := Some {| cm_virtualCenter := 0; cm_cnsClient := 2 |} |}.

Definition a_host : ManagedObjectReference := {| mor_Type := "HostSystem"; mor_Value := "host-1" |}.
Definition a_datastore : ManagedObjectReference := {| mor_Type := "Datastore"; mor_Value := "ds-1" |}.

Definition one_host {X} (e : VCmd X) : X :=
  match e in VCmd X return X with
  | SrcGetInfo _ => Ok {| pi_ID := a_disk_snapshot; pi_Name := "disk"; pi_Size := 1; pi_DataTransports := [] |}
  | SrcGetDataReader _ => Ok (Some 5%N)
  | SrcGetMetadataReader _ => Ok 6%N
  | ReadStream _ => ("volume", None)
  | InClusterConfig => Ok {| rc_Host := "api"; rc_CAData := ""; rc_BearerToken := ""; rc_handle := 0%N |}
  | ListNodes _ => Ok [("node-1", "uid-1")]
  | DatacenterList _ => Ok ["dc"]
  | VirtualMachineList _ _ => Ok [a_host]
  | RetrieveVMs _ _ => Ok [(Some "node-1", Some a_host)]
  | Ancestors _ _ => Ok [(true, "dc", "Datacenter")]
  | DatastoreList _ _ => Ok [a_datastore]
  | DatastoreType _ _ => Ok "VMFS"
  | AttachedHosts _ _ => Ok [a_host]
  | CnsCreateVolume _ _ => Ok 1%N
  | GetTaskInfo _ => Ok 1%N
  | GetTaskResult _ => Ok (Some (inr "fcd-1"))
  | VslmRetrieve _ id => Ok {| vso_Id := id; vso_Name := "volume"; vso_CapacityInMB := 1; vso_Datastore := a_datastore |}
  | GetThumbPrintForURL _ => Ok "thumb"
  | DiskOpen _ => Ok 7%N
  | e => (vcenter_of disk_entity disk_id None _ e 0%nat).1
  end.

(** The state has the record of the server and the disks that were opened. *)
Definition download_env : handler Cmd (Download * list string) := λ X e s,
  match e in Cmd X return X * (Download * list string) with
  | GetObj c k ns name =>
      match k return result (obj k) * (Download * list string) with
      | KDownload => (Ok s.1, s)
      | k => (vsphere_cluster (E := disk_entity) (f := disk_id) (GetObj c k ns name), s)
      end
  | PatchObj _ k _ _ _ new =>
      match k return obj k → result (obj k) * (Download * list string) with
      | KDownload => λ new, (Ok new, (new, s.2))
      | _ => λ _, (Err unavailable, s)
      end new
  | PetmGetProtectedEntity _ id => (Ok ((false, (id, [])) : disk_entity), s)
  | e => (vsphere_cluster (E := disk_entity) (f := disk_id) e, s)
  end.

Definition download_vcenter : handler VCmd (Download * list string) := λ X e s,
  (one_host e, match e with DiskOpen p => (s.1, s.2 ++ [cp_fcdId p]) | _ => s end).

Definition download_server : handler SCmd (Download * list string) := λ X e s,
  match e in SCmd X return X * (Download * list string) with
  | SKube e => download_env _ e s
  | SVim e => download_vcenter _ e s
  | FactoryClientConfig | BuildConfigFromFlags _ _ => (Err unavailable, s)
  | FactoryNamespace => ("velero", s)
  | NewIvdManager _ => (TmIvd, s)
  | WaitForCacheSync _ => (true, s)
  | RegisterPETM _ | Go _ | NewDirectPEM _ | ShutDownQueue _ | AwaitDone | WgAdd _ | WgWait | CancelOnShutdown _ => (tt, s)
  end.

Definition a_download_controller : downloadController := {|
  dc_downloadClient := a_client; dc_nodeName := "node-1"; dc_dataMover := {| dm_ivdPETM := TmIvd |} |}.

Definition a_download : Download :=
  Download.Phase DownloadPhaseNew (Download.SnapshotID "ivd:disk-1:snap-1" (Download.ForDownload "velero" "download-1")).

(** The download makes a volume, opens its disk and no other, and records it. *)
Lemma processDownload_on_ivd_witness :
  PETM_IsIVD (dm_ivdPETM (dc_dataMover a_download_controller)) = true ∧
  match run download_server (on_ivd (processDownload a_download_controller a_download) live) (a_download, []) with
  | (Returned (_, None), (record, opened)) =>
      d_Phase record = DownloadPhaseCompleted ∧ ds_VolumeID (d_Status record) = "ivd:fcd-1" ∧ opened = ["fcd-1"]
  | _ => False
  end ∧
  safe (download_on_disks (Some (config "vc1"))) (on_ivd (processDownload a_download_controller a_download) live)
    disk_download_ended disk_download_start.
Proof.
  split; [done|]. split; [by vm_compute|].
  by apply (processDownload_on_ivd a_download_controller a_download live).
Defined.

(** ** An upload *)

(** The server has the record, and vCenter the snapshots of the disk; a copy answers the entity
    that it was given. *)
Definition upload_env : handler Cmd (Upload * list string) := λ X e s,
  match e in Cmd X return X * (Upload * list string) with
  | GetObj c k ns name =>
      match k return result (obj k) * (Upload * list string) with
      | KUpload => (Ok s.1, s)
      | k => (vsphere_cluster (E := disk_entity) (f := disk_id) (GetObj c k ns name), s)
      end
  | PatchObj _ k _ _ _ new =>
      match k return obj k → result (obj k) * (Upload * list string) with
      | KUpload => λ new, (Ok new, (new, s.2))
      | _ => λ _, (Err unavailable, s)
      end new
  | PemGetTypeManager "ivd" => (Some (TmDataManager TmIvd), s)
  | PetmCopy _ _ pe _ => (Ok pe, s)
  | e => (vsphere_cluster (E := disk_entity) (f := disk_id) e, s)
  end.

Definition upload_vcenter : handler VCmd (Upload * list string) := λ X e s,
  match e in VCmd X return X * (Upload * list string) with
  | VslmRetrieveSnapshotInfo _ _ => (Ok s.2, s)
  | VslmDeleteSnapshot _ _ snap => (Ok 3%N, (s.1, filter (λ x, x ≠ snap) s.2))
  | e => (one_host e, s)
  end.

Definition upload_server : handler SCmd (Upload * list string) := λ X e s,
  match e in SCmd X return X * (Upload * list string) with
  | SKube e => upload_env _ e s
  | SVim e => upload_vcenter _ e s
  | FactoryClientConfig | BuildConfigFromFlags _ _ => (Err unavailable, s)
  | FactoryNamespace => ("velero", s)
  | NewIvdManager _ => (TmIvd, s)
  | WaitForCacheSync _ => (true, s)
  | RegisterPETM _ | Go _ | NewDirectPEM _ | ShutDownQueue _ | AwaitDone | WgAdd _ | WgWait | CancelOnShutdown _ => (tt, s)
  end.

Definition an_upload_controller : uploadController := {|
  uc_uploadClient := a_client; uc_nodeName := "node-1"; uc_dataMover := {| dm_ivdPETM := TmIvd |};
  uc_snapMgr := {| sm_clusterFlavor := VSphere |}; uc_externalDataMgr := false |}.

Definition upload_of_disk : Upload :=
  Upload.Phase UploadPhaseNew (Upload.SnapshotID "ivd:disk-1:snap-1" (Upload.ForUpload "velero" "upload-1")).

(** The upload is completed, and of the snapshots of the disk the one it was made from is gone. *)
Lemma processUpload_on_ivd_witness :
  match run upload_server (on_ivd (processUpload an_upload_controller upload_of_disk) live)
    (upload_of_disk, ["snap-0"; "snap-1"]) with
  | (Returned (_, None), (record, snapshots)) => u_Phase record = UploadPhaseCompleted ∧ snapshots = ["snap-0"]
  | _ => False
  end ∧
  safe upload_on_disks (on_ivd (processUpload an_upload_controller upload_of_disk) live)
    disk_upload_ended disk_upload_start.
Proof.
  split; [by vm_compute|]. apply (processUpload_on_ivd an_upload_controller upload_of_disk live).
Defined.
