(* ===== verification/Servers.v ===== *)
(** * The servers (pkg/cmd/datamgr, pkg/cmd/backupdriver, generic_controller.go)

    How a controller runs its workers and stops, which handler an informer's event
    reaches in the backup driver, and what the two servers build and start. *)

From S2P Require Export Construction BackupDriverSync VcConfigController UploadController DownloadController.
Open Scope Z_scope.

Definition NODE_NAME : string := "NODE_NAME".
Definition VC_PASSWORD : string := "VC_PASSWORD".

Section servers.
Context `{SDeps}.

(** ** The generic controller *)

Fixpoint goAll (gs : list goroutine) : sio unit :=
  match gs with
  | [] => Ret tt
  | g :: gs => call (Go g) ;;; goAll gs
  end.

(** [for i := 0; i < n; i++ { go ... }] *)
Fixpoint goTimes (n : nat) (gs : list goroutine) : sio unit :=
  match n with
  | O => Ret tt
  | S n => goAll gs ;;; goTimes n gs
  end.

(** The counter of the wait group keeps a negative number after the panic.  [resync] is the period of the function called from time to time, if there is one; the
    handler of [c] is always there. *)
Definition startWorkers (c : genericController) (resync : option Z) (cacheSyncWaiters : list string)
    (numWorkers : Z) : sio (option error) :=
  let! synced := call (A := bool) (WaitForCacheSync cacheSyncWaiters) in
  if negb synced then Ret (Some (ErrorString "timed out waiting for caches to sync"))
  else
    call (WgAdd numWorkers) ;;;
    (if numWorkers <? 0 then Panic "sync: negative WaitGroup counter"
     else goTimes (Z.to_nat numWorkers) [UntilWorker (gc_queue c) Second]) ;;;
    (match resync with
     | None => Ret tt
     | Some resyncPeriod =>
         if bool_decide (resyncPeriod = 0) then Panic "non-zero resyncPeriod is required"
         else call (WgAdd 1) ;;; call (Go (UntilResync resyncPeriod))
     end) ;;;
    call AwaitDone ;;; Ret None.

Definition Run (c : genericController) (resync : option Z) (cacheSyncWaiters : list string) (numWorkers : Z)
    : sio (option error) :=
  defer (call (ShutDownQueue (gc_queue c)) ;;; call WgWait)
    (startWorkers c resync cacheSyncWaiters numWorkers).

(** ** The backup driver's controller *)

(** The events of its informers that have a handler. *)
Inductive driver_event :=
| SnapshotAdded (s : delta Snapshot) | SnapshotUpdated (s : delta Snapshot) | SnapshotDeleted (s : delta Snapshot)
| CloneAdded (c : delta CloneFromSnapshot)
| ClaimAdded (b : delta BackupRepositoryClaim) | ClaimDeleted (b : delta BackupRepositoryClaim)
| DeleteSnapshotAdded (d : delta DeleteSnapshot) | DeleteSnapshotUpdated (d : delta DeleteSnapshot)
| DeleteSnapshotDeleted (d : delta DeleteSnapshot)
| UploadUpdated (u : delta Upload)
| SvcSnapshotUpdated (s : delta Snapshot)
| SecretAdded (s : Secret) | SecretUpdated (s : Secret).

(** The handler of an event; [filter] is the one of the secrets.  Supervisor snapshots are
    watched in guest clusters, secrets in the others. *)
Definition onDriverEvent (ctrl : backupDriverController) (filter : Secret → bool) (e : driver_event) : io unit :=
  let guest := bool_decide (is_Some (bd_svcKubeConfig ctrl)) in
  match e with
  | SnapshotAdded s | SnapshotUpdated s => enqueueSnapshot s
  | SnapshotDeleted s => delSnapshot ctrl s
  | CloneAdded c => enqueueCloneFromSnapshot c
  | ClaimAdded b => enqueueBackupRepositoryClaim b
  | ClaimDeleted b => dequeBackupRepositoryClaim ctrl b
  | DeleteSnapshotAdded d | DeleteSnapshotUpdated d => enqueueDeleteSnapshot d
  | DeleteSnapshotDeleted d => dequeDeleteSnapshot ctrl d
  | UploadUpdated u => updateUpload u
  | SvcSnapshotUpdated s => if guest then updateSvcSnapshot s else Ret tt
  | SecretAdded s | SecretUpdated s =>
      if guest then Ret tt else if filter s then enqueueSecret (Object s) else Ret tt
  end.

(** The caches that must be filled before a worker starts. *)
Definition driverCacheSyncs (ctrl : backupDriverController) : list string :=
  ["persistentvolumeclaims"; "persistentvolumes"; "backuprepositories"; "backuprepositoryclaims";
   "snapshots"; "clonefromsnapshots"; "deletesnapshots"; "uploads"] ++
  match bd_svcKubeConfig ctrl with Some _ => ["supervisor snapshots"] | None => ["secrets"] end.

Definition driverQueues : list string :=
  ["backup-driver-claim-queue"; "backup-driver-brc-queue"; "backup-driver-snapshot-queue";
   "backup-driver-clone-queue"; "backup-driver-delete-snapshot-queue"; "backup-driver-upload-queue";
   "backup-driver-svc-snapshot-queue"; "backup-driver-secret-queue"].

(** The queues whose worker is started. *)
Definition driverWorkers (ctrl : backupDriverController) : list string :=
  ["backup-driver-snapshot-queue"; "backup-driver-clone-queue"; "backup-driver-brc-queue";
   "backup-driver-delete-snapshot-queue"; "backup-driver-upload-queue";
   match bd_svcKubeConfig ctrl with
   | Some _ => "backup-driver-svc-snapshot-queue"
   | None => "backup-driver-secret-queue"
   end].

Fixpoint shutDownAll (queues : list string) : sio unit :=
  match queues with
  | [] => Ret tt
  | q :: queues => call (ShutDownQueue q) ;;; shutDownAll queues
  end.

Definition RunDriver (ctrl : backupDriverController) (workers : Z) : sio unit :=
  defer (shutDownAll (rev driverQueues)) (
    let! synced := call (A := bool) (WaitForCacheSync (driverCacheSyncs ctrl)) in
    if negb synced then Ret tt
    else
      goTimes (Z.to_nat workers) ((λ q, UntilWorker q 0) <$> driverWorkers ctrl) ;;;
      call AwaitDone).

(** ** What the servers share *)

Definition BuildConfig (master kubeConfig : string) : sio (result RestConfig) :=
  let! r := (if bool_decide (master ≠ "") || bool_decide (kubeConfig ≠ "")
             then call (BuildConfigFromFlags master kubeConfig) else call FactoryClientConfig) in
  Ret (match r with
       | Ok config => Ok config
       | Err e => Err (ErrorString ("failed to create config: " +:+ Error e))
       end).

Definition namespaceExists (kubeClient : client) (namespace : string) : sio (option error) :=
  let? _ := call (SKube (GetObj kubeClient KNamespace "" namespace)) else e => Ret (Some (WithStack e)) in
  Ret None.

Definition runWith (kubeClient : client) (namespace profilerAddress : string) (runControllers : sio (option error))
    : sio (option error) :=
  let! cancelFunc := call (SKube WithCancel) in
  defer (call (SKube (Cancel cancelFunc))) (
    let! _ := call (CancelOnShutdown cancelFunc) in
    let! _ := (if bool_decide (profilerAddress ≠ "") then call (Go (RunProfiler profilerAddress)) else Ret tt) in
    check! namespaceExists kubeClient namespace else e => Ret (Some e) in
    check! runControllers else e => Ret (Some e) in
    Ret None).
End servers.

(** ** The data manager *)
Module DataServer.
Section data_server.
Context `{SDeps}.

Record serverConfig := {
  profilerAddress : string;
  vCenter : string;
  port : string;
  user : string;
  clusterId : string;
  vcConfigFromSecret : bool;
}.

Record server := {
  namespace : string;
  kubeClient : client;
  pluginClient : client;
  config : serverConfig;
  dataMover : DataMover;
  snapManager : SnapshotMgr;
  externalDataMgr : bool;
  vcConfigSecret : bool;
}.

Definition getVCConfigParams (c : serverConfig) (ps : params) : sio (result params) :=
  if bool_decide (vCenter c = "") then
    Ret (Err (ErrorString "getVCConfigParams: parameter vcenter-address not provided"))
  else if bool_decide (user c = "") then
    Ret (Err (ErrorString "getVCConfigParams: parameter vcenter-user not provided"))
  else
    let! passwd := call (SKube (LookupEnv VC_PASSWORD)) in
    if bool_decide (clusterId c = "") then
      Ret (Err (ErrorString "getVCConfigParams: parameter vcenter-user not provided"))
    else Ret (Ok (<[PortVcParamKey := IString (port c)]> (<[ClusterVcParamKey := IString (clusterId c)]>
      (<[PasswordVcParamKey := IString (default "" passwd)]> (<[UserVcParamKey := IString (user c)]>
      (<[HostVcParamKey := IString (vCenter c)]> ps)))))).

(** The map of the credentials is one: what the snapshot manager's constructor fills in, the
    data mover's finds. *)
Definition newServer (c : serverConfig) : sio (result server) :=
  let? clientConfig := call FactoryClientConfig else e => Ret (Err e) in
  let? kubeClient := clientFromConfig (Some clientConfig) else e => Ret (Err e) in
  let? pluginClient := call (SKube (NewForConfig clientConfig)) else e => Ret (Err e) in
  let? clusterFlavor := skube (GetClusterFlavor (Some clientConfig)) else e => Ret (Err e) in
  let? ivdParams := (if vcConfigFromSecret c then Ret (Ok ∅) else getVCConfigParams c ∅) else e =>
    Ret (Err e) in
  let! (ivdParams, err) := skube (RetrieveVddkLogLevel ivdParams) in
  match err with
  | Some e => Ret (Err e)
  | None =>
      let snapshotMgrConfig := {[VolumeSnapshotterManagerLocation := VolumeSnapshotterDataServer]} in
      let! (configInfo, snapshotMgr) := NewSnapshotManagerFromConfig
        {| ci_ivd := Some ivdParams; ci_pvc := None |} ∅ snapshotMgrConfig (Some clientConfig) in
      match snapshotMgr with
      | Err e => Ret (Err e)
      | Ok snapshotMgr =>
          let! (_, clusterDataMover) := NewDataMoverFromCluster (default ∅ (ci_ivd configInfo)) in
          match clusterDataMover with
          | Err e => Ret (Err e)
          | Ok clusterDataMover =>
              let! ns := call FactoryNamespace in
              Ret (Ok {| namespace := ns; kubeClient := kubeClient; pluginClient := pluginClient;
                         config := c; dataMover := clusterDataMover; snapManager := snapshotMgr;
                         externalDataMgr := bool_decide (clusterFlavor ≠ VSphere);
                         vcConfigSecret := vcConfigFromSecret c |})
          end
      end
  end.

Definition runControllers (s : server) : sio (option error) :=
  let! _ := call (SKube (LookupEnv NODE_NAME)) in
  let! _ := call (SKube (LookupEnv NODE_NAME)) in
  let! _ := (if negb (externalDataMgr s) && vcConfigSecret s then call (Go (RunController "vc-config" 1))
             else Ret tt) in
  goAll [RunController "upload" 1; RunController "download" 1;
         StartInformers "plugin"; StartInformers "kubernetes"] ;;;
  call AwaitDone ;;; call WgWait ;;; Ret None.

Definition runServer (s : server) : sio (option error) :=
  runWith (kubeClient s) (namespace s) (profilerAddress (config s)) (runControllers s).
End data_server.
End DataServer.

(** ** The backup driver *)
Module DriverServer.
Section driver_server.
Context `{SDeps}.

Record serverConfig := {
  profilerAddress : string;
  master : string;
  kubeConfig : string;
  workers : Z;
}.

Record server := {
  namespace : string;
  kubeClient : client;
  backupdriverClient : client;
  datamoverClient : client;
  svcBackupdriverClient : option client;
  svcConfig : option RestConfig;
  svcNamespace : string;
  config : serverConfig;
  snapManager : SnapshotMgr;
}.

(** In a guest cluster: the supervisor's configuration and namespace, and its client. *)
Definition supervisorSetup (clientConfig : RestConfig) : sio (result (RestConfig * string * client)) :=
  let? (svcConfig, svcNamespace) := skube (GetSupervisorConfig (Some clientConfig)) else e => Ret (Err e) in
  let? svcBackupdriverClient := call (SKube (NewForConfig svcConfig)) else e => Ret (Err e) in
  let? _ := call (SKube (NewForConfig svcConfig)) else e => Ret (Err e) in
  let? _ := call (SKube (NewForConfig svcConfig)) else e => Ret (Err e) in
  let! _ := skube (GetSupervisorParameters (Some svcConfig) svcNamespace) in
  Ret (Ok (svcConfig, svcNamespace, svcBackupdriverClient)).

Definition newServer (c : serverConfig) : sio (result server) :=
  let? clientConfig := BuildConfig (master c) (kubeConfig c) else e => Ret (Err e) in
  let? kubeClient := call (SKube (NewForConfig clientConfig)) else e => Ret (Err e) in
  let? _ := call (SKube (NewForConfig clientConfig)) else e => Ret (Err e) in
  let? backupdriverClient := call (SKube (NewForConfig clientConfig)) else e => Ret (Err e) in
  let? datamoverClient := call (SKube (NewForConfig clientConfig)) else e => Ret (Err e) in
  let! localMode := skube (IsFeatureEnabled kubeClient VSphereLocalModeFlag false) in
  let? clusterFlavor := skube (GetClusterFlavor (Some clientConfig)) else e => Ret (Err e) in
  let? svc := (if bool_decide (clusterFlavor = TkgGuest) then
      let? svc := supervisorSetup clientConfig else e => Ret (Err e) in Ret (Ok (Some svc))
    else Ret (Ok None)) else e => Ret (Err e) in
  let pvcConfig := {| pvc_restConfig := Some clientConfig;
                      pvc_svcConfig := (λ '(svcConfig, _, _), svcConfig) <$> svc;
                      pvc_svcNamespace := (λ '(_, svcNamespace, _), svcNamespace) <$> svc |} in
  let snapshotMgrConfig :=
    <[VolumeSnapshotterLocalMode := match svc with Some _ => "true" | None => FormatBool localMode end]>
    {[VolumeSnapshotterManagerLocation := VolumeSnapshotterDataServer]} in
  let! (_, snapshotMgr) := NewSnapshotManagerFromConfig {| ci_ivd := None; ci_pvc := Some pvcConfig |}
    ∅ snapshotMgrConfig (Some clientConfig) in
  match snapshotMgr with
  | Err e => Ret (Err e)
  | Ok snapshotMgr =>
      let! ns := call FactoryNamespace in
      Ret (Ok {| namespace := ns; kubeClient := kubeClient; backupdriverClient := backupdriverClient;
                 datamoverClient := datamoverClient;
                 svcBackupdriverClient := (λ '(_, _, svcClient), svcClient) <$> svc;
                 svcConfig := (λ '(svcConfig, _, _), svcConfig) <$> svc;
                 svcNamespace := match svc with Some (_, svcNamespace, _) => svcNamespace | None => "" end;
                 config := c; snapManager := snapshotMgr |})
  end.

Definition runControllers (s : server) : sio (option error) :=
  goAll ([RunController "BackupDriverController" (workers (config s));
          StartInformers "plugin"; StartInformers "kubernetes"] ++
         match svcConfig s with
         | Some _ => [StartInformers "supervisor kubernetes"; StartInformers "supervisor plugin"]
         | None => []
         end) ;;;
  call AwaitDone ;;; call WgWait ;;; Ret None.

Definition runServer (s : server) : sio (option error) :=
  runWith (kubeClient s) (namespace s) (profilerAddress (config s)) (runControllers s).
End driver_server.
End DriverServer.
