(* ===== verification/RunSystem.v ===== *)
(** * A controller and its goroutines

    Run of the generic controller with the goroutines that it starts, in any interleaving:
    the wait group, the queue that is shut down, and the context that is cancelled. *)

From S2P Require Export Servers ConstructionSpec.
Open Scope Z_scope.

Section run.
Context `{SDeps}.

(** ** The system *)

(** A goroutine of wait.Until: between two calls of its function, in a call, or at its end,
    after [wg.Done]. *)
Inductive body := Pausing | Working | Ended.

#[export] Instance body_eq_dec : EqDecision body.
Proof. solve_decision. Defined.

(** What is left of Run, whether the caches are filled, the counter of the wait group, the
    queues that are shut down, whether the context is done, and the goroutines. *)
Record system := {
  sy_main : sio (option error);
  sy_synced : option bool;
  sy_counter : Z;
  sy_shut : list string;
  sy_done : bool;
  sy_others : list (goroutine * body);
}.

Definition goes_on (p : sio (option error)) (s : system) : system :=
  {| sy_main := p; sy_synced := sy_synced s; sy_counter := sy_counter s; sy_shut := sy_shut s;
     sy_done := sy_done s; sy_others := sy_others s |}.

(** A call of Run; [None] when it blocks.  A wait ends when the counter is zero. *)
Definition effect (s : system) {X} (e : SCmd X) : X → option system :=
  match e in SCmd X return X → option system with
  | WaitForCacheSync _ => λ b, Some {| sy_main := sy_main s; sy_synced := Some b; sy_counter := sy_counter s;
      sy_shut := sy_shut s; sy_done := sy_done s; sy_others := sy_others s |}
  | WgAdd n => λ _, Some {| sy_main := sy_main s; sy_synced := sy_synced s; sy_counter := sy_counter s + n;
      sy_shut := sy_shut s; sy_done := sy_done s; sy_others := sy_others s |}
  | Go g => λ _, Some {| sy_main := sy_main s; sy_synced := sy_synced s; sy_counter := sy_counter s;
      sy_shut := sy_shut s; sy_done := sy_done s; sy_others := sy_others s ++ [(g, Pausing)] |}
  | ShutDownQueue q => λ _, Some {| sy_main := sy_main s; sy_synced := sy_synced s; sy_counter := sy_counter s;
      sy_shut := q :: sy_shut s; sy_done := sy_done s; sy_others := sy_others s |}
  | AwaitDone => λ _, if sy_done s then Some s else None
  | WgWait => λ _, if bool_decide (sy_counter s = 0) then Some s else None
  | _ => λ _, None
  end.

(** wait.Until calls its function again until the context is done.  The worker's function,
    runWorker, returns once its queue is shut down, and not before; that of a resync at any time. *)
Inductive body_step (s : system) : goroutine → body → body → Prop :=
| body_calls g : sy_done s = false → body_step s g Pausing Working
| body_quits q p : q ∈ sy_shut s → body_step s (UntilWorker q p) Working Pausing
| body_resynced p : body_step s (UntilResync p) Working Pausing
| body_ends g : sy_done s = true → body_step s g Pausing Ended.

Definition moved (i : nat) (g : goroutine) (b : body) (s : system) : system :=
  {| sy_main := sy_main s; sy_synced := sy_synced s;
     sy_counter := if bool_decide (b = Ended) then sy_counter s - 1 else sy_counter s;
     sy_shut := sy_shut s; sy_done := sy_done s; sy_others := <[i := (g, b)]> (sy_others s) |}.

Definition cancelled (s : system) : system :=
  {| sy_main := sy_main s; sy_synced := sy_synced s; sy_counter := sy_counter s; sy_shut := sy_shut s;
     sy_done := true; sy_others := sy_others s |}.

Inductive step : system → system → Prop :=
| step_main X (e : SCmd X) k x s s' :
    sy_main s = Do e k → effect s e x = Some s' → step s (goes_on (k x) s')
| step_cancelled s : step s (cancelled s)
| step_other i g b b' s :
    sy_others s !! i = Some (g, b) → body_step s g b b' → step s (moved i g b' s).

Definition run_start (p : sio (option error)) : system :=
  {| sy_main := p; sy_synced := None; sy_counter := 0; sy_shut := []; sy_done := false; sy_others := [] |}.

(** How Run ended, if it did. *)
Definition run_ended (s : system) : option (outcome (option error)) :=
  match sy_main s with Ret r => Some (Returned r) | Panic w => Some (Panicked w) | _ => None end.

(** ** The calls of Run *)

(** Whether the caches are filled, how many goroutines were started and how many the wait
    group was told of, whether the context is done and the queue shut down, and whether Run
    waited. *)
Record running := Running {
  rn_synced : bool;
  rn_started : nat;
  rn_added : Z;
  rn_done : bool;
  rn_shut : bool;
  rn_waited : bool;
}.

Definition not_running : running := Running false 0 0 false false false.

(** A goroutine of the controller of a queue. *)
Definition belongs (queue : string) (g : goroutine) : bool :=
  match g with
  | UntilWorker q p => bool_decide (q = queue ∧ p = Second)
  | UntilResync p => bool_decide (p ≠ 0)
  | _ => false
  end.

(** Those started are those told of, or there are none and the counter is negative. *)
Definition may_wait (started : nat) (added : Z) : bool :=
  bool_decide (added = Z.of_nat started ∨ started = O ∧ added < 0).

Definition run_protocol (queue : string) (numWorkers : Z) : monitor SCmd running := λ s X e,
  let '(Running synced started added isdone shut waited) := s in
  match e in SCmd X return X → verdict running with
  | WaitForCacheSync _ => λ b, if bool_decide (started = O) then Next (Running b started added isdone shut waited)
                               else Violation
  | WgAdd n => λ _, if bool_decide ((n = numWorkers ∨ n = 1) ∧ waited = false)
                    then Next (Running synced started (added + n) isdone shut waited) else Violation
  | Go g => λ _, if synced && negb shut && belongs queue g
                 then Next (Running synced (S started) added isdone shut waited) else Violation
  | AwaitDone => λ _, Next (Running synced started added true shut waited)
  | ShutDownQueue q => λ _, if bool_decide (q = queue) then Next (Running synced started added isdone true waited)
                            else Violation
  | WgWait => λ _, if shut && may_wait started added
                   then Next (Running synced started added isdone shut true) else Violation
  | _ => λ _, Violation
  end.

Definition run_call {X} (e : SCmd X) : bool :=
  match e with
  | WaitForCacheSync _ | WgAdd _ | Go _ | AwaitDone | ShutDownQueue _ | WgWait => true
  | _ => false
  end.

Lemma goTimes_spec queue m n started added :
  safe (run_protocol queue m) (goTimes n [UntilWorker queue Second]) (λ o s, o = Returned tt ∧
    s = Running true (n + started) added false false false) (Running true started added false false false).
Proof.
  revert started. induction n as [|n IH]; intros started; cbn; [done|].
  intros []. rewrite bool_decide_true by done. cbn. eapply safe_mono; [apply IH|].
  intros o s [-> ->]. split; [done|]. f_equal. lia.
Qed.

(** The clean-up, on return and on panic. *)
Lemma run_cleanup {A} queue n synced started added isdone (p : sio A) Q :
  added = Z.of_nat started ∨ started = O ∧ added < 0 →
  safe (run_protocol queue n) p Q (Running synced started added isdone true true) →
  safe (run_protocol queue n) (bind (call (ShutDownQueue queue) ;;; call WgWait) (λ _, p)) Q
    (Running synced started added isdone false false).
Proof.
  intros Ha%(bool_decide_eq_true _) Hp []. cbn -[may_wait]. rewrite bool_decide_true by done. intros [].
  change (safe (run_protocol queue n) p Q (Running synced started added isdone true true)) in Hp.
  cbn -[may_wait]. unfold may_wait. by rewrite Ha.
Qed.

(** How many goroutines there are at the end. *)
Definition all_started (resync : option Z) (numWorkers : Z) (s : running) : Prop :=
  rn_started s = (Z.to_nat numWorkers + (if resync is Some _ then 1 else 0))%nat.

(** The calls of Run, and its end, as far as it gets there. *)
Definition run_left (resync : option Z) (numWorkers : Z) (o : outcome (option error)) (s : running) : Prop :=
  rn_waited s = true ∧
  match o with
  | Returned None => rn_synced s = true ∧ rn_done s = true ∧ 0 ≤ numWorkers ∧ all_started resync numWorkers s
  | Returned (Some _) => rn_synced s = false ∧ rn_started s = O
  | Panicked _ => (numWorkers < 0 ∧ rn_added s < 0) ∨
      (0 ≤ numWorkers ∧ resync = Some 0 ∧ rn_started s = Z.to_nat numWorkers)
  | Hung _ => False
  end.

Lemma Run_left c resync waiters numWorkers :
  safe (run_protocol (gc_queue c) numWorkers) (Run c resync waiters numWorkers) (run_left resync numWorkers) not_running.
Proof.
  unfold Run. apply safe_defer. unfold startWorkers. intros synced. cbn [run_protocol not_running].
  destruct synced; cbn [negb]; [|by apply run_cleanup; [left|]].
  intros []. cbn [run_protocol bind]. rewrite bool_decide_true by auto. rewrite Z.add_0_l. destruct (Z.ltb_spec numWorkers 0).
  { apply run_cleanup; [auto with lia|]. split; [done|]. left. split; [done|]. cbn. lia. }
  eapply safe_seq; [apply goTimes_spec|..]; [|by intros w s []..].
  intros _ s [_ ->]. rewrite Nat.add_0_r.
  destruct resync as [p|]; [case_bool_decide as Hp|].
  - apply run_cleanup; [left; lia|]. split; [done|]. right. subst p. split_and!; [lia|done|cbn; lia].
  - intros []. cbn -[bind call run_left belongs]. rewrite bool_decide_true by auto. intros [].
    cbn -[bind call run_left]. rewrite bool_decide_true by done. intros [].
    apply run_cleanup; [left; lia|]. split; [done|]. split_and!; [done..|unfold all_started; cbn; lia].
  - intros []. apply run_cleanup; [left; lia|]. split; [done|]. split_and!; [done..|unfold all_started; cbn; lia].
Qed.

Lemma calls_Run c resync waiters numWorkers : calls_only (@run_call) (Run c resync waiters numWorkers).
Proof.
  assert (Ht : ∀ n, calls_only (@run_call) (goTimes n [UntilWorker (gc_queue c) Second])).
  { induction n as [|n IH]; [done|]. split; [done|]. intros []. exact IH. }
  unfold Run. apply calls_only_defer; [by calls_tac|]. unfold startWorkers. calls_tac.
Qed.

(** ** Every interleaving *)

Context (c : genericController) (resync : option Z) (waiters : list string) (numWorkers : Z).

Definition is_ended (x : goroutine * body) : Prop := x.2 = Ended.
#[local] Instance is_ended_dec x : Decision (is_ended x).
Proof. unfold is_ended. apply _. Defined.

Definition count_ended (l : list (goroutine * body)) : Z := Z.of_nat (length (filter is_ended l)).

Lemma count_ended_app l l' : count_ended (l ++ l') = count_ended l + count_ended l'.
Proof. unfold count_ended. rewrite filter_app, length_app. lia. Qed.

Lemma count_ended_le l : 0 ≤ count_ended l ≤ Z.of_nat (length l).
Proof. unfold count_ended. pose proof (length_filter is_ended l). lia. Qed.

Lemma count_ended_all l : count_ended l = Z.of_nat (length l) → Forall is_ended l.
Proof.
  induction l as [|x l IH]; [done|]. unfold count_ended in *. rewrite filter_cons. case_decide as Hx; cbn.
  - intros. constructor; [done|]. apply IH. lia.
  - pose proof (length_filter is_ended l). lia.
Qed.

Lemma count_ended_Forall l : Forall is_ended l → count_ended l = Z.of_nat (length l).
Proof.
  induction 1 as [|x l Hx Hl IH]; [done|]. unfold count_ended in *. rewrite filter_cons, decide_True by done.
  cbn [length]. lia.
Qed.

Lemma count_ended_insert l i g b b' :
  l !! i = Some (g, b) → b ≠ Ended →
  count_ended (<[i := (g, b')]> l) = count_ended l + (if bool_decide (b' = Ended) then 1 else 0).
Proof.
  intros Hi Hb. rewrite insert_take_drop by by eapply lookup_lt_Some.
  rewrite <-(take_drop_middle l i (g, b) Hi) at 3. rewrite !count_ended_app.
  change ((g, b') :: drop (S i) l) with ([(g, b')] ++ drop (S i) l).
  change ((g, b) :: drop (S i) l) with ([(g, b)] ++ drop (S i) l). rewrite !count_ended_app.
  assert (count_ended [(g, b)] = 0) as -> by (unfold count_ended; rewrite filter_cons, decide_False by done; done).
  assert (count_ended [(g, b')] = if bool_decide (b' = Ended) then 1 else 0) as ->; [|lia].
  unfold count_ended. rewrite filter_cons. case_bool_decide; [by rewrite decide_True|by rewrite decide_False].
Qed.

(** What the calls so far tell of the system. *)
Record told (r : running) (s : system) : Prop := {
  td_synced : rn_synced r = default false (sy_synced s);
  td_started : rn_started r = length (sy_others s);
  td_filled : rn_started r ≠ O → rn_synced r = true;
  td_belongs : Forall (λ x, belongs (gc_queue c) x.1 = true) (sy_others s);
  td_counter : sy_counter s = rn_added r - count_ended (sy_others s);
  td_added : 0 ≤ numWorkers → 0 ≤ rn_added r;
  td_done : rn_done r = true ∨ 0 < count_ended (sy_others s) → sy_done s = true;
  td_shut : rn_shut r = true → gc_queue c ∈ sy_shut s;
  td_waited : rn_waited r = true → rn_shut r = true ∧ rn_added r = Z.of_nat (rn_started r) ∧ Forall is_ended (sy_others s);
}.

Definition consistent (s : system) : Prop := ∃ r,
  safe (run_protocol (gc_queue c) numWorkers) (sy_main s) (run_left resync numWorkers) r ∧
  calls_only (@run_call) (sy_main s) ∧ told r s.

Lemma told_goes_on r p s : told r s → told r (goes_on p s).
Proof. by intros []. Qed.

Lemma told_effect X (e : SCmd X) x r r' s s' :
  run_protocol (gc_queue c) numWorkers r X e x = Next r' → effect s e x = Some s' → told r s → told r' s'.
Proof.
  intros Hr He Hs. destruct r as [synced started added isdone shut waited], e; try done; cbn in He, Hr.
  - destruct (synced && negb shut && belongs _ _) eqn:Hb; [|done]. simplify_eq.
    apply andb_true_iff in Hb as [[Hsy Hsh]%andb_true_iff Hb]. destruct Hs as [? ? ? ? ? ? ? ? Hw]; cbn in *.
    assert (Hz : count_ended [(g, Pausing)] = 0) by done.
    split; cbn; rewrite ?count_ended_app, ?Hz, ?Z.add_0_r, ?length_app; cbn; auto; [lia| |].
    + apply Forall_app. split; [done|]. by repeat constructor.
    + intros Hwt. destruct (Hw Hwt) as [-> _]. done.
  - case_bool_decide as Hst; [|done]. simplify_eq. destruct Hs; split; cbn in *; auto; done.
  - case_bool_decide; [|done]. simplify_eq. destruct Hs as [? ? ? ? ? ? ? ? Hw]; split; cbn in *; auto.
    + intros _. by left.
    + intros Hwt. destruct (Hw Hwt) as (_ & ? & ?). auto.
  - destruct (sy_done s) eqn:Hd; [|done]. simplify_eq. destruct Hs; split; cbn in *; auto.
  - case_bool_decide as Hn; [|done]. destruct Hn as [Hn ->]. simplify_eq. destruct Hs; split; cbn in *; auto; [lia| |done].
    intros. assert (0 ≤ added) by auto. lia.
  - case_bool_decide as Hz; [|done]. destruct (shut && may_wait started added) eqn:Hm; [|done]. simplify_eq.
    apply andb_true_iff in Hm as [-> Hm%bool_decide_eq_true]. destruct Hs as [? Hst ? ? Hc ? ? ? ?]; cbn in *.
    pose proof (count_ended_le (sy_others s')). assert (added = Z.of_nat started) by (destruct Hm as [|[_ ?]]; lia).
    split; cbn; auto. intros _. split; [done|]. split; [done|]. apply count_ended_all. lia.
Qed.

Lemma told_moved r i g b b' s :
  sy_others s !! i = Some (g, b) → body_step s g b b' → told r s → told r (moved i g b' s).
Proof.
  intros Hi Hb [? ? ? Hbel Hc ? Hd ? Hw].
  assert (Hne : b ≠ Ended) by by destruct Hb. pose proof (count_ended_insert _ _ _ _ b' Hi Hne) as Hcount.
  split; cbn; rewrite ?length_insert, ?Hcount; auto.
  - apply Forall_insert; [done|]. apply (Forall_lookup_1 _ _ _ _ Hbel Hi).
  - case_bool_decide; lia.
  - intros Hde. case_bool_decide as He; [subst b'; by inversion Hb|].
    apply Hd. destruct Hde; [by left|right; lia].
  - intros Hwt. destruct (Hw Hwt) as (_ & _ & Hall). by destruct Hne; apply (Forall_lookup_1 _ _ _ _ Hall Hi).
Qed.

Lemma consistent_step s s' : consistent s → step s s' → consistent s'.
Proof.
  intros (r & Hsafe & Hcalls & Ht) Hstep. destruct Hstep as [X e k x s s' Hm He|s|i g b b' s Hi Hb].
  - rewrite Hm in Hsafe, Hcalls. specialize (Hsafe x). destruct Hcalls as [_ Hcalls].
    destruct (run_protocol _ _ r X e x) as [r'| |] eqn:Hr; [|done|].
    + exists r'. split; [exact Hsafe|]. split; [apply Hcalls|]. by eapply told_goes_on, told_effect.
    + exfalso. clear -Hr. destruct r, e; cbn in Hr; repeat case_match; discriminate.
  - exists r. split; [exact Hsafe|]. split; [exact Hcalls|]. destruct Ht; by split.
  - exists r. split; [exact Hsafe|]. split; [exact Hcalls|]. by eapply told_moved.
Qed.

Lemma consistent_reachable s : rtc step (run_start (Run c resync waiters numWorkers)) s → consistent s.
Proof.
  intros Hs. assert (H0' : consistent (run_start (Run c resync waiters numWorkers))).
  { exists not_running. split; [apply Run_left|]. split; [apply calls_Run|]. split; cbn; try done.
    by intros [|Hl]. }
  revert H0'. induction Hs as [|s1 s2 s3 H12 _ IH]; [done|]. intros Hc. by eapply IH, consistent_step.
Qed.

(** ** How it ends *)

(** What is left to do of the goroutines. *)
Definition weight (b : body) : nat := match b with Working => 2 | Pausing => 1 | Ended => 0 end.
Definition left_over (s : system) : nat := sum_list_with (λ x, weight x.2) (sy_others s).

Lemma sum_insert (f : goroutine * body → nat) l i x y :
  l !! i = Some x → (sum_list_with f (<[i := y]> l) + f x = sum_list_with f l + f y)%nat.
Proof.
  revert i. induction l as [|z l IH]; intros [|i] Hi; try done; cbn in *; [simplify_eq; lia|].
  rewrite <-!Nat.add_assoc. f_equal. exact (IH i Hi).
Qed.

(** After the context is done and the queue shut down, a goroutine that is there can go on. *)
Lemma drain_step s :
  sy_done s = true → gc_queue c ∈ sy_shut s →
  Forall (λ x, belongs (gc_queue c) x.1 = true) (sy_others s) → ¬ Forall is_ended (sy_others s) →
  ∃ i g b b', sy_others s !! i = Some (g, b) ∧ body_step s g b b' ∧ (weight b' < weight b)%nat.
Proof.
  intros Hd Hq Hb Hn. apply not_Forall_Exists, Exists_exists in Hn as ([g b] & Hin & Hne); [|apply _].
  apply list_elem_of_lookup in Hin as [i Hi]. pose proof (Forall_lookup_1 _ _ _ _ Hb Hi) as Hg. cbn in Hg, Hne.
  exists i, g, b. destruct b.
  - exists Ended. split; [done|]. split; [by constructor|cbn; lia].
  - exists Pausing. split; [done|]. split; [|cbn; lia]. destruct g; try done; constructor.
    apply bool_decide_eq_true in Hg as [-> _]. exact Hq.
  - by destruct Hne.
Qed.

(** The counter goes down with each that ends. *)
Lemma moved_count i g b b' s :
  sy_others s !! i = Some (g, b) → body_step s g b b' →
  sy_counter (moved i g b' s) + count_ended (sy_others (moved i g b' s)) = sy_counter s + count_ended (sy_others s).
Proof.
  intros Hi Hs. cbn. rewrite (count_ended_insert _ _ _ _ b' Hi) by by destruct Hs. case_bool_decide; lia.
Qed.

(** All goroutines can end, and Run stays where it is. *)
Lemma drained s :
  consistent s → sy_done s = true → gc_queue c ∈ sy_shut s →
  ∃ s', rtc step s s' ∧ consistent s' ∧ sy_main s' = sy_main s ∧ sy_done s' = true ∧
    length (sy_others s') = length (sy_others s) ∧
    sy_counter s' + count_ended (sy_others s') = sy_counter s + count_ended (sy_others s) ∧
    Forall is_ended (sy_others s').
Proof.
  remember (left_over s) as k eqn:Hk. revert s Hk. induction k as [k IH] using lt_wf_ind. intros s -> Hc Hd Hq.
  destruct (decide (Forall is_ended (sy_others s))) as [Hall|Hn]; [by exists s|].
  assert (Hb : Forall (λ x, belongs (gc_queue c) x.1 = true) (sy_others s)) by by destruct Hc as (r & _ & _ & []).
  destruct (drain_step s Hd Hq Hb Hn) as (i & g & b & b' & Hi & Hs & Hlt).
  assert (Hst : step s (moved i g b' s)) by by eapply step_other.
  assert (Hm : (left_over (moved i g b' s) < left_over s)%nat).
  { unfold left_over. cbn. pose proof (sum_insert (λ x, weight x.2) _ _ _ (g, b') Hi). cbn in *. lia. }
  destruct (IH _ Hm (moved i g b' s)) as (s' & Hs' & Hc' & Hmain & Hdone & Hlen & Hct & Hall);
    [done|by eapply consistent_step|done..|].
  exists s'. split_and!; [by eapply rtc_l|done..| | |done].
  - rewrite Hlen. cbn. by rewrite length_insert.
  - rewrite Hct. by apply (moved_count i g b).
Qed.

Lemma can_end s :
  0 ≤ numWorkers → consistent s → sy_done s = true → ∃ s', rtc step s s' ∧ is_Some (run_ended s').
Proof.
  intros Hn. remember (sy_main s) as p eqn:Hp. revert s Hp.
  induction p as [a|w|w|X e k IH]; intros s Hp Hc Hd.
  - exists s. split; [done|]. unfold run_ended. rewrite <-Hp. eauto.
  - exists s. split; [done|]. unfold run_ended. rewrite <-Hp. eauto.
  - by destruct Hc as (r & _ & Hcalls & _); rewrite <-Hp in Hcalls.
  - assert (Hgo : ∀ x s1 s2, consistent s1 → sy_main s1 = Do e k → effect s1 e x = Some s2 → sy_done s2 = true →
      ∃ s', rtc step s1 s' ∧ is_Some (run_ended s')).
    { intros x s1 s2 Hc1 Hm He Hd2. assert (Hst : step s1 (goes_on (k x) s2)) by by eapply step_main.
      destruct (IH x (goes_on (k x) s2)) as (s' & Hs' & Hend); [done|by eapply consistent_step|done|].
      exists s'. split; [by eapply rtc_l|done]. }
    pose proof Hc as (r & Hsafe & Hcalls & Ht). rewrite <-Hp in Hsafe, Hcalls. destruct Hcalls as [He _].
    destruct e; try done.
    + by eapply (Hgo tt s).
    + by eapply (Hgo true s).
    + by eapply (Hgo tt s).
    + eapply (Hgo tt s); [done..| |done]. cbn. by rewrite Hd.
    + by eapply (Hgo tt s).
    + specialize (Hsafe tt). destruct r as [synced started added isdone shut waited]. cbn in Hsafe.
      destruct (shut && may_wait started added) eqn:Hm; [|done].
      apply andb_true_iff in Hm as [-> Hm%bool_decide_eq_true].
      assert (Hadd : added = Z.of_nat started) by (destruct Ht as [? ? ? ? ? Ha]; cbn in *; specialize (Ha Hn); lia).
      destruct (drained s Hc Hd) as (s1 & Hs1 & Hc1 & Hmain & Hd1 & Hlen & Hct & Hall); [by apply Ht|].
      destruct (Hgo tt s1 s1) as (s' & Hs' & Hend); [done|congruence| |done|].
      { cbn. rewrite bool_decide_true; [done|]. destruct Ht as [? Hst ? ? Hct']; cbn in *.
        rewrite (count_ended_Forall (sy_others s1)) in Hct by done. lia. }
      exists s'. split; [by etrans|done].
Qed.

(** How Run ends: its queue is shut down and its goroutines have all ended. *)
Definition run_over (s : system) (o : outcome (option error)) : Prop :=
  gc_queue c ∈ sy_shut s ∧ sy_counter s = 0 ∧ Forall is_ended (sy_others s) ∧
  match o with
  | Returned None => 0 ≤ numWorkers ∧ sy_synced s = Some true ∧ sy_done s = true ∧
      length (sy_others s) = (Z.to_nat numWorkers + (if resync is Some _ then 1 else 0))%nat
  | Returned (Some _) => sy_synced s ≠ Some true ∧ sy_others s = []
  | Panicked _ => 0 ≤ numWorkers ∧ resync = Some 0 ∧ length (sy_others s) = Z.to_nat numWorkers ∧
      (0 < numWorkers → sy_done s = true)
  | Hung _ => False
  end.

Lemma consistent_over s o : consistent s → run_ended s = Some o → run_over s o.
Proof.
  intros (r & Hsafe & _ & Ht) Ho.
  assert (Hl : run_left resync numWorkers o r).
  { unfold run_ended in Ho. destruct (sy_main s); by simplify_eq. }
  clear Hsafe. destruct Ht as [Hsy Hst Hf _ Hc Ha Hd Hsh Hw], Hl as [Hwt Hl].
  destruct (Hw Hwt) as (Hshut & Hadd & Hall). pose proof (count_ended_Forall _ Hall) as Hct.
  split; [auto|]. split; [lia|]. split; [done|]. destruct o as [[e|]|w|w]; [| | |done].
  - destruct Hl as [Hs Hz]. split; [intros Hy; rewrite Hy in Hsy; cbn in Hsy; congruence|].
    apply length_zero_iff_nil. lia.
  - destruct Hl as (Hs & Hdone & Hn & Hstart). split_and!; [done| |auto|unfold all_started in Hstart; lia].
    rewrite Hs in Hsy. by destruct (sy_synced s) as [[]|].
  - destruct Hl as [[_ ?]|(Hn & Hr & Hstart)]; [lia|]. split_and!; [done..|lia|]. intros Hpos. apply Hd. right. lia.
Qed.

(** C24. Run of a controller, with its goroutines in any interleaving: a goroutine is there
    only after the caches are filled, and is a worker of the controller's own queue, or the
    resync with its period.  When Run ends, its queue is shut down, the counter of the wait
    group is zero and all the goroutines it started have ended.  Then it returned nil, with as
    many workers as it was asked for, and the context is done; or an error, when
    the caches were not filled, and nothing was started; or it panics for a period of
    zero, and if there are workers this panic comes out only when the context is done.
    Run never ends for a negative number of workers once the caches are filled; for any other, it can
    still end from whatever state it has got into. *)
Theorem Run_system s :
  rtc step (run_start (Run c resync waiters numWorkers)) s →
  (∀ g b, (g, b) ∈ sy_others s → sy_synced s = Some true ∧ belongs (gc_queue c) g = true) ∧
  (∀ o, run_ended s = Some o → run_over s o) ∧
  (0 ≤ numWorkers → ∃ s', rtc step s s' ∧ is_Some (run_ended s')).
Proof.
  intros Hs%consistent_reachable. split_and!.
  - intros g b Hin. destruct Hs as (r & _ & _ & [Hsy Hst Hf Hb]). split.
    + assert (Hr : rn_synced r = true).
      { apply Hf. rewrite Hst. intros Hz%length_zero_iff_nil. rewrite Hz in Hin. by apply not_elem_of_nil in Hin. }
      rewrite Hr in Hsy. by destruct (sy_synced s) as [[]|].
    + rewrite Forall_forall in Hb. apply (Hb (g, b) Hin).
  - intros o. by apply consistent_over.
  - intros Hn. destruct (can_end (cancelled s) Hn) as (s' & Hs' & Hend); [|done|].
    + eapply consistent_step; [exact Hs|constructor].
    + exists s'. split; [|done]. eapply rtc_l; [constructor|done].
Qed.
End run.
