(* ===== verification/ServersSpec.v ===== *)
(** * What the servers build and start

    Every key that an event of the backup driver's informers queues is on a queue with a
    worker; the two managers of disks of a data manager have the same vCenter. *)

From S2P Require Export Servers ConstructionSpec.
Open Scope Z_scope.

(** ** The events of the backup driver *)

Section events.
Context `{SDeps}.

(** Calls on the work queues are on those whose worker is started. *)
Definition served (ctrl : backupDriverController) {X} (e : Cmd X) : bool :=
  match e with
  | QueueAdd q _ | QueueAddAfter q _ _ | QueueAddRateLimited q _ | QueueForget q _ | QueueDone q _ =>
      bool_decide (q ∈ driverWorkers ctrl)
  | QueueGet _ => false
  | _ => true
  end.

Lemma served_enqueueObject ctrl {A} q (m : A → ObjectMeta) d :
  q ∈ driverWorkers ctrl → calls_only (@served ctrl) (enqueueObject q m d).
Proof.
  intros Hq. unfold enqueueObject, enqueue. destruct (unwrap d); [|exact I].
  destruct (MetaNamespaceKeyFunc _); [|exact I]. split; [by apply bool_decide_eq_true|done].
Qed.

(** Deletes the object of a record that is gone, and lets go of its key. *)
Lemma served_done ctrl q key (err : option error) :
  q ∈ driverWorkers ctrl →
  calls_only (@served ctrl) (match err with
    | Some e => if IsNotFound e then call (QueueForget q key) ;;; call (QueueDone q key) else Ret tt
    | None => call (QueueForget q key) ;;; call (QueueDone q key)
    end).
Proof.
  intros Hq%(bool_decide_eq_true _). assert (Hd : calls_only (@served ctrl)
    (call (QueueForget q key) ;;; call (QueueDone q key))) by (split; [done|intros []; by split]).
  destruct err as [e|]; [|exact Hd]. by destruct (IsNotFound e).
Qed.

(** What any event of its informers makes the backup driver queue, or let go of, is on a queue
    whose worker the driver starts, in a guest cluster and elsewhere; the handlers never
    take a key themselves, and never wait for ever. *)
Theorem driver_events_served ctrl filter e : calls_only (@served ctrl) (onDriverEvent ctrl filter e).
Proof.
  assert (Hw : ∀ q, q ∈ ["backup-driver-snapshot-queue"; "backup-driver-clone-queue"; "backup-driver-brc-queue";
      "backup-driver-delete-snapshot-queue"; "backup-driver-upload-queue"] → q ∈ driverWorkers ctrl).
  { intros q Hq. unfold driverWorkers. set_solver. }
  destruct e as [s|s|s|c|b|b|d|d|d|u|s|s|s]; cbn [onDriverEvent];
    try (apply served_enqueueObject, Hw; set_solver).
  - unfold delSnapshot. destruct (bd_svcKubeConfig ctrl), (unwrap s); try exact I.
    case_match; [|exact I]. split; [done|]. intros [v|]; [by split|exact I].
  - unfold dequeBackupRepositoryClaim. destruct (DeletionHandlingKey _ b), b; try exact I.
    case_match; [unfold withClient; destruct (bd_backupdriverClient ctrl); [|exact I]|].
    + split; [done|]. intros err. apply served_done, Hw. set_solver.
    + apply (served_done ctrl _ _ None), Hw. set_solver.
  - unfold dequeDeleteSnapshot. destruct (DeletionHandlingKey _ d), d; try exact I.
    unfold withClient. destruct (bd_backupdriverClient ctrl); [|exact I].
    split; [done|]. intros err. apply served_done, Hw. set_solver.
  - case_bool_decide as Hg; [|exact I]. unfold updateSvcSnapshot. destruct (unwrap s); [|exact I].
    split; [done|]. intros [v|]; [|exact I]. unfold enqueue. destruct (MetaNamespaceKeyFunc _); [|exact I].
    split; [|done]. apply bool_decide_eq_true. unfold driverWorkers.
    destruct (bd_svcKubeConfig ctrl); [set_solver|by destruct Hg].
  - case_bool_decide as Hg; [exact I|]. destruct (filter s); [|exact I].
    apply served_enqueueObject. unfold driverWorkers. destruct (bd_svcKubeConfig ctrl); [by destruct Hg|set_solver].
  - case_bool_decide as Hg; [exact I|]. destruct (filter s); [|exact I].
    apply served_enqueueObject. unfold driverWorkers. destruct (bd_svcKubeConfig ctrl); [by destruct Hg|set_solver].
Qed.
End events.

(** ** The vCenter of the data manager *)

Section credentials.
Context `{SDeps}.

(** The configuration of astrolabe's direct manager, and how many managers of disks were
    made besides its own. *)
Record vcenters := { vs_direct : option ConfigInfo; vs_managers : nat }.

(** A manager of disks is made after the direct manager, and with the vCenter of its entry
    for disks, when that entry names one. *)
Definition one_vcenter : monitor SCmd vcenters := λ s X e,
  match e in SCmd X return X → verdict vcenters with
  | NewDirectPEM c => λ _, Next {| vs_direct := Some c; vs_managers := vs_managers s |}
  | NewIvdManager w => λ _,
      match c ← vs_direct s; ci_ivd c with
      | Some ps =>
          if bool_decide (is_Some (ps !! HostVcParamKey) → Ivd.tm_vcenterConfig (Ivd.w_tm w) = configured ps)
          then Next {| vs_direct := vs_direct s; vs_managers := S (vs_managers s) |} else Violation
      | None => Violation
      end
  | _ => λ _, Next s
  end.

Lemma vcenters_reads s X (e : Cmd X) x : reads e = true → one_vcenter s X (SKube e) x = Next s.
Proof. done. Qed.

(** The credentials the caller has are not looked up. *)
Lemma withVcSecret_keeps ps config s :
  safe one_vcenter (withVcSecret ps config) (λ o s', s' = s ∧ may_panic (λ r, match r with
    | Ok ps' => is_Some (ps !! HostVcParamKey) → ps' = ps | Err _ => True end) o) s.
Proof.
  unfold withVcSecret. destruct (ps !! HostVcParamKey) eqn:Hps; [done|].
  eapply safe_mono; [apply (safe_skube _ (@reads _)); [apply vcenters_reads|apply reads_RetrieveVcConfigSecret]|].
  by intros [[ps'|e]|w|w] s' Hs; cbn in *.
Qed.

Lemma NewDataMoverFromCluster_spec c ps n :
  ci_ivd c = Some ps →
  safe one_vcenter (NewDataMoverFromCluster ps) (λ o s, match o with
    | Returned (_, Ok _) => s = {| vs_direct := Some c; vs_managers := S n |}
    | Hung _ => False
    | _ => True
    end) {| vs_direct := Some c; vs_managers := n |}.
Proof.
  intros Hc. unfold NewDataMoverFromCluster.
  eapply safe_seq; [apply withVcSecret_keeps|..]; [|done|by intros w s [? []]].
  intros [ps'|e] s [-> Hps]; [|done]. unfold GetIVDPETMFromParamsMap.
  apply (proj1 (safe_bind_bind _ _ _ _ _ _)).
  eapply safe_seq; [apply (safe_svim_any _ _ (may_panic (λ w, Ivd.tm_vcenterConfig (Ivd.w_tm w) = configured ps')));
    [done|apply safe_NewIVDProtectedEntityTypeManager]|..]; [|done|by intros w s [[] ?]].
  intros w s [Hw ->] m. cbn. rewrite Hc. cbn. rewrite bool_decide_true; [done|].
  intros Hh. by rewrite Hw, (Hps Hh).
Qed.

(** The constructor of the snapshot manager, for this monitor. *)
Lemma NewSnapshotManager_direct c repo config rest s :
  vs_direct s = None →
  safe one_vcenter (NewSnapshotManagerFromConfig c repo config rest) (λ o s', vs_managers s' = vs_managers s ∧
    match o with
    | Returned (c', Ok m) => vs_direct s' = Some c' ∧ (is_Some (ci_ivd c) → is_Some (ci_ivd c'))
    | Hung _ => False
    | _ => True
    end) s.
Proof.
  intros Hs. eapply safe_mono.
  - apply (safe_follows (λ b t, vs_direct t = bd_direct b ∧ vs_managers t = vs_managers s) building_protocol
      one_vcenter _ (manager_built c config) not_built);
      [|by split|apply NewSnapshotManagerFromConfig_built].
    intros b t X [X' e|X' e| | | | | | | | | | | | |] x [Hd Hn]; cbn; eauto.
    + destruct e; cbn; eauto. case_bool_decide; cbn; eauto.
    + destruct (bd_direct b); [done|]. eauto.
    + destruct (bd_direct b); [|done]. eauto.
  - intros o t (b & [Hd Hn] & Ho). split; [done|]. destruct o as [[c' [m|e]]|w|w]; cbn in *; auto.
    destruct Ho as (Hb & Hf & _). rewrite Hd. auto.
Qed.

Lemma reads_RetrieveVddkLogLevel ps : calls_only (@reads _) (RetrieveVddkLogLevel ps).
Proof. unfold RetrieveVddkLogLevel, GetVeleroNamespace. calls_tac. Qed.

Lemma safe_getVCConfigParams c ps s :
  safe one_vcenter (DataServer.getVCConfigParams c ps) (λ o s', s' = s ∧ ∃ r, o = Returned r) s.
Proof.
  unfold DataServer.getVCConfigParams. repeat case_bool_decide; cbn; eauto.
Qed.

Lemma safe_clients config B (f : client → sio (result B)) (Q : outcome (result B) → vcenters → Prop) s :
  (∀ e, Q (Returned (Err e)) s) → (∀ w, Q (Panicked w) s) → (∀ c, safe one_vcenter (f c) Q s) →
  safe one_vcenter (bind (clientFromConfig config) (λ r, match r with Ok c => f c | Err e => Ret (Err e) end)) Q s.
Proof. intros He Hw Hf. destruct config; [|apply Hw]. intros [c|e]; cbn; [apply Hf|apply He]. Qed.

(** C22. The two managers of virtual disks of a data manager, that of astrolabe's direct manager, on
    which snapshots are taken, and that of the data mover, are configured with the same
    vCenter, when the configuration names one; whether the credentials come from the secret or
    from the command line, a server that is built has exactly these two. *)
Theorem datamgr_one_vcenter c :
  safe one_vcenter (DataServer.newServer c) (λ o s, match o with
    | Returned (Ok _) => is_Some (c ← vs_direct s; ci_ivd c) ∧ vs_managers s = 1%nat
    | Hung _ => False
    | _ => True
    end) {| vs_direct := None; vs_managers := 0 |}.
Proof.
  unfold DataServer.newServer. intros [clientConfig|e]; [|done]. cbn [bind].
  apply safe_clients; [done..|]. intros kube. intros [plugin|e]; [|done]. cbn [bind].
  apply safe_skube_bind; [done|apply reads_GetClusterFlavor| |done]. intros [flavor|e]; [|done].
  eapply (safe_seq _ _ _ _ (λ o s, s = {| vs_direct := None; vs_managers := 0 |} ∧ ∃ r, o = Returned r));
    [destruct (DataServer.vcConfigFromSecret c); [by split; [|eexists]|apply safe_getVCConfigParams]|..];
    [|by intros w s [_ [? [=]]]..].
  intros [ivdParams|e] s [-> _]; [|done].
  apply safe_skube_bind; [done|apply reads_RetrieveVddkLogLevel| |done]. intros [ivdParams' [e|]]; [done|].
  eapply safe_seq; [by apply NewSnapshotManager_direct|..]; [|done|by intros w s [_ []]].
  intros [c' [m|e]] [direct n] [Hn Ho]; cbn in Hn, Ho; [|done]. destruct Ho as [-> Hc'].
  destruct Hc' as [ps Hps]; [done|]. rewrite Hps. subst n. cbn [default].
  eapply safe_seq; [by apply NewDataMoverFromCluster_spec|..]; [|done..].
  intros [ps' [dm|e]] s Hs; [|done]. subst s. intros ns. cbn. rewrite Hps. eauto.
Qed.
End credentials.
