(* ===== verification/ServersRuns.v ===== *)
(** * A data manager that starts

    A vSphere cluster on which the server of the data manager is built and runs until its
    context is done. *)

From S2P Require Export DiskRuns ServersSpec RunSystem.
Open Scope Z_scope.

#[export] Instance concrete_s : @SDeps concrete concrete_v :=
  @Build_SDeps concrete concrete_v (λ d, TmDataManager (dmp_source d)) (λ _, TmParaVirt)
    (λ _, eq_refl) (λ _, eq_refl) tt.

(** The state has the type managers that were registered, the vCenters of the managers of
    disks, and the goroutines that were started. *)
Definition server_run : handler (@SCmd concrete)
    (list petm * list (option VirtualCenterConfig) * list goroutine) := λ X e s,
  let '(managers, vcs, gos) := s in
  match e in SCmd X return X * (list petm * list (option VirtualCenterConfig) * list goroutine) with
  | SKube e => (vsphere_cluster (E := peid) (f := id) e, s)
  | SVim e => ((vcenter None _ e 0%nat).1, s)
  | FactoryClientConfig | BuildConfigFromFlags _ _ => (vsphere_cluster (E := peid) (f := id) LoadClientConfig, s)
  | FactoryNamespace => ("velero", s)
  | RegisterPETM m => (tt, (managers ++ [m], vcs, gos))
  | NewIvdManager w => (TmIvd, (managers, vcs ++ [Ivd.tm_vcenterConfig (Ivd.w_tm w)], gos))
  | Go g => (tt, (managers, vcs, gos ++ [g]))
  | WaitForCacheSync _ => (true, s)
  | NewDirectPEM _ | ShutDownQueue _ | AwaitDone | WgAdd _ | WgWait | CancelOnShutdown _ => (tt, s)
  end.

Definition from_flags : DataServer.serverConfig := {|
  DataServer.profilerAddress := ""; DataServer.vCenter := "vc1"; DataServer.port := "443";
  DataServer.user := "user"; DataServer.clusterId := "cluster"; DataServer.vcConfigFromSecret := false |}.

(** With the vCenter on the command line: both controllers are started, and the changes of
    the secret are not watched. *)
Example data_manager_starts :
  match run server_run (DataServer.newServer from_flags) ([], [], []) with
  | (Returned (Ok s), (managers, vcs, [])) =>
      managers = [TmDataManager TmIvd] ∧ vcc_Host <$> omap id vcs = ["vc1"] ∧
      run server_run (DataServer.runServer s) ([], [], []) =
        (Returned None, ([], [], [RunController "upload" 1; RunController "download" 1;
                                  StartInformers "plugin"; StartInformers "kubernetes"]))
  | _ => False
  end.
Proof. by vm_compute. Qed.

(** *** A controller with one worker *)

(** The worker is in a call of its function when the context is cancelled. *)
Lemma one_worker_runs (c : genericController) :
  ∃ s, rtc step (run_start (Run c None [] 1)) s ∧ run_ended s = Some (Returned None) ∧
    sy_others s = [(UntilWorker (gc_queue c) Second, Ended)].
Proof.
  eexists. split.
  { eapply rtc_l; [by eapply (step_main _ _ _ true)|].
  eapply rtc_l; [by eapply (step_main _ _ _ tt)|].
  eapply rtc_l; [by eapply (step_main _ _ _ tt)|].
  eapply rtc_l; [by eapply (step_other 0 _ Pausing Working); [reflexivity|constructor]|].
  eapply rtc_l; [apply step_cancelled|].
  eapply rtc_l; [by eapply (step_main _ _ _ tt)|].
  eapply rtc_l; [by eapply (step_main _ _ _ tt)|].
  eapply rtc_l; [eapply (step_other 0 _ Working Pausing); [reflexivity|constructor; cbn; left]|].
  eapply rtc_l; [by eapply (step_other 0 _ Pausing Ended); [reflexivity|constructor]|].
  eapply rtc_l; [by eapply (step_main _ _ _ tt)|].
  reflexivity. }
  split; reflexivity.
Qed.

Definition a_vc_controller : genericController :=
  NewVcConfigController {| vc_dataMover := None; vc_snapMgr := None |}.

Example Run_system_witness :
  ∃ s, rtc step (run_start (Run a_vc_controller None [] 1)) s ∧
    run_ended s = Some (Returned None) ∧ run_over a_vc_controller None 1 s (Returned None).
Proof.
  destruct (one_worker_runs a_vc_controller) as (s & Hs & He & _).
  exists s. split; [exact Hs|]. split; [exact He|].
  apply (Run_system a_vc_controller None [] 1 s Hs). exact He.
Defined.
