(* ===== verification/Commands.v ===== *)
(** * The commands and the plugin's process (cmd, pkg/cmd)

    What the commands [server] and [install] of the data manager and the backup driver do with
    their flags, how their processes end, and what the plugin tells Velero. *)

From S2P Require Export InstallCommands ServersSpec.
Open Scope Z_scope.

(** ** The end of a process *)

(** The command returns, or the process exits with a code, after a text on stderr. *)
Inductive process :=
| Ends
| Exits (stderr : string) (code : Z).

(** The sentinel context.Canceled, by its text. *)
Definition is_context_Canceled (e : error) : bool :=
  match e with
  | External x => ext_canceled x && bool_decide (ext_msg x = "context canceled")
  | _ => false
  end.

Definition CheckError (err : option error) : process :=
  match err with
  | None => Ends
  | Some err => Exits (if is_context_Canceled err then ""
                       else "An error occurred: " +:+ Error err +:+ newline) 1
  end.

(** [msg] with its arguments filled in. *)
Definition Exit (msg : string) : process := Exits (msg +:+ newline) 1.

(** ** Flags *)

(** What pflag stored: the value of each flag that the command line has. *)
Record flags := {
  fl_string : string → option string;
  fl_bool : string → option bool;
  fl_int : string → option Z;
  fl_map : string → option (gmap string string);
}.

Definition DefaultProfilerAddress : string := "localhost:6060".
Definition DefaultVCConfigFromSecret : bool := true.
Definition DefaultBackupWorkers : Z := 1.

(** ** The data manager *)
Module DataManagerCommand.

Definition defaultConfig : DataServer.serverConfig := {|
  DataServer.profilerAddress := DefaultProfilerAddress; DataServer.vCenter := "";
  DataServer.port := DefaultVCenterPort; DataServer.user := ""; DataServer.clusterId := "";
  DataServer.vcConfigFromSecret := DefaultVCConfigFromSecret |}.

Definition bindFlags (fl : flags) (config : DataServer.serverConfig) : DataServer.serverConfig := {|
  DataServer.profilerAddress := default (DataServer.profilerAddress config) (fl_string fl "profiler-address");
  DataServer.vCenter := default (DataServer.vCenter config) (fl_string fl "vcenter-address");
  DataServer.port := default (DataServer.port config) (fl_string fl "vcenter-port");
  DataServer.user := default (DataServer.user config) (fl_string fl "vcenter-user");
  DataServer.clusterId := default (DataServer.clusterId config) (fl_string fl "cluster-id");
  DataServer.vcConfigFromSecret := default (DataServer.vcConfigFromSecret config) (fl_bool fl "use-secret") |}.

Section data_manager.
Context `{SDeps}.

(** The command [server]. *)
Definition serverCommand (fl : flags) : sio process :=
  let? s := DataServer.newServer (bindFlags fl defaultConfig) else e => Ret (CheckError (Some e)) in
  let! e := DataServer.runServer s in
  Ret (CheckError e).
End data_manager.

Section install.
Context `{UDeps}.
Import DataManager.

Definition BindFlags (fl : flags) (o : InstallOptions) : InstallOptions := {|
  Namespace := Namespace o;
  Image := default (Image o) (fl_string fl "image");
  BucketName := default (BucketName o) (fl_string fl "bucket");
  Prefix := default (Prefix o) (fl_string fl "prefix");
  ProviderName := default (ProviderName o) (fl_string fl "provider");
  PodAnnotations := default (PodAnnotations o) (fl_map fl "pod-annotations");
  PodCPURequest := default (PodCPURequest o) (fl_string fl "datamgr-pod-cpu-request");
  PodMemRequest := default (PodMemRequest o) (fl_string fl "datamgr-pod-mem-request");
  PodCPULimit := default (PodCPULimit o) (fl_string fl "datamgr-pod-cpu-limit");
  PodMemLimit := default (PodMemLimit o) (fl_string fl "datamgr-pod-mem-limit");
  SecretFile := default (SecretFile o) (fl_string fl "secret-file");
  NoSecret := default (NoSecret o) (fl_bool fl "no-secret");
  DryRun := default (DryRun o) (fl_bool fl "dry-run");
  SkipInstall := SkipInstall o |}.

(** The command [install]. *)
Definition installCommand (fl : flags) : iio process :=
  let! (o, e) := Complete (BindFlags fl NewInstallOptions) in
  match e with
  | Some e => Ret (CheckError (Some e))
  | None => let! e := Run o in Ret (CheckError e)
  end.
End install.
End DataManagerCommand.

(** ** The backup driver *)
Module BackupDriverCommand.

Definition defaultConfig : DriverServer.serverConfig := {|
  DriverServer.profilerAddress := DefaultProfilerAddress; DriverServer.master := "";
  DriverServer.kubeConfig := ""; DriverServer.workers := DefaultBackupWorkers |}.

Definition bindFlags (fl : flags) (config : DriverServer.serverConfig) : DriverServer.serverConfig := {|
  DriverServer.profilerAddress := default (DriverServer.profilerAddress config) (fl_string fl "profiler-address");
  DriverServer.master := default (DriverServer.master config) (fl_string fl "master");
  DriverServer.kubeConfig := default (DriverServer.kubeConfig config) (fl_string fl "kubeconfig");
  DriverServer.workers := default (DriverServer.workers config) (fl_int fl "backup-workers") |}.

Section backup_driver.
Context `{SDeps}.

(** The command [server]. *)
Definition serverCommand (fl : flags) : sio process :=
  let? s := DriverServer.newServer (bindFlags fl defaultConfig) else e => Ret (CheckError (Some e)) in
  let! e := DriverServer.runServer s in
  Ret (CheckError e).
End backup_driver.

Section install.
Context `{UDeps}.
Import BackupDriverInstall.

Definition BindFlags (fl : flags) (o : InstallOptions) : InstallOptions := {|
  Namespace := Namespace o;
  Image := default (Image o) (fl_string fl "image");
  PodAnnotations := PodAnnotations o;
  PodCPURequest := default (PodCPURequest o) (fl_string fl "pod-cpu-request");
  PodMemRequest := default (PodMemRequest o) (fl_string fl "pod-mem-request");
  PodCPULimit := default (PodCPULimit o) (fl_string fl "pod-cpu-limit");
  PodMemLimit := default (PodMemLimit o) (fl_string fl "pod-mem-limit");
  MasterAffinity := MasterAffinity o;
  HostNetwork := HostNetwork o |}.

(** The command [install]. *)
Definition installCommand (fl : flags) : iio process :=
  let! (o, e) := Complete (BindFlags fl NewInstallOptions) in
  match e with
  | Some e => Ret (CheckError (Some e))
  | None => let! e := Run o in Ret (CheckError e)
  end.
End install.
End BackupDriverCommand.

(** ** The plugin of Velero *)

Inductive velero_plugin :=
| PluginBackupItemAction
| PluginRestoreItemAction
| PluginDeleteItemAction
| PluginVolumeSnapshotter.

Section plugin.
Context `{UDeps}.

Definition enableFeatureFlagForVSpherePlugins (args : list string) : iio unit :=
  call (FeaturesEnable (Split (ParseFeatures args) ",")).

(** What the process serves, by the name Velero calls it. *)
Definition pluginMain (args : list string) : iio (list (string * velero_plugin)) :=
  enableFeatureFlagForVSpherePlugins args ;;;
  Ret [("velero.io/vsphere-pvc-backupper", PluginBackupItemAction);
       ("velero.io/vsphere-pvc-restorer", PluginRestoreItemAction);
       ("velero.io/vsphere-pvc-deleter", PluginDeleteItemAction);
       ("velero.io/vsphere", PluginVolumeSnapshotter)].
End plugin.

(** ** How a server's process ends *)

Section server_process.
Context `{SDeps}.

(** Whether controllers were started, whether the context is done, and whether the wait for
    the controllers came after it. *)
Record server_life := { sl_running : bool; sl_done : bool; sl_waited : bool }.

Definition unborn : server_life := {| sl_running := false; sl_done := false; sl_waited := false |}.

(** Only [runControllers] starts controllers and informers, and only once. *)
Definition life_protocol : monitor SCmd server_life := λ s X e,
  match e in SCmd X return X → verdict server_life with
  | Go (RunProfiler _) => λ _, Next s
  | Go _ => λ _,
      if sl_done s then Violation
      else Next {| sl_running := true; sl_done := sl_done s; sl_waited := sl_waited s |}
  | AwaitDone => λ _, Next {| sl_running := sl_running s; sl_done := true; sl_waited := sl_waited s |}
  | WgWait => λ _, Next {| sl_running := sl_running s; sl_done := sl_done s; sl_waited := sl_done s |}
  | _ => λ _, Next s
  end.

(** Calls that neither start nor wait for anything. *)
Definition still {X} (e : SCmd X) : bool :=
  match e with Go _ | AwaitDone | WgWait => false | _ => true end.

Lemma still_within {A} (p : sio A) s :
  calls_within (@still) p → safe life_protocol p (λ _ s', s' = s) s.
Proof.
  intros Hp. apply (safe_calls_within (@still) _ (λ s', s' = s)); [|done|done].
  intros s' X e x -> He. by destruct e.
Qed.

Lemma within_skube {A} (p : io A) : calls_within (@still) (skube p).
Proof. induction p; cbn; auto. Qed.
Lemma within_svim {A} (p : vio A) : calls_within (@still) (svim p).
Proof. induction p; cbn; auto. Qed.

Ltac within_step :=
  match goal with
  | |- calls_within _ (skube _) => apply within_skube
  | |- calls_within _ (svim _) => apply within_svim
  | |- calls_within _ (bind _ _) => apply calls_within_bind; [|intros ?]
  | |- calls_within _ (match ?x with _ => _ end) => destruct x
  | |- calls_within _ (if ?x then _ else _) => destruct x
  | |- calls_within _ (let _ := _ in _) => cbv zeta
  | |- calls_within _ (Ret _) => exact I
  | |- calls_within _ (Panic _) => exact I
  | |- calls_within _ (call _) => split; [reflexivity|intros ?; exact I]
  end.
Ltac within_tac := repeat within_step.

(** *** Construction *)

Lemma still_clientFromConfig config : calls_within (@still) (clientFromConfig config).
Proof. unfold clientFromConfig. within_tac. Qed.

Lemma still_withVcSecret ps config : calls_within (@still) (withVcSecret ps config).
Proof. unfold withVcSecret. within_tac. Qed.

Ltac still_tac := repeat first
  [ apply still_clientFromConfig | apply still_withVcSecret | within_step ].

Lemma still_NewParaVirt ps : calls_within (@still) (NewParaVirtProtectedEntityTypeManagerFromConfig ps).
Proof. unfold NewParaVirtProtectedEntityTypeManagerFromConfig, BuildConfig. still_tac. Qed.

Lemma still_NewSnapshotManager c ps config rest :
  calls_within (@still) (NewSnapshotManagerFromConfig c ps config rest).
Proof.
  unfold NewSnapshotManagerFromConfig, remoteStorage. repeat first [apply still_NewParaVirt | still_tac].
Qed.

Lemma still_NewDataMover ps : calls_within (@still) (NewDataMoverFromCluster ps).
Proof. unfold NewDataMoverFromCluster, GetIVDPETMFromParamsMap. still_tac. Qed.

Lemma still_dataServer c : calls_within (@still) (DataServer.newServer c).
Proof.
  unfold DataServer.newServer, DataServer.getVCConfigParams.
  repeat first [apply still_NewSnapshotManager | apply still_NewDataMover | still_tac].
Qed.

Lemma still_driverServer c : calls_within (@still) (DriverServer.newServer c).
Proof.
  unfold DriverServer.newServer, DriverServer.supervisorSetup, BuildConfig.
  repeat first [apply still_NewSnapshotManager | still_tac].
Qed.

(** *** Running *)

Definition controllers_ended (o : outcome (option error)) (s : server_life) : Prop :=
  o = Returned None ∧ sl_running s = true ∧ sl_waited s = true.

Definition server_ended (o : outcome (option error)) (s : server_life) : Prop :=
  match o with
  | Returned None => sl_running s = true ∧ sl_waited s = true
  | Returned (Some _) => s = unborn
  | _ => False
  end.

Lemma goAll_life gs s :
  sl_done s = false →
  safe life_protocol (goAll gs) (λ o s', o = Returned tt ∧ sl_done s' = false ∧
    (sl_running s = true → sl_running s' = true)) s.
Proof.
  revert s. induction gs as [|g gs IH]; intros s Hs; [done|].
  intros []. cbn. rewrite Hs. destruct g; (eapply safe_mono; [by apply IH|]); cbn; intros o s' (-> & ? & ?); auto.
Qed.

(** The last goroutines start, the context is done, and the wait ends. *)
Lemma goAll_wait g gs s :
  match g with RunProfiler _ => False | _ => True end → sl_done s = false →
  safe life_protocol (goAll (g :: gs) ;;; call AwaitDone ;;; call WgWait ;;; Ret None) controllers_ended s.
Proof.
  intros Hg Hs. intros []. cbn. rewrite Hs.
  assert (Hrest : safe life_protocol (bind (goAll gs) (λ _, call AwaitDone ;;; call WgWait ;;; Ret None)) controllers_ended
    {| sl_running := true; sl_done := false; sl_waited := sl_waited s |}).
  { eapply safe_seq; [by apply goAll_life|..]; [|by intros w s' [? _]..].
    intros [] s' (_ & Hd & Hr) [] []. cbn. by split_and!; auto. }
  destruct g; try done; by rewrite Hs.
Qed.

Lemma runWith_life c ns profiler p :
  safe life_protocol p controllers_ended unborn →
  safe life_protocol (runWith c ns profiler p) server_ended unborn.
Proof.
  intros Hp. unfold runWith. intros f. apply safe_defer. intros []. cbn [bind life_protocol].
  assert (Hrest : safe life_protocol (check! namespaceExists c ns else e => Ret (Some e) in
      check! p else e => Ret (Some e) in Ret None) (λ o s', match o with
      | Returned a => safe life_protocol (bind (call (SKube (Cancel f))) (λ _, Ret a)) server_ended s'
      | Panicked w => safe life_protocol (bind (call (SKube (Cancel f))) (λ _, Panic w)) server_ended s'
      | Hung w => server_ended (Hung w) s'
      end) unborn).
  { intros [x|e]; cbn [bind]; [|by intros []].
    eapply safe_seq; [exact Hp|..]; [|by intros w s' [? _]..].
    intros r s' ([= ->] & Hr & Hw) []. done. }
  destruct (bool_decide _); cbn [bind]; [intros []|]; exact Hrest.
Qed.

Definition process_ended (o : outcome process) (s : server_life) : Prop :=
  match o with
  | Returned Ends => sl_running s = true ∧ sl_waited s = true
  | Returned (Exits _ code) => code = 1 ∧ sl_running s = false
  | Panicked _ | Hung _ => sl_running s = false
  end.

Lemma serverCommand_life {C} (new : sio (result C)) (running : C → sio (option error)) :
  calls_within (@still) new → (∀ s, safe life_protocol (running s) server_ended unborn) →
  safe life_protocol (let? s := new else e => Ret (CheckError (Some e)) in
    let! e := running s in Ret (CheckError e)) process_ended unborn.
Proof.
  intros Hn Hr. eapply safe_seq; [by apply still_within|..]; [|by intros w s' ->..].
  intros [c|e] s' ->; [|done]. eapply safe_seq; [apply Hr|..]; [|done..].
  intros [e|] s' Hs; [by rewrite Hs|done].
Qed.

(** The process of either server, with whatever flags and whatever it is answered: it exits with
    an error only while none of its controllers and informers was started, so that no
    exit stops work in progress; it ends without one only after its context was done and
    then the wait for its goroutines has ended; it panics, or waits for ever, only while
    nothing was started. *)
Theorem server_process_ends fl :
  safe life_protocol (DataManagerCommand.serverCommand fl) process_ended unborn ∧
  safe life_protocol (BackupDriverCommand.serverCommand fl) process_ended unborn.
Proof.
  split; apply serverCommand_life; [apply still_dataServer| |apply still_driverServer|];
    intros s; apply runWith_life.
  - unfold DataServer.runControllers. intros n1 n2. cbn [life_protocol bind].
    destruct (_ && _); cbn [bind]; [intros []; cbn [life_protocol unborn sl_done]|]; by apply goAll_wait.
  - by apply goAll_wait.
Qed.
End server_process.
